(* ===== verification/_CoqProject ===== *)
-Q . S2P
Prelude.v
Protocol.v
Simd.v
Arena.v
PriceMap.v
OrderBook.v
BookRep.v
BookOps.v
BookMatch.v
BookSpec.v
Xorshift.v
MarketData.v
MatchEngine.v
EngineMaps.v
EnginePnl.v
EngineSpec.v
RingBuffer.v
Sequencer.v
AuditLog.v
Validator.v
Shadow.v
Spinlock.v
Histogram.v
Blaster.v
Stress.v
Bridge.v
Contest.v
SimpleBook.v
Client.v
Text.v
Crc.v
Metrics.v
Fleet.v
Shm.v
Engines.v
EngineNet.v
LocalExchange.v
Telemetry.v
Orchestrator.v
Firecracker.v
Compiler.v
Match.v
RunContest.v
Worker.v
FlatMap.v
