(* ===== verification/Prelude.v ===== *)
(** * Verification of the contest exchange

    The program runs trading contests.  A generator emits a stream of limit
    orders, market orders and cancels; a bridge sends it to a contestant's
    order book in a sandbox and collects the responses; a reference book
    replays the same stream and judges the contestant's fills; the scores are
    computed from the verdict, from a latency histogram and from a battery of
    stress scenarios.  The exchange itself (the limit order book, the match
    engine with its risk checks and accounts, the sequencer in front of it, the
    audit log behind it and the validator that replays the log) is the
    platform's own engine, and the core library provides the memory arena,
    the queues and the locks that all of them use.  Beside the contest there
    is a load generator: a fleet of bots whose prepared messages are driven
    through sockets, io_uring or shared memory against test exchanges, with a
    telemetry consumer that turns the samples into percentiles and publishers
    that hand the results to QuestDB, Redis and Redpanda; and a local exchange
    that joins the engine and one contestant on one machine.  Around them is the
    control plane: an orchestrator that registers workers, assigns benchmarks
    and keeps a leaderboard, workers that call it, a service that compiles a
    contestant's source and a manager that runs it in a microVM.

    ** Files, components and sources (all below src/)

    - [Prelude]: machine-width integers, arrays, list facts, tactics.
    - [Protocol]: sdk/protocol.hpp and the response struct of
      sdk/strategy_sdk.hpp: enumerations, messages, byte layouts; the class
      [WireMsg] says what senders and receivers rely on.
    - [Simd]: the vector key searches of core/compiler_hints.hpp; [FlatMap]: the
      hash map of core/flat_map.hpp.
    - [Arena]: core/types.hpp, core/arena.hpp, core/src/arena.cpp.
    - [PriceMap], [OrderBook]: exchange/orderbook.hpp (Robin Hood price map;
      level pool, order pool, book).  [BookRep] has the representation
      invariant (intrusive lists, level totals, free list), [BookOps] and
      [BookMatch] the effect of each operation on it, [BookSpec] the theorems.
    - [Xorshift], [MarketData]: doubles, the generator step, and
      exchange/market_data_gen.hpp.
    - [MatchEngine]: exchange/match_engine.hpp; [EngineMaps] its cancel map and
      outbound ring, [EnginePnl] its accounting, [EngineSpec] the theorems.
    - [RingBuffer]: core/ring_buffer.hpp; [Sequencer]: exchange/sequencer.hpp;
      [Spinlock]: core/spinlock.hpp.
    - [AuditLog]: exchange/audit_log.hpp; [Validator]:
      exchange/correctness_validator.hpp.
    - [Shadow]: exchange/shadow_orderbook.hpp; [Histogram]:
      core/hdr_histogram.hpp and core/src/hdr_histogram.cpp; [Blaster]:
      loadgen/order_blaster.hpp; [Stress]: exchange/stress_scenarios.hpp;
      [Bridge]: sandbox/sandbox_bridge.hpp; [Contest]:
      orchestrator/contest_runner.hpp and post_contest_validator.hpp.
    - [SimpleBook]: the example contestant of sdk/examples/example_mm.cpp;
      [Client]: sdk/gateway_client.hpp, with the strategy interface of
      sdk/strategy_sdk.hpp as the class [IStrategy].
    - [LocalExchange]: exchange/gateway.hpp and the main loop of
      exchange/src/exchange_local.cpp, on top of [MatchEngine] and [Client].
    - [Fleet]: loadgen/bot_fleet.hpp, loadgen/payload_gen.hpp and the answering
      loop of the exchanges of server/src and loadgen/ultra_engine.hpp.
      [Shm]: loadgen/shm_engine.hpp, the two threads as a step relation over
      the channel interface [Fifo].  [Engines]: the batches of
      loadgen/io_engine.hpp with loadgen/src/io_engine.cpp,
      loadgen/ultra_engine.hpp and loadgen/pipeline_engine.hpp; [EngineNet] the
      theorems about them.
    - [Telemetry]: telemetry/consumer.hpp with telemetry/src/consumer.cpp,
      core/tsc.hpp, and the results of orchestrator/src/integrated_worker.cpp.
    - [Text]: the C text formatting the publishers use; [Crc], [Metrics]: the
      checksum and the three publishers of pipeline/metrics_publisher.hpp.
    - [Orchestrator]: orchestrator/src/orchestrator_server.cpp with the messages
      of orchestrator/proto/control.proto and the agent of
      orchestrator/src/worker_agent.cpp; [std::sort] is the class [StdSort].
      [Firecracker]: sandbox/firecracker_manager.hpp and the boot of a machine in
      the contest runner and the system tests; [Compiler]:
      sandbox/compiler_service.hpp and the build step of a match; [Match]: a whole
      match and a whole scenario (contest_runner.hpp, run_match;
      post_contest_validator.hpp, run_single_scenario), joining [Compiler],
      [Firecracker], [Blaster], [Shadow] and [Bridge]: its loops are executable
      and refine the steps of [Contest]; [RunContest]:
      orchestrator/src/run_contest.cpp.  [Worker]:
      orchestrator/src/integrated_worker.cpp, joining [Shm], [Telemetry],
      [Metrics] and [Orchestrator].

    ** How the code is modelled

    Structs are records, enumerations inductive types with the raw byte kept
    for values outside the enumeration, arrays total functions of the index
    ([arr]), pointers into arenas are not modelled beyond the arena's own
    addresses.  Integers are [Z] with the conversion to their width written
    where the code stores them.  Doubles are the Standard Library's executable
    [spec_float] at binary64.  A loop is a [Fixpoint] over the number of turns
    it has left when that is known, and over fuel otherwise; [None] is then
    fuel exhausted, and the theorems prove that the fuel given (one visit per
    slot of the price map, one turn per fill, 65 doublings of a 64-bit word,
    one turn per byte of a received chunk, per bot in flight or per queued
    message) is enough.  Where the code may store outside a buffer, [None] is
    that.  Operations of the control plane give the system calls they make as a
    list of events, and handlers of the orchestrator, which run under one mutex,
    are functions of its state composed in any order.  Concurrent components are
    step relations at the granularity of single atomic accesses (in [Shm] of whole
    channel operations), with reachability and rule induction; memory is
    sequentially consistent.  The thread a match detaches beside a machine is
    stopped after any number of its calls when three seconds have passed; what it
    does once the match has given up is the event [E_late].  What the program does not define is an argument:
    [log], [cos], [pow], [log2] and [log10], the results of mmap, send and
    recv, clocks and time stamp counters, the contents of fresh memory, and
    the contestant.

    ** What the theorems show

    - Order book: matching is the walk of the price-time priority list,
      insertion and cancellation are insertion into and removal from it, every
      book reached by adding orders it can take is well formed, quantities are
      conserved; the best-level cache can be wrong and level slots are never
      recycled.  What a book can take is [accepts]: a price strictly inside the
      64-bit range, a positive quantity that does not overflow the total of its
      level, and a live level at the price or else an unused level slot and probe
      distances below 250.  The condition goes into every theorem about orders
      that rest: the engine's ([takes]), the local exchange's ([admissible]) and
      the reference book's ([has_place], [placed]).
    - Match engine: engines reached with such orders are well formed and positions
      add up to zero, the aggression of buy and sell orders respects the position
      limit, rejected orders are acknowledged and change nothing else, the cancel
      map is a finite map on fresh keys with room, marked-to-market totals move as
      they should; a stale cancel can hit a later order.
    - Queues and locks: the single-producer ring is a FIFO under any
      interleaving, attaching to it terminates, the sequencer delivers requests
      in the order of their numbers unless one was dropped, the ticket lock
      excludes and is fair, sequence-lock readers see whole versions; the
      multi-producer queue can lose elements.
    - Memory, search and wire: arena regions are disjoint, vector searches are
      the linear search, messages round-trip, the flat map is a finite map until
      a probe length wraps around.
    - Log and validation: the audit log round-trips, the validator's report is
      clean exactly on consistent logs.
    - Contest: the generator's stream is valid under every configuration of the
      battery, the reference book expects what price-time priority gives, a
      faithful contestant is judged correct, in every session everything is
      accounted for once, a match whose contestant connects in time returns, sends
      the stream between start and end message, leaves nothing unjudged and is
      scored from the verdict, a run of the executable returns within its limits
      and cleans up on every way out unless a listener is left running beside a
      machine, responses are delivered in order, latencies are the
      host's own for first responses, histogram values are within the 128th
      part and percentiles are those of the sorted samples, system tests only
      lower a score; but cancels are ignored by the reference book, later
      responses can forge latencies, noise can outscore correctness, and a
      session without cancels runs out of limit orders.
    - Contestant's side: the example engine is a price-time priority book on
      orders and cancels, and the client hands a strategy the same messages
      however the stream is cut into chunks.
    - Local exchange: no turn of its loop gets stuck, every message is handed to
      send in the turn that causes it, the client reads what was sent up to the
      first send that took only a part of its buffer, and a lone contestant ends
      with position zero.
    - Load generator: every bot's template stays a well-formed message of that
      bot, the exchanges echo each message once, the shared-memory threads keep
      one request per bot in flight, lose nothing and come to rest while the bots
      are no more than the slots of a channel, each socket engine sends each bot's
      own message with a fresh number and measures from it, but for entries of the
      io_uring ring that were taken and not prepared and send an old message
      again; the low-latency engine serves the first eight idle bots; a failed
      writev strands bots and a header cut in two is never answered.
    - Telemetry and publishing: counts, histogram and drops are those of the
      delivered samples, percentiles those at the last report due; line
      protocol, Redis commands and Kafka requests are read back as what was
      published, and the checksum is the remainder of the polynomial division.
    - Control plane: in every run of the orchestrator the registry, the
      benchmarks and the leaderboard are what the history says, a start goes to
      the least registered name or is refused and changes nothing, and the
      leaderboard is a ranking; a machine runs only after its configuration was
      accepted, its requests are read back as what was configured, the compiler's
      command is read by the shell with every path one argument, in the container
      with the documented flags and on the host with laxer ones, and the drain of a
      worker leaves no drops; but results never reach the orchestrator's
      leaderboard, and the machine of a contestant is killed before its match
      begins.

    ** Not modelled

    Opening and configuring the sockets of the load engines and exchanges (those
    of the contestant's link are in [Bridge]), epoll and io_uring instances, the
    gRPC library, thread start-up and core pinning, terminal output, and the
    benchmark and test executables (bench/, tests/, pipeline/src): they are system
    calls and text around the components above.  The base classes of
    core/crtp_engine.hpp only forward.  Memory orderings weaker than sequential
    consistency and the data races they could allow are outside the models of
    the queues and locks. *)

From stdpp Require Export prelude list sorting gmap.
From Stdlib Require Export ZArith Lia.

#[global] Open Scope Z_scope.

(** ** Machine-width integers

    A C++ integer of width [w] is a [Z]; every operation of the source whose
    result is stored in a [w]-bit object is followed by the conversion to that
    width.  Signed overflow, undefined in C++, is given the two's-complement
    value the compilers in use produce; the theorems about signed data prove
    that the values stay in range. *)

Definition u8 (x : Z) : Z := x mod 256.
Definition u32 (x : Z) : Z := x mod 4294967296.
Definition u64 (x : Z) : Z := x mod 18446744073709551616.
Definition i32 (x : Z) : Z := (x + 2147483648) mod 4294967296 - 2147483648.
Definition i64 (x : Z) : Z :=
  (x + 9223372036854775808) mod 18446744073709551616 - 9223372036854775808.

Definition INT32_MIN : Z := -2147483648.
Definition INT32_MAX : Z := 2147483647.
Definition INT64_MIN : Z := -9223372036854775808.
Definition INT64_MAX : Z := 9223372036854775807.
Definition UINT32_MAX : Z := 4294967295.
Definition UINT64_MAX : Z := 18446744073709551615.

Lemma u8_small x : 0 <= x < 256 -> u8 x = x.
Proof. apply Z.mod_small. Qed.
Lemma u32_small x : 0 <= x < 4294967296 -> u32 x = x.
Proof. apply Z.mod_small. Qed.
Lemma u64_small x : 0 <= x < 18446744073709551616 -> u64 x = x.
Proof. apply Z.mod_small. Qed.
Lemma i32_small x : -2147483648 <= x < 2147483648 -> i32 x = x.
Proof. intros. unfold i32. rewrite Z.mod_small; lia. Qed.
Lemma i64_small x :
  -9223372036854775808 <= x < 9223372036854775808 -> i64 x = x.
Proof. intros. unfold i64. rewrite Z.mod_small; lia. Qed.

Lemma u8_range x : 0 <= u8 x < 256.
Proof. apply Z.mod_pos_bound. lia. Qed.
Lemma u32_range x : 0 <= u32 x < 4294967296.
Proof. apply Z.mod_pos_bound. lia. Qed.
Lemma u64_range x : 0 <= u64 x < 18446744073709551616.
Proof. apply Z.mod_pos_bound. lia. Qed.
Lemma i32_range x : -2147483648 <= i32 x < 2147483648.
Proof.
  unfold i32. pose proof (Z.mod_pos_bound (x + 2147483648) 4294967296). lia.
Qed.
Lemma i64_range x : -9223372036854775808 <= i64 x < 9223372036854775808.
Proof.
  unfold i64.
  pose proof (Z.mod_pos_bound (x + 9223372036854775808) 18446744073709551616).
  lia.
Qed.

(** The stored value is congruent to the mathematical one. *)
Lemma i32_congr x : (i32 x - x) mod 4294967296 = 0.
Proof.
  unfold i32.
  replace ((x + 2147483648) mod 4294967296 - 2147483648 - x)
    with ((x + 2147483648) mod 4294967296 - (x + 2147483648)) by lia.
  rewrite Zminus_mod, Zmod_mod, Z.sub_diag. reflexivity.
Qed.

Create HintDb width.
Create Rewrite HintDb width.
Create Rewrite HintDb arrays.
#[export] Hint Rewrite u8_small u32_small u64_small i32_small i64_small
  using lia : width.
#[export] Hint Resolve u8_range u32_range u64_range i32_range i64_range : width.

(** ** Masks

    [x & (2^n - 1)] is the remainder modulo [2^n]. *)
Lemma land_mask x n : 0 <= n -> Z.land x (2 ^ n - 1) = x mod 2 ^ n.
Proof.
  intros. rewrite <- Z.land_ones by assumption.
  rewrite Z.ones_equiv. reflexivity.
Qed.

(** ** Bits of bounded numbers *)

Lemma bits_above x n i : 0 <= x < 2 ^ n -> n <= i -> Z.testbit x i = false.
Proof.
  intros [H0 H1] Hi. destruct (Z.eq_dec x 0) as [->|]; [apply Z.bits_0|]. apply Z.bits_above_log2; [done|].
  apply Z.lt_le_trans with n; [|done]. apply Z.log2_lt_pow2; lia.
Qed.

Lemma bits_bound x n : 0 <= x -> 0 < n -> (forall i, n <= i -> Z.testbit x i = false) -> x < 2 ^ n.
Proof.
  intros H0 Hn H. destruct (Z.eq_dec x 0) as [->|]; [apply Z.pow_pos_nonneg; lia|].
  apply Z.log2_lt_pow2; [lia|]. destruct (Z.lt_ge_cases (Z.log2 x) n) as [|Hge]; [done|].
  pose proof (Z.bit_log2 x ltac:(lia)) as Hb. by rewrite (H _ Hge) in Hb.
Qed.

Lemma lxor_bound x y n : 0 < n -> 0 <= x < 2 ^ n -> 0 <= y < 2 ^ n -> 0 <= Z.lxor x y < 2 ^ n.
Proof.
  intros Hn Hx Hy. assert (0 <= Z.lxor x y) by (apply Z.lxor_nonneg; lia).
  split; [done|]. apply bits_bound; [done..|]. intros i Hi.
  by rewrite Z.lxor_spec, (bits_above x n i), (bits_above y n i).
Qed.

(** ** Arrays

    An arena-allocated C array is a total function of the index; [a.[i <- v]]
    is the store.  Bounds are not part of the type: the invariants of the
    components carry the index ranges. *)
Definition arr (A : Type) : Type := Z -> A.

Definition upd {A} (a : arr A) (i : Z) (v : A) : arr A :=
  fun j => if Z.eqb j i then v else a j.

Declare Scope arr_scope.
Notation "a .[ i <- v ]" := (upd a i v)
  (at level 1, i at level 200, v at level 200, left associativity,
   format "a .[ i  <-  v ]") : arr_scope.
#[global] Open Scope arr_scope.

Lemma upd_eq {A} (a : arr A) i v : a.[i <- v] i = v.
Proof. unfold upd. by rewrite Z.eqb_refl. Qed.

Lemma upd_ne {A} (a : arr A) i j v : j <> i -> a.[i <- v] j = a j.
Proof. intros. unfold upd. by rewrite (proj2 (Z.eqb_neq j i)). Qed.

Lemma upd_same {A} (a : arr A) i j : a.[i <- a i] j = a j.
Proof. unfold upd. destruct (Z.eqb_spec j i) as [->|]; reflexivity. Qed.

#[export] Hint Rewrite @upd_eq : arrays.
#[export] Hint Rewrite @upd_ne using (first [assumption | lia | congruence]) : arrays.

(** Case analysis on every array update and integer comparison in sight. *)
Ltac upd_cases :=
  unfold upd in *;
  repeat match goal with
  | |- context [Z.eqb ?x ?y] => destruct (Z.eqb_spec x y)
  | H : context [Z.eqb ?x ?y] |- _ => destruct (Z.eqb_spec x y)
  end.

(** Turn the boolean comparisons of the code into propositions. *)
Ltac bool_cases :=
  repeat match goal with
  | |- context [Z.eqb ?x ?y] => destruct (Z.eqb_spec x y)
  | |- context [Z.ltb ?x ?y] => destruct (Z.ltb_spec x y)
  | |- context [Z.leb ?x ?y] => destruct (Z.leb_spec x y)
  end.

Ltac bool_hyps :=
  repeat match goal with
  | H : andb _ _ = true |- _ => apply andb_prop in H as [? ?]
  | H : Z.eqb _ _ = true |- _ => apply Z.eqb_eq in H
  | H : Z.eqb _ _ = false |- _ => apply Z.eqb_neq in H
  | H : Z.ltb _ _ = true |- _ => apply Z.ltb_lt in H
  | H : Z.ltb _ _ = false |- _ => apply Z.ltb_ge in H
  | H : Z.leb _ _ = true |- _ => apply Z.leb_le in H
  | H : Z.leb _ _ = false |- _ => apply Z.leb_gt in H
  end.

(** The array slice [a[0], ..., a[n-1]] as a list. *)
Definition slice {A} (a : arr A) (n : Z) : list A := a <$> seqZ 0 n.

Lemma elem_of_slice {A} (a : arr A) n x :
  x ∈ slice a n <-> exists i, 0 <= i < n /\ a i = x.
Proof.
  unfold slice. rewrite list_elem_of_fmap. split.
  - intros (i & -> & Hi). apply elem_of_seqZ in Hi. exists i. lia || (split; [lia|done]).
  - intros (i & Hi & <-). exists i. split; [done|]. apply elem_of_seqZ. lia.
Qed.

Lemma slice_ext {A} (a b : arr A) n :
  (forall i, 0 <= i < n -> a i = b i) -> slice a n = slice b n.
Proof.
  intros H. unfold slice. apply list_fmap_ext. intros i x Hi.
  apply lookup_seqZ in Hi. apply H. lia.
Qed.

Lemma slice_snoc {A} (a : arr A) n v :
  0 <= n -> slice (a.[n <- v]) (n + 1) = slice a n ++ [v].
Proof.
  intros Hn. unfold slice.
  rewrite (seqZ_app 0 n 1) by lia. rewrite fmap_app. simpl. rewrite upd_eq.
  f_equal. apply list_fmap_ext. intros i x Hi. apply lookup_seqZ in Hi.
  apply upd_ne. lia.
Qed.

Lemma slice_pop {A} (a : arr A) n :
  0 < n -> slice a n = slice a (n - 1) ++ [a (n - 1)].
Proof.
  intros Hn. unfold slice. replace n with (n - 1 + 1) at 1 by lia.
  rewrite (seqZ_app 0 (n - 1) 1) by lia. rewrite fmap_app. reflexivity.
Qed.

Lemma length_slice {A} (a : arr A) n : Z.of_nat (length (slice a n)) = Z.max 0 n.
Proof. unfold slice. rewrite length_fmap, length_seqZ. lia. Qed.

(** A duplicate-free list of indices below [n] has at most [n] elements. *)
Lemma nodup_bounded_length (l : list Z) n :
  0 <= n -> NoDup l -> (forall x, x ∈ l -> 0 <= x < n) ->
  Z.of_nat (length l) <= n.
Proof.
  intros Hn Hnd Hb.
  assert (Hs : l ⊆+ seqZ 0 n).
  { apply NoDup_submseteq; [done|]. intros x Hx. apply elem_of_seqZ.
    specialize (Hb x Hx). lia. }
  apply submseteq_length in Hs. rewrite length_seqZ in Hs. lia.
Qed.

(** ** Sums *)
Fixpoint zsum (l : list Z) : Z :=
  match l with [] => 0 | x :: l => x + zsum l end.

Lemma zsum_app l1 l2 : zsum (l1 ++ l2) = zsum l1 + zsum l2.
Proof. induction l1; simpl; lia. Qed.

Lemma zsum_bounds l lo hi :
  (forall x, x ∈ l -> lo <= x <= hi) ->
  lo * Z.of_nat (length l) <= zsum l <= hi * Z.of_nat (length l).
Proof.
  induction l as [|x l IH]; intros H; simpl; [lia|].
  pose proof (H x (list_elem_of_here _ _)).
  assert (forall y, y ∈ l -> lo <= y <= hi) by (intros; apply H; by right).
  specialize (IH ltac:(assumption)). nia.
Qed.

Lemma zsum_nonneg l : (forall x, x ∈ l -> 0 <= x) -> 0 <= zsum l.
Proof.
  induction l as [|x l IH]; intros H; simpl; [lia|].
  pose proof (H x (list_elem_of_here _ _)).
  specialize (IH (fun y Hy => H y (list_elem_of_further _ _ _ Hy))). lia.
Qed.

Lemma slice_upd_out {A} (a : arr A) i v n : i < 0 \/ n <= i -> slice (a.[i <- v]) n = slice a n.
Proof. intros Hi. apply slice_ext. intros j Hj. apply upd_ne. lia. Qed.

Lemma slice_upd_sum a i v n : 0 <= i < n -> zsum (slice (a.[i <- v]) n) = zsum (slice a n) - a i + v.
Proof.
  intros Hi. replace n with (i + (n - i)) by lia. unfold slice.
  rewrite !seqZ_app, !fmap_app, !zsum_app by lia. rewrite (seqZ_cons (0 + i)) by lia.
  rewrite !fmap_cons. cbn [zsum]. rewrite Z.add_0_l, upd_eq.
  replace (upd a i v <$> seqZ 0 i) with (a <$> seqZ 0 i).
  2:{ apply list_fmap_ext. intros j x Hj%lookup_seqZ. by rewrite upd_ne by lia. }
  replace (upd a i v <$> seqZ (Z.succ i) (Z.pred (n - i))) with (a <$> seqZ (Z.succ i) (Z.pred (n - i))).
  2:{ apply list_fmap_ext. intros j x Hj%lookup_seqZ. by rewrite upd_ne by lia. }
  lia.
Qed.

Lemma filter_all {A} (P : A -> Prop) `{!forall x, Decision (P x)} (l : list A) :
  (forall x, x ∈ l -> P x) -> filter P l = l.
Proof.
  induction l as [|x l IH]; intros Hp; [done|].
  rewrite filter_cons_True by (apply Hp; left). f_equal. apply IH. intros. apply Hp. by right.
Qed.

Lemma filter_none {A} (P : A -> Prop) `{!forall x, Decision (P x)} (l : list A) :
  (forall x, x ∈ l -> ~ P x) -> filter P l = [].
Proof.
  induction l as [|x l IH]; intros Hp; [done|].
  rewrite filter_cons_False by (apply Hp; left). apply IH. intros. apply Hp. by right.
Qed.

(** ** Concrete results *)

(** A result computed to be there is its own default. *)
Lemma some_default {A} (d : A) (o : option A) :
  match o with Some _ => true | None => false end = true -> o = Some (default d o).
Proof. by destruct o. Qed.
