(* ===== verification/Protocol.v ===== *)
(** The wire protocol (src/sdk/include/sdk/protocol.hpp) and the contestant
    response of src/sdk/include/sdk/strategy_sdk.hpp: enumerations, message
    structs, their byte layouts, and the message size table.

    The enumerations of the source have a fixed underlying type [uint8_t], so
    any byte read from a socket is a value of the type; the [*_OTHER]
    constructors carry the bytes that have no enumerator. *)

From S2P Require Import Prelude.

(** ** Constants *)
Definition PROTOCOL_VERSION : Z := 1.
Definition MAX_PRICE_LEVELS : Z := 5.
Definition INVALID_ORDER_ID : Z := 0.
Definition PRICE_MULTIPLIER : Z := 10000.

(** ** Enumerations *)
Inductive Side := BUY | SELL | SIDE_OTHER (raw : Z).

Inductive OrderType := LIMIT | MARKET | IOC | OTYPE_OTHER (raw : Z).

Inductive MsgType :=
| MARKET_UPDATE | ORDER_ACK | FILL | CANCEL_ACK
| ORDER_ENTRY | CANCEL_REQUEST
| HEARTBEAT
| SESSION_START | SESSION_END
| MSG_OTHER (raw : Z).

Inductive AckStatus :=
| ACCEPTED | REJECTED_PRICE | REJECTED_SIZE | REJECTED_RISK
| REJECTED_RATE | REJECTED_UNKNOWN | CANCELLED | ACK_OTHER (raw : Z).

#[global] Instance Side_eq_dec : EqDecision Side.
Proof. solve_decision. Defined.
#[global] Instance OrderType_eq_dec : EqDecision OrderType.
Proof. solve_decision. Defined.
#[global] Instance MsgType_eq_dec : EqDecision MsgType.
Proof. solve_decision. Defined.
#[global] Instance AckStatus_eq_dec : EqDecision AckStatus.
Proof. solve_decision. Defined.

(** A message enumeration on the wire: one byte, total in both directions. *)
Class ByteEnum (A : Type) := {
  to_byte : A -> Z;
  of_byte : Z -> A;
  enum_ok : A -> Prop;
  to_byte_range : forall a, enum_ok a -> 0 <= to_byte a < 256;
  of_to_byte : forall a, enum_ok a -> of_byte (to_byte a) = a;
  to_of_byte : forall b, 0 <= b < 256 -> to_byte (of_byte b) = b /\ enum_ok (of_byte b)
}.

Definition Side_to_byte (s : Side) : Z :=
  match s with BUY => 0 | SELL => 1 | SIDE_OTHER b => b end.
Definition Side_of_byte (b : Z) : Side :=
  if b =? 0 then BUY else if b =? 1 then SELL else SIDE_OTHER b.

Definition OrderType_to_byte (t : OrderType) : Z :=
  match t with LIMIT => 0 | MARKET => 1 | IOC => 2 | OTYPE_OTHER b => b end.
Definition OrderType_of_byte (b : Z) : OrderType :=
  if b =? 0 then LIMIT else if b =? 1 then MARKET
  else if b =? 2 then IOC else OTYPE_OTHER b.

Definition MsgType_to_byte (t : MsgType) : Z :=
  match t with
  | MARKET_UPDATE => 1 | ORDER_ACK => 2 | FILL => 3 | CANCEL_ACK => 4
  | ORDER_ENTRY => 10 | CANCEL_REQUEST => 11
  | HEARTBEAT => 20
  | SESSION_START => 30 | SESSION_END => 31
  | MSG_OTHER b => b
  end.
Definition MsgType_of_byte (b : Z) : MsgType :=
  if b =? 1 then MARKET_UPDATE else if b =? 2 then ORDER_ACK
  else if b =? 3 then FILL else if b =? 4 then CANCEL_ACK
  else if b =? 10 then ORDER_ENTRY else if b =? 11 then CANCEL_REQUEST
  else if b =? 20 then HEARTBEAT
  else if b =? 30 then SESSION_START else if b =? 31 then SESSION_END
  else MSG_OTHER b.

Definition AckStatus_to_byte (a : AckStatus) : Z :=
  match a with
  | ACCEPTED => 0 | REJECTED_PRICE => 1 | REJECTED_SIZE => 2
  | REJECTED_RISK => 3 | REJECTED_RATE => 4 | REJECTED_UNKNOWN => 5
  | CANCELLED => 6 | ACK_OTHER b => b
  end.
Definition AckStatus_of_byte (b : Z) : AckStatus :=
  if b =? 0 then ACCEPTED else if b =? 1 then REJECTED_PRICE
  else if b =? 2 then REJECTED_SIZE else if b =? 3 then REJECTED_RISK
  else if b =? 4 then REJECTED_RATE else if b =? 5 then REJECTED_UNKNOWN
  else if b =? 6 then CANCELLED else ACK_OTHER b.

Ltac byte_enum_laws :=
  intros;
  repeat match goal with
  | x : Side |- _ => destruct x
  | x : OrderType |- _ => destruct x
  | x : MsgType |- _ => destruct x
  | x : AckStatus |- _ => destruct x
  end; cbn in *; bool_cases; cbn in *; try split; try lia; try congruence.

#[refine, global] Instance Side_enum : ByteEnum Side := {
  to_byte := Side_to_byte; of_byte := Side_of_byte;
  enum_ok s := match s with SIDE_OTHER b => 2 <= b < 256 | _ => True end }.
Proof. all: unfold Side_of_byte; byte_enum_laws. Defined.

#[refine, global] Instance OrderType_enum : ByteEnum OrderType := {
  to_byte := OrderType_to_byte; of_byte := OrderType_of_byte;
  enum_ok t := match t with OTYPE_OTHER b => 3 <= b < 256 | _ => True end }.
Proof. all: unfold OrderType_of_byte; byte_enum_laws. Defined.

#[refine, global] Instance MsgType_enum : ByteEnum MsgType := {
  to_byte := MsgType_to_byte; of_byte := MsgType_of_byte;
  enum_ok t := match t with
    | MSG_OTHER b => 0 <= b < 256 /\ (b = 0 \/ 5 <= b < 10 \/ 12 <= b < 20
                                      \/ 21 <= b < 30 \/ 32 <= b)
    | _ => True end }.
Proof. all: unfold MsgType_of_byte; byte_enum_laws. Defined.

#[refine, global] Instance AckStatus_enum : ByteEnum AckStatus := {
  to_byte := AckStatus_to_byte; of_byte := AckStatus_of_byte;
  enum_ok a := match a with ACK_OTHER b => 7 <= b < 256 | _ => True end }.
Proof. all: unfold AckStatus_of_byte; byte_enum_laws. Defined.

(** ** Messages *)
Record MarketUpdate := {
  mu_msg_type : MsgType; mu_instrument_id : Z; mu_sequence : Z;
  mu_best_bid_price : Z; mu_best_ask_price : Z;
  mu_best_bid_qty : Z; mu_best_ask_qty : Z;
  mu_last_trade_price : Z; mu_last_trade_qty : Z; mu_exchange_ts_ns : Z }.

Record OrderAck := {
  oa_msg_type : MsgType; oa_status : AckStatus; oa_client_order_id : Z;
  oa_exchange_order_id : Z; oa_price : Z; oa_quantity : Z }.

Record Fill := {
  fl_msg_type : MsgType; fl_side : Side; fl_instrument_id : Z;
  fl_client_order_id : Z; fl_exchange_order_id : Z; fl_fill_price : Z;
  fl_fill_qty : Z; fl_remaining_qty : Z; fl_fee : Z; fl_realized_pnl : Z;
  fl_exchange_ts_ns : Z }.

Record CancelAck := {
  ca_msg_type : MsgType; ca_status : AckStatus; ca_client_order_id : Z;
  ca_exchange_order_id : Z; ca_exchange_ts_ns : Z }.

Record OrderEntry := {
  oe_msg_type : MsgType; oe_side : Side; oe_order_type : OrderType;
  oe_instrument_id : Z; oe_client_order_id : Z; oe_price : Z; oe_quantity : Z }.

Record CancelRequest := {
  cr_msg_type : MsgType; cr_client_order_id : Z; cr_exchange_order_id : Z }.

Record Heartbeat := {
  hb_msg_type : MsgType; hb_sequence : Z; hb_timestamp_ns : Z }.

Record SessionStart := {
  ss_msg_type : MsgType; ss_instrument_count : Z; ss_match_duration_ms : Z;
  ss_start_timestamp_ns : Z; ss_initial_cash : Z; ss_max_position : Z;
  ss_max_order_size : Z; ss_max_orders_per_sec : Z }.

Record SessionEnd := {
  se_msg_type : MsgType; se_total_fills : Z; se_final_pnl : Z;
  se_total_volume : Z; se_final_position : Z; se_total_orders : Z;
  se_total_cancels : Z; se_end_timestamp_ns : Z }.

Record ContestantResponse := {
  rs_order_id : Z; rs_response_type : MsgType; rs_ack_status : AckStatus;
  rs_num_fills : Z; rs_fill_price : Z; rs_fill_qty : Z; rs_remaining_qty : Z;
  rs_recv_tsc : Z; rs_send_tsc : Z }.

(** ** Byte layouts

    A struct layout is the sequence of its members: unsigned and signed
    integers of a byte width, and padding.  [encode] is the little-endian
    image the [memcpy] of a value-initialised struct produces. *)
Inductive member := UInt (w : nat) | SInt (w : nat) | Pad (w : nat).

Definition member_size (m : member) : nat :=
  match m with UInt w | SInt w | Pad w => w end.
Definition sizeof (ms : list member) : Z :=
  Z.of_nat (sum_list (member_size <$> ms)).

Definition bits_of (w : nat) : Z := 256 ^ Z.of_nat w.

Fixpoint le_bytes (w : nat) (x : Z) : list Z :=
  match w with O => [] | S w => x mod 256 :: le_bytes w (x / 256) end.
Fixpoint le_value (bs : list Z) : Z :=
  match bs with [] => 0 | b :: bs => b + 256 * le_value bs end.

Fixpoint encode (ms : list member) (vs : list Z) : list Z :=
  match ms, vs with
  | [], _ => []
  | Pad w :: ms, vs => replicate w 0 ++ encode ms vs
  | UInt w :: ms, v :: vs => le_bytes w v ++ encode ms vs
  | SInt w :: ms, v :: vs => le_bytes w (v mod bits_of w) ++ encode ms vs
  | UInt w :: ms, [] | SInt w :: ms, [] => replicate w 0 ++ encode ms []
  end.

Definition sign_extend (w : nat) (x : Z) : Z :=
  if x <? bits_of w / 2 then x else x - bits_of w.

Fixpoint decode (ms : list member) (bs : list Z) : list Z :=
  match ms with
  | [] => []
  | Pad w :: ms => decode ms (drop w bs)
  | UInt w :: ms => le_value (take w bs) :: decode ms (drop w bs)
  | SInt w :: ms => sign_extend w (le_value (take w bs)) :: decode ms (drop w bs)
  end.

Fixpoint fits (ms : list member) (vs : list Z) : Prop :=
  match ms, vs with
  | [], [] => True
  | Pad _ :: ms, vs => fits ms vs
  | UInt w :: ms, v :: vs => 0 <= v < bits_of w /\ fits ms vs
  | SInt w :: ms, v :: vs => - (bits_of w / 2) <= v < bits_of w / 2 /\ fits ms vs
  | _, _ => False
  end.

Definition MarketUpdate_layout : list member :=
  [UInt 1; UInt 1; Pad 2; UInt 4; SInt 8; SInt 8; SInt 4; SInt 4; SInt 8;
   SInt 4; Pad 4; UInt 8; Pad 4; Pad 4].
Definition OrderAck_layout : list member :=
  [UInt 1; UInt 1; Pad 2; UInt 4; UInt 8; SInt 8; SInt 4; Pad 4].
Definition Fill_layout : list member :=
  [UInt 1; UInt 1; UInt 1; Pad 1; UInt 4; UInt 8; SInt 8; SInt 4; SInt 4;
   SInt 8; SInt 8; UInt 8; Pad 8].
Definition CancelAck_layout : list member :=
  [UInt 1; UInt 1; Pad 2; UInt 4; UInt 8; UInt 8; Pad 8].
Definition OrderEntry_layout : list member :=
  [UInt 1; UInt 1; UInt 1; UInt 1; UInt 4; SInt 8; SInt 4; Pad 36; Pad 8].
Definition CancelRequest_layout : list member :=
  [UInt 1; Pad 3; UInt 4; UInt 8; Pad 16].
Definition Heartbeat_layout : list member :=
  [UInt 1; Pad 3; UInt 4; UInt 8; Pad 16].
Definition SessionStart_layout : list member :=
  [UInt 1; UInt 1; Pad 2; UInt 4; UInt 8; SInt 8; SInt 4; SInt 4; SInt 4;
   Pad 20; Pad 8].
Definition SessionEnd_layout : list member :=
  [UInt 1; Pad 3; UInt 4; SInt 8; SInt 8; SInt 4; UInt 4; UInt 4; Pad 4;
   UInt 8; Pad 16].
Definition ContestantResponse_layout : list member :=
  [UInt 4; UInt 1; UInt 1; Pad 1; UInt 1; SInt 8; SInt 4; SInt 4; UInt 8;
   UInt 8; Pad 16; Pad 8].

(** ** Codec facts *)
Lemma bits_of_pos w : 0 < bits_of w.
Proof. unfold bits_of. apply Z.pow_pos_nonneg; lia. Qed.

Lemma bits_of_S w : bits_of (S w) = 256 * bits_of w.
Proof. unfold bits_of. rewrite Nat2Z.inj_succ, Z.pow_succ_r; lia. Qed.

Lemma length_le_bytes w x : length (le_bytes w x) = w.
Proof. revert x. induction w; intros; simpl; auto. Qed.

Lemma le_value_bytes w x : 0 <= x < bits_of w -> le_value (le_bytes w x) = x.
Proof.
  revert x. induction w as [|w IH]; intros x Hx; simpl.
  - change (bits_of 0) with 1 in Hx. lia.
  - rewrite bits_of_S in Hx. rewrite IH; [|split].
    + pose proof (Z.div_mod x 256). lia.
    + apply Z.div_pos; lia.
    + apply Z.div_lt_upper_bound; lia.
Qed.

Lemma sign_extend_mod w v :
  - (bits_of (S w) / 2) <= v < bits_of (S w) / 2 ->
  sign_extend (S w) (v mod bits_of (S w)) = v.
Proof.
  intros Hv. unfold sign_extend. pose proof (bits_of_pos w) as Hp.
  rewrite bits_of_S in *.
  replace (256 * bits_of w) with (128 * bits_of w * 2) in * by lia.
  rewrite Z.div_mul in * by lia.
  destruct (Z.le_gt_cases 0 v).
  - rewrite Z.mod_small by lia. destruct (Z.ltb_spec v (128 * bits_of w)); lia.
  - replace (v mod (128 * bits_of w * 2)) with (v + 128 * bits_of w * 2).
    + destruct (Z.ltb_spec (v + 128 * bits_of w * 2) (128 * bits_of w)); lia.
    + apply Z.mod_unique with (-1); lia.
Qed.

(** Layouts have no zero-width signed member. *)
Fixpoint layout_ok (ms : list member) : bool :=
  match ms with
  | [] => true
  | SInt O :: _ => false
  | _ :: ms => layout_ok ms
  end.

Lemma length_encode ms vs : Z.of_nat (length (encode ms vs)) = sizeof ms.
Proof.
  unfold sizeof. f_equal. revert vs.
  induction ms as [|[w|w|w] ms IH]; intros vs; simpl; [done|..];
    destruct vs; simpl; rewrite length_app, IH, ?length_le_bytes, ?length_replicate;
    reflexivity.
Qed.

Lemma decode_encode ms vs tl :
  layout_ok ms = true -> fits ms vs -> decode ms (encode ms vs ++ tl) = vs.
Proof.
  revert vs. induction ms as [|m ms IH]; intros vs Hok Hf.
  { destruct vs; simpl in *; [reflexivity|contradiction]. }
  destruct m as [w|w|w].
  - destruct vs as [|v vs]; [contradiction|]. destruct Hf as [Hv Hf].
    cbn [decode encode]. rewrite <- app_assoc.
    rewrite take_app_length', drop_app_length' by (by rewrite length_le_bytes).
    rewrite le_value_bytes by done. f_equal. by apply IH.
  - destruct vs as [|v vs]; [contradiction|]. destruct Hf as [Hv Hf].
    destruct w as [|w]; [discriminate|].
    cbn [decode encode]. rewrite <- app_assoc.
    rewrite take_app_length', drop_app_length' by (by rewrite length_le_bytes).
    rewrite le_value_bytes by (apply Z.mod_pos_bound, bits_of_pos).
    rewrite sign_extend_mod by done. f_equal. by apply IH.
  - cbn [decode encode]. rewrite <- app_assoc, drop_app_length' by (by rewrite length_replicate).
    by apply IH.
Qed.

(** ** Messages on the wire

    [WireMsg] is what the senders and the receivers rely on: a struct is
    [wire_size] bytes long and reading back the bytes gives the struct. *)
Class WireMsg (A : Type) := {
  wire_layout : list member;
  wire_values : A -> list Z;
  wire_build : list Z -> A;
  wire_ok : A -> Prop;
  wire_layout_ok : layout_ok wire_layout = true;
  wire_fits : forall a, wire_ok a -> fits wire_layout (wire_values a);
  wire_build_values : forall a, wire_ok a -> wire_build (wire_values a) = a
}.

Definition to_wire {A} `{WireMsg A} (a : A) : list Z :=
  encode wire_layout (wire_values a).
Definition of_wire {A} `{WireMsg A} (bs : list Z) : A :=
  wire_build (decode wire_layout bs).
Definition wire_size (A : Type) `{WireMsg A} : Z := sizeof wire_layout.

Lemma of_to_wire {A} `{WireMsg A} (a : A) tl :
  wire_ok a -> of_wire (to_wire a ++ tl) = a.
Proof.
  intros Hok. unfold of_wire, to_wire.
  rewrite decode_encode; eauto using wire_layout_ok, wire_fits, wire_build_values.
Qed.

Lemma length_to_wire {A} `{WireMsg A} (a : A) :
  Z.of_nat (length (to_wire a)) = wire_size A.
Proof. apply length_encode. Qed.

Definition is_u8 x := 0 <= x < 256.
Definition is_u32 x := 0 <= x < 4294967296.
Definition is_u64 x := 0 <= x < 18446744073709551616.
Definition is_i32 x := -2147483648 <= x < 2147483648.
Definition is_i64 x := -9223372036854775808 <= x < 9223372036854775808.

Definition nthz (l : list Z) (n : nat) : Z := nth n l 0.

(** The three laws of a [WireMsg]: layout, ranges, and rebuilding. *)
Ltac wire_laws :=
  try reflexivity;
  let m := fresh "m" in
  let Hm := fresh "Hm" in
  intros m Hm; cbv beta in Hm;
  repeat match goal with H : _ /\ _ |- _ => destruct H end;
  lazymatch goal with
  | |- fits ?l _ =>
      unfold is_u8, is_u32, is_u64, is_i32, is_i64 in *;
      repeat match goal with
      | H : enum_ok ?x |- _ => pose proof (to_byte_range x H); clear H
      end;
      unfold l; cbn [fits];
      change (bits_of 1) with 256; change (bits_of 2) with 65536; change (bits_of 4) with 4294967296;
      change (bits_of 8) with 18446744073709551616;
      change (18446744073709551616 / 2) with 9223372036854775808;
      change (4294967296 / 2) with 2147483648;
      repeat split; lia
  | |- _ =>
      repeat match goal with H : enum_ok _ |- _ => apply of_to_byte in H end;
      destruct m; cbv [nthz nth]; cbn in *; f_equal; assumption
  end.

#[refine, global] Instance MarketUpdate_wire : WireMsg MarketUpdate := {
  wire_layout := MarketUpdate_layout;
  wire_values m := [to_byte (mu_msg_type m); mu_instrument_id m; mu_sequence m;
    mu_best_bid_price m; mu_best_ask_price m; mu_best_bid_qty m;
    mu_best_ask_qty m; mu_last_trade_price m; mu_last_trade_qty m;
    mu_exchange_ts_ns m];
  wire_build l := {| mu_msg_type := of_byte (nthz l 0); mu_instrument_id := nthz l 1;
    mu_sequence := nthz l 2; mu_best_bid_price := nthz l 3;
    mu_best_ask_price := nthz l 4; mu_best_bid_qty := nthz l 5;
    mu_best_ask_qty := nthz l 6; mu_last_trade_price := nthz l 7;
    mu_last_trade_qty := nthz l 8; mu_exchange_ts_ns := nthz l 9 |};
  wire_ok m := enum_ok (mu_msg_type m) /\ is_u8 (mu_instrument_id m) /\
    is_u32 (mu_sequence m) /\ is_i64 (mu_best_bid_price m) /\
    is_i64 (mu_best_ask_price m) /\ is_i32 (mu_best_bid_qty m) /\
    is_i32 (mu_best_ask_qty m) /\ is_i64 (mu_last_trade_price m) /\
    is_i32 (mu_last_trade_qty m) /\ is_u64 (mu_exchange_ts_ns m) }.
Proof. all: wire_laws. Defined.

#[refine, global] Instance OrderAck_wire : WireMsg OrderAck := {
  wire_layout := OrderAck_layout;
  wire_values m := [to_byte (oa_msg_type m); to_byte (oa_status m);
    oa_client_order_id m; oa_exchange_order_id m; oa_price m; oa_quantity m];
  wire_build l := {| oa_msg_type := of_byte (nthz l 0); oa_status := of_byte (nthz l 1);
    oa_client_order_id := nthz l 2; oa_exchange_order_id := nthz l 3;
    oa_price := nthz l 4; oa_quantity := nthz l 5 |};
  wire_ok m := enum_ok (oa_msg_type m) /\ enum_ok (oa_status m) /\
    is_u32 (oa_client_order_id m) /\ is_u64 (oa_exchange_order_id m) /\
    is_i64 (oa_price m) /\ is_i32 (oa_quantity m) }.
Proof. all: wire_laws. Defined.

#[refine, global] Instance Fill_wire : WireMsg Fill := {
  wire_layout := Fill_layout;
  wire_values m := [to_byte (fl_msg_type m); to_byte (fl_side m);
    fl_instrument_id m; fl_client_order_id m; fl_exchange_order_id m;
    fl_fill_price m; fl_fill_qty m; fl_remaining_qty m; fl_fee m;
    fl_realized_pnl m; fl_exchange_ts_ns m];
  wire_build l := {| fl_msg_type := of_byte (nthz l 0); fl_side := of_byte (nthz l 1);
    fl_instrument_id := nthz l 2; fl_client_order_id := nthz l 3;
    fl_exchange_order_id := nthz l 4; fl_fill_price := nthz l 5;
    fl_fill_qty := nthz l 6; fl_remaining_qty := nthz l 7; fl_fee := nthz l 8;
    fl_realized_pnl := nthz l 9; fl_exchange_ts_ns := nthz l 10 |};
  wire_ok m := enum_ok (fl_msg_type m) /\ enum_ok (fl_side m) /\
    is_u8 (fl_instrument_id m) /\ is_u32 (fl_client_order_id m) /\
    is_u64 (fl_exchange_order_id m) /\ is_i64 (fl_fill_price m) /\
    is_i32 (fl_fill_qty m) /\ is_i32 (fl_remaining_qty m) /\ is_i64 (fl_fee m) /\
    is_i64 (fl_realized_pnl m) /\ is_u64 (fl_exchange_ts_ns m) }.
Proof. all: wire_laws. Defined.

#[refine, global] Instance CancelAck_wire : WireMsg CancelAck := {
  wire_layout := CancelAck_layout;
  wire_values m := [to_byte (ca_msg_type m); to_byte (ca_status m);
    ca_client_order_id m; ca_exchange_order_id m; ca_exchange_ts_ns m];
  wire_build l := {| ca_msg_type := of_byte (nthz l 0); ca_status := of_byte (nthz l 1);
    ca_client_order_id := nthz l 2; ca_exchange_order_id := nthz l 3;
    ca_exchange_ts_ns := nthz l 4 |};
  wire_ok m := enum_ok (ca_msg_type m) /\ enum_ok (ca_status m) /\
    is_u32 (ca_client_order_id m) /\ is_u64 (ca_exchange_order_id m) /\
    is_u64 (ca_exchange_ts_ns m) }.
Proof. all: wire_laws. Defined.

#[refine, global] Instance OrderEntry_wire : WireMsg OrderEntry := {
  wire_layout := OrderEntry_layout;
  wire_values m := [to_byte (oe_msg_type m); to_byte (oe_side m);
    to_byte (oe_order_type m); oe_instrument_id m; oe_client_order_id m;
    oe_price m; oe_quantity m];
  wire_build l := {| oe_msg_type := of_byte (nthz l 0); oe_side := of_byte (nthz l 1);
    oe_order_type := of_byte (nthz l 2); oe_instrument_id := nthz l 3;
    oe_client_order_id := nthz l 4; oe_price := nthz l 5; oe_quantity := nthz l 6 |};
  wire_ok m := enum_ok (oe_msg_type m) /\ enum_ok (oe_side m) /\
    enum_ok (oe_order_type m) /\ is_u8 (oe_instrument_id m) /\
    is_u32 (oe_client_order_id m) /\ is_i64 (oe_price m) /\ is_i32 (oe_quantity m) }.
Proof. all: wire_laws. Defined.

#[refine, global] Instance CancelRequest_wire : WireMsg CancelRequest := {
  wire_layout := CancelRequest_layout;
  wire_values m := [to_byte (cr_msg_type m); cr_client_order_id m; cr_exchange_order_id m];
  wire_build l := {| cr_msg_type := of_byte (nthz l 0); cr_client_order_id := nthz l 1;
    cr_exchange_order_id := nthz l 2 |};
  wire_ok m := enum_ok (cr_msg_type m) /\ is_u32 (cr_client_order_id m) /\
    is_u64 (cr_exchange_order_id m) }.
Proof. all: wire_laws. Defined.

#[refine, global] Instance Heartbeat_wire : WireMsg Heartbeat := {
  wire_layout := Heartbeat_layout;
  wire_values m := [to_byte (hb_msg_type m); hb_sequence m; hb_timestamp_ns m];
  wire_build l := {| hb_msg_type := of_byte (nthz l 0); hb_sequence := nthz l 1;
    hb_timestamp_ns := nthz l 2 |};
  wire_ok m := enum_ok (hb_msg_type m) /\ is_u32 (hb_sequence m) /\
    is_u64 (hb_timestamp_ns m) }.
Proof. all: wire_laws. Defined.

#[refine, global] Instance SessionStart_wire : WireMsg SessionStart := {
  wire_layout := SessionStart_layout;
  wire_values m := [to_byte (ss_msg_type m); ss_instrument_count m;
    ss_match_duration_ms m; ss_start_timestamp_ns m; ss_initial_cash m;
    ss_max_position m; ss_max_order_size m; ss_max_orders_per_sec m];
  wire_build l := {| ss_msg_type := of_byte (nthz l 0); ss_instrument_count := nthz l 1;
    ss_match_duration_ms := nthz l 2; ss_start_timestamp_ns := nthz l 3;
    ss_initial_cash := nthz l 4; ss_max_position := nthz l 5;
    ss_max_order_size := nthz l 6; ss_max_orders_per_sec := nthz l 7 |};
  wire_ok m := enum_ok (ss_msg_type m) /\ is_u8 (ss_instrument_count m) /\
    is_u32 (ss_match_duration_ms m) /\ is_u64 (ss_start_timestamp_ns m) /\
    is_i64 (ss_initial_cash m) /\ is_i32 (ss_max_position m) /\
    is_i32 (ss_max_order_size m) /\ is_i32 (ss_max_orders_per_sec m) }.
Proof. all: wire_laws. Defined.

#[refine, global] Instance SessionEnd_wire : WireMsg SessionEnd := {
  wire_layout := SessionEnd_layout;
  wire_values m := [to_byte (se_msg_type m); se_total_fills m; se_final_pnl m;
    se_total_volume m; se_final_position m; se_total_orders m;
    se_total_cancels m; se_end_timestamp_ns m];
  wire_build l := {| se_msg_type := of_byte (nthz l 0); se_total_fills := nthz l 1;
    se_final_pnl := nthz l 2; se_total_volume := nthz l 3;
    se_final_position := nthz l 4; se_total_orders := nthz l 5;
    se_total_cancels := nthz l 6; se_end_timestamp_ns := nthz l 7 |};
  wire_ok m := enum_ok (se_msg_type m) /\ is_u32 (se_total_fills m) /\
    is_i64 (se_final_pnl m) /\ is_i64 (se_total_volume m) /\
    is_i32 (se_final_position m) /\ is_u32 (se_total_orders m) /\
    is_u32 (se_total_cancels m) /\ is_u64 (se_end_timestamp_ns m) }.
Proof. all: wire_laws. Defined.

#[refine, global] Instance ContestantResponse_wire : WireMsg ContestantResponse := {
  wire_layout := ContestantResponse_layout;
  wire_values m := [rs_order_id m; to_byte (rs_response_type m);
    to_byte (rs_ack_status m); rs_num_fills m; rs_fill_price m; rs_fill_qty m;
    rs_remaining_qty m; rs_recv_tsc m; rs_send_tsc m];
  wire_build l := {| rs_order_id := nthz l 0; rs_response_type := of_byte (nthz l 1);
    rs_ack_status := of_byte (nthz l 2); rs_num_fills := nthz l 3;
    rs_fill_price := nthz l 4; rs_fill_qty := nthz l 5;
    rs_remaining_qty := nthz l 6; rs_recv_tsc := nthz l 7; rs_send_tsc := nthz l 8 |};
  wire_ok m := is_u32 (rs_order_id m) /\ enum_ok (rs_response_type m) /\
    enum_ok (rs_ack_status m) /\ is_u8 (rs_num_fills m) /\
    is_i64 (rs_fill_price m) /\ is_i32 (rs_fill_qty m) /\
    is_i32 (rs_remaining_qty m) /\ is_u64 (rs_recv_tsc m) /\ is_u64 (rs_send_tsc m) }.
Proof. all: wire_laws. Defined.

(** ** Envelope helpers *)

(** [peek_msg_type]: the first byte of the buffer. *)
Definition peek_msg_type (buf : list Z) : MsgType := of_byte (hd 0 buf).

Definition msg_size (type : MsgType) : Z :=
  match type with
  | MARKET_UPDATE => wire_size MarketUpdate
  | ORDER_ACK => wire_size OrderAck
  | FILL => wire_size Fill
  | CANCEL_ACK => wire_size CancelAck
  | ORDER_ENTRY => wire_size OrderEntry
  | CANCEL_REQUEST => wire_size CancelRequest
  | HEARTBEAT => wire_size Heartbeat
  | SESSION_START => wire_size SessionStart
  | SESSION_END => wire_size SessionEnd
  | MSG_OTHER _ => 0
  end.

(** Every message type's table entry is one half or one full cache line. *)
Lemma msg_size_values :
  map msg_size [MARKET_UPDATE; ORDER_ACK; FILL; CANCEL_ACK; ORDER_ENTRY;
                CANCEL_REQUEST; HEARTBEAT; SESSION_START; SESSION_END]
  = [64; 32; 64; 32; 64; 32; 32; 64; 64].
Proof. reflexivity. Qed.

Lemma peek_to_wire_order (o : OrderEntry) tl :
  wire_ok o -> peek_msg_type (to_wire o ++ tl) = oe_msg_type o.
Proof.
  intros (H & _). unfold peek_msg_type, to_wire. cbn [encode wire_layout wire_values OrderEntry_wire OrderEntry_layout le_bytes app hd].
  rewrite Z.mod_small by (apply to_byte_range; assumption).
  apply of_to_byte. assumption.
Qed.

(** order entry on the wire. The 64 bytes of a well-formed order entry,
    followed by anything, peek as an order entry, are framed by exactly the
    size the table gives for that type, and read back as the same order. *)
Theorem order_entry_roundtrip (o : OrderEntry) tl :
  wire_ok o -> oe_msg_type o = ORDER_ENTRY ->
  let bytes := to_wire o in
  peek_msg_type (bytes ++ tl) = ORDER_ENTRY /\
  Z.of_nat (length bytes) = msg_size (peek_msg_type (bytes ++ tl)) /\
  of_wire (bytes ++ tl) = o.
Proof.
  intros Hok Ht bytes. unfold bytes. rewrite peek_to_wire_order, Ht by done.
  split; [done|]. split; [apply length_to_wire|by apply of_to_wire].
Qed.

Lemma order_entry_roundtrip_witness :
  let o := {| oe_msg_type := ORDER_ENTRY; oe_side := SELL; oe_order_type := IOC;
              oe_instrument_id := 0; oe_client_order_id := 7; oe_price := -3; oe_quantity := 5 |} in
  wire_ok o /\
  peek_msg_type (to_wire o ++ [255]) = ORDER_ENTRY /\
  Z.of_nat (length (to_wire o)) = msg_size (peek_msg_type (to_wire o ++ [255])) /\
  of_wire (to_wire o ++ [255]) = o.
Proof.
  intros o. assert (Hok : wire_ok o) by (vm_compute; repeat split; congruence).
  split; [exact Hok|]. exact (order_entry_roundtrip o [255] Hok eq_refl).
Defined.
