(* ===== verification/Simd.v ===== *)
(** The SIMD key-search helpers of src/core/include/core/compiler_hints.hpp.

    A vector register holding [n] lanes of [w] bytes is the list of its lanes;
    [_mm256_movemask_epi8] of a lane-wise comparison has [w] equal bits per
    lane, [_mm512_cmpeq_*_mask] one bit per lane.  The linear searches are
    proved equal to the scalar first-index search they replace. *)

From S2P Require Import Prelude.

(** [__builtin_ctz] on a non-zero mask. *)
Definition ctz (m : Z) : Z := Z.log2 (Z.land m (- m)).

(** The lanes [base[0 .. n-1]] of a vector load. *)
Definition load_lanes (a : arr Z) (base : Z) (n : nat) : list Z :=
  (fun i => a (base + i)) <$> seqZ 0 (Z.of_nat n).

(** Comparison mask: [w] bits per lane, lane 0 in the low bits. *)
Fixpoint cmpeq_mask (w : Z) (lanes : list Z) (key : Z) : Z :=
  match lanes with
  | [] => 0
  | x :: rest =>
      Z.lor (if x =? key then 2 ^ w - 1 else 0)
            (Z.shiftl (cmpeq_mask w rest key) w)
  end.

Definition avx2_find_key_i64 (keys : arr Z) (base search_key : Z) : Z :=
  cmpeq_mask 8 (load_lanes keys base 4) search_key.

Definition avx2_contains_key_i64 (keys : arr Z) (base search_key : Z) : bool :=
  negb (avx2_find_key_i64 keys base search_key =? 0).

Definition avx2_first_match_index_i64 (mask : Z) : Z := Z.shiftr (ctz mask) 3.

Definition avx2_find_key_i32 (keys : arr Z) (base search_key : Z) : Z :=
  cmpeq_mask 4 (load_lanes keys base 8) search_key.

Definition avx2_first_match_index_i32 (mask : Z) : Z := Z.shiftr (ctz mask) 2.

Definition avx2_find_zero_u8 (data : arr Z) (base : Z) : Z :=
  cmpeq_mask 1 (load_lanes data base 32) 0.

Definition avx512_find_key_i64 (keys : arr Z) (base search_key : Z) : Z :=
  cmpeq_mask 1 (load_lanes keys base 8) search_key.

Definition avx512_contains_key_i64 (keys : arr Z) (base search_key : Z) : bool :=
  negb (avx512_find_key_i64 keys base search_key =? 0).

Definition avx512_first_match_index_i64 (mask : Z) : Z := ctz mask.

Definition avx512_find_key_i32 (keys : arr Z) (base search_key : Z) : Z :=
  cmpeq_mask 1 (load_lanes keys base 16) search_key.

(** [for (; i < count; ++i) if (arr[i] == target) return i; return UINT32_MAX;]
    with [n = count - i] iterations left. *)
Fixpoint scalar_tail (n : nat) (a : arr Z) (i target : Z) : Z :=
  match n with
  | O => UINT32_MAX
  | S n => if a i =? target then u32 i else scalar_tail n a (i + 1) target
  end.

(** The vector loop of width [4], [n] iterations at most. *)
Fixpoint avx2_search_loop (n : nat) (a : arr Z) (i count target : Z) : Z :=
  match n with
  | O => scalar_tail (Z.to_nat (count - i)) a i target
  | S n =>
      if i + 4 <=? count then
        let mask := cmpeq_mask 8 (load_lanes a i 4) target in
        if mask =? 0 then avx2_search_loop n a (i + 4) count target
        else u32 (u32 i + Z.shiftr (ctz mask) 3)
      else scalar_tail (Z.to_nat (count - i)) a i target
  end.

Definition avx2_linear_search_i64 (a : arr Z) (count target : Z) : Z :=
  avx2_search_loop (Z.to_nat (count / 4)) a 0 count target.

(** The vector loop of width [8]. *)
Fixpoint avx512_search_loop (n : nat) (a : arr Z) (i count target : Z) : Z :=
  match n with
  | O => scalar_tail (Z.to_nat (count - i)) a i target
  | S n =>
      if i + 8 <=? count then
        let mask := cmpeq_mask 1 (load_lanes a i 8) target in
        if mask =? 0 then avx512_search_loop n a (i + 8) count target
        else u32 (u32 i + ctz mask)
      else scalar_tail (Z.to_nat (count - i)) a i target
  end.

Definition avx512_linear_search_i64 (a : arr Z) (count target : Z) : Z :=
  avx512_search_loop (Z.to_nat (count / 8)) a 0 count target.

(** The portable dispatch: one of the two, by the instruction set compiled for. *)
Definition simd_find_key_i64 (has_avx512 : bool) (a : arr Z) (count target : Z) : Z :=
  if has_avx512 then avx512_linear_search_i64 a count target
  else avx2_linear_search_i64 a count target.

(** ** Masks name the first matching lane *)

(** First index of [key] in [l], or the length of [l]. *)
Fixpoint first_index (l : list Z) (key : Z) : Z :=
  match l with
  | [] => 0
  | x :: l => if x =? key then 0 else 1 + first_index l key
  end.

Lemma load_lanes_4 a base :
  load_lanes a base 4 = [a base; a (base + 1); a (base + 2); a (base + 3)].
Proof.
  unfold load_lanes. change (seqZ 0 (Z.of_nat 4)) with [0; 1; 2; 3].
  cbn [fmap list_fmap]. by rewrite Z.add_0_r.
Qed.

Lemma load_lanes_8 a base :
  load_lanes a base 8 = [a base; a (base + 1); a (base + 2); a (base + 3);
    a (base + 4); a (base + 5); a (base + 6); a (base + 7)].
Proof.
  unfold load_lanes. change (seqZ 0 (Z.of_nat 8)) with [0; 1; 2; 3; 4; 5; 6; 7].
  cbn [fmap list_fmap]. by rewrite Z.add_0_r.
Qed.

(** Every comparison outcome of the four lanes, by computation. *)
Lemma mask4_spec x0 x1 x2 x3 k :
  let l := [x0; x1; x2; x3] in
  let m := cmpeq_mask 8 l k in
  (m = 0 /\ x0 <> k /\ x1 <> k /\ x2 <> k /\ x3 <> k) \/
  (m <> 0 /\ Z.shiftr (ctz m) 3 = first_index l k /\ first_index l k < 4).
Proof.
  cbn [cmpeq_mask first_index].
  destruct (Z.eqb_spec x0 k), (Z.eqb_spec x1 k), (Z.eqb_spec x2 k), (Z.eqb_spec x3 k);
    first [right; vm_compute; repeat split; congruence
          |left; vm_compute; repeat split; assumption].
Qed.

Lemma mask8_spec x0 x1 x2 x3 x4 x5 x6 x7 k :
  let l := [x0; x1; x2; x3; x4; x5; x6; x7] in
  let m := cmpeq_mask 1 l k in
  (m = 0 /\ Forall (fun x => x <> k) l) \/
  (m <> 0 /\ ctz m = first_index l k /\ first_index l k < 8).
Proof.
  cbn [cmpeq_mask first_index].
  destruct (Z.eqb_spec x0 k), (Z.eqb_spec x1 k), (Z.eqb_spec x2 k), (Z.eqb_spec x3 k),
    (Z.eqb_spec x4 k), (Z.eqb_spec x5 k), (Z.eqb_spec x6 k), (Z.eqb_spec x7 k);
    first [right; vm_compute; repeat split; congruence
          |left; split; [reflexivity|repeat constructor; assumption]].
Qed.

(** The group probe of four keys: either no lane matches, or the mask gives
    the first lane that does. *)
Lemma avx2_group_spec a slot k :
  let mask := avx2_find_key_i64 a slot k in
  (mask = 0 /\ forall i, 0 <= i < 4 -> a (slot + i) <> k) \/
  (mask <> 0 /\ exists f, 0 <= f < 4 /\ avx2_first_match_index_i64 mask = f /\
     a (slot + f) = k /\ forall i, 0 <= i < f -> a (slot + i) <> k).
Proof.
  unfold avx2_find_key_i64, avx2_first_match_index_i64. rewrite load_lanes_4.
  cbn [cmpeq_mask]. pose proof (Z.add_0_r slot) as H0.
  destruct (Z.eqb_spec (a slot) k), (Z.eqb_spec (a (slot + 1)) k),
    (Z.eqb_spec (a (slot + 2)) k), (Z.eqb_spec (a (slot + 3)) k);
    first
    [ left; split; [reflexivity|]; intros i Hi;
      assert (i = 0 \/ i = 1 \/ i = 2 \/ i = 3) as [->|[->|[->| ->]]] by lia;
      rewrite ?H0; assumption
    | right; split; [vm_compute; congruence|];
      eexists; split; [|split; [vm_compute; reflexivity|]]; [lia|];
      split; [rewrite ?H0; assumption|]; intros i Hi;
      first [ lia
            | assert (i = 0) as -> by lia; rewrite H0; assumption
            | assert (i = 0 \/ i = 1) as [->| ->] by lia; rewrite ?H0; assumption
            | assert (i = 0 \/ i = 1 \/ i = 2) as [->|[->| ->]] by lia;
              rewrite ?H0; assumption ] ].
Qed.

Lemma first_index_nonneg l k : 0 <= first_index l k.
Proof. induction l as [|x l IH]; simpl; [lia|]. destruct (x =? k); lia. Qed.

(** ** The vector searches agree with the scalar search *)

Lemma scalar_tail_skip n a i target :
  a i <> target -> scalar_tail (S n) a i target = scalar_tail n a (i + 1) target.
Proof. intros. simpl. by rewrite (proj2 (Z.eqb_neq _ _)). Qed.

Lemma scalar_tail_lanes k n a i target :
  (forall j, 0 <= j < Z.of_nat k -> a (i + j) <> target) ->
  scalar_tail (k + n) a i target = scalar_tail n a (i + Z.of_nat k) target.
Proof.
  revert i. induction k as [|k IH]; intros i H.
  - by rewrite Z.add_0_r.
  - cbn [Nat.add]. rewrite scalar_tail_skip by (specialize (H 0); rewrite Z.add_0_r in H; apply H; lia).
    rewrite IH; [f_equal; lia|]. intros j Hj.
    replace (i + 1 + j) with (i + (1 + j)) by lia. apply H. lia.
Qed.

Lemma scalar_tail_hit l n a i target :
  (forall j x, l !! j = Some x -> a (i + Z.of_nat j) = x) ->
  first_index l target < Z.of_nat (length l) ->
  Z.of_nat (length l) <= Z.of_nat n ->
  scalar_tail n a i target = u32 (i + first_index l target).
Proof.
  revert n i. induction l as [|x l IH]; intros n i Hl Hf Hn; simpl in *; [lia|].
  destruct n as [|n]; [lia|]. simpl.
  assert (Ha : a i = x) by (rewrite <- (Hl 0%nat x eq_refl); f_equal; lia).
  rewrite Ha. destruct (Z.eqb_spec x target).
  - f_equal. lia.
  - rewrite (IH n (i + 1)); [f_equal; lia| |lia|lia].
    intros j y Hj. rewrite <- (Hl (S j) y Hj). f_equal. lia.
Qed.

Lemma u32_u32_add i j : u32 (u32 i + j) = u32 (i + j).
Proof. unfold u32. by rewrite Zplus_mod_idemp_l. Qed.

Lemma avx2_loop_scalar n a i count target :
  0 <= i <= count -> 
  avx2_search_loop n a i count target =
  scalar_tail (Z.to_nat (count - i)) a i target.
Proof.
  revert i. induction n as [|n IH]; intros i Hi; [done|].
  cbn [avx2_search_loop]. destruct (Z.leb_spec (i + 4) count); [|done].
  rewrite load_lanes_4.
  destruct (mask4_spec (a i) (a (i + 1)) (a (i + 2)) (a (i + 3)) target)
    as [(-> & H0 & H1 & H2 & H3)|(Hm & Hf & Hlt)].
  - cbn [Z.eqb]. rewrite IH by lia.
    replace (Z.to_nat (count - i)) with (4 + Z.to_nat (count - (i + 4)))%nat by lia.
    rewrite scalar_tail_lanes; [done|]. intros j Hj.
    assert (j = 0 \/ j = 1 \/ j = 2 \/ j = 3) as [->|[->|[->| ->]]] by lia;
      rewrite ?Z.add_0_r; assumption.
  - rewrite (proj2 (Z.eqb_neq _ _)) by exact Hm. rewrite Hf, u32_u32_add.
    symmetry. apply scalar_tail_hit; [|exact Hlt|simpl; lia].
    intros j x Hj. do 4 (destruct j as [|j]; [injection Hj as <-; f_equal; lia|]).
    discriminate.
Qed.

Lemma avx512_loop_scalar n a i count target :
  0 <= i <= count ->
  avx512_search_loop n a i count target =
  scalar_tail (Z.to_nat (count - i)) a i target.
Proof.
  revert i. induction n as [|n IH]; intros i Hi; [done|].
  cbn [avx512_search_loop]. destruct (Z.leb_spec (i + 8) count); [|done].
  rewrite load_lanes_8.
  destruct (mask8_spec (a i) (a (i + 1)) (a (i + 2)) (a (i + 3))
              (a (i + 4)) (a (i + 5)) (a (i + 6)) (a (i + 7)) target)
    as [(-> & Hall)|(Hm & Hf & Hlt)].
  - cbn [Z.eqb]. rewrite IH by lia.
    replace (Z.to_nat (count - i)) with (8 + Z.to_nat (count - (i + 8)))%nat by lia.
    rewrite scalar_tail_lanes; [done|]. intros j Hj.
    repeat (apply Forall_cons in Hall as [? Hall]).
    assert (j = 0 \/ j = 1 \/ j = 2 \/ j = 3 \/ j = 4 \/ j = 5 \/ j = 6 \/ j = 7)
      as [->|[->|[->|[->|[->|[->|[->| ->]]]]]]] by lia;
      rewrite ?Z.add_0_r; assumption.
  - rewrite (proj2 (Z.eqb_neq _ _)) by exact Hm. rewrite Hf, u32_u32_add.
    symmetry. apply scalar_tail_hit; [|exact Hlt|simpl; lia].
    intros j x Hj. do 8 (destruct j as [|j]; [injection Hj as <-; f_equal; lia|]).
    discriminate.
Qed.

(** The scalar search returns the least index holding the key, or the
    sentinel when there is none. *)
Lemma scalar_tail_spec n a i target :
  0 <= i -> i + Z.of_nat n < 4294967296 ->
  (exists j, i <= j < i + Z.of_nat n /\ a j = target /\
     (forall k, i <= k < j -> a k <> target) /\ scalar_tail n a i target = j) \/
  ((forall k, i <= k < i + Z.of_nat n -> a k <> target) /\
   scalar_tail n a i target = UINT32_MAX).
Proof.
  revert i. induction n as [|n IH]; intros i Hi Hb.
  - right. split; [lia|done].
  - simpl. destruct (Z.eqb_spec (a i) target) as [He|He].
    + left. exists i. rewrite u32_small by lia. repeat split; try lia; done.
    + destruct (IH (i + 1) ltac:(lia) ltac:(lia)) as [(j & Hj & Ha & Hl & Hr)|[Hn Hr]].
      * left. exists j. repeat split; try lia; try done.
        intros k Hk. destruct (Z.eq_dec k i) as [->|]; [done|]. apply Hl. lia.
      * right. split; [|done]. intros k Hk.
        destruct (Z.eq_dec k i) as [->|]; [done|]. apply Hn. lia.
Qed.

(** the AVX2 and the AVX-512 linear searches return the least index below
    [count] at which the array holds the target, and [UINT32_MAX] exactly when
    no element equals it. *)
Theorem simd_linear_search_first has_avx512 a count target :
  0 <= count < 4294967296 ->
  (exists j, 0 <= j < count /\ a j = target /\
     (forall k, 0 <= k < j -> a k <> target) /\
     simd_find_key_i64 has_avx512 a count target = j) \/
  ((forall k, 0 <= k < count -> a k <> target) /\
   simd_find_key_i64 has_avx512 a count target = UINT32_MAX).
Proof.
  intros Hc.
  assert (Heq : simd_find_key_i64 has_avx512 a count target
                = scalar_tail (Z.to_nat count) a 0 target).
  { destruct has_avx512; cbn [simd_find_key_i64];
      [unfold avx512_linear_search_i64; rewrite avx512_loop_scalar by lia
      |unfold avx2_linear_search_i64; rewrite avx2_loop_scalar by lia];
      by rewrite Z.sub_0_r. }
  rewrite Heq.
  destruct (scalar_tail_spec (Z.to_nat count) a 0 target ltac:(lia) ltac:(lia))
    as [(j & Hj & Ha & Hl & Hr)|[Hn Hr]].
  - left. exists j. repeat split; try lia; done.
  - right. split; [|done]. intros. apply Hn. lia.
Qed.

Lemma simd_linear_search_first_witness :
  (0 <= 9 < 4294967296) /\
  ((exists j, 0 <= j < 9 /\ j * j = 49 /\
     (forall k, 0 <= k < j -> k * k <> 49) /\
     simd_find_key_i64 false (fun i => i * i) 9 49 = j) \/
   ((forall k, 0 <= k < 9 -> k * k <> 49) /\
    simd_find_key_i64 false (fun i => i * i) 9 49 = UINT32_MAX)).
Proof.
  split; [lia|]. apply (simd_linear_search_first false (fun i => i * i) 9 49). lia.
Defined.
