(* ===== verification/Arena.v ===== *)
(** Memory foundations: the constants and helpers of
    src/core/include/core/types.hpp and the bump allocator of
    src/core/include/core/arena.hpp and src/core/src/arena.cpp.

    Addresses are [Z] (0 is [nullptr]); [mmap] is the operating system's, so
    [init] takes the results of its two calls.  The main theorem: whatever
    sequence of requests is made, the regions handed out lie inside the mapped
    block, are aligned, and never overlap. *)

From S2P Require Import Prelude.

(** ** types.hpp *)
Definition CACHE_LINE_SIZE : Z := 64.
Definition HUGE_PAGE_SIZE : Z := 2 * 1024 * 1024.
Definition DEFAULT_ARENA_SIZE : Z := 2 * 1024 * 1024 * 1024.
Definition MAX_BOTS : Z := 131072.

(** Raw latency sample pushed through the telemetry ring. *)
Record LatencySample := {
  send_tsc : Z; recv_tsc : Z; bot_id : Z; seq_num : Z }.

Definition align_up (value alignment : Z) : Z :=
  Z.land (u64 (value + alignment - 1)) (u64 (Z.lnot (alignment - 1))).

Definition is_power_of_2 (n : Z) : bool :=
  (0 <? n) && (Z.land n (n - 1) =? 0).

Lemma land_u64_r x m : 0 <= x < 2 ^ 64 -> Z.land x (u64 m) = Z.land x m.
Proof.
  intros Hx. unfold u64. change 18446744073709551616 with (2 ^ 64).
  rewrite <- Z.land_ones by lia. rewrite (Z.land_comm m), Z.land_assoc.
  rewrite Z.land_ones by lia. by rewrite Z.mod_small.
Qed.

Lemma align_up_eq value k :
  0 <= k <= 63 -> 0 <= value -> value + 2 ^ k <= 2 ^ 64 ->
  align_up value (2 ^ k) = (value + 2 ^ k - 1) / 2 ^ k * 2 ^ k.
Proof.
  intros Hk Hv Hs. assert (0 < 2 ^ k) by (apply Z.pow_pos_nonneg; lia).
  unfold align_up. rewrite u64_small by lia.
  rewrite land_u64_r by lia. rewrite <- Z.ldiff_land.
  replace (2 ^ k - 1) with (Z.ones k) by (rewrite Z.ones_equiv; lia).
  rewrite Z.ldiff_ones_r by lia.
  by rewrite Z.shiftr_div_pow2, Z.shiftl_mul_pow2 by lia.
Qed.

(** [align_up] rounds up to the least multiple of a power-of-two alignment,
    as long as the sum fits in [size_t]. *)
Lemma align_up_spec value k :
  0 <= k <= 63 -> 0 <= value -> value + 2 ^ k <= 2 ^ 64 ->
  (2 ^ k | align_up value (2 ^ k)) /\
  value <= align_up value (2 ^ k) < value + 2 ^ k.
Proof.
  intros Hk Hv Hs. rewrite align_up_eq by assumption.
  assert (Hp : 0 < 2 ^ k) by (apply Z.pow_pos_nonneg; lia).
  split; [by exists ((value + 2 ^ k - 1) / 2 ^ k)|].
  pose proof (Z.div_mod (value + 2 ^ k - 1) (2 ^ k)).
  pose proof (Z.mod_pos_bound (value + 2 ^ k - 1) (2 ^ k)). lia.
Qed.

Lemma is_power_of_2_pow k : 0 <= k -> is_power_of_2 (2 ^ k) = true.
Proof.
  intros Hk. unfold is_power_of_2.
  assert (0 < 2 ^ k) by (apply Z.pow_pos_nonneg; lia).
  rewrite land_mask, Z.mod_same by lia.
  destruct (Z.ltb_spec 0 (2 ^ k)); [done|lia].
Qed.

(** ** The arena *)
Module HugePageArena.

Record t := {
  base_ : Z;                (* 0 = nullptr *)
  size_ : Z;
  offset_ : Z;
  hugepage_backed_ : bool }.

Definition new : t :=
  {| base_ := 0; size_ := 0; offset_ := 0; hugepage_backed_ := false |}.

(** [init]: the results of the huge-page and of the fallback [mmap] are
    arguments ([None] is [MAP_FAILED]). *)
Definition init (a : t) (size : Z) (huge_ptr regular_ptr : option Z) : bool * t :=
  if negb (base_ a =? 0) then (hugepage_backed_ a, a)
  else
    let size := align_up size HUGE_PAGE_SIZE in
    match huge_ptr with
    | Some ptr =>
        (true, {| base_ := ptr; size_ := size; offset_ := 0;
                  hugepage_backed_ := true |})
    | None =>
        match regular_ptr with
        | None => (false, a)
        | Some ptr =>
            (false, {| base_ := ptr; size_ := size; offset_ := 0;
                       hugepage_backed_ := false |})
        end
    end.

(** [allocate_raw]: [None] is [nullptr] on exhaustion. *)
Definition allocate_raw (a : t) (bytes alignment : Z) : option Z * t :=
  let alignment := if alignment <? CACHE_LINE_SIZE then CACHE_LINE_SIZE
                   else alignment in
  let aligned_offset := align_up (offset_ a) alignment in
  if size_ a <? u64 (aligned_offset + bytes) then (None, a)
  else (Some (base_ a + aligned_offset),
        {| base_ := base_ a; size_ := size_ a;
           offset_ := u64 (aligned_offset + bytes);
           hugepage_backed_ := hugepage_backed_ a |}).

(** [allocate<T>(count)] for a type of [sizeof_T] bytes aligned to [alignof_T]. *)
Definition allocate (a : t) (sizeof_T alignof_T count : Z) : option Z * t :=
  allocate_raw a (u64 (sizeof_T * count))
    (if alignof_T <? CACHE_LINE_SIZE then CACHE_LINE_SIZE else alignof_T).

Definition reset (a : t) : t :=
  {| base_ := base_ a; size_ := size_ a; offset_ := 0;
     hugepage_backed_ := hugepage_backed_ a |}.

Definition capacity (a : t) : Z := size_ a.
Definition used (a : t) : Z := offset_ a.
Definition remaining (a : t) : Z := u64 (size_ a - offset_ a).
Definition is_initialized (a : t) : bool := negb (base_ a =? 0).

(** A run of requests [(bytes, alignment)]; every one is made, as the
    [init] functions of the components do before they test the pointers. *)
Fixpoint allocate_all (a : t) (reqs : list (Z * Z)) : list (option Z) * t :=
  match reqs with
  | [] => ([], a)
  | (bytes, al) :: reqs =>
      let '(p, a) := allocate_raw a bytes al in
      let '(ps, a) := allocate_all a reqs in (p :: ps, a)
  end.

Definition all_some (ps : list (option Z)) : bool := forallb (fun p => bool_decide (is_Some p)) ps.

(** *** Invariant and theorems *)

Record ok (a : t) : Prop := {
  ok_offset : 0 <= offset_ a <= size_ a;
  ok_size : size_ a < 2 ^ 62;
  ok_base : 0 < base_ a }.

(** A request whose size and alignment are those of real objects. *)
Definition sane (r : Z * Z) : Prop :=
  0 <= r.1 < 2 ^ 62 /\ exists k, 0 <= k <= 20 /\ r.2 = 2 ^ k.

Definition eff_align (al : Z) : Z := if al <? CACHE_LINE_SIZE then CACHE_LINE_SIZE else al.

Lemma eff_align_pow r : sane r -> exists k, 6 <= k <= 20 /\ eff_align r.2 = 2 ^ k.
Proof.
  intros [_ (k & Hk & ->)]. unfold eff_align, CACHE_LINE_SIZE.
  destruct (Z.ltb_spec (2 ^ k) 64) as [Hl|Hl].
  - exists 6. split; [lia|done].
  - exists k. split; [|done]. split; [|lia].
    destruct (Z.le_gt_cases 6 k); [done|].
    assert (2 ^ k < 2 ^ 6) by (apply Z.pow_lt_mono_r; lia). lia.
Qed.

(** What one successful request returns, and that a failed one changes nothing. *)
Lemma allocate_raw_spec a r p a' :
  ok a -> sane r -> allocate_raw a r.1 r.2 = (p, a') ->
  ok a' /\ base_ a' = base_ a /\ size_ a' = size_ a /\
  match p with
  | None => a' = a
  | Some q => base_ a + offset_ a <= q /\ q + r.1 = base_ a + offset_ a' /\
              (eff_align r.2 | q - base_ a)
  end.
Proof.
  intros Hok Hs Heq. destruct (eff_align_pow r Hs) as (k & Hk & Hal).
  destruct Hs as [Hb _]. destruct Hok as [Ho Hsz Hba].
  assert (Hp : 0 < 2 ^ k <= 2 ^ 20)
    by (split; [apply Z.pow_pos_nonneg; lia|apply Z.pow_le_mono_r; lia]).
  pose proof (align_up_spec (offset_ a) k) as Hau.
  unfold allocate_raw in Heq. fold (eff_align r.2) in Heq. rewrite Hal in *.
  destruct Hau as [Hd Hr]; try lia.
  rewrite u64_small in Heq by lia.
  destruct (Z.ltb_spec (size_ a) (align_up (offset_ a) (2 ^ k) + r.1));
    injection Heq as <- <-.
  - repeat split; (lia || done).
  - cbn. split; [split; cbn; lia|]. do 2 (split; [done|]). do 2 (split; [lia|]).
    by replace (base_ a + align_up (offset_ a) (2 ^ k) - base_ a)
      with (align_up (offset_ a) (2 ^ k)) by lia.
Qed.

(** The regions [(pointer, bytes)] a run of requests hands out. *)
Fixpoint regions (ps : list (option Z)) (reqs : list (Z * Z)) : list (Z * Z) :=
  match ps, reqs with
  | Some q :: ps, r :: reqs => (q, r.1) :: regions ps reqs
  | None :: ps, _ :: reqs => regions ps reqs
  | _, _ => []
  end.

Definition disjoint2 (r1 r2 : Z * Z) : Prop :=
  r1.1 + r1.2 <= r2.1 \/ r2.1 + r2.2 <= r1.1.

(** All regions start at or after [lo], end at or before [hi], and each ends
    before the next one starts. *)
Fixpoint laid_out (lo hi : Z) (rs : list (Z * Z)) : Prop :=
  match rs with
  | [] => lo <= hi
  | r :: rs => lo <= r.1 /\ 0 <= r.2 /\ laid_out (r.1 + r.2) hi rs
  end.

Lemma laid_out_weaken lo lo' hi rs : lo' <= lo -> laid_out lo hi rs -> laid_out lo' hi rs.
Proof. destruct rs; simpl; intros; [lia|]. intuition lia. Qed.

Lemma laid_out_bound lo hi rs r : laid_out lo hi rs -> r ∈ rs -> lo <= r.1 /\ r.1 + r.2 <= hi.
Proof.
  revert lo. induction rs as [|s rs IH]; intros lo Hl Hr; [by apply not_elem_of_nil in Hr|].
  destruct Hl as (H1 & H2 & Hl). apply elem_of_cons in Hr as [->|Hr].
  - split; [lia|]. clear IH H1. revert s Hl H2.
    induction rs as [|u rs IH]; intros s Hl H2; simpl in *; [lia|].
    destruct Hl as (? & ? & Hl). specialize (IH u Hl ltac:(lia)). lia.
  - specialize (IH _ Hl Hr). lia.
Qed.

Lemma laid_out_disjoint lo hi rs i j r s :
  laid_out lo hi rs -> (i < j)%nat -> rs !! i = Some r -> rs !! j = Some s -> disjoint2 r s.
Proof.
  revert lo i j. induction rs as [|u rs IH]; intros lo i j Hl Hij Hi Hj; [done|].
  destruct Hl as (H1 & H2 & Hl). destruct i as [|i], j as [|j]; try lia; simpl in *.
  - injection Hi as ->. left.
    apply list_elem_of_lookup_2 in Hj. by apply (laid_out_bound _ _ _ _ Hl Hj).
  - eapply (IH _ i j); eauto; lia.
Qed.

Lemma allocate_all_laid_out a reqs ps a' :
  ok a -> Forall sane reqs -> allocate_all a reqs = (ps, a') ->
  ok a' /\ base_ a' = base_ a /\ size_ a' = size_ a /\
  laid_out (base_ a + offset_ a) (base_ a + offset_ a') (regions ps reqs).
Proof.
  revert a ps a'. induction reqs as [|r reqs IH]; intros a ps a' Hok Hs Heq; simpl in Heq.
  { injection Heq as <- <-. repeat split; try apply Hok; simpl; lia. }
  apply Forall_cons in Hs as [Hr Hs]. destruct r as [bytes al].
  destruct (allocate_raw a bytes al) as [p a1] eqn:E1.
  destruct (allocate_all a1 reqs) as [ps' a2] eqn:E2. injection Heq as <- <-.
  destruct (allocate_raw_spec a (bytes, al) p a1 Hok Hr E1) as (Hok1 & Hb & Hsz & Hp).
  destruct (IH a1 ps' a2 Hok1 Hs E2) as (Hok2 & Hb2 & Hsz2 & Hl).
  split; [done|]. split; [congruence|]. split; [congruence|].
  destruct p as [q|]; simpl.
  - destruct Hp as (Hp1 & Hp2 & _). destruct Hr as [Hr _]. simpl in *.
    repeat split; try lia. rewrite Hp2, <- Hb. done.
  - subst a1. done.
Qed.

(** whatever sane requests are made to an initialised arena, the regions it
    hands out lie inside the mapped block and are pairwise disjoint, and the
    allocator stays within its block. *)
Theorem arena_regions_disjoint a reqs ps a' i j r s :
  ok a -> Forall sane reqs -> allocate_all a reqs = (ps, a') ->
  regions ps reqs !! i = Some r -> regions ps reqs !! j = Some s -> i <> j ->
  disjoint2 r s /\ base_ a <= r.1 /\ r.1 + r.2 <= base_ a + size_ a /\ ok a'.
Proof.
  intros Hok Hs Heq Hi Hj Hne.
  destruct (allocate_all_laid_out a reqs ps a' Hok Hs Heq) as (Hok' & Hb & Hsz & Hl).
  pose proof (laid_out_bound _ _ _ r Hl (list_elem_of_lookup_2 _ _ _ Hi)) as Hr.
  destruct Hok as [Ho _ _]. pose proof (ok_offset _ Hok') as Ho'.
  split; [|repeat split; try lia; apply Hok'].
  destruct (decide (i < j)%nat).
  - eapply laid_out_disjoint; eauto.
  - assert (disjoint2 s r) as [?|?] by (eapply (laid_out_disjoint _ _ _ j i); eauto; lia);
      [by right|by left].
Qed.

Lemma arena_regions_disjoint_witness :
  let a := {| base_ := 4096; size_ := 2097152; offset_ := 0; hugepage_backed_ := true |} in
  let reqs := [(100, 8); (64, 128)] in
  (ok a /\ Forall sane reqs) /\
  disjoint2 (4096, 100) (4096 + 128, 64) /\ base_ a <= 4096 /\
  4096 + 100 <= base_ a + size_ a /\ ok (snd (allocate_all a reqs)).
Proof.
  intros a reqs.
  assert (Hok : ok a) by (split; cbn; lia).
  assert (Hs : Forall sane reqs).
  { repeat constructor; cbn; try lia; [exists 3|exists 7]; split; (lia || done). }
  split; [done|].
  apply (arena_regions_disjoint a reqs (fst (allocate_all a reqs))
           (snd (allocate_all a reqs)) 0 1 (4096, 100) (4096 + 128, 64));
    try done; vm_compute; reflexivity.
Defined.

End HugePageArena.
