(* ===== verification/PriceMap.v ===== *)
(** The price-to-level hash map of src/exchange/include/exchange/orderbook.hpp
    ([struct PriceHashMap]): Robin Hood open addressing over [8192] slots with
    one-byte probe distances, AVX2 group probing on lookup and backward-shift
    deletion.

    The [while (true)] loops are fuelled; [None] is a loop that has not
    returned after visiting every slot.  The invariant [rh] is the Robin Hood
    order stated slot by slot; under it every operation returns and behaves as
    the finite map [has]. *)

From S2P Require Import Prelude Arena Simd.

Definition NULL_INDEX : Z := UINT32_MAX.
Definition PRICE_MAP_CAPACITY : Z := 8192.
Definition PRICE_MAP_MASK : Z := PRICE_MAP_CAPACITY - 1.

Module PriceHashMap.

Record t := { keys : arr Z; values : arr Z; distances : arr Z }.

(** [clear]: keys and distances to 0, values to [0xFF] bytes. *)
Definition clear (m : t) : t :=
  {| keys := fun _ => 0; values := fun _ => NULL_INDEX; distances := fun _ => 0 |}.

(** [init]: three arena arrays, then [clear]. *)
Definition init (arena : HugePageArena.t) (m : t) : bool * HugePageArena.t * t :=
  let '(k, arena) := HugePageArena.allocate arena 8 8 PRICE_MAP_CAPACITY in
  let '(v, arena) := HugePageArena.allocate arena 4 4 PRICE_MAP_CAPACITY in
  let '(d, arena) := HugePageArena.allocate arena 1 1 PRICE_MAP_CAPACITY in
  if HugePageArena.all_some [k; v; d] then (true, arena, clear m)
  else (false, arena, m).

(** Fibonacci hash. *)
Definition hash (price : Z) : Z :=
  Z.land (u32 (Z.shiftr (u64 (u64 price * 0x9E3779B97F4A7C15)) 51)) PRICE_MAP_MASK.

(** One visit to every slot is the most any loop below can need. *)
Definition FUEL : nat := Z.to_nat PRICE_MAP_CAPACITY.

Definition slot_empty (m : t) (slot : Z) : bool :=
  (distances m slot =? 0) && (keys m slot =? 0).

Definition next_slot (slot : Z) : Z := Z.land (u32 (slot + 1)) PRICE_MAP_MASK.

(** The scalar probe loop of [find]. *)
Fixpoint find_scalar (fuel : nat) (m : t) (price slot dist : Z) : option Z :=
  match fuel with
  | O => None
  | S fuel =>
      if slot_empty m slot then Some NULL_INDEX
      else if distances m slot <? dist then Some NULL_INDEX
      else if keys m slot =? price then Some (values m slot)
      else find_scalar fuel m price (next_slot slot) (u8 (dist + 1))
  end.

(** The termination test of one group of four slots. *)
Definition group_stops (m : t) (slot dist : Z) : bool :=
  existsb (fun i => slot_empty m (slot + i) || (distances m (slot + i) <? dist + i))
    [0; 1; 2; 3].

(** The AVX2 probe loop of [find]; it falls through to the scalar loop when
    fewer than four slots are left before the end of the arrays. *)
Fixpoint find_avx2 (fuel : nat) (m : t) (price slot dist : Z) : option Z :=
  if slot + 4 <=? PRICE_MAP_CAPACITY then
    match fuel with
    | O => None
    | S fuel =>
        let mask := avx2_find_key_i64 (keys m) slot price in
        if negb (mask =? 0) then
          Some (values m (slot + avx2_first_match_index_i64 mask))
        else if group_stops m slot dist then Some NULL_INDEX
        else find_avx2 fuel m price (Z.land (slot + 4) PRICE_MAP_MASK) (u8 (dist + 4))
    end
  else find_scalar FUEL m price slot dist.

Definition find (m : t) (price : Z) : option Z := find_avx2 FUEL m price (hash price) 0.

Definition place (m : t) (slot k v d : Z) : t :=
  {| keys := (keys m).[slot <- k]; values := (values m).[slot <- v];
     distances := (distances m).[slot <- d] |}.

Fixpoint insert_loop (fuel : nat) (m : t) (slot cur_key cur_val dist : Z) : option t :=
  match fuel with
  | O => None
  | S fuel =>
      if slot_empty m slot then Some (place m slot cur_key cur_val dist)
      else if distances m slot <? dist then
        (* Robin Hood: the carried entry takes the slot of a richer one *)
        insert_loop fuel (place m slot cur_key cur_val dist) (next_slot slot)
          (keys m slot) (values m slot) (u8 (distances m slot + 1))
      else insert_loop fuel m (next_slot slot) cur_key cur_val (u8 (dist + 1))
  end.

Definition insert (m : t) (price level_idx : Z) : option t :=
  insert_loop FUEL m (hash price) price level_idx 1.

(** First loop of [remove]: [Some (Some slot)] when found. *)
Fixpoint remove_search (fuel : nat) (m : t) (price slot : Z) : option (option Z) :=
  match fuel with
  | O => None
  | S fuel =>
      if keys m slot =? price then Some (Some slot)
      else if slot_empty m slot then Some None
      else remove_search fuel m price (next_slot slot)
  end.

(** Second loop: backward-shift deletion. *)
Fixpoint remove_shift (fuel : nat) (m : t) (slot : Z) : option t :=
  match fuel with
  | O => None
  | S fuel =>
      let next := next_slot slot in
      if distances m next <=? 1 then Some (place m slot 0 NULL_INDEX 0)
      else remove_shift fuel
             (place m slot (keys m next) (values m next) (u8 (distances m next - 1))) next
  end.

Definition remove (m : t) (price : Z) : option t :=
  match remove_search FUEL m price (hash price) with
  | None => None
  | Some None => Some m
  | Some (Some slot) => remove_shift FUEL m slot
  end.

(** ** Slots modulo the capacity *)

Lemma hash_range price : 0 <= hash price < PRICE_MAP_CAPACITY.
Proof.
  unfold hash, PRICE_MAP_MASK, PRICE_MAP_CAPACITY.
  change (8192 - 1) with (2 ^ 13 - 1). rewrite land_mask by lia.
  apply Z.mod_pos_bound. lia.
Qed.

(** [at_ b i] is the slot [i] steps after [b]. *)
Definition at_ (b i : Z) : Z := (b + i) mod PRICE_MAP_CAPACITY.

Lemma at_range b i : 0 <= at_ b i < PRICE_MAP_CAPACITY.
Proof. apply Z.mod_pos_bound. reflexivity. Qed.

Lemma at_0 b : 0 <= b < PRICE_MAP_CAPACITY -> at_ b 0 = b.
Proof. intros. unfold at_. rewrite Z.add_0_r. by apply Z.mod_small. Qed.

Lemma at_at b i j : at_ (at_ b i) j = at_ b (i + j).
Proof. unfold at_. rewrite Zplus_mod_idemp_l. f_equal. lia. Qed.

Lemma at_inj b i j :
  at_ b i = at_ b j -> - PRICE_MAP_CAPACITY < i - j < PRICE_MAP_CAPACITY -> i = j.
Proof.
  unfold at_, PRICE_MAP_CAPACITY. intros H Hd.
  pose proof (Z.div_mod (b + i) 8192). pose proof (Z.div_mod (b + j) 8192). lia.
Qed.

(** Every slot is some number of steps, less than the capacity, after any other. *)
Lemma at_surj b s :
  0 <= s < PRICE_MAP_CAPACITY ->
  exists i, 0 <= i < PRICE_MAP_CAPACITY /\ at_ b i = s.
Proof.
  intros Hs. exists ((s - b) mod PRICE_MAP_CAPACITY).
  split; [apply Z.mod_pos_bound; reflexivity|].
  unfold at_. rewrite Zplus_mod_idemp_r. replace (b + (s - b)) with s by lia.
  by apply Z.mod_small.
Qed.

Lemma next_slot_at s : 0 <= s < PRICE_MAP_CAPACITY -> next_slot s = at_ s 1.
Proof.
  intros Hs. unfold next_slot, PRICE_MAP_MASK, at_, PRICE_MAP_CAPACITY in *.
  rewrite u32_small by lia. change (8192 - 1) with (2 ^ 13 - 1).
  rewrite land_mask by lia. reflexivity.
Qed.

Lemma next_slot_step b i : next_slot (at_ b i) = at_ b (i + 1).
Proof. rewrite next_slot_at by apply at_range. apply at_at. Qed.

(** ** The invariant *)

(** The longest probe distance for which no one-byte counter of the code wraps. *)
Definition DMAX : Z := 250.

Record rh (m : t) : Prop := {
  rh_bound : forall s, 0 <= distances m s <= DMAX;
  rh_empty : forall s, distances m s = 0 -> keys m s = 0 /\ values m s = NULL_INDEX;
  rh_home : forall s, 0 <= s < PRICE_MAP_CAPACITY -> 0 < distances m s ->
    s = at_ (hash (keys m s)) (distances m s - 1);
  rh_step : forall s, 0 <= s < PRICE_MAP_CAPACITY ->
    distances m (at_ s 1) <= distances m s + 1 }.

(** Slot [s] holds an entry. *)
Definition occ (m : t) (s : Z) : Prop :=
  0 <= s < PRICE_MAP_CAPACITY /\ 0 < distances m s.

(** No key is stored twice, slot [x] (a stale copy during deletion) apart. *)
Definition uniq_but (x : Z) (m : t) : Prop :=
  forall s1 s2, s1 <> x -> s2 <> x -> occ m s1 -> occ m s2 ->
    keys m s1 = keys m s2 -> s1 = s2.

(** Contents, slot [x] apart. *)
Definition has_but (x : Z) (m : t) (k v : Z) : Prop :=
  exists s, s <> x /\ occ m s /\ keys m s = k /\ values m s = v.

(** The finite map the table stands for; [-1] is no slot. *)
Definition has (m : t) (k v : Z) : Prop := has_but (-1) m k v.

Record ok (m : t) : Prop := {
  ok_rh : rh m;
  ok_uniq : uniq_but (-1) m;
  ok_hole : exists s, 0 <= s < PRICE_MAP_CAPACITY /\ distances m s = 0 }.

Lemma slot_empty_spec m s : rh m -> slot_empty m s = true <-> distances m s = 0.
Proof.
  intros Hr. unfold slot_empty. rewrite andb_true_iff, !Z.eqb_eq.
  pose proof (rh_empty _ Hr s). tauto.
Qed.

Lemma slot_empty_false m s : rh m -> 0 < distances m s -> slot_empty m s = false.
Proof.
  intros Hr Hd. apply not_true_iff_false. rewrite slot_empty_spec by done. lia.
Qed.

Lemma slot_empty_true m s : rh m -> distances m s = 0 -> slot_empty m s = true.
Proof. intros. by apply slot_empty_spec. Qed.

(** Walking back from a slot at distance [d], distances fall by at most one. *)
Lemma rh_back m b n j :
  rh m -> 0 <= j -> 0 <= n -> distances m (at_ b (n + j)) <= distances m (at_ b n) + j.
Proof.
  intros Hr Hj Hn. revert Hj. apply (natlike_ind (fun j =>
    distances m (at_ b (n + j)) <= distances m (at_ b n) + j)).
  - rewrite Z.add_0_r. lia.
  - intros x Hx IH. pose proof (rh_step m Hr (at_ b (n + x)) (at_range _ _)) as H.
    rewrite at_at in H. replace (n + Z.succ x) with (n + x + 1) by lia. lia.
Qed.

(** The probe path of a stored key is occupied, with distances above the offset. *)
Lemma probe_path m s q :
  rh m -> occ m s -> 0 <= q < distances m s ->
  q + 1 <= distances m (at_ (hash (keys m s)) q).
Proof.
  intros Hr [Hs Hd] Hq. pose proof (rh_home m Hr s Hs Hd) as Hh.
  pose proof (rh_back m (hash (keys m s)) q (distances m s - 1 - q) Hr ltac:(lia) ltac:(lia)) as Hb.
  replace (q + (distances m s - 1 - q)) with (distances m s - 1) in Hb by lia.
  rewrite <- Hh in Hb. lia.
Qed.

(** ** Lookup *)

Lemma FUEL_value : Z.of_nat FUEL = 8192.
Proof. unfold FUEL. rewrite Z2Nat.id; reflexivity || (unfold PRICE_MAP_CAPACITY; lia). Qed.
#[global] Opaque FUEL.

Lemma find_scalar_present m s fuel p :
  ok m -> occ m s -> 0 <= p <= distances m s - 1 ->
  distances m s - 1 - p < Z.of_nat fuel ->
  find_scalar fuel m (keys m s) (at_ (hash (keys m s)) p) p = Some (values m s).
Proof.
  intros Hok Hocc. destruct Hok as [Hr Hu _]. revert p.
  pose proof (rh_bound m Hr s) as Hb. unfold DMAX in Hb.
  induction fuel as [|fuel IH]; intros p Hp Hf; [lia|].
  pose proof (probe_path m s p Hr Hocc ltac:(lia)) as Hpath.
  cbn [find_scalar]. rewrite slot_empty_false by (done || lia).
  rewrite (proj2 (Z.ltb_ge _ _)) by lia.
  destruct (Z.eqb_spec (keys m (at_ (hash (keys m s)) p)) (keys m s)) as [Hk|Hk].
  - f_equal. f_equal. apply Hu; try done; try (pose proof (at_range (hash (keys m s)) p); lia).
    + destruct Hocc; lia.
    + split; [apply at_range|lia].
  - rewrite next_slot_step, u8_small by lia.
    destruct (Z.eq_dec p (distances m s - 1)) as [->|Hne].
    + exfalso. apply Hk. by rewrite <- (rh_home m Hr s (proj1 Hocc) (proj2 Hocc)).
    + apply IH; lia.
Qed.

Lemma group_slot b p i :
  at_ b p + 4 <= PRICE_MAP_CAPACITY -> 0 <= i < 4 -> at_ b p + i = at_ b (p + i).
Proof.
  intros H Hi. rewrite <- at_at. unfold at_ at 2.
  pose proof (at_range b p). by rewrite Z.mod_small by lia.
Qed.

Lemma group_next b p :
  at_ b p + 4 <= PRICE_MAP_CAPACITY ->
  Z.land (at_ b p + 4) PRICE_MAP_MASK = at_ b (p + 4).
Proof.
  intros. unfold PRICE_MAP_MASK, PRICE_MAP_CAPACITY. change (8192 - 1) with (2 ^ 13 - 1).
  rewrite land_mask by lia. rewrite <- at_at. reflexivity.
Qed.

Lemma group_stops_false m slot dist :
  rh m -> (forall i, 0 <= i < 4 -> dist + i <= distances m (slot + i) /\ 0 < distances m (slot + i)) ->
  group_stops m slot dist = false.
Proof.
  intros Hr H. unfold group_stops. apply not_true_iff_false. rewrite existsb_exists.
  intros (i & Hi & Hs). assert (0 <= i < 4) as Hi4.
  { repeat (destruct Hi as [<-|Hi]; [lia|]). destruct Hi. }
  destruct (H i Hi4) as [H1 H2]. rewrite slot_empty_false in Hs by done.
  rewrite (proj2 (Z.ltb_ge _ _)) in Hs by lia. discriminate.
Qed.

Lemma group_stops_true m slot dist :
  group_stops m slot dist = false ->
  forall i, 0 <= i < 4 -> dist + i <= distances m (slot + i).
Proof.
  intros H i Hi. destruct (Z.le_gt_cases (dist + i) (distances m (slot + i))); [done|].
  exfalso. apply not_true_iff_false in H. apply H. unfold group_stops.
  apply existsb_exists. exists i. split.
  - assert (i = 0 \/ i = 1 \/ i = 2 \/ i = 3) as [->|[->|[->| ->]]] by lia; simpl; tauto.
  - rewrite (proj2 (Z.ltb_lt _ _)) by lia. apply orb_true_r.
Qed.

Lemma find_avx2_present m s fuel p :
  ok m -> occ m s -> 0 <= p <= distances m s - 1 ->
  distances m s - 1 - p < 4 * Z.of_nat fuel ->
  find_avx2 fuel m (keys m s) (at_ (hash (keys m s)) p) p = Some (values m s).
Proof.
  intros Hok Hocc. pose proof (ok_rh _ Hok) as Hr. revert p.
  pose proof (rh_bound m Hr s) as Hb. unfold DMAX in Hb.
  set (h := hash (keys m s)).
  assert (Hhome : s = at_ h (distances m s - 1)) by (apply (rh_home m Hr s); apply Hocc).
  assert (Hkey : forall q, 0 <= q <= distances m s - 1 -> keys m (at_ h q) = keys m s ->
                 at_ h q = s).
  { intros q Hq Hk. pose proof (probe_path m s q Hr Hocc ltac:(lia)) as Hpp.
    fold h in Hpp. pose proof (at_range h q). destruct Hocc.
    apply (ok_uniq m Hok); try done; try lia; split; try done; lia. }
  induction fuel as [|fuel IH]; intros p Hp Hf; [lia|].
  cbn [find_avx2]. destruct (Z.leb_spec (at_ h p + 4) PRICE_MAP_CAPACITY) as [Hw|Hw];
    [|apply find_scalar_present; [done|done|lia|]; rewrite FUEL_value; lia].
  destruct (avx2_group_spec (keys m) (at_ h p) (keys m s))
    as [[-> Hno]|(Hm & f & Hf4 & Hidx & Hkf & Hbefore)].
  - cbn [Z.eqb negb].
    assert (Hr4 : p + 4 <= distances m s - 1).
    { destruct (Z.le_gt_cases (p + 4) (distances m s - 1)); [done|]. exfalso.
      apply (Hno (distances m s - 1 - p) ltac:(lia)). rewrite group_slot by lia.
      replace (p + (distances m s - 1 - p)) with (distances m s - 1) by lia.
      by rewrite <- Hhome. }
    rewrite group_stops_false; [|done|].
    + rewrite group_next, u8_small by lia. apply IH; lia.
    + intros i Hi. rewrite group_slot by lia.
      pose proof (probe_path m s (p + i) Hr Hocc ltac:(lia)) as Hpp. fold h in Hpp. lia.
  - rewrite (proj2 (Z.eqb_neq _ _)) by exact Hm. cbn [negb]. rewrite Hidx.
    f_equal. f_equal. rewrite group_slot in * by lia.
    destruct (Z.le_gt_cases (p + f) (distances m s - 1)); [apply Hkey; (lia || done)|].
    exfalso. apply (Hbefore (distances m s - 1 - p) ltac:(lia)).
    rewrite group_slot by lia.
    replace (p + (distances m s - 1 - p)) with (distances m s - 1) by lia.
    by rewrite <- Hhome.
Qed.

Lemma find_scalar_absent m k fuel p :
  ok m -> (forall s, occ m s -> keys m s <> k) -> 0 <= p <= 251 ->
  251 - p < Z.of_nat fuel ->
  find_scalar fuel m k (at_ (hash k) p) p = Some NULL_INDEX.
Proof.
  intros Hok Hno. pose proof (ok_rh _ Hok) as Hr. revert p.
  induction fuel as [|fuel IH]; intros p Hp Hf; [lia|]. cbn [find_scalar].
  destruct (slot_empty m (at_ (hash k) p)) eqn:He; [done|].
  destruct (Z.ltb_spec (distances m (at_ (hash k) p)) p); [done|].
  pose proof (rh_bound m Hr (at_ (hash k) p)) as Hb. unfold DMAX in Hb.
  destruct (Z.eqb_spec (keys m (at_ (hash k) p)) k) as [Hk|Hk].
  - exfalso. destruct (Z.eq_dec (distances m (at_ (hash k) p)) 0) as [H0|H0].
    + rewrite slot_empty_true in He; done.
    + apply (Hno (at_ (hash k) p)); [|done]. split; [apply at_range|lia].
  - rewrite next_slot_step, u8_small by lia. apply IH; lia.
Qed.

Lemma find_avx2_absent m k fuel p :
  ok m -> (forall s, occ m s -> keys m s <> k) -> 0 <= p <= 251 ->
  251 - p < 4 * Z.of_nat fuel ->
  find_avx2 fuel m k (at_ (hash k) p) p = Some NULL_INDEX.
Proof.
  intros Hok Hno. pose proof (ok_rh _ Hok) as Hr. revert p. set (h := hash k).
  induction fuel as [|fuel IH]; intros p Hp Hf; [lia|].
  cbn [find_avx2]. destruct (Z.leb_spec (at_ h p + 4) PRICE_MAP_CAPACITY) as [Hw|Hw];
    [|apply find_scalar_absent; [done|done|lia|]; rewrite FUEL_value; lia].
  destruct (avx2_group_spec (keys m) (at_ h p) k)
    as [[-> _]|(Hm & f & Hf4 & Hidx & Hkf & _)].
  - cbn [Z.eqb negb]. destruct (group_stops m (at_ h p) p) eqn:Hg; [done|].
    pose proof (group_stops_true _ _ _ Hg 3 ltac:(lia)) as H3.
    pose proof (rh_bound m Hr (at_ h p + 3)) as Hb. unfold DMAX in Hb.
    rewrite group_next, u8_small by lia. apply IH; lia.
  - rewrite (proj2 (Z.eqb_neq _ _)) by exact Hm. cbn [negb]. rewrite Hidx.
    rewrite group_slot in * by lia.
    pose proof (rh_bound m Hr (at_ h (p + f))).
    destruct (Z.eq_dec (distances m (at_ h (p + f))) 0) as [H0|H0].
    + by rewrite (proj2 (rh_empty m Hr _ H0)).
    + exfalso. apply (Hno (at_ h (p + f))); [|done]. split; [apply at_range|lia].
Qed.

(** Lookup is total and agrees with the contents. *)
Lemma find_has m k v : ok m -> has m k v -> find m k = Some v.
Proof.
  intros Hok (s & _ & Hocc & <- & <-). unfold find.
  rewrite <- (at_0 (hash (keys m s))) at 1 by apply hash_range.
  pose proof (rh_bound m (ok_rh _ Hok) s) as Hb. unfold DMAX in Hb.
  apply find_avx2_present; [done|done|destruct Hocc; lia|rewrite FUEL_value; lia].
Qed.

Lemma find_not_has m k : ok m -> (forall v, ~ has m k v) -> find m k = Some NULL_INDEX.
Proof.
  intros Hok Hno. unfold find.
  rewrite <- (at_0 (hash k)) at 1 by apply hash_range.
  apply find_avx2_absent; [done| |lia|rewrite FUEL_value; lia].
  intros s Hocc Hk. apply (Hno (values m s)). exists s.
  repeat split; try done; try apply Hocc. destruct Hocc. lia.
Qed.

(** ** Stores that keep the Robin Hood order *)

Lemma at_back s : 0 <= s < PRICE_MAP_CAPACITY -> at_ (at_ s 1) (-1) = s.
Proof. intros. rewrite at_at. by apply at_0. Qed.

Lemma at_fwd s : 0 <= s < PRICE_MAP_CAPACITY -> at_ (at_ s (-1)) 1 = s.
Proof. intros. rewrite at_at. by apply at_0. Qed.

Lemma at_ne s i : 0 <= s < PRICE_MAP_CAPACITY -> 0 < i < PRICE_MAP_CAPACITY -> at_ s i <> s.
Proof.
  intros Hs Hi H. rewrite <- (at_0 s Hs) in H at 2. apply at_inj in H; lia.
Qed.

(** The distance of slot [s] after a store at [slot]. *)
Lemma place_distances m slot k v d s :
  distances (place m slot k v d) s = if s =? slot then d else distances m s.
Proof. reflexivity. Qed.
Lemma place_keys m slot k v d s :
  keys (place m slot k v d) s = if s =? slot then k else keys m s.
Proof. reflexivity. Qed.
Lemma place_values m slot k v d s :
  values (place m slot k v d) s = if s =? slot then v else values m s.
Proof. reflexivity. Qed.

Ltac place_cases :=
  rewrite ?place_distances, ?place_keys, ?place_values in *;
  repeat match goal with
  | |- context [?x =? ?x] => rewrite Z.eqb_refl
  | H : context [?x =? ?x] |- _ => rewrite Z.eqb_refl in H
  | Hn : ?x <> ?y |- context [?x =? ?y] => rewrite (proj2 (Z.eqb_neq x y) Hn)
  | Hn : ?x <> ?y, H : context [?x =? ?y] |- _ => rewrite (proj2 (Z.eqb_neq x y) Hn) in H
  | |- context [?x =? ?y] => destruct (Z.eqb_spec x y); [try subst x|]
  | H : context [?x =? ?y] |- _ => destruct (Z.eqb_spec x y); [try subst x|]
  end.

Lemma rh_place m slot k v c :
  rh m -> 0 <= slot < PRICE_MAP_CAPACITY -> slot = at_ (hash k) (c - 1) ->
  1 <= c <= DMAX -> c <= distances m (at_ slot (-1)) + 1 ->
  distances m (at_ slot 1) <= c + 1 -> rh (place m slot k v c).
Proof.
  intros [Hb He Hh Hst] Hs Hhome Hc Hback Hfwd. split.
  - intros s. specialize (Hb s). place_cases; lia.
  - intros s H. place_cases; [lia|by apply He].
  - intros s Hsr H. place_cases; [done|by apply Hh].
  - intros s Hsr. specialize (Hst s Hsr). rewrite !place_distances.
    destruct (Z.eqb_spec (at_ s 1) slot) as [H1|H1], (Z.eqb_spec s slot) as [H2|H2];
      try lia.
    + rewrite <- H1, at_back in Hback by done. lia.
    + rewrite H2. lia.
Qed.

Lemma rh_clear m slot :
  rh m -> 0 <= slot < PRICE_MAP_CAPACITY -> distances m (at_ slot 1) <= 1 ->
  rh (place m slot 0 NULL_INDEX 0).
Proof.
  intros [Hb He Hh Hst] Hs Hfwd. split.
  - intros s. specialize (Hb s). unfold DMAX in *. place_cases; lia.
  - intros s H. place_cases; [done|by apply He].
  - intros s Hsr H. place_cases; [lia|by apply Hh].
  - intros s Hsr. specialize (Hst s Hsr). pose proof (Hb s). rewrite !place_distances.
    destruct (Z.eqb_spec (at_ s 1) slot) as [H1|H1], (Z.eqb_spec s slot) as [H2|H2];
      subst; lia.
Qed.

(** Contents after a store at [slot]: the new entry and everything else. *)
Lemma has_but_place x m slot k v c k' v' :
  0 <= slot < PRICE_MAP_CAPACITY -> 0 < c ->
  has_but x (place m slot k v c) k' v' <->
  (slot <> x /\ k' = k /\ v' = v) \/
  (exists s, s <> x /\ s <> slot /\ occ m s /\ keys m s = k' /\ values m s = v').
Proof.
  intros Hs Hc. unfold has_but, occ. split.
  - intros (s & Hx & [Hr Hd] & Hk & Hv). rewrite place_distances in Hd.
    rewrite place_keys in Hk. rewrite place_values in Hv.
    destruct (Z.eqb_spec s slot) as [->|]; [by left|right; eauto 10].
  - intros [(Hx & -> & ->)|(s & Hx & Hne & [Hr Hd] & Hk & Hv)].
    + exists slot. rewrite place_distances, place_keys, place_values, Z.eqb_refl. done.
    + exists s. rewrite place_distances, place_keys, place_values.
      rewrite (proj2 (Z.eqb_neq s slot)) by done. done.
Qed.

(** ** Insertion *)

Lemma insert_loop_spec fuel : forall m slot k v c j M,
  rh m -> uniq_but (-1) m -> 0 <= slot < PRICE_MAP_CAPACITY ->
  1 <= c <= M + 1 -> M + 1 <= DMAX -> slot = at_ (hash k) (c - 1) ->
  c <= distances m (at_ slot (-1)) + 1 ->
  (forall s, occ m s -> keys m s <> k) ->
  0 <= j < PRICE_MAP_CAPACITY -> distances m (at_ slot j) = 0 ->
  (forall i, 0 <= i <= j -> distances m (at_ slot i) <= M) ->
  j < Z.of_nat fuel ->
  exists m', insert_loop fuel m slot k v c = Some m' /\ rh m' /\ uniq_but (-1) m' /\
    (forall k' v', has m' k' v' <-> has m k' v' \/ (k' = k /\ v' = v)).
Proof.
  induction fuel as [|fuel IH];
    intros m slot k v c j M Hr Hu Hs Hc HM Hhome Hback Hno Hj Hhole Hbd Hf; [lia|].
  pose proof (Hbd 0 ltac:(lia)) as Hd0. rewrite at_0 in Hd0 by done.
  pose proof (rh_step m Hr slot Hs) as Hstep. pose proof (rh_bound m Hr slot) as Hb0.
  cbn [insert_loop]. destruct (slot_empty m slot) eqn:He.
  { apply slot_empty_spec in He; [|done]. eexists. split; [done|]. split; [|split].
    - apply rh_place; try done; lia.
    - intros s1 s2 _ _ [? H1] [? H2] Hk. place_cases; try done.
      + by destruct (Hno s2).
      + by destruct (Hno s1).
      + by apply Hu; try split; try lia.
    - intros k' v'. unfold has. rewrite has_but_place by lia. unfold has_but. split.
      + intros [(_ & -> & ->)|(s & ? & ? & ?)]; [by right|left; eauto].
      + intros [(s & Hx & Hocc & ?)|[-> ->]]; [right|left; split; [lia|done]].
        exists s. repeat split; try apply Hocc; try tauto.
        intros ->. destruct Hocc. lia. }
  assert (Hdpos : 0 < distances m slot).
  { destruct (Z.eq_dec (distances m slot) 0); [|lia]. by rewrite slot_empty_true in He. }
  assert (Hj1 : 1 <= j).
  { destruct (Z.eq_dec j 0) as [->|]; [|lia]. rewrite at_0 in Hhole by done. lia. }
  assert (Hocc : occ m slot) by done.
  rewrite next_slot_at by done.
  assert (Hmove : forall i, at_ (at_ slot 1) i = at_ slot (1 + i)) by (intros; apply at_at).
  destruct (Z.ltb_spec (distances m slot) c) as [Hlt|Hge].
  - rewrite u8_small by (unfold DMAX in *; lia).
    set (m1 := place m slot k v c).
    assert (Hne : forall i, 0 < i < PRICE_MAP_CAPACITY ->
              distances m1 (at_ slot i) = distances m (at_ slot i)).
    { intros i Hi. unfold m1. rewrite place_distances.
      by rewrite (proj2 (Z.eqb_neq _ _)) by (by apply at_ne). }
    destruct (IH m1 (at_ slot 1) (keys m slot) (values m slot) (distances m slot + 1) (j - 1) M)
      as (m' & Heq & Hr' & Hu' & Hhas); try lia; try apply at_range.
    + apply rh_place; try done; lia.
    + intros s1 s2 _ _ [? H1] [? H2] Hk. unfold m1 in *. place_cases; try done.
      * by destruct (Hno s2).
      * by destruct (Hno s1).
      * by apply Hu; try split; try lia.
    + rewrite (rh_home m Hr slot Hs Hdpos) at 1. rewrite at_at. f_equal. lia.
    + rewrite at_back by done. unfold m1. rewrite place_distances, Z.eqb_refl. lia.
    + intros s [Hsr Hsd] Hk. unfold m1 in *. place_cases.
      * by apply (Hno slot).
      * apply n. apply Hu; try lia; try done.
    + rewrite Hmove. replace (1 + (j - 1)) with j by lia. rewrite Hne by lia. done.
    + intros i Hi. rewrite Hmove. rewrite Hne by lia. apply Hbd. lia.
    + exists m'. split; [done|]. split; [done|]. split; [done|].
      intros k' v'. rewrite Hhas. unfold has, m1. rewrite has_but_place by lia.
      unfold has_but. split.
      * intros [[(_ & -> & ->)|(s & ? & ? & ?)]|[-> ->]];
          [by right|left; eauto|left; exists slot; repeat split; (lia || done)].
      * intros [(s & Hx & Hoc & Hk & Hv)|[-> ->]].
        -- destruct (Z.eq_dec s slot) as [->|]; [right; done|left; right; eauto 10].
        -- left; left. split; [lia|done].
  - rewrite u8_small by (unfold DMAX in *; lia).
    destruct (IH m (at_ slot 1) k v (c + 1) (j - 1) M) as (m' & Heq & H'); try lia; try done.
    + apply at_range.
    + rewrite Hhome at 1. rewrite at_at. f_equal. lia.
    + rewrite at_back by done. lia.
    + rewrite Hmove. replace (1 + (j - 1)) with j by lia. done.
    + intros i Hi. rewrite Hmove. apply Hbd. lia.
    + exists m'. done.
Qed.

(** No probe sequence has reached the last safe distance. *)
Definition probe_room (m : t) : Prop :=
  forall s, 0 <= s < PRICE_MAP_CAPACITY -> distances m s < DMAX.

Lemma insert_has m k v :
  ok m -> probe_room m -> (forall v', ~ has m k v') ->
  exists m', insert m k v = Some m' /\ rh m' /\ uniq_but (-1) m' /\
    (forall k' v', has m' k' v' <-> has m k' v' \/ (k' = k /\ v' = v)).
Proof.
  intros [Hr Hu (e & He & Hd)] Hroom Hno. pose proof (hash_range k) as Hh.
  destruct (at_surj (hash k) e He) as (j & Hj & Hat). unfold insert.
  apply (insert_loop_spec FUEL m (hash k) k v 1 j (DMAX - 1)); try done; try lia.
  - symmetry. by apply at_0.
  - pose proof (rh_bound m Hr (at_ (hash k) (-1))). lia.
  - intros s Hocc Hk. apply (Hno (values m s)). exists s.
    destruct Hocc. repeat split; (lia || done).
  - by rewrite Hat.
  - intros i _. specialize (Hroom (at_ (hash k) i) (at_range _ _)). lia.
  - rewrite FUEL_value. unfold PRICE_MAP_CAPACITY in *. lia.
Qed.

(** ** Removal *)

Lemma remove_search_present m s fuel p :
  ok m -> occ m s -> 0 <= p <= distances m s - 1 ->
  distances m s - 1 - p < Z.of_nat fuel ->
  remove_search fuel m (keys m s) (at_ (hash (keys m s)) p) = Some (Some s).
Proof.
  intros Hok Hocc. destruct Hok as [Hr Hu _]. revert p.
  induction fuel as [|fuel IH]; intros p Hp Hf; [lia|].
  pose proof (probe_path m s p Hr Hocc ltac:(lia)) as Hpath.
  pose proof (at_range (hash (keys m s)) p) as Hrange.
  cbn [remove_search].
  destruct (Z.eqb_spec (keys m (at_ (hash (keys m s)) p)) (keys m s)) as [Hk|Hk].
  - do 2 f_equal. apply Hu; try done; [lia|destruct Hocc; lia|split; [done|lia]].
  - rewrite slot_empty_false by (done || lia). rewrite next_slot_step.
    destruct (Z.eq_dec p (distances m s - 1)) as [->|Hne].
    + exfalso. apply Hk. by rewrite <- (rh_home m Hr s (proj1 Hocc) (proj2 Hocc)).
    + apply IH; lia.
Qed.

Lemma remove_shift_spec fuel : forall m slot j,
  rh m -> uniq_but slot m -> occ m slot ->
  0 < j < PRICE_MAP_CAPACITY -> distances m (at_ slot j) = 0 -> j <= Z.of_nat fuel ->
  exists m', remove_shift fuel m slot = Some m' /\ ok m' /\
    (forall k v, has m' k v <-> has_but slot m k v) /\
    (forall s, distances m' s <= distances m s).
Proof.
  induction fuel as [|fuel IH]; intros m slot j Hr Hu [Hs Hd] Hj Hhole Hf; [lia|].
  cbn [remove_shift]. rewrite next_slot_at by done.
  pose proof (at_range slot 1) as Hn. pose proof (at_ne slot 1 Hs ltac:(unfold PRICE_MAP_CAPACITY; lia)) as Hne.
  pose proof (rh_step m Hr slot Hs) as Hstep.
  pose proof (rh_step m Hr (at_ slot (-1)) (at_range _ _)) as Hprev. rewrite at_fwd in Hprev by done.
  pose proof (rh_bound m Hr (at_ slot 1)) as Hbn. pose proof (rh_bound m Hr slot) as Hbs.
  unfold DMAX in *.
  destruct (Z.leb_spec (distances m (at_ slot 1)) 1) as [Hle|Hgt].
  - eexists. split; [done|]. split; [|split].
    + split; [by apply rh_clear| |].
      * intros s1 s2 _ _ [? H1] [? H2] Hk. place_cases; try lia.
        apply Hu; try done; by split.
      * exists slot. rewrite place_distances, Z.eqb_refl. done.
    + intros k v. unfold has, has_but, occ. split.
      * intros (s & _ & [Hsr Hsd] & Hk & Hv). place_cases; try lia. eauto 10.
      * intros (s & Hx & [Hsr Hsd] & Hk & Hv). exists s.
        rewrite place_distances, place_keys, place_values.
        rewrite (proj2 (Z.eqb_neq s slot)) by done. repeat split; (lia || done).
    + intros s. place_cases; lia.
  - assert (Hj2 : 1 < j) by (destruct (Z.eq_dec j 1) as [->|]; lia).
    rewrite u8_small by lia.
    set (m1 := place m slot (keys m (at_ slot 1)) (values m (at_ slot 1))
                 (distances m (at_ slot 1) - 1)).
    assert (Hd1 : forall s, s <> slot -> distances m1 s = distances m s /\
              keys m1 s = keys m s /\ values m1 s = values m s).
    { intros s H. unfold m1. rewrite place_distances, place_keys, place_values.
      by rewrite (proj2 (Z.eqb_neq s slot)) by done. }
    assert (Hoccn : occ m (at_ slot 1)) by (split; [done|lia]).
    destruct (IH m1 (at_ slot 1) (j - 1)) as (m' & Heq & Hok' & Hhas & Hdist); try lia.
    + apply rh_place; try done; try (unfold DMAX; lia).
      rewrite <- (at_back slot Hs) at 1.
      pose proof (rh_home m Hr (at_ slot 1) Hn ltac:(lia)) as Hhome.
      rewrite Hhome at 1. apply at_at.
    + intros s1 s2 Hn1 Hn2 [? H1] [? H2] Hk. unfold m1 in *. place_cases; try done.
      * exfalso. apply Hn2. apply Hu; try done; by split.
      * exfalso. apply Hn1. apply Hu; try done; by split.
      * apply Hu; try done; by split.
    + split; [done|]. destruct (Hd1 (at_ slot 1) Hne) as [-> _]. lia.
    + rewrite at_at. replace (1 + (j - 1)) with j by lia.
      destruct (Hd1 (at_ slot j)) as [-> _]; [by apply at_ne|done].
    + exists m'. split; [done|]. split; [done|]. split.
      * intros k v. rewrite Hhas. unfold m1. rewrite has_but_place by (done || lia).
        unfold has_but. split.
        -- intros [(_ & -> & ->)|(s & ? & ? & ?)]; [|eauto 10].
           exists (at_ slot 1). done.
        -- intros (s & Hx & Hocc & Hk & Hv).
           destruct (Z.eq_dec s (at_ slot 1)) as [->|]; [left; done|right; eauto 10].
      * intros s. specialize (Hdist s). unfold m1 in Hdist. place_cases; lia.
Qed.

Lemma remove_has m k v :
  ok m -> has m k v ->
  exists m', remove m k = Some m' /\ ok m' /\
    (forall k' v', has m' k' v' <-> has m k' v' /\ k' <> k) /\
    (forall s, distances m' s <= distances m s).
Proof.
  intros Hok (s & _ & Hocc & <- & <-). unfold remove.
  pose proof (rh_bound m (ok_rh _ Hok) s) as Hb. unfold DMAX in Hb.
  replace (remove_search FUEL m (keys m s) (hash (keys m s))) with (Some (Some s)).
  2:{ rewrite <- (at_0 (hash (keys m s))) at 1 by apply hash_range.
      symmetry. apply remove_search_present; try done; [destruct Hocc; lia|].
      rewrite FUEL_value. lia. }
  destruct Hok as [Hr Hu (e & He & Hde)].
  destruct (at_surj s e He) as (j & Hj & Hat).
  assert (Hj0 : j <> 0).
  { intros ->. rewrite at_0 in Hat by apply Hocc. subst e. destruct Hocc. lia. }
  destruct (remove_shift_spec FUEL m s j) as (m' & Heq & Hok' & Hhas & Hdist); try done; try lia.
  - intros s1 s2 _ _ H1 H2. apply Hu; try done; [destruct H1|destruct H2]; lia.
  - by rewrite Hat.
  - rewrite FUEL_value. unfold PRICE_MAP_CAPACITY in *. lia.
  - exists m'. split; [done|]. split; [done|]. split; [|done].
    intros k' v'. rewrite Hhas. unfold has, has_but. split.
    + intros (x & Hx & Hox & Hk & Hv). split.
      * exists x. repeat split; try apply Hox; try done. destruct Hox. lia.
      * intros Hk2. rewrite Hk2 in Hk. apply Hx. apply Hu; try done; [destruct Hox|destruct Hocc]; lia.
    + intros [(x & _ & Hox & Hk & Hv) Hne]. exists x. repeat split; try apply Hox; try done.
      intros ->. by apply Hne.
Qed.

(** ** Counting: a small map has a hole and short probe sequences *)

(** All the keys of the table are in [l]. *)
Definition keys_in (m : t) (l : list Z) : Prop := forall k v, has m k v -> k ∈ l.

Lemma run_length m l b d :
  uniq_but (-1) m -> keys_in m l -> 0 <= d <= PRICE_MAP_CAPACITY ->
  (forall q, 0 <= q < d -> occ m (at_ b q)) -> d <= Z.of_nat (length l).
Proof.
  intros Hu Hin Hd Hocc.
  assert (Hsub : ((fun q => keys m (at_ b q)) <$> seqZ 0 d) ⊆+ l).
  { apply NoDup_submseteq.
    - apply NoDup_fmap_2_strong; [|apply NoDup_seqZ].
      intros q1 q2 H1%elem_of_seqZ H2%elem_of_seqZ Hk.
      pose proof (at_range b q1). pose proof (at_range b q2).
      apply (at_inj b); [|lia].
      apply Hu; [lia|lia|apply Hocc; lia|apply Hocc; lia|done].
    - intros k (q & -> & Hq%elem_of_seqZ)%list_elem_of_fmap.
      apply (Hin _ (values m (at_ b q))). exists (at_ b q).
      pose proof (at_range b q). repeat split; try apply (Hocc q); lia. }
  apply submseteq_length in Hsub. rewrite length_fmap, length_seqZ in Hsub. lia.
Qed.

Lemma hole_of_small m l :
  rh m -> uniq_but (-1) m -> keys_in m l -> Z.of_nat (length l) < PRICE_MAP_CAPACITY ->
  exists s, 0 <= s < PRICE_MAP_CAPACITY /\ distances m s = 0.
Proof.
  intros Hr Hu Hin Hl.
  destruct (decide (Exists (fun s => distances m s = 0) (seqZ 0 PRICE_MAP_CAPACITY))) as [He|He].
  - apply Exists_exists in He as (s & Hs%elem_of_seqZ & Hd). exists s. split; [lia|done].
  - exfalso. assert (PRICE_MAP_CAPACITY <= Z.of_nat (length l)); [|lia].
    apply (run_length m l 0); try done; try (unfold PRICE_MAP_CAPACITY; lia).
    intros q Hq. split; [apply at_range|]. pose proof (rh_bound m Hr (at_ 0 q)).
    destruct (Z.eq_dec (distances m (at_ 0 q)) 0) as [H0|]; [|lia].
    exfalso. apply He, Exists_exists. exists (at_ 0 q). split; [|done].
    apply elem_of_seqZ. pose proof (at_range 0 q). lia.
Qed.

Lemma room_of_small m l :
  ok m -> keys_in m l -> Z.of_nat (length l) < DMAX ->
  probe_room m.
Proof.
  intros [Hr Hu _] Hin Hl s Hs. pose proof (rh_bound m Hr s) as Hb. unfold DMAX in *.
  destruct (Z.eq_dec (distances m s) 0); [lia|].
  assert (distances m s <= Z.of_nat (length l)); [|lia].
  apply (run_length m l (hash (keys m s))); try done; try (unfold PRICE_MAP_CAPACITY; lia).
  intros q Hq. pose proof (probe_path m s q Hr ltac:(split; [done|lia]) ltac:(lia)).
  split; [apply at_range|lia].
Qed.

Lemma clear_ok m : ok (clear m) /\ forall k v, ~ has (clear m) k v.
Proof.
  split.
  - split.
    + split; simpl; try done; unfold DMAX; intros; lia.
    + intros s1 s2 _ _ [_ H]. simpl in H. lia.
    + exists 0. split; [unfold PRICE_MAP_CAPACITY; lia|done].
  - intros k v (s & _ & [_ H] & _). simpl in H. lia.
Qed.

End PriceHashMap.
