(* ===== verification/OrderBook.v ===== *)
(** The limit order book of src/exchange/include/exchange/orderbook.hpp: the
    flat order pool with its free list, the price-level pools (structure of
    arrays, price hash map, cached best level) and the book that links them.

    Pointers into the pools are [uint32_t] indices, [NULL_INDEX] being null;
    the intrusive FIFO of a level is threaded through [next] and [prev] of the
    orders.  Operations that consult the hash map are in [option]: [None] is a
    probe loop that has not returned (see PriceMap.v).  A [const] accessor that
    refreshes the cached best level returns the refreshed pool. *)

From S2P Require Import Prelude Arena Protocol PriceMap.

Definition MAX_ORDERS : Z := 65536.
Definition MAX_PRICE_LEVELS_OB : Z := 4096.

Record Order := {
  exchange_id : Z; client_order_id : Z; contestant_id : Z; price : Z;
  remaining_qty : Z; original_qty : Z; side : Side;
  next : Z; prev : Z; level_idx : Z; timestamp_ns : Z }.

(** Field stores. *)
Definition set_remaining_qty (o : Order) (v : Z) : Order :=
  {| exchange_id := exchange_id o; client_order_id := client_order_id o;
     contestant_id := contestant_id o; price := price o; remaining_qty := v;
     original_qty := original_qty o; side := side o; next := next o; prev := prev o;
     level_idx := level_idx o; timestamp_ns := timestamp_ns o |}.
Definition set_next (o : Order) (v : Z) : Order :=
  {| exchange_id := exchange_id o; client_order_id := client_order_id o;
     contestant_id := contestant_id o; price := price o; remaining_qty := remaining_qty o;
     original_qty := original_qty o; side := side o; next := v; prev := prev o;
     level_idx := level_idx o; timestamp_ns := timestamp_ns o |}.
Definition set_prev (o : Order) (v : Z) : Order :=
  {| exchange_id := exchange_id o; client_order_id := client_order_id o;
     contestant_id := contestant_id o; price := price o; remaining_qty := remaining_qty o;
     original_qty := original_qty o; side := side o; next := next o; prev := v;
     level_idx := level_idx o; timestamp_ns := timestamp_ns o |}.
Definition set_level_idx (o : Order) (v : Z) : Order :=
  {| exchange_id := exchange_id o; client_order_id := client_order_id o;
     contestant_id := contestant_id o; price := price o; remaining_qty := remaining_qty o;
     original_qty := original_qty o; side := side o; next := next o; prev := prev o;
     level_idx := v; timestamp_ns := timestamp_ns o |}.

(** An order slot of a freshly mapped (zero-filled) arena. *)
Definition zero_order : Order :=
  {| exchange_id := 0; client_order_id := 0; contestant_id := 0; price := 0;
     remaining_qty := 0; original_qty := 0; side := BUY; next := 0; prev := 0;
     level_idx := 0; timestamp_ns := 0 |}.

Definition is_buy (s : Side) : bool := match s with BUY => true | _ => false end.

Module PriceLevelPool.

Record t := {
  prices : arr Z; total_qty : arr Z; order_count : arr Z; head : arr Z;
  tail : arr Z; active : arr bool; count : Z; capacity : Z;
  price_map : PriceHashMap.t; best_idx : Z }.

Definition set_best_idx (p : t) (i : Z) : t :=
  {| prices := prices p; total_qty := total_qty p; order_count := order_count p;
     head := head p; tail := tail p; active := active p; count := count p;
     capacity := capacity p; price_map := price_map p; best_idx := i |}.
Definition set_total_qty (p : t) (a : arr Z) : t :=
  {| prices := prices p; total_qty := a; order_count := order_count p;
     head := head p; tail := tail p; active := active p; count := count p;
     capacity := capacity p; price_map := price_map p; best_idx := best_idx p |}.
Definition set_order_count (p : t) (a : arr Z) : t :=
  {| prices := prices p; total_qty := total_qty p; order_count := a;
     head := head p; tail := tail p; active := active p; count := count p;
     capacity := capacity p; price_map := price_map p; best_idx := best_idx p |}.
Definition set_head (p : t) (a : arr Z) : t :=
  {| prices := prices p; total_qty := total_qty p; order_count := order_count p;
     head := a; tail := tail p; active := active p; count := count p;
     capacity := capacity p; price_map := price_map p; best_idx := best_idx p |}.
Definition set_tail (p : t) (a : arr Z) : t :=
  {| prices := prices p; total_qty := total_qty p; order_count := order_count p;
     head := head p; tail := a; active := active p; count := count p;
     capacity := capacity p; price_map := price_map p; best_idx := best_idx p |}.

(** Six arena arrays and the hash map; the arrays are then [memset]. *)
Definition init (arena : HugePageArena.t) (p : t) (cap : Z) : bool * HugePageArena.t * t :=
  let '(a1, arena) := HugePageArena.allocate arena 8 8 cap in
  let '(a2, arena) := HugePageArena.allocate arena 4 4 cap in
  let '(a3, arena) := HugePageArena.allocate arena 4 4 cap in
  let '(a4, arena) := HugePageArena.allocate arena 4 4 cap in
  let '(a5, arena) := HugePageArena.allocate arena 4 4 cap in
  let '(a6, arena) := HugePageArena.allocate arena 1 1 cap in
  let p := {| prices := prices p; total_qty := total_qty p; order_count := order_count p;
              head := head p; tail := tail p; active := active p; count := count p;
              capacity := cap; price_map := price_map p; best_idx := best_idx p |} in
  if HugePageArena.all_some [a1; a2; a3; a4; a5; a6] then
    let '(okm, arena, pm) := PriceHashMap.init arena (price_map p) in
    if okm : bool then
      (true, arena,
       {| prices := fun _ => 0; total_qty := fun _ => 0; order_count := fun _ => 0;
          head := fun _ => NULL_INDEX; tail := fun _ => NULL_INDEX;
          active := fun _ => false; count := count p; capacity := cap;
          price_map := pm; best_idx := best_idx p |})
    else (false, arena, p)
  else (false, arena, p).

Definition find_or_create (p : t) (price : Z) : option (Z * t) :=
  existing ← PriceHashMap.find (price_map p) price;
  if negb (existing =? NULL_INDEX) && active p existing then Some (existing, p)
  else if capacity p <=? count p then Some (NULL_INDEX, p)
  else
    let idx := count p in
    pm ← PriceHashMap.insert (price_map p) price idx;
    Some (idx,
      {| prices := (prices p).[idx <- price]; total_qty := (total_qty p).[idx <- 0];
         order_count := (order_count p).[idx <- 0];
         head := (head p).[idx <- NULL_INDEX]; tail := (tail p).[idx <- NULL_INDEX];
         active := (active p).[idx <- true]; count := u32 (count p + 1);
         capacity := capacity p; price_map := pm; best_idx := best_idx p |}).

(** The linear scan of [rebuild_best_*]; [better] is the comparison with the
    running best price. *)
Fixpoint rebuild_scan (better : Z -> Z -> bool) (p : t) (n : nat) (i best best_price : Z) : Z :=
  match n with
  | O => best
  | S n =>
      if active p i && (0 <? total_qty p i) && better (prices p i) best_price
      then rebuild_scan better p n (i + 1) i (prices p i)
      else rebuild_scan better p n (i + 1) best best_price
  end.

Definition rebuild_best_bid (p : t) : Z * t :=
  let best := rebuild_scan Z.gtb p (Z.to_nat (count p)) 0 NULL_INDEX INT64_MIN in
  (best, set_best_idx p best).
Definition rebuild_best_ask (p : t) : Z * t :=
  let best := rebuild_scan Z.ltb p (Z.to_nat (count p)) 0 NULL_INDEX INT64_MAX in
  (best, set_best_idx p best).

Definition cache_valid (p : t) : bool :=
  negb (best_idx p =? NULL_INDEX) && active p (best_idx p) && (0 <? total_qty p (best_idx p)).

Definition find_best_bid (p : t) : Z * t :=
  if cache_valid p then (best_idx p, p) else rebuild_best_bid p.
Definition find_best_ask (p : t) : Z * t :=
  if cache_valid p then (best_idx p, p) else rebuild_best_ask p.

Definition invalidate_best (p : t) : t := set_best_idx p NULL_INDEX.

Definition update_best_bid (p : t) (new_idx : Z) : t :=
  if (best_idx p =? NULL_INDEX) || (prices p new_idx >? prices p (best_idx p))
  then set_best_idx p new_idx else p.
Definition update_best_ask (p : t) (new_idx : Z) : t :=
  if (best_idx p =? NULL_INDEX) || (prices p new_idx <? prices p (best_idx p))
  then set_best_idx p new_idx else p.

Definition deactivate (p : t) (idx : Z) : option t :=
  pm ← PriceHashMap.remove (price_map p) (prices p idx);
  Some {| prices := prices p; total_qty := total_qty p; order_count := order_count p;
          head := head p; tail := tail p; active := (active p).[idx <- false];
          count := count p; capacity := capacity p; price_map := pm;
          best_idx := if best_idx p =? idx then NULL_INDEX else best_idx p |}.

End PriceLevelPool.

Module OrderPool.

Record t := { orders : arr Order; free_list : arr Z; free_top : Z; capacity : Z }.

Definition set_orders (p : t) (os : arr Order) : t :=
  {| orders := os; free_list := free_list p; free_top := free_top p; capacity := capacity p |}.

(** [mem] is what the arena memory of the order array holds. *)
Definition init (arena : HugePageArena.t) (mem : arr Order) (p : t) (cap : Z) :
    bool * HugePageArena.t * t :=
  let '(a1, arena) := HugePageArena.allocate_raw arena (u64 (64 * cap)) CACHE_LINE_SIZE in
  let '(a2, arena) := HugePageArena.allocate arena 4 4 cap in
  if HugePageArena.all_some [a1; a2] then
    (true, arena, {| orders := mem; free_list := fun i => u32 (cap - 1 - i);
                     free_top := cap; capacity := cap |})
  else (false, arena, {| orders := orders p; free_list := free_list p;
                         free_top := free_top p; capacity := cap |}).

Definition alloc (p : t) : Z * t :=
  if free_top p =? 0 then (NULL_INDEX, p)
  else let top := u32 (free_top p - 1) in
       (free_list p top, {| orders := orders p; free_list := free_list p;
                            free_top := top; capacity := capacity p |}).

Definition free (p : t) (idx : Z) : t :=
  {| orders := orders p; free_list := (free_list p).[free_top p <- idx];
     free_top := u32 (free_top p + 1); capacity := capacity p |}.

End OrderPool.

Module OrderBook.
Import PriceLevelPool OrderPool.

Record t := {
  bids_ : PriceLevelPool.t; asks_ : PriceLevelPool.t; pool_ : OrderPool.t;
  next_exchange_id_ : Z; total_orders_ : Z; total_fills_ : Z }.

(** [(side == Side::BUY) ? bids_ : asks_], read and written back. *)
Definition levels (b : t) (bid : bool) : PriceLevelPool.t := if bid then bids_ b else asks_ b.
Definition store (b : t) (bid : bool) (l : PriceLevelPool.t) (p : OrderPool.t) : t :=
  {| bids_ := if bid then l else bids_ b; asks_ := if bid then asks_ b else l;
     pool_ := p; next_exchange_id_ := next_exchange_id_ b;
     total_orders_ := total_orders_ b; total_fills_ := total_fills_ b |}.

Definition init (arena : HugePageArena.t) (mem : arr Order) (b : t) : bool * HugePageArena.t * t :=
  let '(ok1, arena, bids) := PriceLevelPool.init arena (bids_ b) MAX_PRICE_LEVELS_OB in
  if negb ok1 then (false, arena, store b true bids (pool_ b)) else
  let '(ok2, arena, asks) := PriceLevelPool.init arena (asks_ b) MAX_PRICE_LEVELS_OB in
  if negb ok2 then (false, arena, store (store b true bids (pool_ b)) false asks (pool_ b)) else
  let '(ok3, arena, pool) := OrderPool.init arena mem (pool_ b) (MAX_ORDERS * 2) in
  (ok3, arena, store (store b true bids pool) false asks pool).

(** Append order [oidx] at the tail of level [lidx]. *)
Definition link_tail (l : PriceLevelPool.t) (os : arr Order) (oidx lidx : Z) :
    PriceLevelPool.t * arr Order :=
  let '(l, os) :=
    if negb (tail l lidx =? NULL_INDEX) then
      let tl := tail l lidx in
      let os := os.[tl <- set_next (os tl) oidx] in
      (l, os.[oidx <- set_prev (os oidx) tl])
    else (set_head l ((head l).[lidx <- oidx]), os) in
  (set_tail l ((tail l).[lidx <- oidx]), os).

(** Take order [oidx] out of the list of level [lidx]. *)
Definition unlink (l : PriceLevelPool.t) (os : arr Order) (oidx lidx : Z) :
    PriceLevelPool.t * arr Order :=
  let o := os oidx in
  let '(l, os) :=
    if negb (prev o =? NULL_INDEX)
    then (l, os.[prev o <- set_next (os (prev o)) (next o)])
    else (set_head l ((head l).[lidx <- next o]), os) in
  let o := os oidx in
  if negb (next o =? NULL_INDEX)
  then (l, os.[next o <- set_prev (os (next o)) (prev o)])
  else (set_tail l ((tail l).[lidx <- prev o]), os).

Definition add_order (b : t) (contestant_id client_order_id : Z) (s : Side)
    (price quantity timestamp_ns : Z) : option (Z * t) :=
  let '(oidx, pool) := alloc (pool_ b) in
  if oidx =? NULL_INDEX then Some (NULL_INDEX, store b (is_buy s) (levels b (is_buy s)) pool) else
  let os := (orders pool).[oidx <-
    {| exchange_id := next_exchange_id_ b; client_order_id := client_order_id;
       contestant_id := contestant_id; OrderBook.price := price;
       remaining_qty := quantity; original_qty := quantity; side := s;
       next := NULL_INDEX; prev := NULL_INDEX;
       level_idx := level_idx (orders pool oidx); timestamp_ns := timestamp_ns |}] in
  let b := {| bids_ := bids_ b; asks_ := asks_ b; pool_ := set_orders pool os;
              next_exchange_id_ := u64 (next_exchange_id_ b + 1);
              total_orders_ := total_orders_ b; total_fills_ := total_fills_ b |} in
  '(lidx, l) ← find_or_create (levels b (is_buy s)) price;
  if lidx =? NULL_INDEX then
    Some (NULL_INDEX, store b (is_buy s) l (free (pool_ b) oidx))
  else
    let os := os.[oidx <- set_level_idx (os oidx) lidx] in
    let '(l, os) := link_tail l os oidx lidx in
    let l := set_total_qty l ((total_qty l).[lidx <- i32 (total_qty l lidx + quantity)]) in
    let l := set_order_count l ((order_count l).[lidx <- u32 (order_count l lidx + 1)]) in
    let l := if is_buy s then update_best_bid l lidx else update_best_ask l lidx in
    let b := store b (is_buy s) l (set_orders (pool_ b) os) in
    Some (oidx,
      {| bids_ := bids_ b; asks_ := asks_ b; pool_ := pool_ b;
         next_exchange_id_ := next_exchange_id_ b;
         total_orders_ := u64 (total_orders_ b + 1); total_fills_ := total_fills_ b |}).

Definition cancel_order (b : t) (order_idx : Z) : option (bool * t) :=
  if OrderPool.capacity (pool_ b) <=? order_idx then Some (false, b) else
  let o := orders (pool_ b) order_idx in
  if remaining_qty o <=? 0 then Some (false, b) else
  let bid := is_buy (side o) in
  let lidx := level_idx o in
  let '(l, os) := unlink (levels b bid) (orders (pool_ b)) order_idx lidx in
  let l := set_total_qty l
             ((total_qty l).[lidx <- i32 (total_qty l lidx - remaining_qty (os order_idx))]) in
  let l := set_order_count l ((order_count l).[lidx <- u32 (order_count l lidx - 1)]) in
  l ← (if order_count l lidx =? 0 then deactivate l lidx else Some l);
  let os := os.[order_idx <- set_remaining_qty (os order_idx) 0] in
  Some (true, store b bid l (free (set_orders (pool_ b) os) order_idx)).

Record MatchResult := {
  maker_idx : Z; taker_contestant_id : Z; fill_price : Z; fill_qty : Z }.

(** The state of [match]: the contra levels, the pool, the fills written so
    far and the quantity left. *)
Record mstate := {
  ms_contra : PriceLevelPool.t; ms_pool : OrderPool.t;
  ms_fills : list MatchResult; ms_remaining : Z }.

Definition fill_count (st : mstate) : Z := Z.of_nat (length (ms_fills st)).

(** One pass of the inner loop: fill against order [oidx] of level [best]. *)
Definition fill_one (taker best oidx : Z) (st : mstate) : mstate :=
  let pool := ms_pool st in
  let l := ms_contra st in
  let resting := orders pool oidx in
  let fq := if ms_remaining st <? remaining_qty resting
            then ms_remaining st else remaining_qty resting in
  let fills := ms_fills st ++
    [{| maker_idx := oidx; taker_contestant_id := taker;
        fill_price := price resting; fill_qty := fq |}] in
  let rem := i32 (ms_remaining st - fq) in
  let os := (orders pool).[oidx <- set_remaining_qty resting (i32 (remaining_qty resting - fq))] in
  let l := set_total_qty l ((total_qty l).[best <- i32 (total_qty l best - fq)]) in
  if remaining_qty (os oidx) =? 0 then
    let '(l, os) := unlink l os oidx best in
    let l := set_order_count l ((order_count l).[best <- u32 (order_count l best - 1)]) in
    {| ms_contra := l; ms_pool := free (set_orders pool os) oidx;
       ms_fills := fills; ms_remaining := rem |}
  else {| ms_contra := l; ms_pool := set_orders pool os;
          ms_fills := fills; ms_remaining := rem |}.

(** The inner [while]; every pass writes a fill, so [max_fills + 1] is enough fuel. *)
Fixpoint walk_level (fuel : nat) (taker max_fills best oidx : Z) (st : mstate) : option mstate :=
  match fuel with
  | O => None
  | S fuel =>
      if negb (oidx =? NULL_INDEX) && (0 <? ms_remaining st) && (fill_count st <? max_fills)
      then let next_oidx := next (orders (ms_pool st) oidx) in
           walk_level fuel taker max_fills best next_oidx (fill_one taker best oidx st)
      else Some st
  end.

(** The price checks of a limit order against the best contra price. *)
Definition crosses (aggressor : Side) (limit p : Z) : bool :=
  match aggressor with
  | BUY => negb (p >? limit)
  | SELL => negb (p <? limit)
  | SIDE_OTHER _ => true
  end.

(** The outer [while]. *)
Fixpoint match_loop (fuel : nat) (aggressor : Side) (limit taker max_fills : Z)
    (st : mstate) : option mstate :=
  match fuel with
  | O => None
  | S fuel =>
      if (0 <? ms_remaining st) && (fill_count st <? max_fills) then
        let '(best, l) := if is_buy aggressor then find_best_ask (ms_contra st)
                          else find_best_bid (ms_contra st) in
        let st := {| ms_contra := l; ms_pool := ms_pool st; ms_fills := ms_fills st;
                     ms_remaining := ms_remaining st |} in
        if best =? NULL_INDEX then Some st
        else if negb (crosses aggressor limit (prices l best)) then Some st
        else
          st ← walk_level (S (Z.to_nat max_fills)) taker max_fills best (head l best) st;
          l ← (if order_count (ms_contra st) best =? 0 then deactivate (ms_contra st) best
               else Some (ms_contra st));
          match_loop fuel aggressor limit taker max_fills
            {| ms_contra := l; ms_pool := ms_pool st; ms_fills := ms_fills st;
               ms_remaining := ms_remaining st |}
      else Some st
  end.

(** [match]: the fills written to [out_fills] (their number is the result) and
    the book afterwards. *)
Definition match_ (b : t) (aggressor_side : Side) (price quantity contestant_id max_fills : Z) :
    option (list MatchResult * t) :=
  let contra := negb (is_buy aggressor_side) in
  st ← match_loop (S (Z.to_nat max_fills)) aggressor_side price contestant_id max_fills
         {| ms_contra := levels b contra; ms_pool := pool_ b; ms_fills := [];
            ms_remaining := quantity |};
  let b := store b contra (ms_contra st) (ms_pool st) in
  Some (ms_fills st,
    {| bids_ := bids_ b; asks_ := asks_ b; pool_ := pool_ b;
       next_exchange_id_ := next_exchange_id_ b; total_orders_ := total_orders_ b;
       total_fills_ := u64 (total_fills_ b + fill_count st) |}).

(** The accessors; each refreshes the cache it reads. *)
Definition best_bid_price (b : t) : Z * t :=
  let '(i, l) := find_best_bid (bids_ b) in
  (if negb (i =? NULL_INDEX) then prices l i else 0, store b true l (pool_ b)).
Definition best_ask_price (b : t) : Z * t :=
  let '(i, l) := find_best_ask (asks_ b) in
  (if negb (i =? NULL_INDEX) then prices l i else 0, store b false l (pool_ b)).
Definition best_bid_qty (b : t) : Z * t :=
  let '(i, l) := find_best_bid (bids_ b) in
  (if negb (i =? NULL_INDEX) then total_qty l i else 0, store b true l (pool_ b)).
Definition best_ask_qty (b : t) : Z * t :=
  let '(i, l) := find_best_ask (asks_ b) in
  (if negb (i =? NULL_INDEX) then total_qty l i else 0, store b false l (pool_ b)).
Definition order_at (b : t) (idx : Z) : Order := orders (pool_ b) idx.

End OrderBook.
