(* ===== verification/BookRep.v ===== *)
(** Representation of the order book: the price-time queues its linked arrays
    stand for, and the lemmas that carry each primitive of OrderBook.v (level
    creation, linking, unlinking, deactivation, best-level search) over it.

    A side of the book is a list of levels in strict price priority, each with
    its FIFO queue of [(slot, remaining quantity)] pairs.  Slots are tracked
    by one permutation: free list, bid queues and ask queues together are
    exactly the slots of the pool. *)

From S2P Require Import Prelude Arena Protocol PriceMap OrderBook.
Import PriceLevelPool OrderPool OrderBook.

(** ** Queues *)

Abbreviation queue := (list (Z * Z)).

Definition hd_or (d : Z) (q : queue) : Z := match q with [] => d | (o, _) :: _ => o end.
Fixpoint last_or (d : Z) (q : queue) : Z :=
  match q with [] => d | (o, _) :: q => last_or o q end.

Definition qsum (q : queue) : Z := zsum (snd <$> q).
Definition qoids (q : queue) : list Z := fst <$> q.

(** The segment [q] is threaded through [next]/[prev], between [p] and [nx]. *)
Fixpoint dll (os : arr Order) (p : Z) (q : queue) (nx : Z) : Prop :=
  match q with
  | [] => True
  | (o, n) :: q =>
      remaining_qty (os o) = n /\ prev (os o) = p /\ next (os o) = hd_or nx q /\
      dll os o q nx
  end.

Lemma hd_or_app d q1 q2 : hd_or d (q1 ++ q2) = hd_or (hd_or d q2) q1.
Proof. by destruct q1 as [|[]]. Qed.

Lemma last_or_app d q1 q2 : last_or d (q1 ++ q2) = last_or (last_or d q1) q2.
Proof. revert d. induction q1 as [|[o n] q1 IH]; intros d; [done|]. apply IH. Qed.

Lemma last_or_snoc d q o n : last_or d (q ++ [(o, n)]) = o.
Proof. by rewrite last_or_app. Qed.

Lemma hd_or_in q : q <> [] -> forall d, hd_or d q ∈ qoids q.
Proof. destruct q as [|[o n] q]; [done|]. intros _ d. by left. Qed.

Lemma last_or_in d q : q <> [] -> last_or d q ∈ qoids q.
Proof.
  revert d. induction q as [|[o n] q IH]; [done|]. intros d _. simpl.
  destruct q as [|x q]; [by left|]. right. by apply IH.
Qed.

Lemma dll_app os p q1 q2 nx :
  dll os p (q1 ++ q2) nx <-> dll os p q1 (hd_or nx q2) /\ dll os (last_or p q1) q2 nx.
Proof.
  revert p. induction q1 as [|[o n] q1 IH]; intros p; simpl; [tauto|].
  rewrite IH, hd_or_app. tauto.
Qed.

Lemma dll_frame os os' p q nx :
  (forall o, o ∈ qoids q -> os' o = os o) -> dll os p q nx -> dll os' p q nx.
Proof.
  revert p. induction q as [|[o n] q IH]; intros p Hf Hd; [done|]. simpl in *.
  rewrite (Hf o) by (by left). destruct Hd as (? & ? & ? & ?).
  repeat split; try done. apply IH; [|done]. intros x Hx. apply Hf. by right.
Qed.

(** Re-linking the far end of a segment, at its last order. *)
Lemma dll_set_last os p q nx nx' :
  NoDup (qoids q) -> q <> [] -> dll os p q nx ->
  dll (os.[last_or p q <- set_next (os (last_or p q)) nx']) p q nx'.
Proof.
  revert p. induction q as [|[o n] q IH]; intros p Hnd Hne Hd; [done|].
  simpl in Hnd. apply NoDup_cons in Hnd as [Hni Hnd].
  destruct Hd as (Hr & Hp & Hn & Hd). simpl. destruct q as [|x q].
  - simpl. rewrite upd_eq. done.
  - assert (last_or o (x :: q) ≠ o).
    { intros E. apply Hni. rewrite <- E at 1. by apply last_or_in. }
    rewrite (upd_ne _ (last_or o (x :: q)) o) by congruence.
    split; [done|]. split; [done|]. split; [by destruct x|]. by apply IH.
Qed.

(** Re-linking the near end of a segment, at its first order. *)
Lemma dll_set_first os p p' q nx :
  NoDup (qoids q) -> q <> [] -> dll os p q nx ->
  dll (os.[hd_or nx q <- set_prev (os (hd_or nx q)) p']) p' q nx.
Proof.
  destruct q as [|[o n] q]; intros Hnd Hne Hd; [done|]. simpl in *.
  apply NoDup_cons in Hnd as [Hni Hnd]. rewrite upd_eq.
  destruct Hd as (Hr & Hp & Hn & Hd). repeat split; try done.
  eapply dll_frame; [|done]. intros x Hx. apply upd_ne. by intros ->.
Qed.

(** Two order records that differ at most in their links. *)
Definition same_data (o o' : Order) : Prop :=
  remaining_qty o' = remaining_qty o /\ side o' = side o /\ price o' = price o /\
  level_idx o' = level_idx o /\ contestant_id o' = contestant_id o /\
  client_order_id o' = client_order_id o /\ exchange_id o' = exchange_id o.

Lemma same_data_refl o : same_data o o.
Proof. repeat split. Qed.
#[export] Hint Resolve same_data_refl : core.

Lemma same_data_upd (os os1 : arr Order) i v :
  (forall x, same_data (os x) (os1 x)) -> same_data (os i) v ->
  forall x, same_data (os x) (os1.[i <- v] x).
Proof. intros H1 H2 x. unfold upd. destruct (Z.eqb_spec x i) as [->|]; auto. Qed.

(** ** Levels and sides *)

Record glevel := { gl_idx : Z; gl_price : Z; gl_q : queue }.

Definition key (bid : bool) (p : Z) : Z := if bid then - p else p.
Definition gkey (bid : bool) (g : glevel) : Z := key bid (gl_price g).

Record level_ok (bid : bool) (l : PriceLevelPool.t) (os : arr Order) (g : glevel) : Prop := {
  lo_price : prices l (gl_idx g) = gl_price g;
  lo_total : total_qty l (gl_idx g) = qsum (gl_q g);
  lo_count : order_count l (gl_idx g) = Z.of_nat (length (gl_q g));
  lo_head : head l (gl_idx g) = hd_or NULL_INDEX (gl_q g);
  lo_tail : tail l (gl_idx g) = last_or NULL_INDEX (gl_q g);
  lo_active : active l (gl_idx g) = true;
  lo_dll : dll os NULL_INDEX (gl_q g) NULL_INDEX;
  lo_orders : forall o n, (o, n) ∈ gl_q g ->
    0 < n /\ is_buy (side (os o)) = bid /\ price (os o) = gl_price g /\
    level_idx (os o) = gl_idx g;
  lo_sum : qsum (gl_q g) <= INT32_MAX;
  lo_range : INT64_MIN < gl_price g < INT64_MAX }.

Definition oids (L : list glevel) : list Z := L ≫= (fun g => qoids (gl_q g)).

(** The price-time priority list: [(slot, price, remaining)]. *)
Definition flat (L : list glevel) : list (Z * Z * Z) :=
  L ≫= (fun g => (fun '(o, n) => (o, gl_price g, n)) <$> gl_q g).

Record side_core (bid : bool) (l : PriceLevelPool.t) (os : arr Order) (L : list glevel) : Prop := {
  sc_levels : forall g, g ∈ L -> level_ok bid l os g;
  sc_nodup : NoDup (gl_idx <$> L);
  sc_range : forall g, g ∈ L -> 0 <= gl_idx g < count l;
  sc_sorted : StronglySorted (fun g1 g2 => gkey bid g1 < gkey bid g2) L;
  sc_active : forall i, 0 <= i < count l -> active l i = true -> i ∈ gl_idx <$> L;
  sc_count : 0 <= count l <= PriceLevelPool.capacity l;
  sc_capacity : PriceLevelPool.capacity l = MAX_PRICE_LEVELS_OB;
  sc_map : PriceHashMap.ok (price_map l);
  sc_has : forall k v, PriceHashMap.has (price_map l) k v <->
    exists g, g ∈ L /\ gl_price g = k /\ gl_idx g = v;
  sc_best : best_idx l = NULL_INDEX \/ best_idx l ∈ gl_idx <$> L }.

Definition no_empty (L : list glevel) : Prop := forall g, g ∈ L -> gl_q g <> [].

(** The best-level cache is empty or points at the best level. *)
Definition fresh (l : PriceLevelPool.t) (L : list glevel) : Prop :=
  best_idx l = NULL_INDEX \/ exists g L', L = g :: L' /\ best_idx l = gl_idx g.

Record pool_ok (p : OrderPool.t) (used : list Z) : Prop := {
  po_perm : slice (free_list p) (free_top p) ++ used ≡ₚ seqZ 0 (OrderPool.capacity p);
  po_top : 0 <= free_top p;
  po_capacity : OrderPool.capacity p = MAX_ORDERS * 2;
  po_free : forall o, o ∈ slice (free_list p) (free_top p) -> remaining_qty (orders p o) <= 0 }.

(** ** Order pool *)

Lemma pool_nodup p used : pool_ok p used -> NoDup used.
Proof.
  intros H. pose proof (NoDup_seqZ 0 (OrderPool.capacity p)) as Hnd.
  rewrite <- (po_perm _ _ H) in Hnd. by apply NoDup_app in Hnd as (_ & _ & ?).
Qed.

Lemma pool_used_range p used o : pool_ok p used -> o ∈ used -> 0 <= o < OrderPool.capacity p.
Proof.
  intros H Ho. assert (o ∈ seqZ 0 (OrderPool.capacity p)) as Hs%elem_of_seqZ; [|lia].
  rewrite <- (po_perm _ _ H). apply elem_of_app. by right.
Qed.

Lemma pool_used_not_null p used o : pool_ok p used -> o ∈ used -> o <> NULL_INDEX.
Proof.
  intros H Ho. apply (pool_used_range _ _ _ H) in Ho. rewrite (po_capacity _ _ H) in Ho.
  unfold MAX_ORDERS, NULL_INDEX, UINT32_MAX in *. lia.
Qed.

Lemma pool_top p used : pool_ok p used ->
  free_top p + Z.of_nat (length used) = OrderPool.capacity p.
Proof.
  intros H. pose proof (Permutation_length (po_perm _ _ H)) as Hl.
  rewrite length_app, length_seqZ in Hl. pose proof (length_slice (free_list p) (free_top p)).
  pose proof (po_top _ _ H). rewrite (po_capacity _ _ H) in *. unfold MAX_ORDERS in *. lia.
Qed.

Lemma alloc_ok p used :
  pool_ok p used -> free_top p <> 0 ->
  exists o p', (alloc p = (o, p')) /\ orders p' = orders p /\
    OrderPool.capacity p' = OrderPool.capacity p /\
    o <> NULL_INDEX /\ (o ∉ used) /\ pool_ok p' (o :: used).
Proof.
  intros H Hne. pose proof (po_top _ _ H) as Ht. pose proof (pool_top _ _ H) as Hc.
  pose proof (po_capacity _ _ H) as Hcap. unfold MAX_ORDERS in Hcap.
  assert (Htop : u32 (free_top p - 1) = free_top p - 1) by (apply u32_small; lia).
  set (o := free_list p (free_top p - 1)).
  set (p' := {| orders := orders p; free_list := free_list p; free_top := free_top p - 1;
                OrderPool.capacity := OrderPool.capacity p |}).
  assert (Hok : pool_ok p' (o :: used)).
  { split; simpl; try done; [| lia |].
    - rewrite <- (po_perm _ _ H). rewrite (slice_pop _ (free_top p)) by lia.
      rewrite <- (assoc_L (++)). done.
    - intros x Hx. apply (po_free _ _ H). rewrite (slice_pop _ (free_top p)) by lia.
      apply elem_of_app. by left. }
  exists o, p'. unfold alloc. rewrite (proj2 (Z.eqb_neq _ _)) by done. rewrite Htop.
  split; [done|]. split; [done|]. split; [done|]. split; [|split; [|done]].
  - apply (pool_used_not_null p' (o :: used)); [done|by left].
  - pose proof (pool_nodup _ _ Hok) as Hnd. by apply NoDup_cons in Hnd as [? _].
Qed.

Lemma free_ok p used o :
  pool_ok p (o :: used) -> remaining_qty (orders p o) <= 0 -> pool_ok (free p o) used.
Proof.
  intros H Hz. pose proof (po_top _ _ H) as Ht. pose proof (pool_top _ _ H) as Hc.
  pose proof (po_capacity _ _ H) as Hcap. unfold MAX_ORDERS in Hcap. simpl in Hc.
  assert (Htop : u32 (free_top p + 1) = free_top p + 1) by (apply u32_small; lia).
  split; simpl; rewrite ?Htop; [| lia | done |]; rewrite slice_snoc by lia.
  - rewrite <- (po_perm _ _ H). rewrite <- (assoc_L (++)). done.
  - intros x Hx. apply elem_of_app in Hx as [Hx|Hx]; [by apply (po_free _ _ H)|].
    apply list_elem_of_singleton in Hx as ->. done.
Qed.

Lemma pool_ok_perm p u1 u2 : u1 ≡ₚ u2 -> pool_ok p u1 -> pool_ok p u2.
Proof. intros Hp [? ? ? ?]. split; try done. by rewrite <- Hp. Qed.

(** Order stores outside the free list keep the pool sound. *)
Lemma pool_ok_orders p used os :
  pool_ok p used ->
  (forall o, o ∈ slice (free_list p) (free_top p) -> remaining_qty (os o) <= 0) ->
  pool_ok (set_orders p os) used.
Proof. intros [? ? ? ?] ?. by split. Qed.

Lemma pool_free_used p used o :
  pool_ok p used -> o ∈ slice (free_list p) (free_top p) -> o ∉ used.
Proof.
  intros H Ho. pose proof (NoDup_seqZ 0 (OrderPool.capacity p)) as Hnd.
  rewrite <- (po_perm _ _ H) in Hnd. apply NoDup_app in Hnd as (_ & Hd & _). by apply Hd.
Qed.

(** ** Linking and unlinking *)

(** [l'] is [l] with other links at level [i]. *)
Record links_at (l l' : PriceLevelPool.t) (i : Z) : Prop := {
  la_prices : prices l' = prices l;
  la_total : total_qty l' = total_qty l;
  la_ocount : order_count l' = order_count l;
  la_active : active l' = active l;
  la_count : count l' = count l;
  la_capacity : PriceLevelPool.capacity l' = PriceLevelPool.capacity l;
  la_map : price_map l' = price_map l;
  la_best : best_idx l' = best_idx l;
  la_head : forall j, j <> i -> head l' j = head l j;
  la_tail : forall j, j <> i -> tail l' j = tail l j }.

Ltac links := split; simpl; try done; intros; by rewrite ?upd_ne by done.

Lemma link_tail_spec l os q o n i :
  head l i = hd_or NULL_INDEX q -> tail l i = last_or NULL_INDEX q ->
  dll os NULL_INDEX q NULL_INDEX -> NoDup (o :: qoids q) ->
  NULL_INDEX ∉ qoids q ->
  remaining_qty (os o) = n -> prev (os o) = NULL_INDEX -> next (os o) = NULL_INDEX ->
  exists l' os', link_tail l os o i = (l', os') /\ links_at l l' i /\
    head l' i = hd_or NULL_INDEX (q ++ [(o, n)]) /\ tail l' i = o /\
    dll os' NULL_INDEX (q ++ [(o, n)]) NULL_INDEX /\
    (forall x, x ∉ qoids q -> x <> o -> os' x = os x) /\
    (forall x, same_data (os x) (os' x)).
Proof.
  intros Hh Ht Hd [Hni Hnd]%NoDup_cons Hnn Hr Hp Hn. unfold link_tail. rewrite Ht.
  destruct q as [|e q'].
  - rewrite Z.eqb_refl. simpl. do 2 eexists. split; [done|]. split; [links|].
    simpl. rewrite !upd_eq. repeat split; done.
  - set (q := e :: q') in *. assert (Hne : q <> []) by done.
    assert (Hli : last_or NULL_INDEX q ∈ qoids q) by (by apply last_or_in).
    rewrite (proj2 (Z.eqb_neq _ _)) by (intros E; rewrite E in Hli; done). cbn [negb].
    set (tl := last_or NULL_INDEX q) in *. assert (Hto : tl <> o) by (intros E; congruence).
    do 2 eexists. split; [done|]. split; [links|].
    cbn [set_tail PriceLevelPool.head PriceLevelPool.tail]. rewrite upd_eq.
    split; [by rewrite Hh, hd_or_app|]. split; [done|]. split; [|split].
    + rewrite dll_app. split.
      * eapply (dll_frame (os.[tl <- set_next (os tl) o])).
        -- intros x Hx. apply upd_ne. by intros ->.
        -- apply (dll_set_last os NULL_INDEX q NULL_INDEX o); done.
      * simpl. fold tl. rewrite upd_eq, upd_ne by done. simpl. done.
    + intros x Hx Hxo. rewrite !upd_ne; [done| |done]. by intros ->.
    + apply same_data_upd; [apply same_data_upd; [done|by destruct (os tl)]|].
      rewrite upd_ne by done. by destruct (os o).
Qed.

Lemma unlink_spec l os q1 o n q2 i :
  let q := q1 ++ (o, n) :: q2 in
  head l i = hd_or NULL_INDEX q -> tail l i = last_or NULL_INDEX q ->
  dll os NULL_INDEX q NULL_INDEX -> NoDup (qoids q) -> NULL_INDEX ∉ qoids q ->
  exists l' os', unlink l os o i = (l', os') /\ links_at l l' i /\
    head l' i = hd_or NULL_INDEX (q1 ++ q2) /\ tail l' i = last_or NULL_INDEX (q1 ++ q2) /\
    dll os' NULL_INDEX (q1 ++ q2) NULL_INDEX /\
    (forall x, x ∉ qoids (q1 ++ q2) -> os' x = os x) /\
    (forall x, same_data (os x) (os' x)).
Proof.
  intros q Hh Ht Hd Hnd Hnn. unfold q in *. clear q.
  rewrite hd_or_app in Hh. rewrite last_or_app in Ht. simpl in Hh, Ht.
  apply dll_app in Hd as [Hd1 (Hr & Hp & Hn & Hd2)]. simpl in Hd1.
  unfold qoids in Hnd, Hnn. rewrite fmap_app in Hnd, Hnn.
  apply NoDup_app in Hnd as (Hnd1 & Hdis & [Hno Hnd2]%NoDup_cons).
  rewrite not_elem_of_app in Hnn. destruct Hnn as [Hnn1 Hnn2].
  apply not_elem_of_cons in Hnn2 as [Hno' Hnn2]. simpl in Hno, Hno'.
  assert (Ho1 : o ∉ qoids q1) by (intros H; apply (Hdis o H); by left).
  assert (Hq12 : forall x, x ∈ qoids q1 -> x ∉ qoids q2)
    by (intros x H1 H2; apply (Hdis x H1); by right).
  unfold unlink. rewrite Hp.
  (* the first half: the predecessor's [next], or the level's head *)
  set (step1 := if negb (last_or NULL_INDEX q1 =? NULL_INDEX) then _ else _).
  assert (exists l1 os1, step1 = (l1, os1) /\ links_at l l1 i /\ tail l1 = tail l /\
    head l1 i = hd_or (hd_or NULL_INDEX q2) q1 /\
    dll os1 NULL_INDEX q1 (hd_or NULL_INDEX q2) /\
    (forall x, x ∉ qoids q1 -> os1 x = os x) /\ (forall x, same_data (os x) (os1 x)))
    as (l1 & os1 & -> & Hl1 & Htl1 & Hh1 & Hdd1 & Hf1 & Hs1).
  { unfold step1. destruct q1 as [|e q1'].
    - rewrite Z.eqb_refl. simpl. do 2 eexists. split; [done|]. split; [links|].
      simpl. rewrite upd_eq, Hn. repeat split; done.
    - set (q1 := e :: q1') in *. assert (Hli : last_or NULL_INDEX q1 ∈ qoids q1) by (by apply last_or_in).
      rewrite (proj2 (Z.eqb_neq _ _)) by (intros E; rewrite E in Hli; done). cbn [negb].
      do 2 eexists. split; [done|]. split; [links|]. split; [done|].
      split; [by rewrite Hh|]. rewrite Hn. split; [by eapply dll_set_last|]. split.
      + intros x Hx. apply upd_ne. by intros ->.
      + apply same_data_upd; [done|by destruct (os (last_or NULL_INDEX q1))]. }
  rewrite (Hf1 o Ho1), Hn, Hp.
  assert (Hd2' : dll os1 o q2 NULL_INDEX)
    by (eapply dll_frame; [|done]; intros x Hx; apply Hf1; intros H; by apply (Hq12 x)).
  destruct q2 as [|e q2'].
  - rewrite Z.eqb_refl. simpl. do 2 eexists. split; [done|].
    rewrite app_nil_r. split; [|split; [|split; [|split; [|split]]]].
    + destruct Hl1. split; simpl; try done. intros. by rewrite upd_ne, Htl1.
    + simpl. by rewrite Hh1.
    + simpl. by rewrite upd_eq.
    + done.
    + done.
    + done.
  - set (q2 := e :: q2') in *.
    assert (Hhi : hd_or NULL_INDEX q2 ∈ qoids q2) by (by apply hd_or_in).
    rewrite (proj2 (Z.eqb_neq _ _)) by (intros E; rewrite E in Hhi; done). cbn [negb].
    do 2 eexists. split; [done|]. split; [done|]. rewrite hd_or_app, last_or_app.
    split; [done|]. split; [by rewrite Htl1, Ht; unfold q2; destruct e|]. split; [|split].
    + rewrite dll_app. split.
      * eapply dll_frame; [|done]. intros x Hx. apply upd_ne. intros ->. by eapply Hq12.
      * by eapply dll_set_first.
    + intros x Hx. unfold qoids in Hx. rewrite fmap_app, not_elem_of_app in Hx.
      destruct Hx as [Hx1 Hx2]. rewrite upd_ne; [by apply Hf1|]. by intros ->.
    + apply same_data_upd; [done|]. specialize (Hs1 (hd_or NULL_INDEX q2)).
      unfold same_data in *. simpl. tauto.
Qed.

(** ** Sides *)

(** The arrays of [l'] and [l] agree at level [i]. *)
Definition level_same (l l' : PriceLevelPool.t) (i : Z) : Prop :=
  prices l' i = prices l i /\ total_qty l' i = total_qty l i /\
  order_count l' i = order_count l i /\ head l' i = head l i /\
  tail l' i = tail l i /\ active l' i = active l i.

Lemma level_ok_frame bid l l' os os' g :
  level_same l l' (gl_idx g) -> (forall o, o ∈ qoids (gl_q g) -> os' o = os o) ->
  level_ok bid l os g -> level_ok bid l' os' g.
Proof.
  intros (E1 & E2 & E3 & E4 & E5 & E6) Hos [? ? ? ? ? ? ? Hor ? ?].
  split; try congruence; try done.
  - by eapply dll_frame.
  - intros o n Ho. rewrite Hos; [by apply Hor|].
    apply list_elem_of_fmap. by exists (o, n).
Qed.

Lemma elem_of_oids L o : o ∈ oids L <-> exists g, g ∈ L /\ o ∈ qoids (gl_q g).
Proof.
  unfold oids. rewrite list_elem_of_bind. split; intros (g & H1 & H2); by exists g.
Qed.

Lemma oids_app L1 L2 : oids (L1 ++ L2) = oids L1 ++ oids L2.
Proof. apply bind_app. Qed.
Lemma oids_cons g L : oids (g :: L) = qoids (gl_q g) ++ oids L.
Proof. done. Qed.
Lemma flat_app L1 L2 : flat (L1 ++ L2) = flat L1 ++ flat L2.
Proof. apply bind_app. Qed.
Lemma flat_cons g L :
  flat (g :: L) = ((fun '(o, n) => (o, gl_price g, n)) <$> gl_q g) ++ flat L.
Proof. done. Qed.

Lemma oids_flat L : oids L = (fun e => e.1.1) <$> flat L.
Proof.
  induction L as [|g L IH]; [done|]. rewrite oids_cons, flat_cons, fmap_app, IH. f_equal.
  unfold qoids. rewrite <- list_fmap_compose. apply list_fmap_ext. by intros ? [o n].
Qed.

(** A sorted list splits into what precedes and what follows one of its members. *)
Lemma sorted_split bid L1 g L2 :
  StronglySorted (fun g1 g2 => gkey bid g1 < gkey bid g2) (L1 ++ g :: L2) <->
  StronglySorted (fun g1 g2 => gkey bid g1 < gkey bid g2) (L1 ++ L2) /\
  (forall x, x ∈ L1 -> gkey bid x < gkey bid g) /\ (forall x, x ∈ L2 -> gkey bid g < gkey bid x).
Proof.
  induction L1 as [|a L1 IH]; simpl.
  - split.
    + intros H. inversion H as [|? ? Hs Hf]; subst. rewrite Forall_forall in Hf.
      split; [done|]. split; [|done]. intros x Hx. by apply not_elem_of_nil in Hx.
    + intros (Hs & _ & H2). constructor; [done|]. by rewrite Forall_forall.
  - split.
    + intros H. inversion H as [|? ? Hs Hf]; subst. apply IH in Hs as (H0 & H1 & H2).
      rewrite Forall_forall in Hf. split; [constructor; [done|]|split; [|done]].
      * rewrite Forall_forall. intros x [?|?]%elem_of_app; apply Hf, elem_of_app; [by left|].
        right. by right.
      * intros x [->|Hx]%elem_of_cons; [|by apply H1]. apply Hf, elem_of_app. right. by left.
    + intros (H & H1 & H2). inversion H as [|? ? Hs Hf]; subst. constructor.
      * apply IH. split; [done|]. split; [|done]. intros x Hx. apply H1. by right.
      * rewrite Forall_forall in *. intros x [Hx|[->|Hx]%elem_of_cons]%elem_of_app.
        -- apply Hf, elem_of_app. by left.
        -- apply H1. by left.
        -- apply Hf, elem_of_app. by right.
Qed.

Lemma sorted_replace bid L1 g g' L2 :
  gl_price g' = gl_price g ->
  StronglySorted (fun g1 g2 => gkey bid g1 < gkey bid g2) (L1 ++ g :: L2) ->
  StronglySorted (fun g1 g2 => gkey bid g1 < gkey bid g2) (L1 ++ g' :: L2).
Proof. intros E. rewrite !sorted_split. unfold gkey. by rewrite E. Qed.

Lemma elem_of_mid {A} (x : A) L1 g L2 : x ∈ L1 ++ g :: L2 <-> x = g \/ x ∈ L1 ++ L2.
Proof. rewrite !elem_of_app, elem_of_cons. tauto. Qed.

Lemma idx_mid {A B} (f : A -> B) L1 g L2 :
  NoDup (f <$> L1 ++ g :: L2) ->
  (NoDup (f <$> L1 ++ L2)) /\ forall x, x ∈ L1 ++ L2 -> f x <> f g.
Proof.
  rewrite !fmap_app, fmap_cons. rewrite <- Permutation_middle. intros [Hn Hnd]%NoDup_cons.
  split; [done|]. intros x Hx E. apply Hn. rewrite <- fmap_app, <- E. by apply list_elem_of_fmap_2.
Qed.

(** Level [g] becomes [g']; nothing else changes. *)
Lemma side_replace bid l l' os os' L1 g g' L2 :
  side_core bid l os (L1 ++ g :: L2) ->
  gl_idx g' = gl_idx g -> gl_price g' = gl_price g -> level_ok bid l' os' g' ->
  (forall i, i <> gl_idx g -> level_same l l' i) ->
  (forall o, o ∈ oids (L1 ++ L2) -> os' o = os o) ->
  count l' = count l -> PriceLevelPool.capacity l' = PriceLevelPool.capacity l ->
  price_map l' = price_map l ->
  best_idx l' = NULL_INDEX \/ best_idx l' ∈ gl_idx <$> L1 ++ g :: L2 ->
  side_core bid l' os' (L1 ++ g' :: L2).
Proof.
  intros [Hlv Hnd Hrg Hst Hac Hct Hcp Hmp Hhas Hbi] Ei Ep Hg Hsame Hos Ec Ecap Epm Hbest.
  assert (Eidx : gl_idx <$> L1 ++ g' :: L2 = gl_idx <$> L1 ++ g :: L2)
    by (by rewrite !fmap_app, !fmap_cons, Ei).
  destruct (idx_mid _ _ _ _ Hnd) as [_ Hne].
  split; rewrite ?Eidx, ?Ec, ?Ecap, ?Epm; try done.
  - intros x [->|Hx]%elem_of_mid; [done|].
    apply (level_ok_frame bid l l' os os'); [by apply Hsame, Hne| |].
    + intros o Ho. apply Hos, elem_of_oids. by exists x.
    + apply Hlv, elem_of_mid. by right.
  - intros x [->|Hx]%elem_of_mid; [rewrite Ei|]; apply Hrg, elem_of_mid; [by left|by right].
  - by eapply sorted_replace.
  - intros i Hi. destruct (Z.eq_dec i (gl_idx g)) as [->|Hx].
    + intros _. apply list_elem_of_fmap_2, elem_of_mid. by left.
    + destruct (Hsame i Hx) as (_ & _ & _ & _ & _ & ->). by apply Hac.
  - intros k v. rewrite Hhas. split; intros (x & Hx & E1 & E2).
    + apply elem_of_mid in Hx as [->|Hx]; [exists g'|exists x]; rewrite elem_of_mid;
        split; try tauto; split; congruence.
    + apply elem_of_mid in Hx as [->|Hx]; [exists g|exists x]; rewrite elem_of_mid;
        split; try tauto; split; congruence.
Qed.

(** The other side only reads its own orders. *)
Lemma side_core_frame bid l os os' L :
  (forall o, o ∈ oids L -> os' o = os o) -> side_core bid l os L -> side_core bid l os' L.
Proof.
  intros Hos [Hlv ? ? ? ? ? ? ? ? ?]. split; try done. intros g Hg.
  apply (level_ok_frame bid l l os os'); [repeat split| |by apply Hlv].
  intros o Ho. apply Hos, elem_of_oids. by exists g.
Qed.

Lemma side_core_best bid l os L i :
  side_core bid l os L -> i = NULL_INDEX \/ i ∈ gl_idx <$> L ->
  side_core bid (set_best_idx l i) os L.
Proof.
  intros [Hlv ? ? ? ? ? ? ? ? ?] Hi. split; try done. intros g Hg.
  apply (level_ok_frame bid l _ os os); [repeat split|done|by apply Hlv].
Qed.

(** [deactivate] drops an emptied level. *)
Lemma deactivate_spec bid l os L1 g L2 :
  side_core bid l os (L1 ++ g :: L2) ->
  exists l', deactivate l (gl_idx g) = Some l' /\ side_core bid l' os (L1 ++ L2) /\
    best_idx l' = (if best_idx l =? gl_idx g then NULL_INDEX else best_idx l).
Proof.
  intros Hc. pose proof Hc as [Hlv Hnd Hrg Hst Hac Hct Hcp Hmp Hhas Hbi].
  assert (Hg : g ∈ L1 ++ g :: L2) by (apply elem_of_mid; by left).
  destruct (idx_mid _ _ _ _ Hnd) as [Hnd' Hne].
  apply sorted_split in Hst as (Hst' & Hlt1 & Hlt2).
  destruct (PriceHashMap.remove_has (price_map l) (gl_price g) (gl_idx g)) as
    (m' & Hrm & Hok & Hhas' & _); [done|apply Hhas; by exists g|].
  unfold deactivate. rewrite (lo_price _ _ _ _ (Hlv g Hg)), Hrm. simpl.
  eexists. split; [done|]. split; [|done]. split; simpl; try done.
  - intros x Hx. apply (level_ok_frame bid l _ os os); [|done|apply Hlv, elem_of_mid; by right].
    repeat split; simpl. by rewrite upd_ne by (by apply Hne).
  - intros x Hx. apply Hrg, elem_of_mid. by right.
  - intros i Hi. unfold upd. destruct (Z.eqb_spec i (gl_idx g)) as [->|Hx]; [done|].
    intros Ha. specialize (Hac i Hi Ha). apply list_elem_of_fmap in Hac as (x & -> & Hx').
    apply elem_of_mid in Hx' as [->|Hx']; [done|by apply list_elem_of_fmap_2].
  - intros k v. rewrite Hhas', Hhas. split.
    + intros [(x & Hx & E1 & E2) Hk]. exists x. apply elem_of_mid in Hx as [->|Hx]; [|done].
      congruence.
    + intros (x & Hx & E1 & E2). split; [exists x; rewrite elem_of_mid; tauto|].
      intros Ek. apply elem_of_app in Hx as [Hx|Hx]; [specialize (Hlt1 _ Hx)|specialize (Hlt2 _ Hx)];
        unfold gkey in *; rewrite E1, Ek in *; lia.
  - destruct (Z.eqb_spec (best_idx l) (gl_idx g)); [by left|].
    destruct Hbi as [?|Hbi]; [by left|right]. apply list_elem_of_fmap in Hbi as (x & Ex & Hx).
    apply elem_of_mid in Hx as [->|Hx]; [done|]. rewrite Ex. by apply list_elem_of_fmap_2.
Qed.

(** ** Level creation *)

Lemma sorted_position bid L p :
  StronglySorted (fun g1 g2 => gkey bid g1 < gkey bid g2) L ->
  (forall g, g ∈ L -> gl_price g <> p) ->
  exists L1 L2, L = L1 ++ L2 /\ (forall g, g ∈ L1 -> gkey bid g < key bid p) /\
    (forall g, g ∈ L2 -> key bid p < gkey bid g).
Proof.
  intros Hs Hne. induction L as [|g L IH].
  { exists [], []. split; [done|]. split; intros g Hg; by apply not_elem_of_nil in Hg. }
  inversion Hs as [|? ? Hs' Hf]; subst. rewrite Forall_forall in Hf.
  assert (gkey bid g <> key bid p).
  { intros E. apply (Hne g); [by left|]. unfold gkey, key in E. destruct bid; lia. }
  destruct (Z.lt_ge_cases (gkey bid g) (key bid p)) as [Hlt|Hge].
  - destruct IH as (L1 & L2 & -> & H1 & H2); [done|intros x Hx; apply Hne; by right|].
    exists (g :: L1), L2. split; [done|]. split; [|done].
    intros x [->|Hx]%elem_of_cons; [done|by apply H1].
  - exists [], (g :: L). split; [done|]. split; [intros x Hx; by apply not_elem_of_nil in Hx|].
    intros x [->|Hx]%elem_of_cons; [lia|]. specialize (Hf x Hx). simpl in Hf. lia.
Qed.

Lemma idx_not_null bid l os L g : side_core bid l os L -> g ∈ L -> gl_idx g <> NULL_INDEX.
Proof.
  intros H Hg. pose proof (sc_range _ _ _ _ H g Hg). pose proof (sc_count _ _ _ _ H).
  rewrite (sc_capacity _ _ _ _ H) in *. unfold MAX_PRICE_LEVELS_OB, NULL_INDEX, UINT32_MAX in *. lia.
Qed.

Lemma levels_few bid l os L : side_core bid l os L -> Z.of_nat (length L) <= count l.
Proof.
  intros H. rewrite <- (length_fmap gl_idx). apply nodup_bounded_length.
  - apply (sc_count _ _ _ _ H).
  - apply (sc_nodup _ _ _ _ H).
  - intros i (g & -> & Hg)%list_elem_of_fmap. by apply (sc_range _ _ _ _ H).
Qed.

Lemma find_price_present bid l os L g :
  side_core bid l os L -> g ∈ L -> PriceHashMap.find (price_map l) (gl_price g) = Some (gl_idx g).
Proof.
  intros H Hg. apply PriceHashMap.find_has; [apply (sc_map _ _ _ _ H)|].
  apply (sc_has _ _ _ _ H). by exists g.
Qed.

Lemma find_price_absent bid l os L p :
  side_core bid l os L -> (forall g, g ∈ L -> gl_price g <> p) ->
  PriceHashMap.find (price_map l) p = Some NULL_INDEX.
Proof.
  intros H Hne. apply PriceHashMap.find_not_has; [apply (sc_map _ _ _ _ H)|].
  intros v (g & Hg & Ep & _)%(sc_has _ _ _ _ H). by apply (Hne g).
Qed.

Lemma create_existing bid l os L g :
  side_core bid l os L -> g ∈ L -> find_or_create l (gl_price g) = Some (gl_idx g, l).
Proof.
  intros H Hg. unfold find_or_create. rewrite (find_price_present _ _ _ _ _ H Hg). simpl.
  rewrite (proj2 (Z.eqb_neq _ _)) by (by eapply idx_not_null).
  by rewrite (lo_active _ _ _ _ (sc_levels _ _ _ _ H g Hg)).
Qed.

Lemma create_full bid l os L p :
  side_core bid l os L -> (forall g, g ∈ L -> gl_price g <> p) ->
  count l = PriceLevelPool.capacity l -> find_or_create l p = Some (NULL_INDEX, l).
Proof.
  intros H Hne Hf. unfold find_or_create. rewrite (find_price_absent _ _ _ _ _ H Hne). simpl.
  rewrite (proj2 (Z.leb_le _ _)) by lia. done.
Qed.

Lemma create_new bid l os L p :
  side_core bid l os L -> (forall g, g ∈ L -> gl_price g <> p) ->
  count l < PriceLevelPool.capacity l -> PriceHashMap.probe_room (price_map l) ->
  INT64_MIN < p < INT64_MAX ->
  exists L1 L2 l', L = L1 ++ L2 /\ find_or_create l p = Some (count l, l') /\
    side_core bid l' os (L1 ++ {| gl_idx := count l; gl_price := p; gl_q := [] |} :: L2) /\
    best_idx l' = best_idx l.
Proof.
  intros H Hne Hlt Hroom Hp. pose proof H as [Hlv Hnd Hrg Hst Hac Hct Hcp Hmp Hhas Hbi].
  destruct (sorted_position bid L p Hst Hne) as (L1 & L2 & -> & H1 & H2).
  set (g := {| gl_idx := count l; gl_price := p; gl_q := [] |}).
  destruct (PriceHashMap.insert_has (price_map l) p (count l)) as (m' & Hin & Hr' & Hu' & Hhas');
    [done|done| |].
  { intros v (x & Hx & Ep & _)%Hhas. by apply (Hne x). }
  assert (Hhas2 : forall k v, PriceHashMap.has m' k v <->
            exists x, x ∈ L1 ++ g :: L2 /\ gl_price x = k /\ gl_idx x = v).
  { intros k v. rewrite Hhas', Hhas. setoid_rewrite elem_of_mid. split.
    - intros [(x & Hx & ?)|[-> ->]]; [exists x; tauto|exists g; tauto].
    - intros (x & [->|Hx] & <- & <-); [by right|left; by exists x]. }
  assert (Hfew : Z.of_nat (length (gl_price <$> L1 ++ g :: L2)) < PRICE_MAP_CAPACITY).
  { pose proof (levels_few _ _ _ _ H) as Hf. rewrite length_fmap, length_app in *. simpl.
    unfold MAX_PRICE_LEVELS_OB, PRICE_MAP_CAPACITY in *. lia. }
  assert (Hu32 : u32 (count l + 1) = count l + 1)
    by (apply u32_small; unfold MAX_PRICE_LEVELS_OB in *; lia).
  exists L1, L2. unfold find_or_create. rewrite (find_price_absent _ _ _ _ _ H Hne). simpl.
  rewrite (proj2 (Z.leb_gt _ _)) by lia. rewrite Hin. simpl. rewrite Hu32.
  eexists. split; [done|]. split; [done|]. split; [|done]. split; simpl; try done; try lia.
  - intros x [->|Hx]%elem_of_mid.
    + split; simpl; rewrite ?upd_eq; try done.
      intros o n Ho. by apply not_elem_of_nil in Ho.
    + specialize (Hrg x Hx). apply (level_ok_frame bid l _ os os); [|done|by apply Hlv].
      repeat split; simpl; rewrite upd_ne by lia; done.
  - rewrite fmap_app, fmap_cons, <- Permutation_middle, <- fmap_app. apply NoDup_cons.
    split; [|done]. intros (x & Ex & Hx)%list_elem_of_fmap. specialize (Hrg x Hx). simpl in Ex. lia.
  - intros x [->|Hx]%elem_of_mid; simpl; [lia|]. specialize (Hrg x Hx). lia.
  - apply sorted_split. done.
  - intros i Hi. unfold upd. rewrite fmap_app, fmap_cons, <- Permutation_middle, <- fmap_app.
    destruct (Z.eqb_spec i (count l)) as [->|Hx]; [left|]. intros Ha. right. apply Hac; [lia|done].
  - split; [done|done|]. apply (PriceHashMap.hole_of_small m' (gl_price <$> L1 ++ g :: L2)); try done.
    intros k v (x & Hx & <- & _)%Hhas2. by apply list_elem_of_fmap_2.
  - destruct Hbi as [?|Hb]; [by left|right].
    rewrite fmap_app, fmap_cons, <- Permutation_middle, <- fmap_app. by right.
Qed.

(** ** The best level *)

Definition find_best (bid : bool) (l : PriceLevelPool.t) : Z * PriceLevelPool.t :=
  if bid then find_best_bid l else find_best_ask l.

Definition better (bid : bool) : Z -> Z -> bool := if bid then Z.gtb else Z.ltb.
Definition worst (bid : bool) : Z := if bid then INT64_MIN else INT64_MAX.

Lemma better_spec bid a b : better bid a b = true <-> key bid a < key bid b.
Proof. destruct bid; simpl; [rewrite Z.gtb_lt|rewrite Z.ltb_lt]; lia. Qed.

Lemma find_best_eq bid l :
  find_best bid l =
  if cache_valid l then (best_idx l, l)
  else let b := rebuild_scan (better bid) l (Z.to_nat (count l)) 0 NULL_INDEX (worst bid) in
       (b, set_best_idx l b).
Proof. by destruct bid. Qed.

Lemma rebuild_scan_spec bid l n : forall i best bp,
  let r := rebuild_scan (better bid) l n i best bp in
  let good j := active l j = true /\ 0 < total_qty l j in
  (r = best /\ forall j, i <= j < i + Z.of_nat n -> good j -> key bid bp <= key bid (prices l j)) \/
  (i <= r < i + Z.of_nat n /\ good r /\ key bid (prices l r) < key bid bp /\
   forall j, i <= j < i + Z.of_nat n -> good j -> key bid (prices l r) <= key bid (prices l j)).
Proof.
  induction n as [|n IH]; intros i best bp; cbn zeta.
  { left. split; [done|]. intros j Hj. lia. }
  cbn [rebuild_scan].
  destruct (active l i && (0 <? total_qty l i) && better bid (prices l i) bp) eqn:E.
  - apply andb_prop in E as [[Ha Ht%Z.ltb_lt]%andb_prop Hb%better_spec]. right.
    destruct (IH (i + 1) i (prices l i)) as [[-> Hall]|(Hr & Hg & Hlt & Hall)]; cbn zeta in *.
    + split; [lia|]. split; [done|]. split; [done|]. intros j Hj Hgj.
      destruct (Z.eq_dec j i) as [->|]; [lia|]. apply Hall; [lia|done].
    + split; [lia|]. split; [done|]. split; [lia|]. intros j Hj Hgj.
      destruct (Z.eq_dec j i) as [->|]; [lia|]. apply Hall; [lia|done].
  - assert (Hi : active l i = true /\ 0 < total_qty l i -> key bid bp <= key bid (prices l i)).
    { intros [Ha Ht%Z.ltb_lt]. rewrite Ha, Ht in E. simpl in E.
      destruct (Z.le_gt_cases (key bid bp) (key bid (prices l i))) as [|Hgt]; [done|].
      apply better_spec in Hgt. congruence. }
    destruct (IH (i + 1) best bp) as [[Hr Hall]|(Hr & Hg & Hlt & Hall)]; cbn zeta in *.
    + left. split; [done|]. intros j Hj Hgj. destruct (Z.eq_dec j i) as [->|]; [by apply Hi|].
      apply Hall; [lia|done].
    + right. split; [lia|]. split; [done|]. split; [lia|]. intros j Hj Hgj.
      destruct (Z.eq_dec j i) as [->|]; [specialize (Hi Hgj); lia|]. apply Hall; [lia|done].
Qed.

Lemma qsum_pos q : (forall o n, (o, n) ∈ q -> 0 < n) -> q <> [] -> 0 < qsum q.
Proof.
  intros H Hne. destruct q as [|[o n] q]; [done|]. unfold qsum. rewrite fmap_cons. cbn [zsum snd].
  pose proof (H o n (list_elem_of_here _ _)).
  assert (0 <= zsum (snd <$> q)); [|lia]. apply zsum_nonneg.
  intros x ([o' n'] & -> & Hx)%list_elem_of_fmap.
  pose proof (H o' n' (list_elem_of_further _ _ _ Hx)). simpl. lia.
Qed.

Lemma level_total_pos bid l os L g :
  side_core bid l os L -> no_empty L -> g ∈ L -> 0 < total_qty l (gl_idx g).
Proof.
  intros H Hne Hg. pose proof (sc_levels _ _ _ _ H g Hg) as Hlv.
  rewrite (lo_total _ _ _ _ Hlv). apply qsum_pos; [|by apply Hne].
  intros o n Ho. apply (lo_orders _ _ _ _ Hlv _ _ Ho).
Qed.

(** [rebuild_best_*] finds the head of the priority list. *)
Lemma rebuild_spec bid l os L :
  side_core bid l os L -> no_empty L ->
  rebuild_scan (better bid) l (Z.to_nat (count l)) 0 NULL_INDEX (worst bid) =
  match L with [] => NULL_INDEX | g :: _ => gl_idx g end.
Proof.
  intros H Hne. pose proof (sc_count _ _ _ _ H) as Hct.
  destruct (rebuild_scan_spec bid l (Z.to_nat (count l)) 0 NULL_INDEX (worst bid))
    as [[-> Hall]|(Hr & [Ha Ht] & Hlt & Hall)]; cbn zeta in *; rewrite Z2Nat.id in * by lia.
  - destruct L as [|g L]; [done|]. exfalso.
    assert (Hg : g ∈ g :: L) by left. pose proof (sc_levels _ _ _ _ H g Hg) as Hlv.
    pose proof (sc_range _ _ _ _ H g Hg).
    specialize (Hall (gl_idx g) ltac:(lia)
      (conj (lo_active _ _ _ _ Hlv) (level_total_pos _ _ _ _ _ H Hne Hg))).
    rewrite (lo_price _ _ _ _ Hlv) in Hall. pose proof (lo_range _ _ _ _ Hlv).
    unfold key, worst in Hall. destruct bid; lia.
  - set (r := rebuild_scan _ _ _ _ _ _) in *.
    pose proof (sc_active _ _ _ _ H r ltac:(lia) Ha) as (x & Ex & Hx)%list_elem_of_fmap.
    destruct L as [|g L]; [by apply not_elem_of_nil in Hx|].
    apply elem_of_cons in Hx as [->|Hx]; [done|]. exfalso.
    assert (Hg : g ∈ g :: L) by left. pose proof (sc_levels _ _ _ _ H g Hg) as Hlv.
    pose proof (sc_range _ _ _ _ H g Hg).
    specialize (Hall (gl_idx g) ltac:(lia)
      (conj (lo_active _ _ _ _ Hlv) (level_total_pos _ _ _ _ _ H Hne Hg))).
    rewrite (lo_price _ _ _ _ Hlv), Ex in Hall.
    rewrite (lo_price _ _ _ _ (sc_levels _ _ _ _ H x ltac:(by right))) in Hall.
    pose proof (sc_sorted _ _ _ _ H) as Hs. inversion Hs as [|? ? _ Hf]; subst.
    rewrite Forall_forall in Hf. specialize (Hf x Hx). unfold gkey in Hf. simpl in Hf. lia.
Qed.

(** The search returns a live level (the best one if the cache is fresh), or
    null on an empty side; only the cache changes. *)
Lemma find_best_spec bid l os L :
  side_core bid l os L -> no_empty L ->
  exists l', side_core bid l' os L /\
    (fresh l L -> fresh l' L) /\
    ((L = [] /\ find_best bid l = (NULL_INDEX, l')) \/
     (exists L1 g L2, L = L1 ++ g :: L2 /\ find_best bid l = (gl_idx g, l') /\
        best_idx l' = gl_idx g /\ (fresh l L -> L1 = []))).
Proof.
  intros H Hne. rewrite find_best_eq. destruct (cache_valid l) eqn:Ec.
  - exists l. split; [done|]. split; [done|]. right. unfold cache_valid in Ec.
    apply andb_prop in Ec as [[Hn%negb_true_iff%Z.eqb_neq _]%andb_prop _].
    destruct (sc_best _ _ _ _ H) as [|(g & Ei & Hg)%list_elem_of_fmap]; [done|].
    apply list_elem_of_split in Hg as (L1 & L2 & ->). exists L1, g, L2. rewrite Ei.
    repeat split; try done. intros [|(g' & L' & EL & Eb)]; [done|].
    destruct L1 as [|g1 L1]; [done|]. exfalso. simpl in EL. injection EL as -> EL'.
    pose proof (sc_nodup _ _ _ _ H) as Hnd. simpl in Hnd. apply NoDup_cons in Hnd as [Hni _].
    apply Hni. rewrite <- Eb, Ei. apply list_elem_of_fmap_2, elem_of_mid. by left.
  - rewrite (rebuild_spec _ _ _ _ H Hne).
    exists (set_best_idx l match L with [] => NULL_INDEX | g :: _ => gl_idx g end).
    split; [|split; [|]].
    + apply side_core_best; [done|]. destruct L as [|g L]; [by left|]. right. rewrite fmap_cons. constructor.
    + intros _. destruct L as [|g L]; [by left|]. right. by exists g, L.
    + destruct L as [|g L]; [left; done|]. right. exists [], g, L. done.
Qed.
