(* ===== verification/BookOps.v ===== *)
(** What the order book promises: [add_order], [cancel_order] and [match_] of
    OrderBook.v against a priority list of [(slot, price, remaining)] entries
    per side, ordered by price and then by arrival. *)

From S2P Require Import Prelude Arena Protocol PriceMap OrderBook BookRep.
Import PriceLevelPool OrderPool OrderBook.

(** ** The abstract book *)

Definition entry : Type := Z * Z * Z.
Definition e_oid (e : entry) : Z := e.1.1.
Definition e_price (e : entry) : Z := e.1.2.
Definition e_qty (e : entry) : Z := e.2.

(** A new order goes behind every order of the same or a better price. *)
Fixpoint insert_flat (bid : bool) (e : entry) (F : list entry) : list entry :=
  match F with
  | [] => [e]
  | x :: F => if key bid (e_price e) <? key bid (e_price x) then e :: x :: F
              else x :: insert_flat bid e F
  end.

(** Matching: consume the list from its front while it crosses, quantity is
    left and fewer than [n] fills were made. *)
Fixpoint match_flat (cross : Z -> bool) (taker rem : Z) (n : nat) (F : list entry) :
    list MatchResult * list entry :=
  match F, n with
  | (o, p, q) :: F', S n' =>
      if (0 <? rem) && cross p then
        let f := Z.min rem q in
        let m := {| maker_idx := o; taker_contestant_id := taker;
                    fill_price := p; fill_qty := f |} in
        if q <=? rem then
          let '(ms, F'') := match_flat cross taker (rem - f) n' F' in (m :: ms, F'')
        else ([m], (o, p, q - f) :: F')
      else ([], F)
  | _, _ => ([], F)
  end.

(** The prices an aggressor with a limit trades at: a buyer at or below it, a
    seller at or above it. *)
Definition acceptable (aggressor : Side) (limit p : Z) : bool :=
  match aggressor with
  | BUY => p <=? limit
  | SELL => limit <=? p
  | SIDE_OTHER _ => true
  end.

Lemma crosses_acceptable aggressor limit p : crosses aggressor limit p = acceptable aggressor limit p.
Proof.
  unfold crosses, acceptable. destruct aggressor; [| |done].
  - rewrite Z.gtb_ltb, Z.leb_antisym. done.
  - by rewrite Z.leb_antisym.
Qed.

Lemma match_flat_ext f g taker n : (forall p, f p = g p) -> forall rem F,
  match_flat f taker rem n F = match_flat g taker rem n F.
Proof.
  intros E. induction n as [|n IH]; intros rem [|[[o p] q] F]; cbn [match_flat]; try done.
  rewrite E, IH. done.
Qed.

(** The book [b] stands for the levels [L] on side [bid] and [M] on the other. *)
Record rep (b : t) (bid : bool) (L M : list glevel) : Prop := {
  rep_side : side_core bid (levels b bid) (orders (pool_ b)) L;
  rep_ne : no_empty L;
  rep_other : side_core (negb bid) (levels b (negb bid)) (orders (pool_ b)) M;
  rep_other_ne : no_empty M;
  rep_pool : pool_ok (pool_ b) (oids L ++ oids M) }.

Definition book_ok (b : t) (bids asks : list glevel) : Prop := rep b true bids asks.

(** Both best-level caches are empty or right. *)
Definition book_fresh (b : t) (bids asks : list glevel) : Prop :=
  fresh (bids_ b) bids /\ fresh (asks_ b) asks.

Lemma rep_swap b bid L M : rep b bid L M -> rep b (negb bid) M L.
Proof.
  intros [? ? ? ? Hp]. split; rewrite ?negb_involutive; try done.
  eapply pool_ok_perm; [|done]. apply Permutation_app_comm.
Qed.

Lemma rep_book_ok b bid L M :
  rep b bid L M <-> if bid then book_ok b L M else book_ok b M L.
Proof.
  destruct bid; [done|]. split; intros H; [by apply rep_swap in H|].
  by apply rep_swap in H.
Qed.

(** ** Adding *)

Lemma insert_flat_app bid e F1 F2 :
  (forall x, x ∈ F1 -> key bid (e_price x) <= key bid (e_price e)) ->
  (forall x, x ∈ F2 -> key bid (e_price e) < key bid (e_price x)) ->
  insert_flat bid e (F1 ++ F2) = F1 ++ e :: F2.
Proof.
  intros H1 H2. induction F1 as [|x F1 IH]; simpl.
  - destruct F2 as [|x F2]; [done|]. simpl.
    rewrite (proj2 (Z.ltb_lt _ _)); [done|]. apply H2. by left.
  - rewrite (proj2 (Z.ltb_ge _ _)) by (apply H1; by left). f_equal.
    apply IH. intros y Hy. apply H1. by right.
Qed.

Lemma flat_price e L : e ∈ flat L -> exists g, g ∈ L /\ gl_price g = e_price e.
Proof.
  unfold flat. intros (g & He & Hg)%list_elem_of_bind. exists g. split; [done|].
  apply list_elem_of_fmap in He as ([o n] & -> & _). done.
Qed.

Definition enq (g : glevel) (o n : Z) : glevel :=
  {| gl_idx := gl_idx g; gl_price := gl_price g; gl_q := gl_q g ++ [(o, n)] |}.

Lemma flat_enq bid L1 g L2 o n :
  StronglySorted (fun g1 g2 => gkey bid g1 < gkey bid g2) (L1 ++ g :: L2) ->
  flat (L1 ++ enq g o n :: L2) = insert_flat bid (o, gl_price g, n) (flat (L1 ++ g :: L2)).
Proof.
  intros (_ & H1 & H2)%sorted_split. rewrite !flat_app, !flat_cons. simpl.
  rewrite fmap_app. simpl. set (F := _ <$> gl_q g).
  rewrite (assoc_L (++) (flat L1) F (flat L2)).
  rewrite insert_flat_app.
  - rewrite <- !(assoc_L (++)). done.
  - intros x [(y & Hy & Ey)%flat_price|([o' n'] & -> & _)%list_elem_of_fmap]%elem_of_app.
    + specialize (H1 y Hy). unfold gkey in H1. rewrite Ey in H1. unfold e_price at 2. simpl. lia.
    + done.
  - intros x (y & Hy & Ey)%flat_price. specialize (H2 y Hy). unfold gkey in H2.
    rewrite Ey in H2. unfold e_price at 1. simpl. lia.
Qed.

Lemma qsum_app q1 q2 : qsum (q1 ++ q2) = qsum q1 + qsum q2.
Proof. unfold qsum. by rewrite fmap_app, zsum_app. Qed.

Lemma qsum_cons o n q : qsum ((o, n) :: q) = n + qsum q.
Proof. done. Qed.

Lemma qsum_nonneg q : (forall o n, (o, n) ∈ q -> 0 < n) -> 0 <= qsum q.
Proof.
  intros H. apply zsum_nonneg. intros x ([o n] & -> & Hx)%list_elem_of_fmap.
  specialize (H _ _ Hx). simpl. lia.
Qed.

Lemma level_sum_nonneg bid l os g : level_ok bid l os g -> 0 <= qsum (gl_q g).
Proof. intros H. apply qsum_nonneg. intros o n Ho. apply (lo_orders _ _ _ _ H _ _ Ho). Qed.

(** The quantity and count updates that follow [link_tail]. *)
Definition credit (l : PriceLevelPool.t) (i n : Z) : PriceLevelPool.t :=
  let l := set_total_qty l ((total_qty l).[i <- i32 (total_qty l i + n)]) in
  set_order_count l ((order_count l).[i <- u32 (order_count l i + 1)]).

Lemma enqueue_spec bid l os L1 g L2 o n :
  side_core bid l os (L1 ++ g :: L2) -> NoDup (o :: oids (L1 ++ g :: L2)) ->
  NULL_INDEX ∉ oids (L1 ++ g :: L2) ->
  remaining_qty (os o) = n -> prev (os o) = NULL_INDEX -> next (os o) = NULL_INDEX ->
  is_buy (side (os o)) = bid -> price (os o) = gl_price g -> level_idx (os o) = gl_idx g ->
  0 < n -> qsum (gl_q g) + n <= INT32_MAX -> Z.of_nat (length (gl_q g)) <= MAX_ORDERS * 2 ->
  exists l1 os1, link_tail l os o (gl_idx g) = (l1, os1) /\
    side_core bid (credit l1 (gl_idx g) n) os1 (L1 ++ enq g o n :: L2) /\
    best_idx l1 = best_idx l /\ prices l1 = prices l /\
    (forall x, x ∉ o :: oids (L1 ++ g :: L2) -> os1 x = os x) /\
    (forall x, same_data (os x) (os1 x)).
Proof.
  intros H Hnd Hnull Hr Hp Hn Hs Hpr Hli Hpos Hsum Hlen.
  assert (Hg : g ∈ L1 ++ g :: L2) by (apply elem_of_mid; by left).
  pose proof (sc_levels _ _ _ _ H g Hg) as Hlv. pose proof (level_sum_nonneg _ _ _ _ Hlv) as Hnn.
  assert (Hsub : forall x, x ∈ qoids (gl_q g) -> x ∈ oids (L1 ++ g :: L2))
    by (intros x Hx; apply elem_of_oids; by exists g).
  apply NoDup_cons in Hnd as [Hni Hnd]. rewrite oids_app, oids_cons in Hnd.
  apply NoDup_app in Hnd as (_ & Hd1 & (Hndq & Hd2 & _)%NoDup_app).
  destruct (link_tail_spec l os (gl_q g) o n (gl_idx g)) as
    (l1 & os1 & Heq & Hla & Hh & Ht & Hd & Hf & Hsd);
    try done; try apply Hlv; [apply NoDup_cons; split; auto|by auto|].
  exists l1, os1. split; [done|]. split; [|split; [apply Hla|split; [apply Hla|split; [|done]]]].
  2:{ intros x Hx. apply not_elem_of_cons in Hx as [Hxo Hx]. apply Hf; [|done]. auto. }
  apply (side_replace bid l _ os os1 L1 g); simpl; try done; try apply Hla.
  - destruct Hla. split; simpl; rewrite ?upd_eq; try (rewrite ?la_prices, ?la_active; apply Hlv).
    + rewrite la_total, (lo_total _ _ _ _ Hlv), qsum_app. unfold qsum at 3. simpl.
      unfold INT32_MAX in *. rewrite i32_small; lia.
    + rewrite la_ocount, (lo_count _ _ _ _ Hlv), length_app. simpl.
      unfold MAX_ORDERS in *. rewrite u32_small; lia.
    + done.
    + by rewrite last_or_snoc.
    + done.
    + intros x m [Hx|[= -> ->]%list_elem_of_singleton]%elem_of_app.
      * destruct (lo_orders _ _ _ _ Hlv _ _ Hx) as (? & ? & ? & ?).
        destruct (Hsd x) as (_ & -> & -> & -> & _). done.
      * destruct (Hsd o) as (_ & -> & -> & -> & _). done.
    + rewrite qsum_app. unfold qsum at 2. simpl. lia.
  - intros i Hi. destruct Hla. unfold level_same. simpl. rewrite !upd_ne by done.
    rewrite la_prices, la_total, la_ocount, la_active, la_head, la_tail by done. done.
  - intros x Hx. apply Hf.
    + rewrite oids_app in Hx. intros Hxq. apply elem_of_app in Hx as [Hx|Hx].
      * apply (Hd1 x Hx). apply elem_of_app. by left.
      * by apply (Hd2 x).
    + intros ->. apply Hni. rewrite oids_app, oids_cons. rewrite oids_app in Hx.
      rewrite !elem_of_app. apply elem_of_app in Hx. tauto.
  - rewrite (la_best _ _ _ Hla). apply H.
Qed.

(** [update_best_*] after an insert. *)
Definition update_best (bid : bool) (l : PriceLevelPool.t) (i : Z) : PriceLevelPool.t :=
  if bid then update_best_bid l i else update_best_ask l i.

Lemma update_best_spec bid l os L i :
  side_core bid l os L -> i ∈ gl_idx <$> L -> side_core bid (update_best bid l i) os L.
Proof.
  intros H Hi. assert (side_core bid (set_best_idx l i) os L).
  { apply side_core_best; [done|by right]. }
  unfold update_best, update_best_bid, update_best_ask.
  destruct bid; by destruct (_ || _).
Qed.

(** The cache survives an insert unless it was empty on a non-empty side. *)
Lemma update_best_fresh bid l os L1 g L2 :
  side_core bid l os (L1 ++ g :: L2) ->
  best_idx l <> NULL_INDEX \/ L1 ++ L2 = [] ->
  (best_idx l <> NULL_INDEX ->
     exists x L', best_idx l = gl_idx x /\ (L1 ++ g :: L2 = x :: L' \/ L1 ++ L2 = x :: L')) ->
  fresh (update_best bid l (gl_idx g)) (L1 ++ g :: L2).
Proof.
  intros H Hc Hx. assert (Hg : g ∈ L1 ++ g :: L2) by (apply elem_of_mid; by left).
  assert (Hprice : forall x, x ∈ L1 ++ g :: L2 -> prices l (gl_idx x) = gl_price x)
    by (intros x Hxi; apply (sc_levels _ _ _ _ H x Hxi)).
  assert (Eu : update_best bid l (gl_idx g) =
    if (best_idx l =? NULL_INDEX) || better bid (prices l (gl_idx g)) (prices l (best_idx l))
    then set_best_idx l (gl_idx g) else l) by (by destruct bid).
  rewrite Eu. pose proof (proj1 (sorted_split _ _ _ _) (sc_sorted _ _ _ _ H)) as (_ & Hlt1 & Hlt2).
  destruct (Z.eqb_spec (best_idx l) NULL_INDEX) as [En|En]; simpl.
  - destruct Hc as [|[-> ->]%app_eq_nil]; [done|]. right. by exists g, [].
  - destruct (Hx En) as (x & L' & Eb & EL). rewrite Eb.
    destruct L1 as [|y L1].
    + destruct EL as [[= -> ->]|EL]; simpl in *.
      * assert (better bid (prices l (gl_idx x)) (prices l (gl_idx x)) = false) as ->.
        { apply not_true_iff_false. rewrite better_spec. lia. }
        right. by exists x, L'.
      * subst L2. rewrite (proj2 (better_spec _ _ _)).
        -- right. by exists g, (x :: L').
        -- rewrite !Hprice by (try done; right; by left). apply Hlt2. by left.
    + assert (y = x) as -> by (destruct EL as [[= ->]|[= ->]]; done). simpl in *.
      assert (better bid (prices l (gl_idx g)) (prices l (gl_idx x)) = false) as ->.
      { apply not_true_iff_false. rewrite better_spec.
        rewrite !Hprice by (try done; by left). pose proof (Hlt1 x ltac:(by left)).
        unfold gkey in *. lia. }
      right. by exists x, (L1 ++ g :: L2).
Qed.

(** What [add_order] needs of the level table: the price has a live level, or
    a slot for a new level is left and no probe sequence of the price map has
    reached the last safe distance. *)
Definition can_level (l : PriceLevelPool.t) (L : list glevel) (p : Z) : Prop :=
  (exists g, g ∈ L /\ gl_price g = p) \/
  (count l < PriceLevelPool.capacity l /\ PriceHashMap.probe_room (price_map l)).

(** The level sums of [p] leave room for [n] more. *)
Definition can_sum (L : list glevel) (p n : Z) : Prop :=
  n <= INT32_MAX /\ forall g, g ∈ L -> gl_price g = p -> qsum (gl_q g) + n <= INT32_MAX.

Lemma find_or_create_spec bid l os L p n :
  side_core bid l os L -> can_level l L p -> can_sum L p n -> INT64_MIN < p < INT64_MAX ->
  exists L1 g L2 l', find_or_create l p = Some (gl_idx g, l') /\
    side_core bid l' os (L1 ++ g :: L2) /\ gl_price g = p /\ best_idx l' = best_idx l /\
    qsum (gl_q g) + n <= INT32_MAX /\
    flat (L1 ++ g :: L2) = flat L /\ oids (L1 ++ g :: L2) = oids L /\
    (forall x, x ∈ L1 ++ L2 -> x ∈ L) /\
    (L = L1 ++ g :: L2 \/ (L = L1 ++ L2 /\ gl_q g = [])).
Proof.
  intros H Hcl [Hn Hcs] Hp.
  destruct (decide (p ∈ gl_price <$> L)) as [(g & -> & Hg)%list_elem_of_fmap|Hno].
  - pose proof (create_existing _ _ _ _ _ H Hg) as Hfc. pose proof (Hcs g Hg eq_refl).
    apply list_elem_of_split in Hg as (L1 & L2 & ->). exists L1, g, L2, l.
    split_and!; try done; [|by left]. intros x Hx. apply elem_of_mid. by right.
  - assert (Hne : forall g, g ∈ L -> gl_price g <> p)
      by (intros g Hg E; apply Hno; rewrite <- E; by apply list_elem_of_fmap_2).
    destruct Hcl as [(g & Hg & E)|[Hlt Hroom]]; [by destruct (Hne g)|].
    destruct (create_new _ _ _ _ _ H Hne Hlt Hroom Hp) as (L1 & L2 & l' & -> & Hfc & Hsc & Hb).
    exists L1, {| gl_idx := count l; gl_price := p; gl_q := [] |}, L2, l'.
    split; [exact Hfc|]. split; [exact Hsc|]. simpl.
    rewrite !flat_app, !oids_app, flat_cons, oids_cons. simpl. unfold qsum at 1. simpl.
    split_and!; try done; by right.
Qed.

(** The order record [add_order] writes. *)
Definition new_order (b : t) (contestant client : Z) (s : Side) (p n ts lvl : Z) : Order :=
  {| exchange_id := next_exchange_id_ b; client_order_id := client;
     contestant_id := contestant; price := p; remaining_qty := n; original_qty := n;
     side := s; next := NULL_INDEX; prev := NULL_INDEX; level_idx := lvl; timestamp_ns := ts |}.

(** The orders once the new one is written and placed on its level. *)
Definition placed (b : t) (contestant client : Z) (s : Side) (p n ts o lidx : Z) : arr Order :=
  let os := (orders (pool_ b)).[o <-
    new_order b contestant client s p n ts (level_idx (orders (pool_ b) o))] in
  os.[o <- set_level_idx (os o) lidx].

Definition added (b : t) (bid : bool) (l : PriceLevelPool.t) (p : OrderPool.t) : t :=
  {| bids_ := if bid then l else bids_ b; asks_ := if bid then asks_ b else l; pool_ := p;
     next_exchange_id_ := u64 (next_exchange_id_ b + 1);
     total_orders_ := u64 (total_orders_ b + 1); total_fills_ := total_fills_ b |}.

Lemma add_order_eq b contestant client s p n ts o p1 lidx l1 l2 os2 :
  alloc (pool_ b) = (o, p1) -> o <> NULL_INDEX ->
  find_or_create (levels b (is_buy s)) p = Some (lidx, l1) -> lidx <> NULL_INDEX ->
  link_tail l1 (placed b contestant client s p n ts o lidx) o lidx = (l2, os2) ->
  add_order b contestant client s p n ts =
  Some (o, added b (is_buy s) (update_best (is_buy s) (credit l2 lidx n) lidx) (set_orders p1 os2)).
Proof.
  intros Ha Hn Hf Hl Hlk.
  assert (Ho : orders p1 = orders (pool_ b)).
  { unfold alloc in Ha. by destruct (free_top (pool_ b) =? 0); injection Ha as <- <-. }
  unfold add_order. rewrite Ha, (proj2 (Z.eqb_neq _ _)), Ho by done.
  cbn zeta. unfold levels at 1. cbn [bids_ asks_ pool_]. fold (levels b (is_buy s)). rewrite Hf.
  simpl mbind. cbn iota beta. rewrite (proj2 (Z.eqb_neq _ _)) by done.
  change ((orders (pool_ b)).[o <- _].[o <- _]) with (placed b contestant client s p n ts o lidx).
  by rewrite Hlk.
Qed.

Lemma placed_at b contestant client s p n ts o lidx :
  placed b contestant client s p n ts o lidx o = new_order b contestant client s p n ts lidx.
Proof. unfold placed. by rewrite !upd_eq. Qed.

Lemma placed_ne b contestant client s p n ts o lidx x :
  x <> o -> placed b contestant client s p n ts o lidx x = orders (pool_ b) x.
Proof. intros. unfold placed. by rewrite !upd_ne. Qed.

Lemma length_queue_used p used L g :
  pool_ok p used -> g ∈ L -> (forall x, x ∈ oids L -> x ∈ used) -> NoDup (oids L) ->
  Z.of_nat (length (gl_q g)) <= MAX_ORDERS * 2.
Proof.
  intros Hp Hg Hsub Hnd. rewrite <- (po_capacity _ _ Hp).
  apply list_elem_of_split in Hg as (L1 & L2 & ->). rewrite oids_app, oids_cons in *.
  apply NoDup_app in Hnd as (_ & _ & (Hnd & _)%NoDup_app).
  rewrite <- (length_fmap fst). change (fst <$> gl_q g) with (qoids (gl_q g)).
  apply nodup_bounded_length; [rewrite (po_capacity _ _ Hp); unfold MAX_ORDERS; lia|done|].
  intros x Hx. eapply pool_used_range; [done|]. apply Hsub. rewrite !elem_of_app. tauto.
Qed.

(** [add_order] on success. *)
Lemma add_order_spec b bid L M s contestant client p n ts :
  rep b bid L M -> is_buy s = bid -> free_top (pool_ b) <> 0 ->
  can_level (levels b bid) L p -> can_sum L p n ->
  INT64_MIN < p < INT64_MAX -> 0 < n ->
  exists o b' L', add_order b contestant client s p n ts = Some (o, b') /\
    rep b' bid L' M /\ flat L' = insert_flat bid (o, p, n) (flat L) /\
    (o <> NULL_INDEX /\ 0 <= o) /\ (o ∉ oids L ++ oids M) /\
    levels b' (negb bid) = levels b (negb bid) /\
    (fresh (levels b bid) L -> best_idx (levels b bid) <> NULL_INDEX \/ L = [] ->
       fresh (levels b' bid) L') /\
    (client_order_id (order_at b' o) = client /\ contestant_id (order_at b' o) = contestant /\
     exchange_id (order_at b' o) = next_exchange_id_ b) /\
    (forall x, x <> o -> same_data (order_at b x) (order_at b' x)).
Proof.
  intros [Hside Hne Hoth Hone Hpool] Hs Htop Hcl Hcs Hp Hn. subst bid.
  destruct (alloc_ok _ _ Hpool Htop) as (o & p1 & Halloc & Ho1 & Hcap1 & Hnull & Hfresh & Hpool1).
  pose proof Hfresh as [HfL HfM]%not_elem_of_app.
  pose proof (pool_nodup _ _ Hpool) as (HndL & Hdis & HndM)%NoDup_app.
  destruct (find_or_create_spec _ _ _ _ p n Hside Hcl Hcs Hp) as
    (L1 & g & L2 & l1 & Hfc & Hsc & Hgp & Hbi & Hsum & Hflat & Hoids & Hsub & Hshape).
  set (os1 := placed b contestant client s p n ts o (gl_idx g)).
  assert (Hsc1 : side_core (is_buy s) l1 os1 (L1 ++ g :: L2)).
  { eapply side_core_frame; [|done]. rewrite Hoids. intros x Hx. apply placed_ne. by intros ->. }
  assert (Hgin : g ∈ L1 ++ g :: L2) by (apply elem_of_mid; by left).
  pose proof (placed_at b contestant client s p n ts o (gl_idx g)) as Hat. fold os1 in Hat.
  destruct (enqueue_spec _ _ _ _ _ _ o n Hsc1) as
    (l2 & os2 & Hlk & Hsc2 & Hbi2 & Hpr2 & Hfr2 & Hsd2); rewrite ?Hat, ?Hoids; try done.
  { by apply NoDup_cons. }
  { intros Hx. eapply pool_used_not_null; [exact Hpool| |done]. apply elem_of_app. by left. }
  { eapply length_queue_used; [exact Hpool|exact Hgin| |]; rewrite Hoids; [|done].
    intros x Hx. apply elem_of_app. by left. }
  rewrite (add_order_eq _ _ _ _ _ _ _ _ _ _ _ _ _ Halloc Hnull Hfc
    (idx_not_null _ _ _ _ _ Hsc Hgin) Hlk).
  set (l3 := credit l2 (gl_idx g) n) in *. set (L' := L1 ++ enq g o n :: L2) in *.
  assert (Hin : gl_idx g ∈ gl_idx <$> L').
  { unfold L'. rewrite fmap_app, fmap_cons, elem_of_app. right. left. }
  assert (Hol : oids L' ≡ₚ o :: oids L).
  { rewrite <- Hoids. unfold L'. rewrite !oids_app, !oids_cons. simpl. unfold qoids.
    rewrite fmap_app. simpl. solve_Permutation. }
  destruct (Hsd2 o) as (_ & _ & _ & _ & E1 & E2 & E3). rewrite Hat in E1, E2, E3.
  assert (0 <= o) by (apply (pool_used_range _ _ o Hpool1); left).
  eexists o, _, L'. split; [done|]. split_and!; try done.
  - split; simpl.
    + unfold levels. simpl. destruct (is_buy s); by apply update_best_spec.
    + intros x [->|Hx]%elem_of_mid; [simpl; by destruct (gl_q g)|]. by apply Hne, Hsub.
    + replace (levels _ _) with (levels b (negb (is_buy s))) by (by destruct (is_buy s)).
      eapply side_core_frame; [|done]. intros x Hx. rewrite Hfr2.
      * apply placed_ne. by intros ->.
      * rewrite Hoids. apply not_elem_of_cons. split; [by intros ->|]. intros HxL. by apply (Hdis x).
    + done.
    + eapply pool_ok_perm; [|apply pool_ok_orders; [exact Hpool1|]]; [by rewrite Hol|].
      intros x Hx. pose proof (pool_free_used _ _ _ Hpool1 Hx) as [Hxo Hxu]%not_elem_of_cons.
      destruct (Hsd2 x) as (-> & _). unfold os1. rewrite placed_ne, <- Ho1 by done.
      by apply (po_free _ _ Hpool1).
  - unfold L'. rewrite (flat_enq (is_buy s)), Hgp, Hflat; [done|]. apply Hsc.
  - by destruct (is_buy s).
  - intros Hf Hc.
    replace (levels _ _) with (update_best (is_buy s) l3 (gl_idx g)) by (by destruct (is_buy s)).
    change (gl_idx g) with (gl_idx (enq g o n)).
    apply (update_best_fresh (is_buy s) l3 os2); [done| |];
      replace (best_idx l3) with (best_idx (levels b (is_buy s))) by (rewrite <- Hbi; done).
    + destruct Hc as [?| ->]; [by left|right]. destruct Hshape as [Hx|[Hx _]]; [|done].
      by destruct L1.
    + intros Hb. destruct Hf as [?|(x & Lx & -> & Eb)]; [done|].
      destruct Hshape as [Hx|[Hx _]].
      * destruct L1 as [|y L1]; simpl in Hx; simplify_eq; [exists (enq g o n)|exists y];
          eexists; split; try done; left; done.
      * exists x, Lx. split; [done|]. by right.
  - intros x Hx. simpl. unfold order_at. rewrite <- (placed_ne b contestant client s p n ts o (gl_idx g)) by done.
    apply Hsd2.
Qed.

(** ** Taking orders out *)

Definition with_q (g : glevel) (q : queue) : glevel :=
  {| gl_idx := gl_idx g; gl_price := gl_price g; gl_q := q |}.

Lemma with_q_same g : with_q g (gl_q g) = g.
Proof. by destruct g. Qed.

(** Facts about the order that stay while it rests. *)
Definition same_ids (o o' : Order) : Prop :=
  side o' = side o /\ price o' = price o /\ level_idx o' = level_idx o /\
  contestant_id o' = contestant_id o /\ client_order_id o' = client_order_id o /\
  exchange_id o' = exchange_id o.

Lemma same_data_ids o o' : same_data o o' -> same_ids o o'.
Proof. unfold same_data, same_ids. tauto. Qed.
Lemma same_ids_refl o : same_ids o o.
Proof. by unfold same_ids. Qed.
Lemma same_ids_trans o1 o2 o3 : same_ids o1 o2 -> same_ids o2 o3 -> same_ids o1 o3.
Proof. unfold same_ids. intuition congruence. Qed.
#[local] Hint Resolve same_ids_refl same_data_ids : core.

(** A level whose queue and totals were updated consistently. *)
Lemma requeue_core bid l l' os os' L1 g L2 q' :
  let i := gl_idx g in
  side_core bid l os (L1 ++ g :: L2) ->
  (forall j, j <> i -> level_same l l' j) ->
  count l' = count l -> PriceLevelPool.capacity l' = PriceLevelPool.capacity l ->
  price_map l' = price_map l -> best_idx l' = best_idx l ->
  prices l' i = prices l i -> active l' i = active l i ->
  total_qty l' i = qsum q' -> order_count l' i = Z.of_nat (length q') ->
  head l' i = hd_or NULL_INDEX q' -> tail l' i = last_or NULL_INDEX q' ->
  dll os' NULL_INDEX q' NULL_INDEX -> qsum q' <= qsum (gl_q g) ->
  (forall x m, (x, m) ∈ q' -> 0 < m /\ same_ids (os x) (os' x) /\ x ∈ qoids (gl_q g)) ->
  (forall x, x ∈ oids (L1 ++ L2) -> os' x = os x) ->
  side_core bid l' os' (L1 ++ with_q g q' :: L2).
Proof.
  intros i H Hsame E1 E2 E3 E4 Ep Ea Et Ec Eh Etl Hd Hle Hq Hf.
  assert (Hg : g ∈ L1 ++ g :: L2) by (apply elem_of_mid; by left).
  pose proof (sc_levels _ _ _ _ H g Hg) as Hlv. unfold i in *.
  apply (side_replace bid l _ os os' L1 g); simpl; try done; [|rewrite E4; apply H].
  split; simpl; try done; try (rewrite ?Ep, ?Ea; apply Hlv).
  - intros x m Hx. destruct (Hq x m Hx) as (Hm & (Es & Epr & El & _) & Hin).
    apply list_elem_of_fmap in Hin as ([x' m'] & -> & Hin). simpl in *.
    destruct (lo_orders _ _ _ _ Hlv _ _ Hin) as (_ & ? & ? & ?). by rewrite Es, Epr, El.
  - pose proof (lo_sum _ _ _ _ Hlv). lia.
Qed.

(** The slots of one level among those of the pool. *)
Lemma level_slots p used L1 g L2 :
  pool_ok p (oids (L1 ++ g :: L2) ++ used) ->
  NoDup (qoids (gl_q g)) /\ (NULL_INDEX ∉ qoids (gl_q g)) /\
  (forall x, x ∈ qoids (gl_q g) -> x ∉ oids (L1 ++ L2)) /\
  (forall x, x ∈ qoids (gl_q g) -> x ∉ used) /\
  Z.of_nat (length (gl_q g)) <= MAX_ORDERS * 2.
Proof.
  intros Hp. pose proof (pool_nodup _ _ Hp) as Hnd.
  assert (Hperm : oids (L1 ++ g :: L2) ++ used ≡ₚ qoids (gl_q g) ++ oids (L1 ++ L2) ++ used).
  { rewrite !oids_app, oids_cons. solve_Permutation. }
  pose proof Hnd as (HndL & _ & _)%NoDup_app.
  rewrite Hperm in Hnd. apply NoDup_app in Hnd as (Hq & Hd & _).
  split; [done|]. split; [|split; [|split]].
  - intros Hx. eapply pool_used_not_null; [exact Hp| |done].
    rewrite Hperm. apply elem_of_app. by left.
  - intros x Hx Hx'. apply (Hd x Hx), elem_of_app. by left.
  - intros x Hx Hx'. apply (Hd x Hx), elem_of_app. by right.
  - eapply (length_queue_used _ _ (L1 ++ g :: L2)); [exact Hp| | |done].
    + apply elem_of_mid. by left.
    + intros x Hx. apply elem_of_app. by left.
Qed.

Lemma qoids_app q1 q2 : qoids (q1 ++ q2) = qoids q1 ++ qoids q2.
Proof. apply fmap_app. Qed.

(** Unlinking order [o] of a level and taking [m] off its total and one off
    its count, when [m] is what the order had left. *)
Lemma unlink_core bid l os os0 L1 g L2 q1 o n m q2 p used lt :
  side_core bid l os (L1 ++ g :: L2) -> gl_q g = q1 ++ (o, n) :: q2 ->
  pool_ok p (oids (L1 ++ g :: L2) ++ used) ->
  os0 o = set_remaining_qty (os o) m -> (forall x, x <> o -> os0 x = os x) ->
  lt = set_total_qty l (total_qty lt) ->
  exists l1 os1, unlink lt os0 o (gl_idx g) = (l1, os1) /\
    total_qty l1 = total_qty lt /\ order_count l1 = order_count l /\
    best_idx l1 = best_idx l /\
    (forall x, x ∉ oids (L1 ++ g :: L2) \/ x = o -> os1 x = os0 x) /\
    (forall x, same_ids (os x) (os1 x)) /\
    forall l2, l2 = set_order_count (set_total_qty l1 (total_qty l2)) (order_count l2) ->
      total_qty l2 (gl_idx g) = total_qty l (gl_idx g) - n ->
      order_count l2 (gl_idx g) = order_count l (gl_idx g) - 1 ->
      (forall j, j <> gl_idx g -> total_qty l2 j = total_qty l j /\ order_count l2 j = order_count l j) ->
      side_core bid l2 os1 (L1 ++ with_q g (q1 ++ q2) :: L2).
Proof.
  intros H Hgq Hp Hos0 Hos0' Hlt.
  assert (Hg : g ∈ L1 ++ g :: L2) by (apply elem_of_mid; by left).
  pose proof (sc_levels _ _ _ _ H g Hg) as Hlv.
  destruct (level_slots _ _ _ _ _ Hp) as (Hnd & Hnull & Hother & Hused & Hlen).
  rewrite Hgq in *.
  assert (Hqq : qoids (q1 ++ (o, m) :: q2) = qoids (q1 ++ (o, n) :: q2))
    by (rewrite !qoids_app; done).
  assert (Hnd' : o ∉ qoids (q1 ++ q2)).
  { rewrite !qoids_app in *. change (qoids ((o, n) :: q2)) with (o :: qoids q2) in Hnd.
    rewrite <- Permutation_middle in Hnd. by apply NoDup_cons in Hnd as [? _]. }
  assert (Hd0 : dll os0 NULL_INDEX (q1 ++ (o, m) :: q2) NULL_INDEX).
  { pose proof (lo_dll _ _ _ _ Hlv) as Hd. rewrite Hgq in Hd.
    rewrite qoids_app, not_elem_of_app in Hnd'. destruct Hnd' as [Hn1 Hn2].
    apply dll_app in Hd as [Hd1 (Hr & Hpv & Hnx & Hd2)]. apply dll_app. split.
    - eapply dll_frame; [|done]. intros x Hx. apply Hos0'. by intros ->.
    - simpl. rewrite Hos0. simpl. split_and!; try done.
      eapply dll_frame; [|done]. intros x Hx. apply Hos0'. by intros ->. }
  destruct (unlink_spec lt os0 q1 o m q2 (gl_idx g)) as (l1 & os1 & Heq & Hla & Hh & Ht & Hd & Hf & Hsd).
  { rewrite Hlt. simpl. rewrite (lo_head _ _ _ _ Hlv), Hgq, !hd_or_app. done. }
  { rewrite Hlt. simpl. rewrite (lo_tail _ _ _ _ Hlv), Hgq, !last_or_app. done. }
  { done. }
  { by rewrite Hqq. }
  { by rewrite Hqq. }
  assert (Hids : forall x, same_ids (os x) (os1 x)).
  { intros x. apply (same_ids_trans _ (os0 x)); [|auto].
    destruct (Z.eq_dec x o) as [->|Hx]; [rewrite Hos0; by destruct (os o)|]. by rewrite Hos0'. }
  exists l1, os1. destruct Hla. split; [done|]. split; [done|].
  split; [by rewrite la_ocount, Hlt|]. split; [by rewrite la_best, Hlt|].
  split; [|split; [done|]].
  { intros x Hx. apply Hf. destruct Hx as [Hx| ->]; [|done]. intros Hx2. apply Hx.
    apply elem_of_oids. exists g. split; [done|]. rewrite Hgq, qoids_app in *.
    change (qoids ((o, n) :: q2)) with (o :: qoids q2). rewrite elem_of_app in *.
    rewrite elem_of_cons. tauto. }
  intros l2 El2 Et Eo Hj.
  assert (Hin : forall x v, (x, v) ∈ q1 ++ q2 -> (x, v) ∈ gl_q g).
  { intros x v Hx. rewrite Hgq. apply elem_of_mid. by right. }
  assert (prices l2 = prices l /\ active l2 = active l /\ count l2 = count l /\
    PriceLevelPool.capacity l2 = PriceLevelPool.capacity l /\ price_map l2 = price_map l /\
    best_idx l2 = best_idx l /\ head l2 = head l1 /\ tail l2 = tail l1)
    as (Ep & Ea & Ec & Ecap & Em & Eb & Ehd & Etl).
  { rewrite El2. simpl.
    rewrite la_prices, la_active, la_count, la_capacity, la_map, la_best, Hlt. done. }
  apply (requeue_core bid l l2 os); rewrite ?Ep, ?Ea, ?Ehd, ?Etl; try done.
  - intros j Hji. destruct (Hj j Hji) as [E1 E2]. unfold level_same.
    rewrite Ep, Ea, Ehd, Etl, la_head, la_tail, Hlt by done. done.
  - rewrite Et, (lo_total _ _ _ _ Hlv), Hgq, !qsum_app, qsum_cons. lia.
  - rewrite Eo, (lo_count _ _ _ _ Hlv), Hgq, !length_app. simpl. lia.
  - pose proof (lo_orders _ _ _ _ Hlv o n ltac:(rewrite Hgq; apply elem_of_mid; by left)) as [Hn _].
    rewrite Hgq, !qsum_app, qsum_cons. lia.
  - intros x v Hx. pose proof (Hin x v Hx) as Hx2.
    split; [apply (lo_orders _ _ _ _ Hlv _ _ Hx2)|]. split; [done|].
    apply list_elem_of_fmap. by exists (x, v).
  - intros x Hx. rewrite Hf.
    + apply Hos0'. intros ->. apply (Hother o); [|done]. rewrite qoids_app, elem_of_app. right. left.
    + intros Hx2. apply (Hother x); [|done]. rewrite qoids_app in *.
      change (qoids ((o, n) :: q2)) with (o :: qoids q2).
      rewrite elem_of_app in *. rewrite elem_of_cons. tauto.
Qed.

(** The end of a removal: an emptied level is deactivated. *)
Definition settle (l : PriceLevelPool.t) (i : Z) : option PriceLevelPool.t :=
  if order_count l i =? 0 then deactivate l i else Some l.

(** The levels left when the queue of [g] has become [q]. *)
Definition keep (L1 : list glevel) (g : glevel) (q : queue) (L2 : list glevel) : list glevel :=
  match q with [] => L1 ++ L2 | _ => L1 ++ with_q g q :: L2 end.

Lemma keep_flat L1 g q L2 : flat (keep L1 g q L2) = flat (L1 ++ with_q g q :: L2).
Proof. destruct q; [|done]. simpl. rewrite !flat_app, flat_cons. done. Qed.

Lemma keep_oids L1 g q L2 : oids (keep L1 g q L2) = oids (L1 ++ with_q g q :: L2).
Proof. by rewrite !oids_flat, keep_flat. Qed.

Lemma keep_no_empty L1 g q L2 : no_empty (L1 ++ g :: L2) -> no_empty (keep L1 g q L2).
Proof.
  intros H x Hx. assert (Hrest : x ∈ L1 ++ L2 -> gl_q x <> [])
    by (intros; apply H, elem_of_mid; by right).
  destruct q; [by apply Hrest|]. apply elem_of_mid in Hx as [->|Hx]; [done|by apply Hrest].
Qed.

Lemma settle_spec bid l os L1 g q L2 :
  side_core bid l os (L1 ++ with_q g q :: L2) ->
  exists l', settle l (gl_idx g) = Some l' /\ side_core bid l' os (keep L1 g q L2) /\
    best_idx l' = match q with
                  | [] => if best_idx l =? gl_idx g then NULL_INDEX else best_idx l
                  | _ => best_idx l
                  end.
Proof.
  intros H. assert (Hg : with_q g q ∈ L1 ++ with_q g q :: L2) by (apply elem_of_mid; by left).
  pose proof (lo_count _ _ _ _ (sc_levels _ _ _ _ H _ Hg)) as Hc. simpl in Hc.
  unfold settle. rewrite Hc. destruct q as [|e q].
  - simpl. by apply (deactivate_spec bid l os L1 (with_q g []) L2).
  - rewrite (proj2 (Z.eqb_neq _ _)) by (simpl; lia). by exists l.
Qed.

Lemma keep_fresh l l' L1 g q L2 :
  fresh l (L1 ++ g :: L2) -> NoDup (gl_idx <$> L1 ++ g :: L2) ->
  best_idx l' = match q with
                | [] => if best_idx l =? gl_idx g then NULL_INDEX else best_idx l
                | _ => best_idx l
                end ->
  fresh l' (keep L1 g q L2).
Proof.
  intros Hf Hnd Hb. unfold fresh. rewrite Hb. destruct Hf as [->|(x & L' & EL & Eb)].
  - left. destruct q; [by destruct (NULL_INDEX =? gl_idx g)|done].
  - rewrite Eb. destruct L1 as [|y L1]; simpl in EL; injection EL as <- EL.
    + destruct q as [|e q]; simpl; [rewrite Z.eqb_refl; by left|]. right.
      by exists (with_q g (e :: q)), L2.
    + right. assert (gl_idx y <> gl_idx g).
      { simpl in Hnd. apply NoDup_cons in Hnd as [Hn _]. intros E. apply Hn. rewrite E.
        apply list_elem_of_fmap_2, elem_of_mid. by left. }
      destruct q; simpl; [rewrite (proj2 (Z.eqb_neq _ _)) by done|]; eauto.
Qed.

Lemma filter_out (o : Z) (F1 F2 : list entry) e :
  e_oid e = o -> o ∉ e_oid <$> F1 ++ F2 ->
  filter (fun x => e_oid x <> o) (F1 ++ e :: F2) = F1 ++ F2.
Proof.
  intros He Hn. rewrite fmap_app, not_elem_of_app in Hn. destruct Hn as [H1 H2].
  rewrite filter_app, filter_cons_False by (intros H; by apply H).
  f_equal; apply filter_all; intros x Hx E;
    [apply H1|apply H2]; rewrite <- E; by apply list_elem_of_fmap_2.
Qed.

Lemma flat_remove L1 g q1 o n q2 L2 :
  o ∉ oids (L1 ++ with_q g (q1 ++ q2) :: L2) ->
  flat (L1 ++ with_q g (q1 ++ q2) :: L2) =
  filter (fun e => e_oid e <> o) (flat (L1 ++ with_q g (q1 ++ (o, n) :: q2) :: L2)).
Proof.
  set (f := fun '(x, m) => (x, gl_price g, m) : entry).
  assert (E1 : flat (L1 ++ with_q g (q1 ++ q2) :: L2) =
               (flat L1 ++ (f <$> q1)) ++ ((f <$> q2) ++ flat L2)).
  { rewrite flat_app, flat_cons. simpl. by rewrite fmap_app, <- !(assoc_L (++)). }
  assert (E2 : flat (L1 ++ with_q g (q1 ++ (o, n) :: q2) :: L2) =
               (flat L1 ++ (f <$> q1)) ++ (o, gl_price g, n) :: ((f <$> q2) ++ flat L2)).
  { rewrite flat_app, flat_cons. simpl. by rewrite fmap_app, fmap_cons, <- !(assoc_L (++)). }
  rewrite oids_flat, E1, E2. intros Hn. by rewrite filter_out.
Qed.

(** [cancel_order] of a resting order. *)
Lemma cancel_order_spec b bid L M o :
  rep b bid L M -> o ∈ oids L ->
  exists b' L', cancel_order b o = Some (true, b') /\ rep b' bid L' M /\
    flat L' = filter (fun e => e_oid e <> o) (flat L) /\
    levels b' (negb bid) = levels b (negb bid) /\
    (fresh (levels b bid) L -> fresh (levels b' bid) L') /\
    (forall x, same_ids (order_at b x) (order_at b' x)).
Proof.
  intros [Hside Hne Hoth Hone Hpool] Ho.
  assert (Hocap : o < OrderPool.capacity (pool_ b)).
  { eapply (pool_used_range _ _ o); [exact Hpool|]. apply elem_of_app. by left. }
  apply elem_of_oids in Ho as (g & Hg & Ho). pose proof (sc_levels _ _ _ _ Hside g Hg) as Hlv.
  apply list_elem_of_fmap in Ho as ([o' n] & -> & Hon). simpl in *.
  destruct (lo_orders _ _ _ _ Hlv _ _ Hon) as (Hn & Hsd & Hpr & Hli).
  apply list_elem_of_split in Hon as (q1 & q2 & Hq).
  apply list_elem_of_split in Hg as (L1 & L2 & ->).
  assert (Hrem : remaining_qty (orders (pool_ b) o') = n).
  { pose proof (lo_dll _ _ _ _ Hlv) as Hd. rewrite Hq in Hd.
    apply dll_app in Hd as [_ (Hr & _)]. done. }
  destruct (unlink_core bid (levels b bid) (orders (pool_ b)) (orders (pool_ b)) L1 g L2 q1 o' n n q2
    (pool_ b) (oids M) (levels b bid)) as (l1 & os1 & Hul & Et & Eo & Eb & Hfr & Hids & Hcore);
    try done; [rewrite <- Hrem; by destruct (orders (pool_ b) o')|by destruct (levels b bid)|].
  set (l2 := set_order_count (set_total_qty l1 ((total_qty l1).[gl_idx g <- i32 (total_qty l1 (gl_idx g) - n)]))
               ((order_count l1).[gl_idx g <- u32 (order_count l1 (gl_idx g) - 1)])).
  pose proof (level_sum_nonneg _ _ _ _ Hlv) as Hs0. pose proof (lo_sum _ _ _ _ Hlv) as Hs1.
  pose proof (level_slots _ _ _ _ _ Hpool) as (Hndq & _ & _ & HqM & Hlen).
  assert (Hsum : n <= qsum (gl_q g)).
  { rewrite Hq, qsum_app, qsum_cons.
    assert (forall q', (forall e, e ∈ q' -> e ∈ gl_q g) -> 0 <= qsum q') as Hnn.
    { intros q' Hsub. apply qsum_nonneg. intros x v Hx. apply (lo_orders _ _ _ _ Hlv x v), Hsub, Hx. }
    pose proof (Hnn q1 ltac:(intros e He; rewrite Hq; apply elem_of_app; by left)).
    pose proof (Hnn q2 ltac:(intros e He; rewrite Hq; apply elem_of_mid; rewrite elem_of_app; tauto)). lia. }
  assert (Hlen1 : 1 <= Z.of_nat (length (gl_q g))) by (rewrite Hq, length_app; simpl; lia).
  assert (Hc2 : side_core bid l2 os1 (L1 ++ with_q g (q1 ++ q2) :: L2)).
  { apply Hcore; unfold l2; simpl; rewrite ?upd_eq, ?Et, ?Eo.
    - done.
    - rewrite (lo_total _ _ _ _ Hlv). unfold INT32_MAX in *. rewrite i32_small; lia.
    - rewrite (lo_count _ _ _ _ Hlv). unfold MAX_ORDERS in *. rewrite u32_small; lia.
    - intros j Hj. by rewrite !upd_ne by done. }
  destruct (settle_spec _ _ _ _ _ _ _ Hc2) as (l3 & Hset & Hc3 & Hb3).
  assert (Ho1 : os1 o' = orders (pool_ b) o') by (apply Hfr; by right).
  set (os2 := os1.[o' <- set_remaining_qty (os1 o') 0]).
  assert (Hol : o' :: oids (keep L1 g (q1 ++ q2) L2) ≡ₚ oids (L1 ++ g :: L2)).
  { rewrite keep_oids, !oids_app, !oids_cons. simpl. rewrite Hq, !qoids_app.
    change (qoids ((o', n) :: q2)) with (o' :: qoids q2). solve_Permutation. }
  assert (Hon : o' ∉ oids (keep L1 g (q1 ++ q2) L2) ++ oids M).
  { pose proof (pool_nodup _ _ Hpool) as Hnd. rewrite <- Hol in Hnd.
    by apply NoDup_cons in Hnd as [? _]. }
  assert (cancel_order b o' = (l ← settle l2 (gl_idx g);
            Some (true, store b bid l (free (set_orders (pool_ b) os2) o')))) as ->.
  { unfold cancel_order. rewrite (proj2 (Z.leb_gt _ _)) by done.
    rewrite Hrem, (proj2 (Z.leb_gt _ _)) by done. rewrite Hsd, Hli, Hul. cbn zeta.
    unfold os2, l2. rewrite Ho1, Hrem. reflexivity. }
  rewrite Hset. simpl.
  eexists _, (keep L1 g (q1 ++ q2) L2). split; [done|]. split_and!.
  - split; simpl.
    + replace (levels _ bid) with l3 by (by destruct bid).
      eapply side_core_frame; [|exact Hc3]. intros x Hx. apply upd_ne. intros ->.
      apply Hon, elem_of_app. by left.
    + by apply keep_no_empty.
    + replace (levels _ (negb bid)) with (levels b (negb bid)) by (by destruct bid).
      eapply side_core_frame; [|exact Hoth]. intros x Hx. unfold os2; rewrite upd_ne.
      * apply Hfr. left. intros HxL.
        pose proof (pool_nodup _ _ Hpool) as (_ & Hd & _)%NoDup_app. by apply (Hd x).
      * intros ->. apply Hon, elem_of_app. by right.
    + done.
    + apply free_ok; [|simpl; unfold os2; by rewrite upd_eq].
      apply pool_ok_orders; [eapply pool_ok_perm; [|exact Hpool]; by rewrite <- Hol|].
      intros x Hx. pose proof (pool_free_used _ _ _ Hpool Hx) as Hxu.
      rewrite not_elem_of_app in Hxu. destruct Hxu as [HxL HxM].
      unfold os2; rewrite upd_ne; [rewrite Hfr by (by left); by apply (po_free _ _ Hpool)|].
      intros ->. apply HxL. rewrite <- Hol. left.
  - rewrite keep_flat. rewrite <- (with_q_same g) at 2. rewrite Hq. apply flat_remove.
    rewrite <- keep_oids. intros Hx. apply Hon, elem_of_app. by left.
  - by destruct bid.
  - intros Hf. replace (levels _ bid) with l3 by (by destruct bid).
    eapply keep_fresh; [exact Hf|apply Hside|]. rewrite Hb3. by rewrite <- Eb.
  - intros x. unfold order_at. simpl. unfold os2, upd.
    destruct (Z.eqb_spec x o') as [->|]; [|done]. rewrite Ho1. by destruct (orders (pool_ b) o').
Qed.

Lemma cancel_order_absent b bid L M o :
  rep b bid L M -> 0 <= o -> o ∉ oids L ++ oids M -> cancel_order b o = Some (false, b).
Proof.
  intros [_ _ _ _ Hp] Ho Hn. unfold cancel_order.
  destruct (Z.leb_spec (OrderPool.capacity (pool_ b)) o) as [|Hlt]; [done|].
  rewrite (proj2 (Z.leb_le _ _)); [done|]. apply (po_free _ _ Hp).
  assert (Hs : o ∈ seqZ 0 (OrderPool.capacity (pool_ b))) by (apply elem_of_seqZ; lia).
  rewrite <- (po_perm _ _ Hp) in Hs. apply elem_of_app in Hs as [|]; done.
Qed.
