(* ===== verification/BookMatch.v ===== *)
(** Matching: [match_] of OrderBook.v terminates, keeps the representation of
    BookRep.v and, when the best-level cache is right, makes exactly the fills
    of the priority list ([match_flat] of BookOps.v). *)

From S2P Require Import Prelude Arena Protocol PriceMap OrderBook BookRep BookOps.
Import PriceLevelPool OrderPool OrderBook.

(** Filling against one queue: the fills, the queue and the quantity left. *)
Fixpoint eat (rem : Z) (n : nat) (q : queue) : queue * queue * Z :=
  match q, n with
  | (o, x) :: q', S n' =>
      if 0 <? rem then
        if x <=? rem then
          let '(fs, q'', r) := eat (rem - x) n' q' in ((o, x) :: fs, q'', r)
        else ([(o, rem)], (o, x - rem) :: q', 0)
      else ([], q, rem)
  | _, _ => ([], q, rem)
  end.

Definition fills_of (taker p : Z) (fs : queue) : list MatchResult :=
  (fun '(o, f) => {| maker_idx := o; taker_contestant_id := taker;
                     fill_price := p; fill_qty := f |}) <$> fs.

Definition priced (p : Z) (q : queue) : list entry := (fun '(o, n) => (o, p, n)) <$> q.

(** Matching a priority list level by level. *)
Lemma match_flat_level cross taker p q F : forall rem n,
  cross p = true -> (forall o x, (o, x) ∈ q -> 0 < x) ->
  match_flat cross taker rem n (priced p q ++ F) =
  let '(fs, q', r) := eat rem n q in
  match q' with
  | [] => let '(ms, F') := match_flat cross taker r (n - length fs) F in
          (fills_of taker p fs ++ ms, F')
  | _ => (fills_of taker p fs, priced p q' ++ F)
  end.
Proof.
  induction q as [|[o x] q IH]; intros rem n Hc Hpos.
  { destruct n; cbn [eat length]; rewrite Nat.sub_0_r; simpl app; by destruct (match_flat _ _ _ _ F). }
  destruct n as [|n]; [done|].
  change (priced p ((o, x) :: q) ++ F) with ((o, p, x) :: (priced p q ++ F)).
  cbn [eat match_flat].
  rewrite Hc, andb_true_r. destruct (Z.ltb_spec 0 rem) as [Hr|Hr]; [|done].
  destruct (Z.leb_spec x rem) as [Hx|Hx].
  - rewrite Z.min_r by done.
    specialize (IH (rem - x) n Hc (fun o' x' H => Hpos o' x' (list_elem_of_further _ _ _ H))).
    rewrite IH.
    destruct (eat (rem - x) n q) as [[fs q'] r]. destruct q' as [|e q']; [|done].
    simpl. destruct (match_flat cross taker r (n - length fs) F). done.
  - by rewrite Z.min_l by lia.
Qed.

Lemma eat_spec q : forall rem n, 0 <= rem -> (forall o x, (o, x) ∈ q -> 0 < x) ->
  let '(fs, q', r) := eat rem n q in
  0 <= r /\ qsum fs + r = rem /\ (length fs <= n)%nat /\
  (forall o x, (o, x) ∈ fs -> 0 < x) /\
  (0 < rem -> (0 < n)%nat -> q <> [] -> (0 < length fs)%nat) /\
  (q' <> [] -> r = 0 \/ length fs = n) /\ qsum q' + qsum fs = qsum q /\
  (forall o x, (o, x) ∈ fs -> o ∈ qoids q) /\ (forall o, o ∈ qoids q' -> o ∈ qoids q).
Proof.
  induction q as [|[o x] q IH]; intros rem n Hr Hpos; [|destruct n as [|n]].
  - destruct n; cbn [eat length]; change (qsum []) with 0; split_and!; try done; try lia;
      intros ? ? H; by apply not_elem_of_nil in H.
  - cbn [eat length]. change (qsum []) with 0. split_and!; try done; try lia; try (by right).
    all: intros ? ? H; by apply not_elem_of_nil in H.
  - cbn [eat]. destruct (Z.ltb_spec 0 rem) as [H0|H0].
    2:{ cbn [length]. change (qsum []) with 0. split_and!; try done; try lia.
        all: intros ? ? H; by apply not_elem_of_nil in H. }
    pose proof (Hpos o x (list_elem_of_here _ _)).
    destruct (Z.leb_spec x rem) as [Hx|Hx].
    + specialize (IH (rem - x) n ltac:(lia) (fun o' x' H => Hpos o' x' (list_elem_of_further _ _ _ H))).
      destruct (eat (rem - x) n q) as [[fs q'] r]. destruct IH as (H1 & H2 & H3 & H4 & H5 & H6 & H7 & H8 & H9).
      rewrite !qsum_cons. cbn [length]. split_and!; try done; try lia.
      * intros o' x' [[= -> ->]|Hin]%elem_of_cons; [done|by eapply H4].
      * intros Hne. destruct (H6 Hne); [by left|right; lia].
      * intros o' x' [[= -> ->]|Hin]%elem_of_cons; [left|]. right. exact (H8 _ _ Hin).
      * intros o' Hin. right. by apply H9.
    + rewrite !qsum_cons. cbn [length]. change (qsum []) with 0. split_and!; try done; try lia.
      * intros o' x' [= -> ->]%list_elem_of_singleton. done.
      * intros o' x' [= -> ->]%list_elem_of_singleton. left.
Qed.

(** The state of a match in progress against side [bid]. *)
Record match_ok (bid : bool) (st : mstate) (L : list glevel) (used : list Z) : Prop := {
  mo_side : side_core bid (ms_contra st) (orders (ms_pool st)) L;
  mo_pool : pool_ok (ms_pool st) (oids L ++ used);
  mo_rem : 0 <= ms_remaining st <= INT32_MAX }.

(** What matching leaves alone. *)
Record match_frame (st st' : mstate) (used : list Z) : Prop := {
  mf_used : forall x, x ∈ used -> orders (ms_pool st') x = orders (ms_pool st) x;
  mf_ids : forall x, same_ids (orders (ms_pool st) x) (orders (ms_pool st') x) }.

Lemma match_frame_trans st1 st2 st3 used :
  match_frame st1 st2 used -> match_frame st2 st3 used -> match_frame st1 st3 used.
Proof.
  intros [H1 H2] [H3 H4]. split.
  - intros x Hx. by rewrite H3, H1.
  - intros x. by eapply same_ids_trans.
Qed.

Lemma match_frame_refl st used : match_frame st st used.
Proof. split; [done|]. intros x. apply same_ids_refl. Qed.

(** One fill that exhausts the head order. *)
Lemma fill_one_full bid st L1 g o n q L2 used taker :
  match_ok bid st (L1 ++ g :: L2) used -> gl_q g = (o, n) :: q -> n <= ms_remaining st ->
  let st' := fill_one taker (gl_idx g) o st in
  match_ok bid st' (L1 ++ with_q g q :: L2) used /\
  ms_fills st' = ms_fills st ++ fills_of taker (gl_price g) [(o, n)] /\
  ms_remaining st' = ms_remaining st - n /\
  best_idx (ms_contra st') = best_idx (ms_contra st) /\ match_frame st st' used.
Proof.
  intros [Hside Hpool Hrem] Hq Hle. cbn zeta.
  assert (Hg : g ∈ L1 ++ g :: L2) by (apply elem_of_mid; by left).
  pose proof (sc_levels _ _ _ _ Hside g Hg) as Hlv.
  pose proof (lo_dll _ _ _ _ Hlv) as Hd. rewrite Hq in Hd. destruct Hd as (Hr & Hpv & Hnx & Hd).
  destruct (lo_orders _ _ _ _ Hlv o n ltac:(rewrite Hq; left)) as (Hn & _ & Hpr & _).
  pose proof (level_slots _ _ _ _ _ Hpool) as (Hnd & _ & _ & Hused & Hlen).
  pose proof (lo_sum _ _ _ _ Hlv) as Hs1. unfold INT32_MAX, MAX_ORDERS in *.
  assert (Hsum : n <= qsum (gl_q g)).
  { rewrite Hq, qsum_cons. pose proof (qsum_nonneg q). 
    specialize (H ltac:(intros x v Hx; apply (lo_orders _ _ _ _ Hlv x v); rewrite Hq; by right)). lia. }
  set (os0 := (orders (ms_pool st)).[o <- set_remaining_qty (orders (ms_pool st) o) 0]).
  set (lt := set_total_qty (ms_contra st)
    ((total_qty (ms_contra st)).[gl_idx g <- i32 (total_qty (ms_contra st) (gl_idx g) - n)])).
  destruct (unlink_core bid (ms_contra st) (orders (ms_pool st)) os0 L1 g L2 [] o n 0 q
    (ms_pool st) used lt) as (l1 & os1 & Hul & Et & Eo & Eb & Hfr & Hids & Hcore); try done.
  { unfold os0. by rewrite upd_eq. }
  { intros x Hx. unfold os0. by rewrite upd_ne. }
  set (l2 := set_order_count l1 ((order_count l1).[gl_idx g <- u32 (order_count l1 (gl_idx g) - 1)])).
  assert (Hc2 : side_core bid l2 os1 (L1 ++ with_q g q :: L2)).
  { apply Hcore; unfold l2; simpl; rewrite ?upd_eq, ?Et, ?Eo.
    - by destruct l1; simpl in *; subst.
    - unfold lt. simpl. rewrite upd_eq, (lo_total _ _ _ _ Hlv). rewrite i32_small; lia.
    - rewrite (lo_count _ _ _ _ Hlv), Hq in *. simpl in *. rewrite u32_small; lia.
    - intros j Hj. rewrite upd_ne by done. split; [|done]. unfold lt. simpl. by rewrite upd_ne. }
  assert (fill_one taker (gl_idx g) o st =
    {| ms_contra := l2; ms_pool := free (set_orders (ms_pool st) os1) o;
       ms_fills := ms_fills st ++ fills_of taker (gl_price g) [(o, n)];
       ms_remaining := ms_remaining st - n |}) as ->.
  { unfold fill_one. rewrite Hr, (proj2 (Z.ltb_ge _ _)) by lia.
    rewrite Z.sub_diag, upd_eq. change (i32 0) with 0. simpl remaining_qty. rewrite Z.eqb_refl.
    fold os0 lt. rewrite Hul, Hpr. rewrite (i32_small (ms_remaining st - n)) by lia. done. }
  assert (Hol : o :: oids (L1 ++ with_q g q :: L2) ≡ₚ oids (L1 ++ g :: L2)).
  { rewrite !oids_app, !oids_cons, Hq. simpl. change (qoids ((o, n) :: q)) with (o :: qoids q).
    solve_Permutation. }
  simpl. split_and!; try done.
  split; simpl; [done| |unfold INT32_MAX; lia].
  - apply free_ok; simpl.
    + apply pool_ok_orders; [eapply pool_ok_perm; [|exact Hpool]; by rewrite <- Hol|].
      intros x Hx. pose proof (pool_free_used _ _ _ Hpool Hx) as Hxu.
      rewrite not_elem_of_app in Hxu. destruct Hxu as [HxL _]. rewrite Hfr by (by left).
      unfold os0. rewrite upd_ne; [by apply (po_free _ _ Hpool)|].
      intros ->. apply HxL. rewrite <- Hol. left.
    + rewrite Hfr by (by right). unfold os0. by rewrite upd_eq.
  - split; simpl; [|done]. intros x Hx. rewrite Hfr.
    + unfold os0. apply upd_ne. intros ->. apply (Hused o); [|done]. rewrite Hq. left.
    + left. intros HxL. pose proof (pool_nodup _ _ Hpool) as (_ & Hdj & _)%NoDup_app. by apply (Hdj x).
Qed.

(** One fill that leaves the head order resting. *)
Lemma fill_one_partial bid st L1 g o n q L2 used taker :
  match_ok bid st (L1 ++ g :: L2) used -> gl_q g = (o, n) :: q ->
  0 < ms_remaining st < n ->
  let st' := fill_one taker (gl_idx g) o st in
  match_ok bid st' (L1 ++ with_q g ((o, n - ms_remaining st) :: q) :: L2) used /\
  ms_fills st' = ms_fills st ++ fills_of taker (gl_price g) [(o, ms_remaining st)] /\
  ms_remaining st' = 0 /\
  best_idx (ms_contra st') = best_idx (ms_contra st) /\ match_frame st st' used.
Proof.
  intros [Hside Hpool Hrem] Hq Hle. cbn zeta.
  assert (Hg : g ∈ L1 ++ g :: L2) by (apply elem_of_mid; by left).
  pose proof (sc_levels _ _ _ _ Hside g Hg) as Hlv.
  pose proof (lo_dll _ _ _ _ Hlv) as Hd. rewrite Hq in Hd. destruct Hd as (Hr & Hpv & Hnx & Hd).
  destruct (lo_orders _ _ _ _ Hlv o n ltac:(rewrite Hq; left)) as (Hn & _ & Hpr & _).
  pose proof (level_slots _ _ _ _ _ Hpool) as (Hnd & _ & Hother & Hused & Hlen).
  pose proof (lo_sum _ _ _ _ Hlv) as Hs1. unfold INT32_MAX, MAX_ORDERS in *.
  assert (Hsum : n <= qsum (gl_q g)).
  { rewrite Hq, qsum_cons. pose proof (qsum_nonneg q). 
    specialize (H ltac:(intros x v Hx; apply (lo_orders _ _ _ _ Hlv x v); rewrite Hq; by right)). lia. }
  set (m := ms_remaining st) in *.
  set (os0 := (orders (ms_pool st)).[o <- set_remaining_qty (orders (ms_pool st) o) (n - m)]).
  set (lt := set_total_qty (ms_contra st)
    ((total_qty (ms_contra st)).[gl_idx g <- i32 (total_qty (ms_contra st) (gl_idx g) - m)])).
  assert (fill_one taker (gl_idx g) o st =
    {| ms_contra := lt; ms_pool := set_orders (ms_pool st) os0;
       ms_fills := ms_fills st ++ fills_of taker (gl_price g) [(o, m)];
       ms_remaining := 0 |}) as ->.
  { unfold fill_one. fold m. rewrite Hr, (proj2 (Z.ltb_lt _ _)) by lia.
    rewrite Z.sub_diag, upd_eq. change (i32 0) with 0. simpl remaining_qty.
    rewrite (i32_small (n - m)) by lia. rewrite (proj2 (Z.eqb_neq _ _)) by lia.
    fold os0 lt. rewrite Hpr. done. }
  rewrite Hq in Hnd. change (qoids ((o, n) :: q)) with (o :: qoids q) in Hnd.
  apply NoDup_cons in Hnd as [Hno _].
  assert (Hne : forall x, x <> o -> os0 x = orders (ms_pool st) x)
    by (intros x Hx; unfold os0; by apply upd_ne).
  assert (Hids : forall x, same_ids (orders (ms_pool st) x) (os0 x)).
  { intros x. destruct (Z.eq_dec x o) as [->|Hx]; [|rewrite Hne by done; apply same_ids_refl].
    unfold os0. rewrite upd_eq. by destruct (orders (ms_pool st) o). }
  assert (Hoin : o ∈ qoids (gl_q g)) by (rewrite Hq; left).
  simpl. split_and!; try done.
  split; simpl; [| |unfold INT32_MAX; lia].
  - apply (requeue_core bid (ms_contra st) lt (orders (ms_pool st))); simpl; try done.
    + intros j Hj. unfold level_same. simpl. by rewrite upd_ne.
    + rewrite upd_eq, (lo_total _ _ _ _ Hlv), Hq, !qsum_cons in *. rewrite i32_small; lia.
    + by rewrite (lo_count _ _ _ _ Hlv), Hq.
    + by rewrite (lo_head _ _ _ _ Hlv), Hq.
    + by rewrite (lo_tail _ _ _ _ Hlv), Hq.
    + unfold os0. rewrite upd_eq. simpl. split_and!; try done.
      eapply dll_frame; [|done]. intros x Hx. apply Hne. by intros ->.
    + rewrite Hq, !qsum_cons. lia.
    + intros x v [[= -> ->]|Hx]%elem_of_cons; [split; [lia|done]|].
      assert (Hx2 : (x, v) ∈ gl_q g) by (rewrite Hq; by right).
      split; [apply (lo_orders _ _ _ _ Hlv _ _ Hx2)|]. split; [done|].
      apply list_elem_of_fmap. by exists (x, v).
    + intros x Hx. apply Hne. intros ->. by apply (Hother o).
  - apply pool_ok_orders.
    + eapply pool_ok_perm; [|exact Hpool]. rewrite !oids_app, !oids_cons, Hq. done.
    + intros x Hx. pose proof (pool_free_used _ _ _ Hpool Hx) as Hxu.
      rewrite Hne; [by apply (po_free _ _ Hpool)|]. intros ->. apply Hxu.
      rewrite elem_of_app. left. apply elem_of_oids. by exists g.
  - split; simpl; [|done]. intros x Hx. apply Hne. intros ->. by apply (Hused o).
Qed.

Lemma fill_count_app st fs : fill_count {| ms_contra := ms_contra st; ms_pool := ms_pool st;
  ms_fills := ms_fills st ++ fs; ms_remaining := ms_remaining st |} = fill_count st + Z.of_nat (length fs).
Proof. unfold fill_count. simpl. rewrite length_app. lia. Qed.

(** The inner loop eats the queue of its level. *)
Lemma walk_level_spec bid taker max_fills used fuel : forall st L1 g L2,
  match_ok bid st (L1 ++ g :: L2) used ->
  (Z.to_nat (max_fills - fill_count st) < fuel)%nat ->
  let '(fs, q', r) := eat (ms_remaining st) (Z.to_nat (max_fills - fill_count st)) (gl_q g) in
  exists st', walk_level fuel taker max_fills (gl_idx g) (hd_or NULL_INDEX (gl_q g)) st = Some st' /\
    match_ok bid st' (L1 ++ with_q g q' :: L2) used /\
    ms_fills st' = ms_fills st ++ fills_of taker (gl_price g) fs /\
    ms_remaining st' = r /\ best_idx (ms_contra st') = best_idx (ms_contra st) /\
    match_frame st st' used.
Proof.
  induction fuel as [|fuel IH]; intros st L1 g L2 Hok Hf; [lia|].
  assert (Hstop : forall q, gl_q g = q -> exists st', Some st = Some st' /\
    match_ok bid st' (L1 ++ with_q g q :: L2) used /\
    ms_fills st' = ms_fills st ++ fills_of taker (gl_price g) [] /\
    ms_remaining st' = ms_remaining st /\ best_idx (ms_contra st') = best_idx (ms_contra st) /\
    match_frame st st' used).
  { intros q <-. exists st. rewrite with_q_same, app_nil_r. split_and!; try done. }
  cbn [walk_level]. pose proof Hok as [Hside Hpool Hrem].
  destruct (gl_q g) as [|[o n] q] eqn:Hq.
  { destruct (Z.to_nat _); cbn [eat hd_or]; rewrite Z.eqb_refl; by apply Hstop. }
  cbn [hd_or]. pose proof (level_slots _ _ _ _ _ Hpool) as (_ & Hnull & _). rewrite Hq in Hnull.
  rewrite (proj2 (Z.eqb_neq o NULL_INDEX)) by (intros ->; apply Hnull; left). cbn [negb andb].
  assert (Hg : g ∈ L1 ++ g :: L2) by (apply elem_of_mid; by left).
  pose proof (sc_levels _ _ _ _ Hside g Hg) as Hlv.
  pose proof (lo_dll _ _ _ _ Hlv) as Hd. rewrite Hq in Hd. destruct Hd as (Hr & _ & Hnx & _).
  pose proof (lo_orders _ _ _ _ Hlv o n ltac:(rewrite Hq; left)) as [Hn _].
  destruct (Z.to_nat (max_fills - fill_count st)) as [|k] eqn:Hk.
  { cbn [eat]. rewrite (proj2 (Z.ltb_ge (fill_count st) max_fills)), andb_false_r by lia. by apply Hstop. }
  rewrite (proj2 (Z.ltb_lt (fill_count st) max_fills)), andb_true_r by lia. cbn [eat].
  destruct (Z.ltb_spec 0 (ms_remaining st)) as [H0|H0]; [|by apply Hstop].
  rewrite Hnx. destruct (Z.leb_spec n (ms_remaining st)) as [Hle|Hgt].
  - destruct (fill_one_full _ _ _ _ _ _ _ _ _ taker Hok Hq Hle) as (Hok1 & Hfl & Hrm & Hb & Hfr).
    set (st1 := fill_one taker (gl_idx g) o st) in *.
    assert (Hk1 : Z.to_nat (max_fills - fill_count st1) = k).
    { unfold fill_count in *. rewrite Hfl, length_app. simpl. lia. }
    specialize (IH st1 L1 (with_q g q) L2 Hok1). rewrite Hk1, Hrm in IH. simpl in IH.
    destruct (eat (ms_remaining st - n) k q) as [[fs q'] r].
    destruct IH as (st' & Hw & Hok' & Hfl' & Hrm' & Hb' & Hfr'); [lia|].
    exists st'. split; [done|]. split; [done|]. split; [|split; [done|split; [congruence|]]].
    + by rewrite Hfl', Hfl, <- (assoc_L (++)).
    + by eapply match_frame_trans.
  - destruct (fill_one_partial _ _ _ _ _ _ _ _ _ taker Hok Hq ltac:(lia)) as (Hok1 & Hfl & Hrm & Hb & Hfr).
    set (st1 := fill_one taker (gl_idx g) o st) in *.
    assert (walk_level fuel taker max_fills (gl_idx g) (hd_or NULL_INDEX q) st1 = Some st1) as ->.
    { destruct fuel as [|fuel]; [lia|]. cbn [walk_level].
      rewrite Hrm, (andb_false_r (negb _)). done. }
    exists st1. done.
Qed.

Definition set_contra (st : mstate) (l : PriceLevelPool.t) : mstate :=
  {| ms_contra := l; ms_pool := ms_pool st; ms_fills := ms_fills st; ms_remaining := ms_remaining st |}.

Definition fills_qty (ms : list MatchResult) : Z := zsum (fill_qty <$> ms).

Lemma fills_of_qty taker p fs : fills_qty (fills_of taker p fs) = qsum fs.
Proof.
  unfold fills_qty, fills_of, qsum. rewrite <- list_fmap_compose. f_equal.
  apply list_fmap_ext. by intros ? [].
Qed.

Lemma fills_qty_app a b : fills_qty (a ++ b) = fills_qty a + fills_qty b.
Proof. unfold fills_qty. by rewrite fmap_app, zsum_app. Qed.

(** Quantity resting on a priority list. *)
Definition resting_qty (F : list entry) : Z := zsum (e_qty <$> F).

Lemma resting_level L1 g q L2 :
  resting_qty (flat (L1 ++ with_q g q :: L2)) =
  qsum q + resting_qty (flat (L1 ++ L2)).
Proof.
  unfold resting_qty. rewrite !flat_app, flat_cons, !fmap_app, !zsum_app. simpl.
  unfold qsum. rewrite <- list_fmap_compose.
  replace (zsum ((e_qty ∘ _) <$> q)) with (zsum (snd <$> q)); [lia|].
  f_equal. apply list_fmap_ext. by intros ? [].
Qed.

Lemma match_flat_stop cross taker rem n F :
  rem <= 0 \/ n = O -> match_flat cross taker rem n F = ([], F).
Proof.
  intros H. destruct F as [|[[o p] q] F], n as [|n]; try done. simpl.
  destruct H as [H|H]; [|done]. by rewrite (proj2 (Z.ltb_ge _ _)).
Qed.

Lemma flat_level_pos bid l os L g o x :
  side_core bid l os L -> g ∈ L -> (o, x) ∈ gl_q g -> 0 < x.
Proof. intros H Hg Ho. apply (lo_orders _ _ _ _ (sc_levels _ _ _ _ H g Hg) _ _ Ho). Qed.

(** The outer loop. *)
Lemma match_loop_spec aggressor limit taker max_fills used fuel : forall st L,
  let bid := negb (is_buy aggressor) in
  match_ok bid st L used -> no_empty L ->
  (Z.to_nat (max_fills - fill_count st) < fuel)%nat ->
  exists st' L' ms, match_loop fuel aggressor limit taker max_fills st = Some st' /\
    match_ok bid st' L' used /\ no_empty L' /\ match_frame st st' used /\
    ms_fills st' = ms_fills st ++ ms /\ ms_remaining st' + fills_qty ms = ms_remaining st /\
    (forall m, m ∈ ms -> 0 < fill_qty m /\ crosses aggressor limit (fill_price m) = true /\
       maker_idx m ∈ oids L) /\
    resting_qty (flat L') + fills_qty ms = resting_qty (flat L) /\
    (fresh (ms_contra st) L ->
       match_flat (crosses aggressor limit) taker (ms_remaining st)
         (Z.to_nat (max_fills - fill_count st)) (flat L) = (ms, flat L') /\
       fresh (ms_contra st') L').
Proof.
  induction fuel as [|fuel IH]; intros st L bid Hok Hne Hf; [lia|]. cbn [match_loop].
  assert (Hnil : forall st', ms_fills st' = ms_fills st -> ms_remaining st' = ms_remaining st ->
    ms_fills st' = ms_fills st ++ [] /\ ms_remaining st' + fills_qty [] = ms_remaining st /\
    (forall m, m ∈ [] -> 0 < fill_qty m /\ crosses aggressor limit (fill_price m) = true /\
       maker_idx m ∈ oids L)).
  { intros st' E1 E2. rewrite app_nil_r. split_and!; try done; [unfold fills_qty; simpl; lia|].
    intros m Hm. by apply not_elem_of_nil in Hm. }
  destruct ((0 <? ms_remaining st) && (fill_count st <? max_fills)) eqn:Hcond.
  2:{ exists st, L, []. destruct (Hnil st eq_refl eq_refl) as (? & ? & ?).
      split_and!; try done; [unfold fills_qty; simpl; lia|].
      intros Hfr. split; [|done]. apply match_flat_stop.
      apply andb_false_iff in Hcond as [Hx%Z.ltb_ge|Hx%Z.ltb_ge]; [by left|right; lia]. }
  apply andb_prop in Hcond as [H0%Z.ltb_lt Hmax%Z.ltb_lt].
  destruct Hok as [Hside Hpool Hrem].
  replace (if is_buy aggressor then find_best_ask (ms_contra st) else find_best_bid (ms_contra st))
    with (find_best bid (ms_contra st)) by (unfold bid; by destruct (is_buy aggressor)).
  destruct (find_best_spec _ _ _ _ Hside Hne) as (l' & Hside' & Hfresh' & [[-> Hfb]|(L1 & g & L2 & -> & Hfb & Hbi & HL1)]).
  { rewrite Hfb, Z.eqb_refl. exists (set_contra st l'), [], [].
    destruct (Hnil (set_contra st l') eq_refl eq_refl) as (? & ? & ?).
    split_and!; try done. intros Hfr. split; [|auto].
    by destruct (Z.to_nat _). }
  assert (Hg : g ∈ L1 ++ g :: L2) by (apply elem_of_mid; by left).
  rewrite Hfb. rewrite (proj2 (Z.eqb_neq _ _)) by (by eapply idx_not_null).
  rewrite (lo_price _ _ _ _ (sc_levels _ _ _ _ Hside' g Hg)).
  change {| ms_contra := l'; ms_pool := ms_pool st; ms_fills := ms_fills st;
            ms_remaining := ms_remaining st |} with (set_contra st l').
  set (st1 := set_contra st l') in *.
  destruct (crosses aggressor limit (gl_price g)) eqn:Hcr; cbn [negb].
  2:{ exists st1, (L1 ++ g :: L2), []. destruct (Hnil st1 eq_refl eq_refl) as (? & ? & ?).
      split_and!; try done; [unfold fills_qty; simpl; lia|]. intros Hfr. split; [|auto].
      rewrite (HL1 Hfr), app_nil_l, flat_cons.
      pose proof (Hne g Hg). destruct (gl_q g) as [|[o x] q]; [done|].
      rewrite fmap_cons, <- app_comm_cons.
      destruct (Z.to_nat (max_fills - fill_count st)); [done|]. cbn [match_flat]. by rewrite Hcr, andb_false_r. }
  rewrite (lo_head _ _ _ _ (sc_levels _ _ _ _ Hside' g Hg)).
  assert (Hok1 : match_ok bid st1 (L1 ++ g :: L2) used) by (by split).
  assert (Hpos : forall o x, (o, x) ∈ gl_q g -> 0 < x) by (intros; by eapply flat_level_pos).
  pose proof (walk_level_spec bid taker max_fills used (S (Z.to_nat max_fills)) st1 L1 g L2 Hok1) as Hwalk.
  change (fill_count st1) with (fill_count st) in Hwalk. change (ms_remaining st1) with (ms_remaining st) in Hwalk.
  pose proof (eat_spec (gl_q g) (ms_remaining st) (Z.to_nat (max_fills - fill_count st)) ltac:(lia) Hpos) as Heat.
  assert (Hmf : forall F, match_flat (crosses aggressor limit) taker (ms_remaining st) 
    (Z.to_nat (max_fills - fill_count st)) (priced (gl_price g) (gl_q g) ++ F) = _)
    by (intros F; by apply match_flat_level).
  destruct (eat (ms_remaining st) (Z.to_nat (max_fills - fill_count st)) (gl_q g)) as [[fs q'] r].
  destruct Hwalk as (st2 & -> & Hok2 & Hfl2 & Hrm2 & Hb2 & Hfr2); [unfold fill_count in *; lia|].
  destruct Heat as (Hr0 & Hqs & Hlen & Hfpos & Hprog & Hend & Hcons & Hfo & Hqo).
  specialize (Hprog H0 ltac:(lia) (Hne g Hg)). simpl mbind. cbn iota beta.
  destruct Hok2 as [Hside2 Hpool2 Hrem2].
  destruct (settle_spec _ _ _ _ _ _ _ Hside2) as (l3 & Hset & Hside3 & Hb3).
  unfold settle in Hset. rewrite Hset. simpl mbind. cbn iota beta.
  change {| ms_contra := l3; ms_pool := ms_pool st2; ms_fills := ms_fills st2;
            ms_remaining := ms_remaining st2 |} with (set_contra st2 l3).
  set (st3 := set_contra st2 l3) in *.
  assert (Hfc3 : fill_count st3 = fill_count st + Z.of_nat (length fs)).
  { unfold fill_count. simpl. rewrite Hfl2, length_app. unfold fills_of. rewrite length_fmap.
    unfold st1. simpl. lia. }
  assert (Hn3 : Z.to_nat (max_fills - fill_count st3) = (Z.to_nat (max_fills - fill_count st) - length fs)%nat) by lia.
  destruct (IH st3 (keep L1 g q' L2)) as (st' & L' & ms & Hml & Hok' & Hne' & Hfr' & Hfl' & Hrm' & Hms & Hrest & Hflat').
  { split; [done| |done]. by rewrite keep_oids. }
  { by apply keep_no_empty. }
  { lia. }
  exists st', L', (fills_of taker (gl_price g) fs ++ ms). split_and!; try done.
  - apply (match_frame_trans _ st3); [|done]. by destruct Hfr2.
  - rewrite Hfl'. simpl. rewrite Hfl2. unfold st1. simpl. by rewrite <- (assoc_L (++)).
  - rewrite fills_qty_app, fills_of_qty. simpl in Hrm'. lia.
  - intros m [Hm|Hm]%elem_of_app.
    + apply list_elem_of_fmap in Hm as ([o x] & -> & Hx). simpl.
      split; [exact (Hfpos _ _ Hx)|]. split; [done|]. apply elem_of_oids. exists g.
      split; [done|exact (Hfo _ _ Hx)].
    + destruct (Hms m Hm) as (? & ? & Hmo). split; [done|]. split; [done|].
      rewrite keep_oids, oids_app, oids_cons in Hmo. rewrite oids_app, oids_cons.
      rewrite !elem_of_app in *. simpl in Hmo. specialize (Hqo (maker_idx m)). tauto.
  - rewrite fills_qty_app, fills_of_qty. rewrite keep_flat, resting_level in Hrest.
    rewrite <- (with_q_same g), resting_level. lia.
  - intros Hfr. specialize (HL1 Hfr). subst L1.
    destruct Hflat' as [Hmf3 Hfr3].
    { eapply (keep_fresh st2.(ms_contra)); [|apply Hside|exact Hb3].
      right. exists g, L2. by rewrite Hb2. }
    split; [|done]. rewrite app_nil_l, flat_cons.
    change ((λ '(o, n), (o, gl_price g, n)) <$> gl_q g) with (priced (gl_price g) (gl_q g)).
    rewrite Hmf. rewrite keep_flat, Hn3, app_nil_l, flat_cons in Hmf3.
    change (ms_remaining st3) with (ms_remaining st2) in Hmf3. rewrite Hrm2 in Hmf3.
    simpl gl_price in Hmf3. simpl gl_q in Hmf3. destruct q' as [|e q'].
    + simpl in Hmf3. by rewrite Hmf3.
    + rewrite match_flat_stop in Hmf3.
      * injection Hmf3 as <- <-. by rewrite app_nil_r.
      * destruct Hend as [->|Hend]; [done|left; lia|right; lia].
Qed.
