(* ===== verification/BookSpec.v ===== *)
(** The theorems of the order book (OrderBook.v): what construction, adding,
    cancelling, matching and the best-price accessors do to the price-time
    priority lists of the two sides, for every reachable book, and the two
    behaviours in which the code departs from that contract. *)

From S2P Require Import Prelude Arena Protocol PriceMap OrderBook BookRep BookOps BookMatch.
Import PriceLevelPool OrderPool OrderBook.

(** ** Construction *)

(** Default member initialisers; the arrays are null until [init]. *)
Definition new_levels : PriceLevelPool.t :=
  {| prices := fun _ => 0; total_qty := fun _ => 0; order_count := fun _ => 0;
     head := fun _ => 0; tail := fun _ => 0; active := fun _ => false; count := 0;
     PriceLevelPool.capacity := 0;
     price_map := {| PriceHashMap.keys := fun _ => 0; PriceHashMap.values := fun _ => 0;
                     PriceHashMap.distances := fun _ => 0 |};
     best_idx := NULL_INDEX |}.
Definition new_pool : OrderPool.t :=
  {| orders := fun _ => zero_order; free_list := fun _ => 0; free_top := 0;
     OrderPool.capacity := 0 |}.
Definition new_book : t :=
  {| bids_ := new_levels; asks_ := new_levels; pool_ := new_pool;
     next_exchange_id_ := 1; total_orders_ := 0; total_fills_ := 0 |}.

(** A side with no level. *)
Definition side_empty (l : PriceLevelPool.t) : Prop :=
  (forall i, active l i = false) /\ 0 <= count l <= MAX_PRICE_LEVELS_OB /\
  PriceLevelPool.capacity l = MAX_PRICE_LEVELS_OB /\ best_idx l = NULL_INDEX /\
  exists m, price_map l = PriceHashMap.clear m.

Lemma side_empty_core bid l os : side_empty l -> side_core bid l os [].
Proof.
  intros (Ha & Hc & Hcap & Hb & m & Hm). destruct (PriceHashMap.clear_ok m) as [Hok Hno].
  split; rewrite ?Hm, ?Hcap, ?Hb; try done.
  - intros g Hg. by apply not_elem_of_nil in Hg.
  - constructor.
  - intros g Hg. by apply not_elem_of_nil in Hg.
  - constructor.
  - intros i _. by rewrite Ha.
  - intros k v. split; [intros H; by apply Hno in H|].
    intros (g & Hg & _). by apply not_elem_of_nil in Hg.
  - by left.
Qed.

Lemma levels_init_empty arena arena' l' :
  PriceLevelPool.init arena new_levels MAX_PRICE_LEVELS_OB = (true, arena', l') -> side_empty l'.
Proof.
  unfold PriceLevelPool.init, PriceHashMap.init. intros H.
  repeat case_match; simplify_eq. unfold side_empty. simpl. split_and!; try done. eauto.
Qed.

Lemma stack_slots n : (forall i, 0 <= i < n -> u32 (n - 1 - i) = n - 1 - i) -> 0 <= n ->
  slice (fun i => u32 (n - 1 - i)) n ≡ₚ seqZ 0 n.
Proof.
  intros Hu Hn. apply NoDup_Permutation; [|apply NoDup_seqZ|].
  - apply NoDup_fmap_2_strong; [|apply NoDup_seqZ].
    intros x y Hx%elem_of_seqZ Hy%elem_of_seqZ. rewrite !Hu by lia. lia.
  - intros x. rewrite elem_of_slice, elem_of_seqZ. split.
    + intros (i & Hi & <-). rewrite Hu by lia. lia.
    + intros Hx. exists (n - 1 - x). split; [lia|]. rewrite Hu by lia. lia.
Qed.

Lemma pool_init_ok arena arena' mem p p' :
  OrderPool.init arena mem p (MAX_ORDERS * 2) = (true, arena', p') ->
  (forall o, remaining_qty (mem o) <= 0) -> pool_ok p' [].
Proof.
  unfold OrderPool.init. intros H Hz. repeat case_match; simplify_eq.
  split; cbn [orders free_list free_top OrderPool.capacity].
  - rewrite app_nil_r. apply stack_slots; [|unfold MAX_ORDERS; lia].
    intros i Hi. apply u32_small. unfold MAX_ORDERS in *. lia.
  - unfold MAX_ORDERS. lia.
  - reflexivity.
  - intros x _. apply Hz.
Qed.

Lemma init_spec arena mem :
  (init arena mem new_book).1.1 = true -> (forall o, remaining_qty (mem o) <= 0) ->
  let b := (init arena mem new_book).2 in
  book_ok b [] [] /\ side_empty (bids_ b) /\ side_empty (asks_ b).
Proof.
  intros H Hz. unfold init in *.
  destruct (PriceLevelPool.init arena _ _) as [[ok1 a1] bids] eqn:E1.
  destruct ok1; cbn [negb] in *; [|done].
  destruct (PriceLevelPool.init a1 _ _) as [[ok2 a2] asks] eqn:E2.
  destruct ok2; cbn [negb] in *; [|done].
  destruct (OrderPool.init a2 _ _ _) as [[ok3 a3] pool] eqn:E3. simpl in *. subst ok3.
  apply levels_init_empty in E1, E2. apply pool_init_ok in E3; [|done].
  split; [|done]. split; simpl; try (by apply side_empty_core); try done;
    intros g Hg; by apply not_elem_of_nil in Hg.
Qed.

Lemma side_empty_fresh l L : side_empty l -> fresh l L.
Proof. intros (_ & _ & _ & H & _). by left. Qed.

(** An arena large enough for a book, and the book made in it. *)
Definition demo_arena : HugePageArena.t :=
  {| HugePageArena.base_ := 4096; HugePageArena.size_ := DEFAULT_ARENA_SIZE;
     HugePageArena.offset_ := 0; HugePageArena.hugepage_backed_ := true |}.
Definition demo_book : t := (init demo_arena (fun _ => zero_order) new_book).2.

Lemma demo_init : (init demo_arena (fun _ => zero_order) new_book).1.1 = true.
Proof. vm_compute. reflexivity. Qed.

(** ** The two sides at once *)

Definition lists (bid : bool) (bids asks : list glevel) : list glevel := if bid then bids else asks.

Lemma book_rep b bid bids asks :
  book_ok b bids asks <-> rep b bid (lists bid bids asks) (lists (negb bid) bids asks).
Proof. destruct bid; simpl; [done|]. symmetry. apply rep_book_ok. Qed.

Lemma book_fresh_side b bid bids asks :
  book_fresh b bids asks <->
  fresh (levels b bid) (lists bid bids asks) /\
  fresh (levels b (negb bid)) (lists (negb bid) bids asks).
Proof. unfold book_fresh. destruct bid; simpl; tauto. Qed.

(** The matching lemma at the level of the book. *)
Lemma match_book b aggressor limit quantity taker max_fills L M :
  let bid := negb (is_buy aggressor) in
  rep b bid L M -> 0 <= quantity <= INT32_MAX ->
  exists ms b' L', match_ b aggressor limit quantity taker max_fills = Some (ms, b') /\
    rep b' bid L' M /\ fills_qty ms <= quantity /\
    (forall m, m ∈ ms -> 0 < fill_qty m /\ crosses aggressor limit (fill_price m) = true /\
       maker_idx m ∈ oids L) /\
    resting_qty (flat L') + fills_qty ms = resting_qty (flat L) /\
    levels b' (negb bid) = levels b (negb bid) /\
    (forall x, same_ids (order_at b x) (order_at b' x)) /\
    (fresh (levels b bid) L ->
       match_flat (crosses aggressor limit) taker quantity (Z.to_nat max_fills) (flat L) =
         (ms, flat L') /\ fresh (levels b' bid) L').
Proof.
  intros bid [Hside Hne Hoth Hone Hpool] Hq.
  set (st := {| ms_contra := levels b bid; ms_pool := pool_ b; ms_fills := []; ms_remaining := quantity |}).
  destruct (match_loop_spec aggressor limit taker max_fills (oids M) (S (Z.to_nat max_fills)) st L)
    as (st' & L' & ms & Hml & [Hs' Hp' Hr'] & Hne' & [Hfu Hfi] & Hfl & Hrm & Hms & Hrest & Hflat).
  { by split. }
  { done. }
  { unfold fill_count. simpl. lia. }
  unfold match_. fold bid st. rewrite Hml. simpl. simpl in Hfl. rewrite Hfl.
  exists ms. eexists _, L'. split; [done|]. split_and!; try done.
  - split; simpl.
    + replace (levels _ _) with (ms_contra st') by (unfold bid; by destruct (is_buy aggressor)). done.
    + done.
    + replace (levels _ _) with (levels b (negb bid)) by (unfold bid; by destruct (is_buy aggressor)).
      eapply side_core_frame; [|exact Hoth]. intros x Hx. by apply Hfu.
    + done.
    + done.
  - simpl in Hrm. lia.
  - unfold bid. by destruct (is_buy aggressor).
  - intros Hf. destruct (Hflat Hf) as [Hmf Hfr]. split.
    + unfold st, fill_count in Hmf. simpl in Hmf. by rewrite Z.sub_0_r in Hmf.
    + replace (levels _ _) with (ms_contra st') by (unfold bid; by destruct (is_buy aggressor)). done.
Qed.

(** The best-level accessors only touch the cache. *)
Lemma best_book b (bid : bool) L M :
  rep b bid L M ->
  let r := find_best bid (levels b bid) in
  let b' := store b bid r.2 (pool_ b) in
  rep b' bid L M /\ (fresh (levels b bid) L -> fresh (levels b' bid) L) /\
  (fresh (levels b bid) L ->
     (if negb (r.1 =? NULL_INDEX) then prices r.2 r.1 else 0) =
     match flat L with [] => 0 | e :: _ => e_price e end).
Proof.
  intros [Hside Hne Hoth Hone Hpool].
  destruct (find_best_spec _ _ _ _ Hside Hne) as (l' & Hs' & Hf' & Hcase).
  destruct (find_best bid (levels b bid)) as [i l''] eqn:Efb. cbn [fst snd].
  assert (l'' = l') as ->.
  { destruct Hcase as [[_ E]|(? & ? & ? & _ & E & _)]; by injection E. }
  assert (El : levels (store b bid l' (pool_ b)) bid = l') by (by destruct bid).
  assert (Eo : levels (store b bid l' (pool_ b)) (negb bid) = levels b (negb bid)) by (by destruct bid).
  split; [split; rewrite ?El, ?Eo; done|]. rewrite El. split; [done|]. intros Hf.
  destruct Hcase as [[-> E]|(L1 & g & L2 & -> & E & _ & HL1)].
  - injection E as ->. by rewrite Z.eqb_refl.
  - rewrite (HL1 Hf) in *. injection E as ->. assert (Hg : g ∈ [] ++ g :: L2) by left.
    rewrite (proj2 (Z.eqb_neq _ _)) by (by eapply idx_not_null). cbn [negb].
    rewrite (lo_price _ _ _ _ (sc_levels _ _ _ _ Hs' g Hg)). rewrite app_nil_l, flat_cons.
    pose proof (Hne g Hg). by destruct (gl_q g) as [|[]].
Qed.

(** ** Reachable books *)

(** What a caller of [add_order] has to respect, in terms of the arrays alone:
    a price strictly inside the 64-bit range (its ends mark empty slots of the
    price map), a positive quantity, no overflow of the level's 32-bit total,
    and room for the level: the price has a live one, or a level slot is left
    and the price map can take another key.  [levels_exhausted] below says what
    happens without the last. *)
Record accepts (b : t) (bid : bool) (p n : Z) : Prop := {
  acc_price : INT64_MIN < p < INT64_MAX;
  acc_qty : 0 < n <= INT32_MAX;
  acc_sum : forall i, 0 <= i < count (levels b bid) -> active (levels b bid) i = true ->
    prices (levels b bid) i = p -> total_qty (levels b bid) i + n <= INT32_MAX;
  acc_level :
    (exists i, 0 <= i < count (levels b bid) /\ active (levels b bid) i = true /\
       prices (levels b bid) i = p) \/
    (count (levels b bid) < PriceLevelPool.capacity (levels b bid) /\
     PriceHashMap.probe_room (price_map (levels b bid))) }.

Inductive reach : t -> Prop :=
| reach_init arena mem :
    (init arena mem new_book).1.1 = true -> (forall o, remaining_qty (mem o) <= 0) ->
    reach (init arena mem new_book).2
| reach_add b contestant client s p n ts o b' :
    reach b -> accepts b (is_buy s) p n ->
    add_order b contestant client s p n ts = Some (o, b') -> reach b'
| reach_cancel b o r b' :
    reach b -> 0 <= o -> cancel_order b o = Some (r, b') -> reach b'
| reach_match b aggressor limit quantity taker max_fills ms b' :
    reach b -> 0 <= quantity <= INT32_MAX ->
    match_ b aggressor limit quantity taker max_fills = Some (ms, b') -> reach b'
| reach_best_bid b : reach b -> reach (best_bid_price b).2
| reach_best_ask b : reach b -> reach (best_ask_price b).2.

Lemma accepts_can b bid L M p n :
  rep b bid L M -> accepts b bid p n -> can_level (levels b bid) L p /\ can_sum L p n.
Proof.
  intros [Hside _ _ _ _] [Hp Hn Hsum Hlv]. split; [|split; [lia|]].
  - destruct Hlv as [(i & Hi & Ha & <-)|Hlv]; [left|by right].
    apply (sc_active _ _ _ _ Hside) in Ha as (g & -> & Hg)%list_elem_of_fmap; [|done].
    exists g. split; [done|]. by rewrite (lo_price _ _ _ _ (sc_levels _ _ _ _ Hside g Hg)).
  - intros g Hg <-. pose proof (sc_levels _ _ _ _ Hside g Hg) as Hl.
    rewrite <- (lo_total _ _ _ _ Hl).
    apply Hsum; [by apply (sc_range _ _ _ _ Hside)|apply Hl|apply Hl].
Qed.

(** Less quantity at the same price of the same levels is accepted too. *)
Lemma accepts_less b bid p n m : accepts b bid p n -> 0 < m <= n -> accepts b bid p m.
Proof.
  intros [H1 H2 H3 H4] Hm. split; try done; [lia|].
  intros i Hi Ha Hp. specialize (H3 i Hi Ha Hp). lia.
Qed.

Lemma accepts_levels b b' bid p n : levels b' bid = levels b bid -> accepts b bid p n -> accepts b' bid p n.
Proof. intros E [H1 H2 H3 H4]. split; by rewrite ?E. Qed.

(** A side that has created no level yet. *)
Lemma accepts_empty b bid p n :
  INT64_MIN < p < INT64_MAX -> 0 < n <= INT32_MAX -> count (levels b bid) = 0 ->
  0 < PriceLevelPool.capacity (levels b bid) ->
  PriceHashMap.probe_room (price_map (levels b bid)) -> accepts b bid p n.
Proof. intros Hp Hn Hc Hcap Hr. split; try done; [intros i Hi; lia|]. right. split; [lia|done]. Qed.

Lemma alloc_empty p : free_top p = 0 -> alloc p = (NULL_INDEX, p).
Proof. intros E. unfold alloc. by rewrite E. Qed.

Lemma add_order_pool_full b contestant client s p n ts :
  free_top (pool_ b) = 0 ->
  add_order b contestant client s p n ts =
  Some (NULL_INDEX, store b (is_buy s) (levels b (is_buy s)) (pool_ b)).
Proof. intros E. unfold add_order. rewrite (alloc_empty _ E). done. Qed.

Lemma store_same b bid : store b bid (levels b bid) (pool_ b) = b.
Proof. by destruct b, bid. Qed.

Lemma cancel_cases b bids asks o :
  book_ok b bids asks -> 0 <= o ->
  exists r b' bids' asks', cancel_order b o = Some (r, b') /\ book_ok b' bids' asks'.
Proof.
  intros Hok Ho.
  destruct (decide (o ∈ oids bids)) as [Hb|Hb]; [|destruct (decide (o ∈ oids asks)) as [Ha|Ha]].
  - destruct (cancel_order_spec b true bids asks o) as (b' & L' & Hc & Hr & _); [done|done|].
    by exists true, b', L', asks.
  - destruct (cancel_order_spec b false asks bids o) as (b' & L' & Hc & Hr & _);
      [by apply (rep_book_ok b false)|done|].
    exists true, b', bids, L'. split; [done|]. by apply (rep_book_ok b' false).
  - exists false, b, bids, asks. split; [|done].
    apply (cancel_order_absent b true bids asks); [done|done|]. rewrite elem_of_app. tauto.
Qed.

Lemma match_cases b aggressor limit quantity taker max_fills bids asks :
  book_ok b bids asks -> 0 <= quantity <= INT32_MAX ->
  exists ms b' bids' asks',
    match_ b aggressor limit quantity taker max_fills = Some (ms, b') /\ book_ok b' bids' asks'.
Proof.
  intros Hok Hq. pose proof (proj1 (book_rep b (negb (is_buy aggressor)) bids asks) Hok) as Hr.
  destruct (match_book b aggressor limit quantity taker max_fills _ _ Hr Hq) as
    (ms & b' & L' & Hm & Hr' & _).
  destruct (is_buy aggressor); simpl in *; [|by eauto 10].
  exists ms, b', bids, L'. split; [done|]. by apply (rep_book_ok b' false).
Qed.

Lemma add_cases b contestant client s p n ts bids asks :
  book_ok b bids asks -> accepts b (is_buy s) p n ->
  exists o b' bids' asks', add_order b contestant client s p n ts = Some (o, b') /\ book_ok b' bids' asks'.
Proof.
  intros Hok Hacc. pose proof (proj1 (book_rep b (is_buy s) bids asks) Hok) as Hr.
  destruct (decide (free_top (pool_ b) = 0)) as [E|E].
  - rewrite add_order_pool_full, store_same by done. eauto 10.
  - destruct (accepts_can _ _ _ _ _ _ Hr Hacc) as [Hcl Hcs]. destruct Hacc.
    destruct (add_order_spec b _ _ _ s contestant client p n ts Hr eq_refl E Hcl Hcs) as
      (o & b' & L' & Hadd & Hr' & _); [done|lia|]. apply rep_book_ok in Hr'.
    destruct (is_buy s); eauto 10.
Qed.

Lemma reach_book_ok b : reach b -> exists bids asks, book_ok b bids asks.
Proof.
  induction 1 as [arena mem Hi Hz|b contestant client s p n ts o b' _ (bids & asks & Hok) Hacc Hadd
    |b o r b' _ (bids & asks & Hok) Ho Hc|b ag lim q tk mx ms b' _ (bids & asks & Hok) Hq Hm
    |b _ (bids & asks & Hok)|b _ (bids & asks & Hok)].
  - exists [], []. by apply init_spec.
  - destruct (add_cases b contestant client s p n ts bids asks Hok Hacc) as
      (o' & b'' & bids' & asks' & Hadd' & Hok'). rewrite Hadd in Hadd'. simplify_eq. eauto.
  - destruct (cancel_cases b bids asks o Hok Ho) as (r' & b'' & bids' & asks' & Hc' & Hok').
    rewrite Hc in Hc'. simplify_eq. eauto.
  - destruct (match_cases b ag lim q tk mx bids asks Hok Hq) as (ms' & b'' & bids' & asks' & Hm' & Hok').
    rewrite Hm in Hm'. simplify_eq. eauto.
  - exists bids, asks. destruct (best_book b true _ _ Hok) as (Hr & _).
    unfold best_bid_price, find_best, levels in *. by destruct (find_best_bid (bids_ b)).
  - exists bids, asks. destruct (best_book b false asks bids) as (Hr & _);
      [by apply (rep_book_ok b false)|]. apply (rep_book_ok _ false) in Hr.
    unfold best_ask_price, find_best, levels in *. by destruct (find_best_ask (asks_ b)).
Qed.

Lemma length_oids_flat L : length (oids L) = length (flat L).
Proof. by rewrite oids_flat, length_fmap. Qed.

(** ** Claims *)

(** C1: price-time priority of matching. On a book whose linked arrays stand
    for the levels [bids] and [asks] and whose best-level caches are right,
    [match] returns, and the fills it writes and the contra side it leaves are
    exactly those of walking the price-time priority list from its front; the
    other side is untouched and the caches stay right. *)
Theorem match_price_time b aggressor limit quantity taker max_fills bids asks :
  book_ok b bids asks -> book_fresh b bids asks -> 0 <= quantity <= INT32_MAX ->
  let contra := negb (is_buy aggressor) in
  exists ms b' bids' asks',
    match_ b aggressor limit quantity taker max_fills = Some (ms, b') /\
    book_ok b' bids' asks' /\ book_fresh b' bids' asks' /\
    match_flat (acceptable aggressor limit) taker quantity (Z.to_nat max_fills)
      (flat (lists contra bids asks)) = (ms, flat (lists contra bids' asks')) /\
    lists (negb contra) bids' asks' = lists (negb contra) bids asks.
Proof.
  intros Hok Hf Hq contra. apply (book_rep b contra) in Hok. apply (book_fresh_side b contra) in Hf as [Hf1 Hf2].
  destruct (match_book b aggressor limit quantity taker max_fills _ _ Hok Hq) as
    (ms & b' & L' & Hm & Hr & _ & _ & _ & Hlv & _ & Hflat). fold contra in Hr, Hlv, Hflat.
  destruct (Hflat Hf1) as [Hmf Hf1']. rewrite (match_flat_ext _ _ _ _ (crosses_acceptable aggressor limit)) in Hmf.
  exists ms, b', (if contra then L' else bids), (if contra then asks else L').
  split; [done|]. rewrite (book_rep b' contra), (book_fresh_side b' contra), Hlv.
  destruct contra; done.
Qed.

(** C4: matching always returns, whatever the caches hold, and conserves
    quantity: what the fills report is taken from the aggressor and from the
    resting orders alike, every fill is positive and at a price the aggressor
    accepts, and the book stays well formed. *)
Theorem match_conserves b aggressor limit quantity taker max_fills bids asks :
  book_ok b bids asks -> 0 <= quantity <= INT32_MAX ->
  let contra := negb (is_buy aggressor) in
  exists ms b' bids' asks',
    match_ b aggressor limit quantity taker max_fills = Some (ms, b') /\
    book_ok b' bids' asks' /\ 0 <= fills_qty ms <= quantity /\
    (forall m, m ∈ ms -> 0 < fill_qty m /\ acceptable aggressor limit (fill_price m) = true /\
       maker_idx m ∈ oids (lists contra bids asks)) /\
    resting_qty (flat (lists contra bids' asks')) + fills_qty ms =
      resting_qty (flat (lists contra bids asks)) /\
    lists (negb contra) bids' asks' = lists (negb contra) bids asks /\
    (forall x, same_ids (order_at b x) (order_at b' x)).
Proof.
  intros Hok Hq contra. apply (book_rep b contra) in Hok.
  destruct (match_book b aggressor limit quantity taker max_fills _ _ Hok Hq) as
    (ms & b' & L' & Hm & Hr & Hle & Hms & Hrest & _ & Hids & _). fold contra in Hr.
  exists ms, b', (if contra then L' else bids), (if contra then asks else L').
  assert (0 <= fills_qty ms).
  { apply zsum_nonneg. intros x (m & -> & Hm')%list_elem_of_fmap. destruct (Hms m Hm'). lia. }
  assert (Hms' : forall m, m ∈ ms -> 0 < fill_qty m /\ acceptable aggressor limit (fill_price m) = true /\
    maker_idx m ∈ oids (lists contra bids asks)) by (intros m Hin; rewrite <- crosses_acceptable; by apply Hms).
  split; [done|]. rewrite (book_rep b' contra). destruct contra; split_and!; try done; lia.
Qed.

(** C2: [add_order] on a well-formed book, for an order the book can take: its
    price lies strictly between the least and the greatest 64-bit integer, its
    quantity is positive, the 32-bit total of its level does not overflow, and
    its price has a live level or else one of the 4096 level slots of the side
    is unused and all probe distances of the price map are below 250.  When the
    order pool is full the book is unchanged and the null index is returned.
    Otherwise the order goes behind every resting order of the same or a better
    price and before the others, in a slot no live order uses, with the
    caller's identifiers; nothing else on either side changes.  (For an order
    that finds no level slot see [levels_exhausted].) *)
Theorem add_order_inserts b contestant client s p n ts bids asks :
  book_ok b bids asks -> accepts b (is_buy s) p n ->
  let bid := is_buy s in
  (free_top (pool_ b) = 0 ->
   add_order b contestant client s p n ts = Some (NULL_INDEX, b)) /\
  (free_top (pool_ b) <> 0 ->
  exists o b' bids' asks', add_order b contestant client s p n ts = Some (o, b') /\
    book_ok b' bids' asks' /\
    flat (lists bid bids' asks') = insert_flat bid (o, p, n) (flat (lists bid bids asks)) /\
    lists (negb bid) bids' asks' = lists (negb bid) bids asks /\
    (o ∉ oids bids ++ oids asks) /\
    client_order_id (order_at b' o) = client /\ contestant_id (order_at b' o) = contestant /\
    exchange_id (order_at b' o) = next_exchange_id_ b /\
    (forall x, x <> o -> same_data (order_at b x) (order_at b' x))).
Proof.
  intros Hok Hacc bid. split; [intros; by rewrite add_order_pool_full, store_same|intros Htop]. apply (book_rep b bid) in Hok.
  destruct (accepts_can _ _ _ _ _ _ Hok Hacc) as [Hcl Hcs]. destruct Hacc.
  destruct (add_order_spec b bid _ _ s contestant client p n ts Hok eq_refl Htop Hcl Hcs) as
    (o & b' & L' & Hadd & Hr & Hflat & _ & Hni & _ & _ & (H1 & H2 & H3) & Hsd); [done|lia|].
  exists o, b', (if bid then L' else bids), (if bid then asks else L').
  rewrite not_elem_of_app in Hni |- *. rewrite (book_rep b' bid).
  destruct bid; split_and!; try done; tauto.
Qed.

(** C3: [cancel_order] of a resting order removes exactly that order; of any
    other index it reports failure and changes nothing. *)
Theorem cancel_order_removes b bids asks o :
  book_ok b bids asks -> 0 <= o ->
  (forall bid, o ∈ oids (lists bid bids asks) ->
    exists b' bids' asks', cancel_order b o = Some (true, b') /\ book_ok b' bids' asks' /\
      flat (lists bid bids' asks') = filter (fun e => e_oid e <> o) (flat (lists bid bids asks)) /\
      lists (negb bid) bids' asks' = lists (negb bid) bids asks) /\
  (o ∉ oids bids -> o ∉ oids asks -> cancel_order b o = Some (false, b)).
Proof.
  intros Hok Ho. split.
  - intros bid Hin. apply (book_rep b bid) in Hok.
    destruct (cancel_order_spec b bid _ _ o Hok Hin) as (b' & L' & Hc & Hr & Hflat & _).
    exists b', (if bid then L' else bids), (if bid then asks else L').
    rewrite (book_rep b' bid). destruct bid; done.
  - intros Hb Ha. apply (cancel_order_absent b true bids asks); [done|done|].
    rewrite elem_of_app. tauto.
Qed.

(** C5: every book reached from construction by adding orders it can take,
    cancelling, matching and querying is well formed: it stands for two
    price-time lists, no order slot is lost or used twice (free slots and
    resting orders add up to the pool), and cancelling, matching and adding an
    order the book can take return.  An order the book can take has a positive
    quantity that does not overflow its level's 32-bit total, a price strictly
    inside the 64-bit range, and a live level at its price or else an unused
    level slot and probe distances below 250 ([accepts]); an order refused for
    want of a level slot leaves a book outside this set ([levels_exhausted]).
    The quantity given to [match] is not negative. *)
Theorem reachable_book b :
  reach b ->
  exists bids asks, book_ok b bids asks /\
    free_top (pool_ b) + Z.of_nat (length (flat bids)) + Z.of_nat (length (flat asks)) =
      MAX_ORDERS * 2 /\
    NoDup (oids bids ++ oids asks) /\
    (forall o, 0 <= o -> is_Some (cancel_order b o)) /\
    (forall aggressor limit quantity taker max_fills, 0 <= quantity <= INT32_MAX ->
       is_Some (match_ b aggressor limit quantity taker max_fills)) /\
    (forall contestant client s p n ts, accepts b (is_buy s) p n ->
       is_Some (add_order b contestant client s p n ts)).
Proof.
  intros Hr. destruct (reach_book_ok b Hr) as (bids & asks & Hok). exists bids, asks.
  pose proof (rep_pool _ _ _ _ Hok) as Hp. pose proof (pool_top _ _ Hp) as Ht.
  rewrite (po_capacity _ _ Hp), length_app, !length_oids_flat in Ht.
  split_and!; [done|lia|by eapply pool_nodup| | |].
  - intros o Ho. destruct (cancel_cases b bids asks o Hok Ho) as (r & b' & _ & _ & -> & _). done.
  - intros ag lim q tk mx Hq.
    destruct (match_cases b ag lim q tk mx bids asks Hok Hq) as (ms & b' & _ & _ & -> & _). done.
  - intros contestant client s p n ts Hacc.
    by destruct (add_cases b contestant client s p n ts bids asks Hok Hacc) as (o & b' & _ & _ & -> & _).
Qed.

(** with a right cache, [best_bid_price] and [best_ask_price] are the price
    at the front of the side's priority list, and 0 on an empty side. *)
Theorem best_prices b bids asks :
  book_ok b bids asks -> book_fresh b bids asks ->
  (best_bid_price b).1 = match flat bids with [] => 0 | e :: _ => e_price e end /\
  (best_ask_price b).1 = match flat asks with [] => 0 | e :: _ => e_price e end.
Proof.
  intros Hok [Hfb Hfa]. split.
  - destruct (best_book b true bids asks Hok) as (_ & _ & H). specialize (H Hfb). rewrite <- H.
    unfold best_bid_price, find_best, levels. by destruct (find_best_bid (bids_ b)).
  - destruct (best_book b false asks bids) as (_ & _ & H); [by apply (rep_book_ok b false)|].
    specialize (H Hfa). rewrite <- H.
    unfold best_ask_price, find_best, levels. by destruct (find_best_ask (asks_ b)).
Qed.

(** ** Concrete books *)

Lemma demo_ok : book_ok demo_book [] [] /\ book_fresh demo_book [] [].
Proof.
  destruct (init_spec demo_arena (fun _ => zero_order) demo_init) as (Hok & Hb & Ha); [done|].
  split; [done|]. split; by apply side_empty_fresh.
Qed.

Lemma demo_accepts s p n :
  INT64_MIN < p < INT64_MAX -> 0 < n <= INT32_MAX -> accepts demo_book (is_buy s) p n.
Proof.
  intros Hp Hn. destruct (init_spec demo_arena (fun _ => zero_order) demo_init) as (_ & Hb & Ha); [done|].
  fold demo_book in Hb, Ha.
  assert (side_empty (levels demo_book (is_buy s))) as (H1 & H2 & H3 & _ & m & H4)
    by (by destruct (is_buy s)).
  split; try done; [intros i _; by rewrite H1|]. right. rewrite H3, H4. split; [|done].
  by destruct (is_buy s); vm_compute.
Qed.

Lemma demo_free : free_top (pool_ demo_book) <> 0.
Proof. vm_compute. discriminate. Qed.

Lemma demo_reach : reach demo_book.
Proof. apply reach_init; [exact demo_init|done]. Qed.

(** One offer of 5 at 100 on an otherwise empty book. *)
Lemma demo_offer : exists b bids asks,
  reach b /\ book_ok b bids asks /\ book_fresh b bids asks /\ flat bids = [] /\
  exists o, flat asks = [(o, 100, 5)].
Proof.
  destruct demo_ok as [Hok [Hfb Hfa]].
  pose proof (proj2 (rep_book_ok demo_book false [] []) Hok) as Hr.
  pose proof (demo_accepts SELL 100 5 ltac:(done) ltac:(done)) as Hacc.
  destruct (accepts_can _ _ _ _ _ _ Hr Hacc) as [Hcl Hcs].
  destruct (add_order_spec demo_book false [] [] SELL 1 7 100 5 0 Hr eq_refl demo_free Hcl Hcs
    ltac:(done) ltac:(done)) as
    (o & b' & L' & Hadd & Hr' & Hflat & _ & _ & Hlv & Hf & _).
  exists b', [], L'. split; [eapply reach_add; [apply demo_reach|exact Hacc|exact Hadd]|]. split; [by apply (rep_book_ok b' false)|].
  split; [split|split; [done|by exists o]].
  - change (bids_ b') with (levels b' (negb false)). rewrite Hlv. exact Hfb.
  - apply Hf; [exact Hfa|by right].
Qed.

Lemma match_price_time_witness : exists b bids asks o,
  (book_ok b bids asks /\ book_fresh b bids asks /\ flat asks = [(o, 100, 5)]) /\
  exists ms b' bids' asks', match_ b BUY 101 8 2 64 = Some (ms, b') /\
    book_ok b' bids' asks' /\ book_fresh b' bids' asks' /\
    match_flat (acceptable BUY 101) 2 8 64 (flat asks) = (ms, flat asks') /\ bids' = bids.
Proof.
  destruct demo_offer as (b & bids & asks & _ & Hok & Hf & _ & o & Ho).
  exists b, bids, asks, o. split; [done|].
  exact (match_price_time b BUY 101 8 2 64 bids asks Hok Hf ltac:(done)).
Defined.

Lemma match_conserves_witness : exists b bids asks,
  book_ok b bids asks /\
  exists ms b' bids' asks', match_ b BUY 101 8 2 64 = Some (ms, b') /\
    book_ok b' bids' asks' /\ 0 <= fills_qty ms <= 8 /\
    (forall m, m ∈ ms -> 0 < fill_qty m /\ acceptable BUY 101 (fill_price m) = true /\
       maker_idx m ∈ oids asks) /\
    resting_qty (flat asks') + fills_qty ms = resting_qty (flat asks) /\ bids' = bids /\
    (forall x, same_ids (order_at b x) (order_at b' x)).
Proof.
  destruct demo_offer as (b & bids & asks & _ & Hok & _). exists b, bids, asks. split; [done|].
  exact (match_conserves b BUY 101 8 2 64 bids asks Hok ltac:(done)).
Defined.

Lemma add_order_inserts_witness :
  (book_ok demo_book [] [] /\ accepts demo_book true 100 5) /\
  exists o b' bids' asks', add_order demo_book 1 7 BUY 100 5 0 = Some (o, b') /\
    book_ok b' bids' asks' /\ flat bids' = [(o, 100, 5)] /\ asks' = [] /\
    (o ∉ ([] : list Z)) /\ client_order_id (order_at b' o) = 7 /\
    contestant_id (order_at b' o) = 1 /\ exchange_id (order_at b' o) = next_exchange_id_ demo_book /\
    (forall x, x <> o -> same_data (order_at demo_book x) (order_at b' x)).
Proof.
  assert (Hacc : accepts demo_book true 100 5) by (apply (demo_accepts BUY); done).
  split; [split; [apply demo_ok|done]|].
  exact (proj2 (add_order_inserts demo_book 1 7 BUY 100 5 0 [] [] (proj1 demo_ok) Hacc) demo_free).
Defined.

Lemma cancel_order_removes_witness : exists b bids asks o,
  (book_ok b bids asks /\ 0 <= o /\ o ∈ oids asks) /\
  exists b' bids' asks', cancel_order b o = Some (true, b') /\ book_ok b' bids' asks' /\
    flat asks' = [] /\ bids' = bids.
Proof.
  destruct demo_offer as (b & bids & asks & _ & Hok & _ & _ & o & Ho). exists b, bids, asks, o.
  assert (Hin : o ∈ oids asks) by (rewrite oids_flat, Ho; left).
  assert (0 <= o) as Hpos.
  { eapply (pool_used_range _ _ o (rep_pool _ _ _ _ Hok)). apply elem_of_app. by right. }
  split; [done|].
  destruct (proj1 (cancel_order_removes b bids asks o Hok Hpos) false Hin) as
    (b' & bids' & asks' & Hc & Hok' & Hfl & Hb). simpl in *.
  exists b', bids', asks'. split; [done|]. split; [done|]. split; [|done].
  rewrite Hfl, Ho. by rewrite filter_cons_False by (intros H; by apply H).
Defined.

Lemma reachable_book_witness : exists b, reach b /\ free_top (pool_ b) = MAX_ORDERS * 2 - 1 /\
  exists bids asks, book_ok b bids asks /\
    Z.of_nat (length (flat bids)) + Z.of_nat (length (flat asks)) = 1 /\
    NoDup (oids bids ++ oids asks) /\ is_Some (cancel_order b 0) /\
    is_Some (match_ b BUY 101 8 2 64).
Proof.
  destruct demo_offer as (b & bids0 & asks0 & Hr & Hok & _ & Hb & o & Ha).
  pose proof (pool_top _ _ (rep_pool _ _ _ _ Hok)) as Ht.
  rewrite (po_capacity _ _ (rep_pool _ _ _ _ Hok)), length_app, !length_oids_flat, Hb, Ha in Ht.
  cbn [length] in Ht. exists b. split; [done|]. split; [lia|].
  destruct (reachable_book b Hr) as (bids & asks & Hok' & Hsum & Hnd & Hc & Hm & _).
  exists bids, asks. split; [done|]. split; [lia|].
  split; [done|]. split; [by apply Hc|by apply Hm].
Defined.

Lemma best_prices_witness : exists b bids asks,
  (book_ok b bids asks /\ book_fresh b bids asks) /\
  (best_bid_price b).1 = 0 /\ (best_ask_price b).1 = 100.
Proof.
  destruct demo_offer as (b & bids & asks & _ & Hok & Hf & Hb & o & Ho). exists b, bids, asks.
  split; [done|]. pose proof (best_prices b bids asks Hok Hf) as H. by rewrite Hb, Ho in H.
Defined.

(** ** Departures *)

(** Operations on an [option] book, for concrete runs. *)
Definition add_ (ob : option t) (s : Side) (p n : Z) : option t :=
  b ← ob; r ← add_order b 1 0 s p n 0; Some r.2.
Definition cancel_ (ob : option t) (o : Z) : option t :=
  b ← ob; r ← cancel_order b o; Some r.2.

(** Bids at 100 and 99 (slots 0 and 1); the first is cancelled; a bid at 98 follows. *)
Definition stale_book : option t :=
  add_ (cancel_ (add_ (add_ (Some demo_book) BUY 100 5) BUY 99 5) 0) BUY 98 5.

(** What is observed of that book: order 1, its level, the reported best bid,
    and the prices of the fills of a sell order for 1 with limit 98. *)
Definition stale_view (b : t) : (Z * Z * option Z * bool * Z) * Z * option (list Z) :=
  ((price (order_at b 1), remaining_qty (order_at b 1),
    PriceHashMap.find (price_map (bids_ b)) 99, active (bids_ b) 1, head (bids_ b) 1),
   (best_bid_price b).1,
   option_map (fun r => map fill_price r.1) (match_ b SELL 98 1 2 64)).

Lemma stale_run : (b ← stale_book; Some (stale_view b)) =
  Some ((99, 5, Some 1, true, 1), 98, Some [98]).
Proof. vm_compute. reflexivity. Qed.

(** the cached best level can be wrong. Bids rest at 99 and 98, the better
    one entered first, yet the reported best bid is 98 and a sell order with
    limit 98 is filled at 98: cancelling the last order of the best level
    empties the cache, and the next insert claims it whatever its price. *)
Theorem stale_cache_trades_through :
  exists b, stale_book = Some b /\
    (price (order_at b 1) = 99 /\ remaining_qty (order_at b 1) = 5 /\
     PriceHashMap.find (price_map (bids_ b)) 99 = Some 1 /\ active (bids_ b) 1 = true /\
     head (bids_ b) 1 = 1) /\
    (best_bid_price b).1 = 98 /\
    exists ms b', match_ b SELL 98 1 2 64 = Some (ms, b') /\ map fill_price ms = [98].
Proof.
  pose proof stale_run as H. destruct stale_book as [b|]; [|done]. exists b. split; [done|].
  simpl in H. unfold stale_view in H. injection H as H1 H2 H3 H4 H5 H6 H7.
  split; [done|]. split; [done|]. destruct (match_ b SELL 98 1 2 64) as [[ms b']|]; [|done].
  simpl in H7. exists ms, b'. split; [done|]. congruence.
Qed.

(** price-level slots are never reused. Once a side has created as many
    levels as its pool holds, every price without a live level is refused, even
    on an empty book; the refused order's slot goes back to the free list with
    its quantity still set, so that [cancel_order] of that slot would be taken
    for the cancellation of a resting order. *)
Theorem levels_exhausted b contestant client s p n ts bids asks :
  book_ok b bids asks -> free_top (pool_ b) <> 0 ->
  count (levels b (is_buy s)) = PriceLevelPool.capacity (levels b (is_buy s)) ->
  (forall g, g ∈ lists (is_buy s) bids asks -> gl_price g <> p) ->
  exists o b', add_order b contestant client s p n ts = Some (NULL_INDEX, b') /\
    o ∈ slice (free_list (pool_ b')) (free_top (pool_ b')) /\
    remaining_qty (order_at b' o) = n.
Proof.
  intros Hok Htop Hfull Hno. apply (book_rep b (is_buy s)) in Hok as [Hside _ _ _ Hpool].
  destruct (alloc_ok _ _ Hpool Htop) as (o & p1 & Ha & Ho & Hcap & Hnull & _ & Hp1).
  pose proof (create_full _ _ _ _ _ Hside Hno Hfull) as Hc.
  unfold add_order. rewrite Ha, (proj2 (Z.eqb_neq _ _)) by done. cbn zeta.
  unfold levels at 1. cbn [bids_ asks_ pool_]. fold (levels b (is_buy s)). rewrite Hc.
  simpl mbind. cbn iota beta. eexists o, _. split; [done|].
  pose proof (po_top _ _ Hp1). pose proof (pool_top _ _ Hp1) as Ht. simpl in Ht.
  rewrite (po_capacity _ _ Hp1) in Ht. unfold MAX_ORDERS in Ht.
  cbn [store pool_ free free_list free_top set_orders order_at orders].
  rewrite u32_small, slice_snoc by lia. split; [apply elem_of_app; right; by left|].
  by rewrite upd_eq.
Qed.

(** The empty book after its bid side has created 4096 levels. *)
Definition exhausted_book : t :=
  {| bids_ := {| prices := prices (bids_ demo_book); total_qty := total_qty (bids_ demo_book);
                 order_count := order_count (bids_ demo_book); head := head (bids_ demo_book);
                 tail := tail (bids_ demo_book); active := active (bids_ demo_book);
                 count := MAX_PRICE_LEVELS_OB;
                 PriceLevelPool.capacity := PriceLevelPool.capacity (bids_ demo_book);
                 price_map := price_map (bids_ demo_book); best_idx := best_idx (bids_ demo_book) |};
     asks_ := asks_ demo_book; pool_ := pool_ demo_book;
     next_exchange_id_ := 1; total_orders_ := 0; total_fills_ := 0 |}.

Lemma exhausted_book_ok : book_ok exhausted_book [] [].
Proof.
  destruct (init_spec demo_arena (fun _ => zero_order) demo_init) as (Hok & (H1 & _ & H3 & H4 & H5) & _);
    [done|]. fold demo_book in *. destruct Hok as [_ Hne Ho Hone Hp].
  split; [|exact Hne|exact Ho|exact Hone|exact Hp].
  apply side_empty_core. split; [exact H1|].
  split; [change (0 <= 4096 <= 4096); lia|]. split; [exact H3|]. split; [exact H4|exact H5].
Qed.

Lemma levels_exhausted_witness :
  (book_ok exhausted_book [] [] /\ count (bids_ exhausted_book) = 4096) /\
  exists o b', add_order exhausted_book 1 7 BUY 100 5 0 = Some (NULL_INDEX, b') /\
    o ∈ slice (free_list (pool_ b')) (free_top (pool_ b')) /\
    remaining_qty (order_at b' o) = 5.
Proof.
  split; [split; [exact exhausted_book_ok|reflexivity]|].
  apply (levels_exhausted exhausted_book 1 7 BUY 100 5 0 [] [] exhausted_book_ok demo_free).
  - vm_compute. reflexivity.
  - intros g Hg. by apply not_elem_of_nil in Hg.
Defined.
