(* ===== verification/Xorshift.v ===== *)
(** Machine-level numerics shared by the generators: IEEE double arithmetic on
    the Standard Library's executable [spec_float] (binary64, rounding to
    nearest even), and the 64-bit xorshift step with the proof that it permutes
    the 64-bit words (so a non-zero seed never reaches the fixed point 0). *)

From S2P Require Import Prelude.
From Stdlib Require Import SpecFloat.

(** ** Doubles *)
Module F64.

Definition prec : Z := 53.
Definition emax : Z := 1024.

Definition add : spec_float -> spec_float -> spec_float := SFadd prec emax.
Definition sub : spec_float -> spec_float -> spec_float := SFsub prec emax.
Definition mul : spec_float -> spec_float -> spec_float := SFmul prec emax.
Definition div : spec_float -> spec_float -> spec_float := SFdiv prec emax.
Definition sqrt : spec_float -> spec_float := SFsqrt prec emax.
Definition ltb : spec_float -> spec_float -> bool := SFltb.

(** [static_cast<double>] of an integer. *)
Definition of_Z (z : Z) : spec_float := binary_normalize prec emax z 0 false.

(** [static_cast] of a double to an integer: truncation towards zero (the
    values cast in the sources fit their type). *)
Definition trunc (x : spec_float) : Z :=
  match x with
  | S754_finite s m e =>
      let a := if 0 <=? e then Z.pos m * 2 ^ e else Z.pos m / 2 ^ (- e) in
      if s then - a else a
  | _ => 0
  end.

(** The literal [n/d] ([n], [d] exact): the double nearest to the quotient. *)
Definition lit (n d : Z) : spec_float := div (of_Z n) (of_Z d).

End F64.

(** ** Xorshift *)

Definition shl64 (s k : Z) : Z := u64 (Z.shiftl s k).

(** [s ^= s << a; s ^= s >> b; s ^= s << c]. *)
Definition xorshift (a b c s : Z) : Z :=
  let s := Z.lxor s (shl64 s a) in
  let s := Z.lxor s (Z.shiftr s b) in
  Z.lxor s (shl64 s c).

Definition word (s : Z) : Prop := 0 <= s < 2 ^ 64.

Lemma word_u64 s : word (u64 s).
Proof. apply u64_range. Qed.

Lemma word_testbit s i : word s -> 64 <= i -> Z.testbit s i = false.
Proof. apply bits_above. Qed.

Lemma word_eq x y : word x -> word y ->
  (forall i, 0 <= i < 64 -> Z.testbit x i = Z.testbit y i) -> x = y.
Proof.
  intros Hx Hy H. apply Z.bits_inj'. intros i Hi.
  destruct (Z.lt_ge_cases i 64); [by apply H; lia|]. by rewrite !word_testbit.
Qed.

Lemma word_lxor x y : word x -> word y -> word (Z.lxor x y).
Proof. apply lxor_bound. lia. Qed.

Lemma word_shiftr x k : word x -> 0 <= k -> word (Z.shiftr x k).
Proof.
  intros [H0 H1] Hk. rewrite Z.shiftr_div_pow2 by done. split; [by apply Z.div_pos; [|apply Z.pow_pos_nonneg]|].
  apply Z.le_lt_trans with x; [|done]. apply Z.div_le_upper_bound; [apply Z.pow_pos_nonneg; lia|].
  assert (0 < 2 ^ k) by (apply Z.pow_pos_nonneg; lia). nia.
Qed.

Lemma shl64_bit s k i : 0 <= k -> 0 <= i < 64 ->
  Z.testbit (shl64 s k) i = (if i <? k then false else Z.testbit s (i - k)).
Proof.
  intros Hk Hi. unfold shl64, u64. change 18446744073709551616 with (2 ^ 64).
  rewrite Z.mod_pow2_bits_low by lia. rewrite Z.shiftl_spec by lia.
  destruct (Z.ltb_spec i k); [|done]. apply Z.testbit_neg_r. lia.
Qed.

(** Bits are recovered from the low end. *)
Lemma left_step_inj k x y : 0 < k -> word x -> word y ->
  Z.lxor x (shl64 x k) = Z.lxor y (shl64 y k) -> x = y.
Proof.
  intros Hk Hx Hy H. apply word_eq; [done|done|]. intros i [Hi Hlt]. revert Hlt.
  apply (Z_lt_induction (fun i => i < 64 -> Z.testbit x i = Z.testbit y i)); [|done].
  clear i Hi. intros i IH Hlt. destruct (Z.lt_ge_cases i 0); [by rewrite !Z.testbit_neg_r|].
  pose proof (f_equal (fun z => Z.testbit z i) H) as Hb. simpl in Hb.
  rewrite !Z.lxor_spec, !shl64_bit in Hb by lia. destruct (Z.ltb_spec i k).
  - by rewrite !xorb_false_r in Hb.
  - rewrite (IH (i - k)) in Hb by lia. 
    destruct (Z.testbit x i), (Z.testbit y i), (Z.testbit y (i - k)); done.
Qed.

(** Bits are recovered from the high end. *)
Lemma right_step_inj k x y : 0 < k -> word x -> word y ->
  Z.lxor x (Z.shiftr x k) = Z.lxor y (Z.shiftr y k) -> x = y.
Proof.
  intros Hk Hx Hy H. apply word_eq; [done|done|]. intros i [Hi Hlt].
  assert (forall n, 0 <= n -> forall i, 0 <= i -> 64 - i <= n -> Z.testbit x i = Z.testbit y i) as Hall.
  { apply (natlike_ind (fun n => forall i, 0 <= i -> 64 - i <= n -> Z.testbit x i = Z.testbit y i)).
    - intros j Hj Hn. by rewrite !word_testbit by (done || lia).
    - intros n Hn IH j Hj Hjn.
      pose proof (f_equal (fun z => Z.testbit z j) H) as Hb. simpl in Hb.
      rewrite !Z.lxor_spec, !Z.shiftr_spec in Hb by lia. rewrite (IH (j + k)) in Hb by lia.
      destruct (Z.testbit x j), (Z.testbit y j), (Z.testbit y (j + k)); done. }
  apply (Hall (64 - i)); lia.
Qed.

Lemma xorshift_word a b c s : 0 <= b -> word s -> word (xorshift a b c s).
Proof.
  intros Hb Hs. unfold xorshift.
  repeat (apply word_lxor || apply word_u64 || apply word_shiftr || done).
Qed.

Lemma xorshift_inj a b c x y : 0 < a -> 0 < b -> 0 < c -> word x -> word y ->
  xorshift a b c x = xorshift a b c y -> x = y.
Proof.
  intros Ha Hb Hc Hx Hy H. unfold xorshift in H.
  assert (Hw : forall s k, word s -> word (Z.lxor s (shl64 s k)))
    by (intros; apply word_lxor; [done|apply word_u64]).
  apply left_step_inj in H; [|done|apply word_lxor; auto; apply word_shiftr; auto; lia
    |apply word_lxor; auto; apply word_shiftr; auto; lia].
  apply right_step_inj in H; [|done|auto|auto]. by apply left_step_inj in H.
Qed.

Lemma xorshift_0 a b c : xorshift a b c 0 = 0.
Proof.
  assert (E : forall k, Z.lxor 0 (shl64 0 k) = 0)
    by (intros; unfold shl64; by rewrite Z.shiftl_0_l).
  unfold xorshift. cbn zeta. by rewrite E, Z.shiftr_0_l, Z.lxor_0_r, E.
Qed.

Lemma xorshift_nonzero a b c s : 0 < a -> 0 < b -> 0 < c -> word s -> s <> 0 ->
  xorshift a b c s <> 0.
Proof.
  intros Ha Hb Hc Hs Hn H. apply Hn. rewrite <- (xorshift_0 a b c) in H.
  apply (xorshift_inj a b c); try done.
Qed.
