(* ===== verification/MarketData.v ===== *)
(** The synthetic market-data generator of
    src/exchange/include/exchange/market_data_gen.hpp: an Ornstein-Uhlenbeck
    walk in doubles driven by an xorshift generator.  [std::log] and
    [std::cos] of libm are parameters of the model. *)

From S2P Require Import Prelude Protocol Xorshift.
From Stdlib Require Import SpecFloat.

Record MarketDataConfig := {
  initial_price : Z; tick_size : Z; initial_spread : Z;
  volatility : spec_float; mean_reversion : spec_float; base_qty : Z; seed : Z }.

Definition default_market_config : MarketDataConfig :=
  {| initial_price := 1000000; tick_size := 100; initial_spread := 200;
     volatility := F64.lit 2 10000; mean_reversion := F64.lit 1 100;
     base_qty := 100; seed := 42 |}.

Module MarketDataGenerator.

Section Libm.
Context (dlog dcos : spec_float -> spec_float).

Record t := {
  cfg_ : MarketDataConfig; mid_price_ : spec_float; rng_state_ : Z; sequence_ : Z;
  last_update_ : MarketUpdate }.

Definition zero_update : MarketUpdate :=
  {| mu_msg_type := MSG_OTHER 0; mu_instrument_id := 0; mu_sequence := 0;
     mu_best_bid_price := 0; mu_best_ask_price := 0; mu_best_bid_qty := 0;
     mu_best_ask_qty := 0; mu_last_trade_price := 0; mu_last_trade_qty := 0;
     mu_exchange_ts_ns := 0 |}.

Definition init (cfg : MarketDataConfig) (g : t) : t :=
  {| cfg_ := cfg; mid_price_ := F64.of_Z (initial_price cfg); rng_state_ := seed cfg;
     sequence_ := 0; last_update_ := last_update_ g |}.

Definition next_raw (s : Z) : Z := xorshift 13 7 17 s.

(** Each draw returns the value and the generator state. *)
Definition next_uniform (s : Z) : spec_float * Z :=
  let s := next_raw s in
  (F64.div (F64.of_Z (Z.land s 0xFFFFFFFF)) (F64.of_Z 4294967296), s).

Definition next_gaussian (s : Z) : spec_float * Z :=
  let '(u1, s) := next_uniform s in
  let '(u2, s) := next_uniform s in
  let eps := F64.lit 1 10000000000 in
  let u1 := if F64.ltb u1 eps then eps else u1 in
  (F64.mul (F64.sqrt (F64.mul (F64.of_Z (-2)) (dlog u1)))
     (dcos (F64.mul (F64.mul (F64.of_Z 2) (F64.lit 314159265358979 100000000000000)) u2)), s).

(** [static_cast<int>(next_uniform() * k)]. *)
Definition scaled_draw (k s : Z) : Z * Z :=
  let '(u, s) := next_uniform s in (F64.trunc (F64.mul u (F64.of_Z k)), s).

Definition next_tick (g : t) (timestamp_ns : Z) : MarketUpdate * t :=
  let c := cfg_ g in
  let p0 := F64.of_Z (initial_price c) in
  let '(gauss, s) := next_gaussian (rng_state_ g) in
  let noise := F64.mul (F64.mul gauss (volatility c)) p0 in
  let reversion := F64.mul (mean_reversion c) (F64.sub p0 (mid_price_ g)) in
  let mp := F64.add (mid_price_ g) (F64.add noise reversion) in
  let floor := F64.of_Z (i64 (tick_size c * 10)) in
  let mp := if F64.ltb mp floor then floor else mp in
  let mid := F64.trunc mp in
  let mid := i64 (Z.quot mid (tick_size c) * tick_size c) in
  let half_spread := Z.quot (initial_spread c) 2 in
  let '(d, s) := scaled_draw 3 s in
  let half_spread := i64 (half_spread + i64 (d * tick_size c)) in
  let '(qb, s) := scaled_draw 50 s in
  let '(qa, s) := scaled_draw 50 s in
  let '(qt, s) := scaled_draw 20 s in
  let update :=
    {| mu_msg_type := MARKET_UPDATE; mu_instrument_id := 0; mu_sequence := sequence_ g;
       mu_best_bid_price := i64 (mid - half_spread); mu_best_ask_price := i64 (mid + half_spread);
       mu_best_bid_qty := i32 (base_qty c + qb); mu_best_ask_qty := i32 (base_qty c + qa);
       mu_last_trade_price := mid; mu_last_trade_qty := i32 (qt + 1);
       mu_exchange_ts_ns := timestamp_ns |} in
  (update, {| cfg_ := c; mid_price_ := mp; rng_state_ := s;
              sequence_ := u32 (sequence_ g + 1); last_update_ := update |}).

(** The stream of [n] ticks. *)
Fixpoint ticks (n : nat) (ts : Z) (g : t) : list MarketUpdate * t :=
  match n with
  | O => ([], g)
  | S n => let '(u, g) := next_tick g ts in let '(us, g) := ticks n ts g in (u :: us, g)
  end.

#[local] Opaque next_raw F64.add F64.sub F64.mul F64.div F64.sqrt F64.ltb F64.of_Z F64.trunc F64.lit.

(** A tick draws six words and numbers itself. *)
Lemma next_tick_state g ts :
  let '(u, g') := next_tick g ts in
  rng_state_ g' = Nat.iter 6 next_raw (rng_state_ g) /\
  mu_sequence u = sequence_ g /\ sequence_ g' = u32 (sequence_ g + 1) /\
  last_update_ g' = u /\ cfg_ g' = cfg_ g.
Proof.
  unfold next_tick, next_gaussian, scaled_draw, next_uniform. cbv beta iota zeta.
  split_and!; reflexivity.
Qed.

#[local] Transparent next_raw.

Lemma next_raw_live s : word s -> s <> 0 -> word (next_raw s) /\ next_raw s <> 0.
Proof. intros Hs Hn. split; [by apply xorshift_word|by apply xorshift_nonzero]. Qed.

Lemma iter_live n s : word s -> s <> 0 ->
  word (Nat.iter n next_raw s) /\ Nat.iter n next_raw s <> 0.
Proof. intros Hs Hn. induction n as [|n [IH1 IH2]]; [done|]. by apply next_raw_live. Qed.

(** from a non-zero 64-bit seed the generator of the market data never
    falls into the absorbing zero state, and two generators that agree on the
    next raw word agreed before it: every tick of a session is numbered
    consecutively (modulo 2^32) and consumes exactly six generator words. *)
Theorem tick_stream n ts g :
  word (rng_state_ g) -> rng_state_ g <> 0 -> 0 <= sequence_ g < 2 ^ 32 ->
  let '(us, g') := ticks n ts g in
  length us = n /\
  (forall i u, us !! i = Some u -> mu_sequence u = u32 (sequence_ g + Z.of_nat i)) /\
  rng_state_ g' = Nat.iter (6 * n) next_raw (rng_state_ g) /\
  word (rng_state_ g') /\ rng_state_ g' <> 0 /\
  (forall s1 s2, word s1 -> word s2 -> next_raw s1 = next_raw s2 -> s1 = s2).
Proof.
  intros Hw Hn Hs.
  assert (Hinj : forall s1 s2, word s1 -> word s2 -> next_raw s1 = next_raw s2 -> s1 = s2)
    by (intros; by apply (xorshift_inj 13 7 17)).
  revert g Hw Hn Hs. induction n as [|n IH]; intros g Hw Hn Hs.
  { simpl. split_and!; try done. }
  cbn [ticks]. pose proof (next_tick_state g ts) as Ht.
  destruct (next_tick g ts) as [u g1]. destruct Ht as (Hr & Hu & Hq & _ & _).
  destruct (iter_live 6 _ Hw Hn) as [Hw1 Hn1]. rewrite <- Hr in Hw1, Hn1.
  specialize (IH g1 Hw1 Hn1 ltac:(rewrite Hq; apply u32_range)).
  destruct (ticks n ts g1) as [us g2]. destruct IH as (Hl & Hseq & Hrn & Hw2 & Hn2 & _).
  split_and!; try done.
  - simpl. by rewrite Hl.
  - intros [|i] v Hv; simpl in Hv.
    + injection Hv as <-. rewrite Hu, Z.add_0_r. symmetry. by apply u32_small.
    + rewrite (Hseq i v Hv), Hq. unfold u32. rewrite Zplus_mod_idemp_l. f_equal. lia.
  - rewrite Hrn, Hr. replace (6 * S n)%nat with (6 * n + 6)%nat by lia.
    by rewrite Nat.iter_add.
Qed.

End Libm.

(** Libm stubs for concrete runs. *)
Definition demo_gen : t :=
  init default_market_config
    {| cfg_ := default_market_config; mid_price_ := S754_zero false; rng_state_ := 0;
       sequence_ := 0; last_update_ := zero_update |}.

Lemma tick_stream_witness :
  (word (rng_state_ demo_gen) /\ rng_state_ demo_gen <> 0) /\
  let '(us, g') := ticks (fun x => x) (fun x => x) 2 5 demo_gen in
  length us = 2%nat /\
  (forall i u, us !! i = Some u -> mu_sequence u = u32 (0 + Z.of_nat i)) /\
  rng_state_ g' = Nat.iter 12 next_raw 42 /\ word (rng_state_ g') /\ rng_state_ g' <> 0 /\
  (forall s1 s2, word s1 -> word s2 -> next_raw s1 = next_raw s2 -> s1 = s2).
Proof.
  assert (word (rng_state_ demo_gen) /\ rng_state_ demo_gen <> 0) as [Hw Hn]
    by (split; [unfold word; simpl; lia|done]).
  split; [done|].
  exact (tick_stream (fun x => x) (fun x => x) 2 5 demo_gen Hw Hn ltac:(done)).
Defined.

End MarketDataGenerator.
