(* ===== verification/MatchEngine.v ===== *)
(** The matching engine of src/exchange/include/exchange/match_engine.hpp: the
    contestants' books of record, order entry with its risk checks, cancels
    through a hash map from client order ids to pool slots, the market-data
    tick and the outbound message ring.

    The engine is an explicit state; an operation that reaches the order
    book's hash map is in [option] as in OrderBook.v. *)

From S2P Require Import Prelude Arena Protocol PriceMap OrderBook Xorshift MarketData.
From Stdlib Require Import SpecFloat.
Import PriceLevelPool OrderPool OrderBook.

Definition MAX_CONTESTANTS : Z := 64.
Definition OUTBOUND_QUEUE_SIZE : Z := 4096.
Definition CANCEL_MAP_SIZE : Z := 65536.
Definition CANCEL_MAP_MASK : Z := CANCEL_MAP_SIZE - 1.

Module ContestantState.

Record t := {
  position : arr Z; realized_pnl : arr Z; avg_entry : arr Z; cash : arr Z;
  order_count : arr Z; total_fills : arr Z; total_orders : arr Z;
  last_heartbeat : arr Z; connected : arr bool; count : Z }.

Definition init (arena : HugePageArena.t) (c : t) (max_c : Z) : bool * HugePageArena.t * t :=
  let '(a1, arena) := HugePageArena.allocate arena 4 4 max_c in
  let '(a2, arena) := HugePageArena.allocate arena 8 8 max_c in
  let '(a3, arena) := HugePageArena.allocate arena 8 8 max_c in
  let '(a4, arena) := HugePageArena.allocate arena 8 8 max_c in
  let '(a5, arena) := HugePageArena.allocate arena 4 4 max_c in
  let '(a6, arena) := HugePageArena.allocate arena 4 4 max_c in
  let '(a7, arena) := HugePageArena.allocate arena 4 4 max_c in
  let '(a8, arena) := HugePageArena.allocate arena 8 8 max_c in
  let '(a9, arena) := HugePageArena.allocate arena 1 1 max_c in
  if HugePageArena.all_some [a1; a2; a3; a4; a5; a6; a7; a8; a9] then
    (true, arena,
     {| position := fun _ => 0; realized_pnl := fun _ => 0; avg_entry := fun _ => 0;
        cash := fun _ => 0; order_count := fun _ => 0; total_fills := fun _ => 0;
        total_orders := fun _ => 0; last_heartbeat := fun _ => 0;
        connected := fun _ => false; count := count c |})
  else (false, arena, c).

(** [signed_qty] of a fill. *)
Definition signed (side : Side) (qty : Z) : Z := if is_buy side then qty else i32 (- qty).

Definition apply_fill (c : t) (cid : Z) (side : Side) (price qty : Z) : t :=
  let sq := signed side qty in
  let old := position c cid in
  let realized :=
    if ((0 <? old) && (sq <? 0)) || ((old <? 0) && (0 <? sq)) then
      let close_qty := if 0 <? sq then Z.min sq (i32 (- old)) else Z.max sq (i32 (- old)) in
      let abs_close := if 0 <=? close_qty then close_qty else i32 (- close_qty) in
      let gain := if 0 <? old then i64 (price - avg_entry c cid)
                  else i64 (avg_entry c cid - price) in
      (realized_pnl c).[cid <- i64 (realized_pnl c cid + i64 (abs_close * gain))]
    else realized_pnl c in
  let avg :=
    if ((0 <=? old) && (0 <? sq)) || ((old <=? 0) && (sq <? 0)) then
      let abs_old := if 0 <=? old then old else i32 (- old) in
      let abs_new := if 0 <=? sq then sq else i32 (- sq) in
      let old_cost := i64 (avg_entry c cid * abs_old) in
      let new_cost := i64 (price * abs_new) in
      let total := i32 (abs_old + abs_new) in
      if 0 <? total then (avg_entry c).[cid <- Z.quot (i64 (old_cost + new_cost)) total]
      else avg_entry c
    else avg_entry c in
  {| position := (position c).[cid <- i32 (old + sq)]; realized_pnl := realized;
     avg_entry := avg; cash := cash c; order_count := order_count c;
     total_fills := (total_fills c).[cid <- u32 (total_fills c cid + 1)];
     total_orders := total_orders c; last_heartbeat := last_heartbeat c;
     connected := connected c; count := count c |}.

Definition unrealized_pnl (c : t) (cid mid_price : Z) : Z :=
  if position c cid =? 0 then 0
  else if 0 <? position c cid
  then i64 (position c cid * i64 (mid_price - avg_entry c cid))
  else i64 (i32 (- position c cid) * i64 (avg_entry c cid - mid_price)).

Definition total_pnl (c : t) (cid mid_price : Z) : Z :=
  i64 (realized_pnl c cid + unrealized_pnl c cid mid_price).

(** The counters the engine bumps directly. *)
Definition bump_total_orders (c : t) (cid : Z) : t :=
  {| position := position c; realized_pnl := realized_pnl c; avg_entry := avg_entry c;
     cash := cash c; order_count := order_count c; total_fills := total_fills c;
     total_orders := (total_orders c).[cid <- u32 (total_orders c cid + 1)];
     last_heartbeat := last_heartbeat c; connected := connected c; count := count c |}.
Definition add_order_count (c : t) (cid d : Z) : t :=
  {| position := position c; realized_pnl := realized_pnl c; avg_entry := avg_entry c;
     cash := cash c; order_count := (order_count c).[cid <- u32 (order_count c cid + d)];
     total_fills := total_fills c; total_orders := total_orders c;
     last_heartbeat := last_heartbeat c; connected := connected c; count := count c |}.

End ContestantState.

Record MatchEngineConfig := {
  tick_interval_us : Z; match_duration_ms : Z; max_position : Z; max_order_size : Z;
  max_orders_per_sec : Z; initial_cash : Z; market_cfg : MarketDataConfig }.

Definition default_engine_config : MatchEngineConfig :=
  {| tick_interval_us := 100; match_duration_ms := 30000; max_position := 100;
     max_order_size := 50; max_orders_per_sec := 1000; initial_cash := 10000000;
     market_cfg := default_market_config |}.

Record OutboundMsg := { om_data : list Z; om_size : Z; om_contestant_id : Z }.

(** The open-addressing map from (contestant, client order id) to pool slots. *)
Module CancelMap.

Record t := { keys : arr Z; vals : arr Z }.

Definition clear (m : t) : t := {| keys := fun _ => 0; vals := fun _ => NULL_INDEX |}.

Definition make_cancel_key (cid client_oid : Z) : Z := Z.lor (Z.shiftl cid 32) client_oid.

Definition slot_of (key : Z) : Z :=
  Z.land (u32 (Z.shiftr (u64 (key * 0x9E3779B97F4A7C15)) 48)) CANCEL_MAP_MASK.

Definition probe (key i : Z) : Z := Z.land (slot_of key + i) CANCEL_MAP_MASK.

(** The probe loops, [n] steps left out of 64. *)
Fixpoint insert_loop (n : nat) (m : t) (key pool_idx i : Z) : t :=
  match n with
  | O => m
  | S n =>
      let idx := probe key i in
      if (keys m idx =? 0) || (vals m idx =? NULL_INDEX)
      then {| keys := (keys m).[idx <- key]; vals := (vals m).[idx <- pool_idx] |}
      else insert_loop n m key pool_idx (i + 1)
  end.
Definition insert (m : t) (key pool_idx : Z) : t := insert_loop 64 m key pool_idx 0.

Fixpoint lookup_loop (n : nat) (m : t) (key i : Z) : Z :=
  match n with
  | O => NULL_INDEX
  | S n =>
      let idx := probe key i in
      if (keys m idx =? key) && negb (vals m idx =? NULL_INDEX) then vals m idx
      else if keys m idx =? 0 then NULL_INDEX
      else lookup_loop n m key (i + 1)
  end.
Definition lookup (m : t) (key : Z) : Z := lookup_loop 64 m key 0.

Fixpoint remove_loop (n : nat) (m : t) (key i : Z) : t :=
  match n with
  | O => m
  | S n =>
      let idx := probe key i in
      if keys m idx =? key then {| keys := keys m; vals := (vals m).[idx <- NULL_INDEX] |}
      else if keys m idx =? 0 then m
      else remove_loop n m key (i + 1)
  end.
Definition remove (m : t) (key : Z) : t := remove_loop 64 m key 0.

End CancelMap.

Module MatchEngine.
Section Libm.
Context (dlog dcos : spec_float -> spec_float).

Record t := {
  cfg_ : MatchEngineConfig; book_ : OrderBook.t; contestants_ : ContestantState.t;
  market_gen_ : MarketDataGenerator.t; outbound_ : arr OutboundMsg;
  outbound_head_ : Z; outbound_tail_ : Z; last_trade_price_ : Z; last_trade_qty_ : Z;
  tick_count_ : Z; cancel_map_ : CancelMap.t }.

Definition set_book (e : t) (b : OrderBook.t) : t :=
  {| cfg_ := cfg_ e; book_ := b; contestants_ := contestants_ e; market_gen_ := market_gen_ e;
     outbound_ := outbound_ e; outbound_head_ := outbound_head_ e;
     outbound_tail_ := outbound_tail_ e; last_trade_price_ := last_trade_price_ e;
     last_trade_qty_ := last_trade_qty_ e; tick_count_ := tick_count_ e;
     cancel_map_ := cancel_map_ e |}.
Definition set_contestants (e : t) (c : ContestantState.t) : t :=
  {| cfg_ := cfg_ e; book_ := book_ e; contestants_ := c; market_gen_ := market_gen_ e;
     outbound_ := outbound_ e; outbound_head_ := outbound_head_ e;
     outbound_tail_ := outbound_tail_ e; last_trade_price_ := last_trade_price_ e;
     last_trade_qty_ := last_trade_qty_ e; tick_count_ := tick_count_ e;
     cancel_map_ := cancel_map_ e |}.
Definition set_outbound (e : t) (o : arr OutboundMsg) (head tail : Z) : t :=
  {| cfg_ := cfg_ e; book_ := book_ e; contestants_ := contestants_ e; market_gen_ := market_gen_ e;
     outbound_ := o; outbound_head_ := head; outbound_tail_ := tail;
     last_trade_price_ := last_trade_price_ e; last_trade_qty_ := last_trade_qty_ e;
     tick_count_ := tick_count_ e; cancel_map_ := cancel_map_ e |}.
Definition set_last_trade (e : t) (p q : Z) : t :=
  {| cfg_ := cfg_ e; book_ := book_ e; contestants_ := contestants_ e; market_gen_ := market_gen_ e;
     outbound_ := outbound_ e; outbound_head_ := outbound_head_ e;
     outbound_tail_ := outbound_tail_ e; last_trade_price_ := p; last_trade_qty_ := q;
     tick_count_ := tick_count_ e; cancel_map_ := cancel_map_ e |}.
Definition set_cancel_map (e : t) (m : CancelMap.t) : t :=
  {| cfg_ := cfg_ e; book_ := book_ e; contestants_ := contestants_ e; market_gen_ := market_gen_ e;
     outbound_ := outbound_ e; outbound_head_ := outbound_head_ e;
     outbound_tail_ := outbound_tail_ e; last_trade_price_ := last_trade_price_ e;
     last_trade_qty_ := last_trade_qty_ e; tick_count_ := tick_count_ e; cancel_map_ := m |}.

(** [init]; [mem] and [omem] are what the arena holds at the order array and
    at the outbound ring. *)
Definition init (arena : HugePageArena.t) (mem : arr Order) (omem : arr OutboundMsg)
    (cfg : MatchEngineConfig) (e : t) : bool * HugePageArena.t * t :=
  let e := {| cfg_ := cfg; book_ := book_ e; contestants_ := contestants_ e;
              market_gen_ := market_gen_ e; outbound_ := outbound_ e;
              outbound_head_ := outbound_head_ e; outbound_tail_ := outbound_tail_ e;
              last_trade_price_ := last_trade_price_ e; last_trade_qty_ := last_trade_qty_ e;
              tick_count_ := tick_count_ e; cancel_map_ := cancel_map_ e |} in
  let '(ok1, arena, b) := OrderBook.init arena mem (book_ e) in
  let e := set_book e b in
  if negb ok1 then (false, arena, e) else
  let '(ok2, arena, c) := ContestantState.init arena (contestants_ e) MAX_CONTESTANTS in
  let e := set_contestants e c in
  if negb ok2 then (false, arena, e) else
  let e := {| cfg_ := cfg_ e; book_ := book_ e; contestants_ := contestants_ e;
              market_gen_ := MarketDataGenerator.init (market_cfg cfg) (market_gen_ e);
              outbound_ := outbound_ e; outbound_head_ := outbound_head_ e;
              outbound_tail_ := outbound_tail_ e; last_trade_price_ := last_trade_price_ e;
              last_trade_qty_ := last_trade_qty_ e; tick_count_ := tick_count_ e;
              cancel_map_ := cancel_map_ e |} in
  let '(a1, arena) := HugePageArena.allocate_raw arena (u64 (128 * OUTBOUND_QUEUE_SIZE)) CACHE_LINE_SIZE in
  if negb (HugePageArena.all_some [a1]) then (false, arena, e) else
  let e := set_outbound e omem 0 0 in
  let '(a2, arena) := HugePageArena.allocate arena 8 8 CANCEL_MAP_SIZE in
  let '(a3, arena) := HugePageArena.allocate arena 4 4 CANCEL_MAP_SIZE in
  if negb (HugePageArena.all_some [a2; a3]) then (false, arena, e) else
  (true, arena, set_cancel_map e (CancelMap.clear (cancel_map_ e))).

Definition register_contestant (e : t) (initial_cash : Z) : Z * t :=
  let c := contestants_ e in
  let cid := ContestantState.count c in
  (cid, set_contestants e
     {| ContestantState.position := ContestantState.position c;
        ContestantState.realized_pnl := ContestantState.realized_pnl c;
        ContestantState.avg_entry := ContestantState.avg_entry c;
        ContestantState.cash := (ContestantState.cash c).[cid <- initial_cash];
        ContestantState.order_count := ContestantState.order_count c;
        ContestantState.total_fills := ContestantState.total_fills c;
        ContestantState.total_orders := ContestantState.total_orders c;
        ContestantState.last_heartbeat := ContestantState.last_heartbeat c;
        ContestantState.connected := (ContestantState.connected c).[cid <- true];
        ContestantState.count := u32 (cid + 1) |}).

(** [memcpy] of [size] bytes over the slot's buffer. *)
Definition enqueue_outbound (e : t) (cid : Z) (data : list Z) (size : Z) : t :=
  let idx := outbound_tail_ e mod OUTBOUND_QUEUE_SIZE in
  let old := outbound_ e idx in
  let msg := {| om_data := take (Z.to_nat size) data ++ drop (Z.to_nat size) (om_data old);
                om_size := size; om_contestant_id := cid |} in
  set_outbound e ((outbound_ e).[idx <- msg]) (outbound_head_ e) (u32 (outbound_tail_ e + 1)).

Definition order_ack (client_oid : Z) (status : AckStatus) (exchange_oid price qty : Z) : OrderAck :=
  {| oa_msg_type := ORDER_ACK; oa_status := status; oa_client_order_id := client_oid;
     oa_exchange_order_id := exchange_oid; oa_price := price; oa_quantity := qty |}.

Definition send_ack (e : t) (cid client_oid : Z) (status : AckStatus)
    (exchange_oid price qty : Z) : t :=
  enqueue_outbound e cid (to_wire (order_ack client_oid status exchange_oid price qty))
    (wire_size OrderAck).

Definition send_fill (e : t) (cid client_oid exchange_oid : Z) (side : Side)
    (price qty remaining ts : Z) : t :=
  (* the unused mid price still refreshes both best-level caches *)
  let '(_, b) := best_bid_price (book_ e) in
  let '(_, b) := best_ask_price b in
  let e := set_book e b in
  let fill := {| fl_msg_type := FILL; fl_side := side; fl_instrument_id := 0;
                 fl_client_order_id := client_oid; fl_exchange_order_id := exchange_oid;
                 fl_fill_price := price; fl_fill_qty := qty; fl_remaining_qty := remaining;
                 fl_fee := 0; fl_realized_pnl := ContestantState.realized_pnl (contestants_ e) cid;
                 fl_exchange_ts_ns := ts |} in
  enqueue_outbound e cid (to_wire fill) (wire_size Fill).

(** One turn of the fill loop of [process_order]; the second component is
    [filled_qty]. *)
Definition report_fill (taker : Z) (order : OrderEntry) (ts : Z)
    (st : t * Z) (f : MatchResult) : t * Z :=
  let '(e, filled_qty) := st in
  let maker := order_at (book_ e) (maker_idx f) in
  let maker_cid := contestant_id maker in
  let e := set_contestants e (ContestantState.apply_fill (contestants_ e) maker_cid
             (side maker) (fill_price f) (fill_qty f)) in
  let e := set_contestants e (ContestantState.apply_fill (contestants_ e) taker
             (oe_side order) (fill_price f) (fill_qty f)) in
  let e := send_fill e maker_cid (client_order_id maker) (exchange_id maker) (side maker)
             (fill_price f) (fill_qty f) (remaining_qty maker) ts in
  let e := send_fill e taker (oe_client_order_id order) 0 (oe_side order)
             (fill_price f) (fill_qty f)
             (i32 (i32 (oe_quantity order - filled_qty) - fill_qty f)) ts in
  (set_last_trade e (fill_price f) (fill_qty f), i32 (filled_qty + fill_qty f)).

Definition process_order (e : t) (taker : Z) (order : OrderEntry) (ts : Z) : option t :=
  let cs := contestants_ e in
  let reject status := Some (send_ack e taker (oe_client_order_id order) status 0
                               (oe_price order) (oe_quantity order)) in
  if ContestantState.count cs <=? taker then Some e
  else if (oe_quantity order <=? 0) || (max_order_size (cfg_ e) <? oe_quantity order)
  then reject REJECTED_SIZE
  else
  let pos := ContestantState.position cs taker in
  if is_buy (oe_side order) && (max_position (cfg_ e) <? i32 (pos + oe_quantity order))
  then reject REJECTED_RISK
  else if bool_decide (oe_side order = SELL) &&
          (i32 (pos - oe_quantity order) <? i32 (- max_position (cfg_ e)))
  then reject REJECTED_RISK
  else
  let e := set_contestants e (ContestantState.bump_total_orders cs taker) in
  '(fills, b) ← match_ (book_ e) (oe_side order) (oe_price order) (oe_quantity order) taker 64;
  let '(e, filled_qty) := foldl (report_fill taker order ts) (set_book e b, 0) fills in
  let remaining := i32 (oe_quantity order - filled_qty) in
  if (0 <? remaining) && bool_decide (oe_order_type order = LIMIT) then
    '(oidx, b) ← add_order (book_ e) taker (oe_client_order_id order) (oe_side order)
                   (oe_price order) remaining ts;
    let e := set_book e b in
    if negb (oidx =? NULL_INDEX) then
      let e := send_ack e taker (oe_client_order_id order) ACCEPTED
                 (exchange_id (order_at (book_ e) oidx)) (oe_price order) remaining in
      let e := set_contestants e (ContestantState.add_order_count (contestants_ e) taker 1) in
      Some (set_cancel_map e (CancelMap.insert (cancel_map_ e)
              (CancelMap.make_cancel_key taker (oe_client_order_id order)) oidx))
    else Some e
  else if 0 <? filled_qty then
    Some (send_ack e taker (oe_client_order_id order) ACCEPTED 0 (oe_price order) filled_qty)
  else Some e.

Definition cancel_ack (client_oid : Z) (status : AckStatus) (ts : Z) : CancelAck :=
  {| ca_msg_type := CANCEL_ACK; ca_status := status; ca_client_order_id := client_oid;
     ca_exchange_order_id := 0; ca_exchange_ts_ns := ts |}.

Definition process_cancel (e : t) (cid : Z) (cancel : CancelRequest) (ts : Z) : option t :=
  let key := CancelMap.make_cancel_key cid (cr_client_order_id cancel) in
  let order_idx := CancelMap.lookup (cancel_map_ e) key in
  let done e status :=
    enqueue_outbound e cid (to_wire (cancel_ack (cr_client_order_id cancel) status ts))
      (wire_size CancelAck) in
  if order_idx =? NULL_INDEX then Some (done e REJECTED_UNKNOWN)
  else
    let o := order_at (book_ e) order_idx in
    if negb (contestant_id o =? cid) || (remaining_qty o <=? 0)
    then Some (done e REJECTED_UNKNOWN)
    else
      '(_, b) ← cancel_order (book_ e) order_idx;
      let e := set_book e b in
      let e := set_cancel_map e (CancelMap.remove (cancel_map_ e) key) in
      let e := set_contestants e (ContestantState.add_order_count (contestants_ e) cid (-1)) in
      Some (done e CANCELLED).

Definition generate_tick (e : t) (ts : Z) : MarketUpdate * t :=
  let '(u, gen) := MarketDataGenerator.next_tick dlog dcos (market_gen_ e) ts in
  let '(bb, b) := best_bid_price (book_ e) in
  let '(ba, b) := best_ask_price b in
  let '(bq, b) := if 0 <? bb then best_bid_qty b else (mu_best_bid_qty u, b) in
  let '(aq, b) := if 0 <? ba then best_ask_qty b else (mu_best_ask_qty u, b) in
  let traded := 0 <? last_trade_price_ e in
  ({| mu_msg_type := mu_msg_type u; mu_instrument_id := mu_instrument_id u;
      mu_sequence := mu_sequence u;
      mu_best_bid_price := if 0 <? bb then bb else mu_best_bid_price u;
      mu_best_ask_price := if 0 <? ba then ba else mu_best_ask_price u;
      mu_best_bid_qty := bq; mu_best_ask_qty := aq;
      mu_last_trade_price := if traded then last_trade_price_ e else mu_last_trade_price u;
      mu_last_trade_qty := if traded then last_trade_qty_ e else mu_last_trade_qty u;
      mu_exchange_ts_ns := mu_exchange_ts_ns u |},
   {| cfg_ := cfg_ e; book_ := b; contestants_ := contestants_ e; market_gen_ := gen;
      outbound_ := outbound_ e; outbound_head_ := outbound_head_ e;
      outbound_tail_ := outbound_tail_ e; last_trade_price_ := last_trade_price_ e;
      last_trade_qty_ := last_trade_qty_ e; tick_count_ := u64 (tick_count_ e + 1);
      cancel_map_ := cancel_map_ e |}).

Definition pop_outbound (e : t) : option OutboundMsg * t :=
  if outbound_head_ e =? outbound_tail_ e then (None, e)
  else (Some (outbound_ e (outbound_head_ e mod OUTBOUND_QUEUE_SIZE)),
        set_outbound e (outbound_ e) (u32 (outbound_head_ e + 1)) (outbound_tail_ e)).

(** [const], but the best-price accessors refresh the caches. *)
Definition make_session_end (e : t) (cid ts : Z) : SessionEnd * t :=
  let '(bb, b) := best_bid_price (book_ e) in
  let '(ba, b) := best_ask_price b in
  let mid := Z.quot (i64 (bb + ba)) 2 in
  let mid := if mid <=? 0
             then mu_last_trade_price (MarketDataGenerator.last_update_ (market_gen_ e)) else mid in
  let c := contestants_ e in
  ({| se_msg_type := SESSION_END; se_total_fills := ContestantState.total_fills c cid;
      se_final_pnl := ContestantState.total_pnl c cid mid; se_total_volume := 0;
      se_final_position := ContestantState.position c cid;
      se_total_orders := ContestantState.total_orders c cid; se_total_cancels := 0;
      se_end_timestamp_ns := ts |}, set_book e b).

End Libm.
End MatchEngine.
