(* ===== verification/EngineMaps.v ===== *)
(** The matching engine's containers (MatchEngine.v): the cancel map refines a
    finite map, and the outbound ring refines a FIFO queue. *)

From S2P Require Import Prelude Arena Protocol PriceMap OrderBook BookRep BookOps BookMatch BookSpec.
From S2P Require Import Xorshift MarketData MatchEngine.
From Stdlib Require Import SpecFloat.

(** ** A constructed engine *)

(** Default member initialisers of the engine. *)
Definition new_engine : MatchEngine.t :=
  {| MatchEngine.cfg_ := default_engine_config; MatchEngine.book_ := new_book;
     MatchEngine.contestants_ :=
       {| ContestantState.position := fun _ => 0; ContestantState.realized_pnl := fun _ => 0;
          ContestantState.avg_entry := fun _ => 0; ContestantState.cash := fun _ => 0;
          ContestantState.order_count := fun _ => 0; ContestantState.total_fills := fun _ => 0;
          ContestantState.total_orders := fun _ => 0; ContestantState.last_heartbeat := fun _ => 0;
          ContestantState.connected := fun _ => false; ContestantState.count := 0 |};
     MatchEngine.market_gen_ :=
       {| MarketDataGenerator.cfg_ := default_market_config;
          MarketDataGenerator.mid_price_ := S754_zero false; MarketDataGenerator.rng_state_ := 0;
          MarketDataGenerator.sequence_ := 0;
          MarketDataGenerator.last_update_ := MarketDataGenerator.zero_update |};
     MatchEngine.outbound_ := fun _ => {| om_data := []; om_size := 0; om_contestant_id := 0 |};
     MatchEngine.outbound_head_ := 0; MatchEngine.outbound_tail_ := 0;
     MatchEngine.last_trade_price_ := 0; MatchEngine.last_trade_qty_ := 0;
     MatchEngine.tick_count_ := 0;
     MatchEngine.cancel_map_ := {| CancelMap.keys := fun _ => 0; CancelMap.vals := fun _ => 0 |} |}.

(** A zero-filled outbound slot. *)
Definition zero_slot : OutboundMsg :=
  {| om_data := replicate 64 0; om_size := 0; om_contestant_id := 0 |}.

(** An engine initialised in a fresh arena, with three contestants. *)
Definition demo_engine : MatchEngine.t :=
  let e := (MatchEngine.init demo_arena (fun _ => zero_order) (fun _ => zero_slot)
              default_engine_config new_engine).2 in
  let e := (MatchEngine.register_contestant e 10000000).2 in
  let e := (MatchEngine.register_contestant e 10000000).2 in
  (MatchEngine.register_contestant e 10000000).2.

(** ** Cancel map *)
Module CancelMapFacts.
Import CancelMap.

#[local] Arguments probe _ _ : simpl never.
#[local] Arguments make_cancel_key _ _ : simpl never.

Lemma probe_mod key i : probe key i = (slot_of key + i) mod CANCEL_MAP_SIZE.
Proof.
  unfold probe, CANCEL_MAP_MASK, CANCEL_MAP_SIZE. change (65536 - 1) with (2 ^ 16 - 1).
  by rewrite land_mask by lia.
Qed.

Lemma probe_inj key i j :
  probe key i = probe key j -> - CANCEL_MAP_SIZE < i - j < CANCEL_MAP_SIZE -> i = j.
Proof.
  rewrite !probe_mod. unfold CANCEL_MAP_SIZE. intros H Hd.
  pose proof (Z.div_mod (slot_of key + i) 65536). pose proof (Z.div_mod (slot_of key + j) 65536). lia.
Qed.

Definition free_at (m : t) (idx : Z) : Prop := keys m idx = 0 \/ vals m idx = NULL_INDEX.

#[global] Instance free_at_dec m idx : Decision (free_at m idx).
Proof. unfold free_at. apply _. Defined.

Definition live (m : t) (k idx : Z) : Prop := keys m idx = k /\ vals m idx <> NULL_INDEX.

(** Every live entry is within 64 probes of its home, with no virgin slot before it. *)
Definition cm_ok (m : t) : Prop :=
  forall idx k, live m k idx -> k <> 0 ->
    exists i, 0 <= i < 64 /\ probe k i = idx /\ forall j, 0 <= j < i -> keys m (probe k j) <> 0.

(** The value of the first live entry for [k] among [n] probes from [i]. *)
Fixpoint first_live (n : nat) (m : t) (k i : Z) : Z :=
  match n with
  | O => NULL_INDEX
  | S n => if (keys m (probe k i) =? k) && negb (vals m (probe k i) =? NULL_INDEX)
           then vals m (probe k i) else first_live n m k (i + 1)
  end.

(** Where [insert_loop] writes, if anywhere. *)
Lemma insert_loop_cases n m key v : forall i,
  (exists j, i <= j < i + Z.of_nat n /\ free_at m (probe key j) /\
     (forall j', i <= j' < j -> ~ free_at m (probe key j')) /\
     insert_loop n m key v i =
       {| keys := (keys m).[probe key j <- key]; vals := (vals m).[probe key j <- v] |}) \/
  ((forall j, i <= j < i + Z.of_nat n -> ~ free_at m (probe key j)) /\
   insert_loop n m key v i = m).
Proof.
  induction n as [|n IH]; intros i; [right; split; [lia|done]|]. cbn [insert_loop].
  destruct (decide (free_at m (probe key i))) as [Hf|Hf].
  - left. exists i. split; [lia|]. split; [done|]. split; [intros; lia|].
    destruct Hf as [-> | ->]; [done|]. by rewrite Z.eqb_refl, orb_true_r.
  - assert ((keys m (probe key i) =? 0) || (vals m (probe key i) =? NULL_INDEX) = false) as ->.
    { apply orb_false_iff. rewrite !Z.eqb_neq. unfold free_at in Hf. tauto. }
    assert (Hstep : forall j, i <= j -> j <> i -> i + 1 <= j) by lia.
    destruct (IH (i + 1)) as [(j & Hj & Hfr & Hbef & Heq)|[Hall Heq]]; [left|right].
    + exists j. split; [lia|]. split; [done|]. split; [|done]. intros j' Hj'.
      destruct (Z.eq_dec j' i) as [->|]; [done|]. apply Hbef. lia.
    + split; [|done]. intros j Hj. destruct (Z.eq_dec j i) as [->|]; [done|]. apply Hall. lia.
Qed.

Lemma first_live_ext m m' k n : forall i,
  (forall j, i <= j < i + Z.of_nat n ->
     (live m' k (probe k j) <-> live m k (probe k j)) /\
     (live m k (probe k j) -> vals m' (probe k j) = vals m (probe k j))) ->
  first_live n m' k i = first_live n m k i.
Proof.
  induction n as [|n IH]; intros i H; [done|]. cbn [first_live].
  destruct (H i ltac:(lia)) as [Hiff Hv].
  assert (Hb : forall m, ((keys m (probe k i) =? k) && negb (vals m (probe k i) =? NULL_INDEX)) = true
            <-> live m k (probe k i)).
  { intros m0. unfold live. rewrite andb_true_iff, negb_true_iff, Z.eqb_eq, Z.eqb_neq. done. }
  destruct ((keys m (probe k i) =? k) && _) eqn:E.
  - apply Hb in E. rewrite (proj2 (Hb m')) by (by apply Hiff). by apply Hv.
  - assert ((keys m' (probe k i) =? k) && negb (vals m' (probe k i) =? NULL_INDEX) = false) as ->.
    { apply not_true_iff_false. rewrite Hb, Hiff, <- Hb, E. done. }
    apply IH. intros j Hj. apply H. lia.
Qed.

Lemma first_live_null m k n : forall i,
  first_live n m k i = NULL_INDEX <-> forall j, i <= j < i + Z.of_nat n -> ~ live m k (probe k j).
Proof.
  induction n as [|n IH]; intros i; cbn [first_live]; [split; [lia|done]|].
  destruct ((keys m (probe k i) =? k) && negb (vals m (probe k i) =? NULL_INDEX)) eqn:E.
  - apply andb_prop in E as [E1%Z.eqb_eq E2%negb_true_iff%Z.eqb_neq]. split; [done|].
    intros H. destruct (H i ltac:(lia)). done.
  - rewrite IH. split; intros H j Hj; [|apply H; lia].
    destruct (Z.eq_dec j i) as [->|]; [|apply H; lia]. intros [E1 E2].
    apply Z.eqb_eq in E1. apply Z.eqb_neq in E2. by rewrite E1, E2 in E.
Qed.

(** The early stop at a virgin slot loses nothing. *)
Lemma lookup_first_live m k n i :
  cm_ok m -> k <> 0 -> 0 <= i -> i + Z.of_nat n <= 64 ->
  lookup_loop n m k i = first_live n m k i.
Proof.
  intros Hok Hk. revert i. induction n as [|n IH]; intros i Hi Hn; [done|].
  cbn [lookup_loop first_live].
  destruct (_ && _); [done|]. destruct (Z.eqb_spec (keys m (probe k i)) 0) as [E|E]; [|apply IH; lia].
  symmetry. apply first_live_null. intros j Hj Hl.
  destruct (Hok _ _ Hl Hk) as (j' & Hj' & Hp & Hz).
  assert (j' = j) as -> by (apply (probe_inj k); [done|unfold CANCEL_MAP_SIZE; lia]).
  apply (Hz i); [lia|done].
Qed.

Lemma lookup_eq m k : cm_ok m -> k <> 0 -> lookup m k = first_live 64 m k 0.
Proof. intros. by apply lookup_first_live. Qed.

Lemma clear_cm_ok m : cm_ok (clear m).
Proof. intros idx k [_ H]. done. Qed.

(** A window of 64 probes with a usable slot. *)
Definition has_room (m : t) (key : Z) : Prop := exists j, 0 <= j < 64 /\ free_at m (probe key j).

Lemma insert_spec m key v :
  cm_ok m -> key <> 0 -> v <> NULL_INDEX -> has_room m key ->
  exists j, 0 <= j < 64 /\ free_at m (probe key j) /\
    (forall j', 0 <= j' < j -> ~ free_at m (probe key j')) /\
    insert m key v =
      {| keys := (keys m).[probe key j <- key]; vals := (vals m).[probe key j <- v] |} /\
    cm_ok (insert m key v).
Proof.
  intros Hok Hk Hv (j0 & Hj0 & Hf0). unfold insert.
  destruct (insert_loop_cases 64 m key v 0) as [(j & Hj & Hf & Hbef & Heq)|[Hall _]].
  2:{ destruct (Hall j0); [lia|done]. }
  exists j. split; [lia|]. split; [done|]. split; [done|]. rewrite Heq. split; [done|].
  intros idx k [Hl1 Hl2] Hk0. simpl in *.
  assert (Hnz : forall x, keys m x <> 0 -> (keys m).[probe key j <- key] x <> 0).
  { intros x Hx. unfold upd. by destruct (x =? probe key j). }
  unfold upd in Hl1, Hl2. destruct (Z.eqb_spec idx (probe key j)) as [->|Hne].
  - subst k. exists j. split; [lia|]. split; [done|]. intros j' Hj'. apply Hnz.
    intros E. apply (Hbef j'); [lia|]. by left.
  - destruct (Hok idx k) as (i & Hi & Hp & Hz); [done|done|]. exists i. split; [lia|].
    split; [done|]. intros j' Hj'. by apply Hnz, Hz.
Qed.

Lemma insert_lookup_same m key v :
  cm_ok m -> key <> 0 -> v <> NULL_INDEX -> has_room m key -> lookup m key = NULL_INDEX ->
  lookup (insert m key v) key = v.
Proof.
  intros Hok Hk Hv Hr Hno. destruct (insert_spec m key v Hok Hk Hv Hr) as (j & Hj & Hf & Hbef & Heq & Hok').
  rewrite lookup_eq in Hno |- * by done. rewrite Heq.
  assert (Hgo : forall n i, i <= j < i + Z.of_nat n -> 0 <= i -> i + Z.of_nat n <= 64 ->
    first_live n {| keys := (keys m).[probe key j <- key]; vals := (vals m).[probe key j <- v] |} key i = v).
  { induction n as [|n IH]; intros i Hi Hi0 Hn; [lia|]. cbn [first_live keys vals].
    destruct (Z.eq_dec i j) as [->|Hij].
    - rewrite !upd_eq, Z.eqb_refl, (proj2 (Z.eqb_neq _ _) Hv). done.
    - rewrite !upd_ne by (intros E; apply Hij, (probe_inj key); [done|unfold CANCEL_MAP_SIZE; lia]).
      assert ((keys m (probe key i) =? key) && negb (vals m (probe key i) =? NULL_INDEX) = false) as ->.
      { apply not_true_iff_false. intros E. apply andb_prop in E as [E1%Z.eqb_eq E2%negb_true_iff%Z.eqb_neq].
        pose proof (proj1 (first_live_null m key 64 0) Hno i ltac:(lia)) as Hnl. by apply Hnl. }
      apply IH; lia. }
  apply Hgo; lia.
Qed.

Lemma insert_lookup_other m key v k :
  cm_ok m -> key <> 0 -> v <> NULL_INDEX -> has_room m key -> k <> 0 -> k <> key ->
  lookup (insert m key v) k = lookup m k.
Proof.
  intros Hok Hk Hv Hr Hk0 Hne. destruct (insert_spec m key v Hok Hk Hv Hr) as (j & Hj & Hf & Hbef & Heq & Hok').
  rewrite !lookup_eq by done. rewrite Heq. apply first_live_ext. intros i Hi. unfold live. simpl.
  unfold upd. destruct (Z.eqb_spec (probe k i) (probe key j)) as [E|E]; [|done].
  rewrite E. unfold free_at in Hf. split; [|intros [E1 E2]; destruct Hf; congruence].
  split; [intros [? _]; congruence|]. intros [E1 E2]. destruct Hf; congruence.
Qed.

Lemma remove_cm_ok m key : cm_ok m -> cm_ok (remove m key).
Proof.
  intros Hok. enough (forall n i, cm_ok (remove_loop n m key i)) by (unfold remove; auto).
  induction n as [|n IH]; intros i; [exact Hok|].
  cbn [remove_loop]. destruct (_ =? key); [|destruct (_ =? 0); [exact Hok|apply IH]].
  intros idx k [H1 H2] Hk. simpl in *. unfold upd in H2.
  destruct (Z.eqb_spec idx (probe key i)); [done|]. by apply Hok.
Qed.

(** [remove] empties at most one slot, and one that holds [key]. *)
Lemma remove_loop_cases n m key : forall i,
  remove_loop n m key i = m \/
  exists j, keys m (probe key j) = key /\
    remove_loop n m key i = {| keys := keys m; vals := (vals m).[probe key j <- NULL_INDEX] |}.
Proof.
  induction n as [|n IH]; intros i; [by left|]. cbn [remove_loop].
  destruct (Z.eqb_spec (keys m (probe key i)) key) as [E|E]; [right; by exists i|].
  destruct (_ =? 0); [by left|apply IH].
Qed.

Lemma remove_lookup_other m key k :
  cm_ok m -> k <> 0 -> k <> key -> lookup (remove m key) k = lookup m k.
Proof.
  intros Hok Hk Hne. rewrite !lookup_eq by (try done; by apply remove_cm_ok). unfold remove.
  destruct (remove_loop_cases 64 m key 0) as [->|(j & Hj & ->)]; [done|].
  apply first_live_ext. intros i Hi. unfold live. simpl. unfold upd.
  destruct (Z.eqb_spec (probe k i) (probe key j)) as [E|E]; [|done].
  rewrite E, Hj. split; [split; intros [? _]; congruence|intros [? _]; congruence].
Qed.

Lemma insert_remove m key v :
  cm_ok m -> key <> 0 -> v <> NULL_INDEX -> has_room m key -> lookup m key = NULL_INDEX ->
  lookup (remove (insert m key v) key) key = NULL_INDEX.
Proof.
  intros Hok Hk Hv Hr Hno. destruct (insert_spec m key v Hok Hk Hv Hr) as (j & Hj & Hf & Hbef & Heq & Hok').
  rewrite lookup_eq in Hno by done. pose proof (proj1 (first_live_null m key 64 0) Hno) as Hnl.
  rewrite lookup_eq by (try done; by apply remove_cm_ok). rewrite Heq. unfold remove.
  set (m' := {| keys := _ |}).
  assert (Hgo : forall n i, i <= j < i + Z.of_nat n -> 0 <= i -> i + Z.of_nat n <= 64 ->
    remove_loop n m' key i = {| keys := keys m'; vals := (vals m').[probe key j <- NULL_INDEX] |}).
  { induction n as [|n IH]; intros i Hi Hi0 Hn; [lia|]. cbn [remove_loop].
    destruct (Z.eq_dec i j) as [->|Hij].
    - unfold m' at 1. cbn [keys]. rewrite upd_eq, Z.eqb_refl. reflexivity.
    - assert (E : keys m' (probe key i) = keys m (probe key i)).
      { unfold m'. simpl. apply upd_ne. intros E. apply Hij, (probe_inj key); [done|unfold CANCEL_MAP_SIZE; lia]. }
      rewrite E. pose proof (Hbef i ltac:(lia)) as Hnf. pose proof (Hnl i ltac:(lia)) as Hl.
      unfold free_at in Hnf. unfold live in Hl.
      rewrite (proj2 (Z.eqb_neq _ key)), (proj2 (Z.eqb_neq _ 0)) by tauto. apply IH; lia. }
  rewrite (Hgo 64%nat 0) by lia. apply first_live_null. intros i Hi [H1 H2]. simpl in H1, H2.
  unfold upd in H1, H2. destruct (Z.eqb_spec (probe key i) (probe key j)); [done|].
  apply (Hnl i); [lia|]. done.
Qed.

Lemma key_inj c1 o1 c2 o2 :
  is_u32 c1 -> is_u32 o1 -> is_u32 c2 -> is_u32 o2 ->
  make_cancel_key c1 o1 = make_cancel_key c2 o2 -> c1 = c2 /\ o1 = o2.
Proof.
  unfold is_u32, make_cancel_key. intros H1 H2 H3 H4 H.
  assert (Hsum : forall c o, 0 <= o < 4294967296 -> Z.lor (Z.shiftl c 32) o = c * 4294967296 + o).
  { intros c o Ho. rewrite Z.shiftl_mul_pow2 by lia. change (2 ^ 32) with 4294967296.
    rewrite <- Z.lxor_lor, <- Z.add_nocarry_lxor; [done| |]; 
    (apply Z.bits_inj'; intros i Hi; rewrite Z.land_spec, Z.bits_0;
     destruct (Z.lt_ge_cases i 32);
     [change 4294967296 with (2 ^ 32); rewrite Z.mul_pow2_bits_low by lia; done|
      rewrite (Z.bits_above_log2 o); [apply andb_false_r|lia|]]);
    (destruct (Z.eq_dec o 0) as [->|]; [simpl; lia|]; apply Z.log2_lt_pow2; [lia|];
     apply Z.lt_le_trans with (2 ^ 32); [lia|apply Z.pow_le_mono_r; lia]). }
  rewrite !Hsum in H by done. lia.
Qed.

(** C32: the cancel map is a finite map from (contestant, client order id) to
    pool slots, for keys other than zero (the mark of an unused slot), as long
    as inserts are of keys not in the map that find a usable slot among their
    64 probes: after such an insert the new key finds its slot, every other key
    finds what it found before, and removing the new key again makes it unknown
    and leaves every other key as it was.  The removal of any key, known or not,
    leaves the lookups of all other keys unchanged.  Contestants, order ids and
    slots are 32-bit numbers, and the null index is not inserted. *)
Theorem cancel_map_refines m c o v c' o' :
  cm_ok m -> is_u32 c -> is_u32 o -> is_u32 c' -> is_u32 o' ->
  make_cancel_key c o <> 0 -> make_cancel_key c' o' <> 0 -> v <> NULL_INDEX ->
  has_room m (make_cancel_key c o) -> lookup m (make_cancel_key c o) = NULL_INDEX ->
  (c', o') <> (c, o) ->
  let m' := insert m (make_cancel_key c o) v in
  cm_ok m' /\ lookup m' (make_cancel_key c o) = v /\
  lookup m' (make_cancel_key c' o') = lookup m (make_cancel_key c' o') /\
  cm_ok (remove m' (make_cancel_key c o)) /\
  lookup (remove m' (make_cancel_key c o)) (make_cancel_key c o) = NULL_INDEX /\
  lookup (remove m' (make_cancel_key c o)) (make_cancel_key c' o') = lookup m (make_cancel_key c' o') /\
  (forall d x, is_u32 d -> is_u32 x -> (c', o') <> (d, x) -> cm_ok (remove m (make_cancel_key d x)) /\
     lookup (remove m (make_cancel_key d x)) (make_cancel_key c' o') = lookup m (make_cancel_key c' o')).
Proof.
  intros Hok Hc Ho Hc' Ho' Hk Hk' Hv Hr Hno Hne m'.
  assert (make_cancel_key c' o' <> make_cancel_key c o).
  { intros E. apply Hne. apply key_inj in E as [-> ->]; done. }
  assert (cm_ok m') by (by destruct (insert_spec m (make_cancel_key c o) v) as (_ & _ & _ & _ & _ & ?)).
  split; [done|]. split; [by apply insert_lookup_same|]. split; [by apply insert_lookup_other|].
  split; [by apply remove_cm_ok|]. split; [by apply insert_remove|].
  split; [rewrite remove_lookup_other by done; by apply insert_lookup_other|].
  intros d x Hd Hx Hne2. split; [by apply remove_cm_ok|]. apply remove_lookup_other; [done..|].
  intros E. apply Hne2. apply key_inj in E as [-> ->]; done.
Qed.

Lemma cancel_map_refines_witness :
  let m := insert (clear {| keys := fun _ => 0; vals := fun _ => 0 |}) (make_cancel_key 2 7) 41 in
  let m' := insert m (make_cancel_key 1 7) 42 in
  (cm_ok m /\ has_room m (make_cancel_key 1 7) /\ lookup m (make_cancel_key 2 7) = 41) /\
  lookup m' (make_cancel_key 1 7) = 42 /\ lookup m' (make_cancel_key 2 7) = 41 /\
  lookup (remove m' (make_cancel_key 1 7)) (make_cancel_key 1 7) = NULL_INDEX /\
  lookup (remove m' (make_cancel_key 1 7)) (make_cancel_key 2 7) = 41.
Proof.
  intros m m'. set (m0 := clear _) in m.
  assert (Hok0 : cm_ok m0) by apply clear_cm_ok.
  assert (Hok : cm_ok m).
  { destruct (insert_spec m0 (make_cancel_key 2 7) 41 Hok0) as (_ & _ & _ & _ & _ & H); try done.
    exists 0. split; [lia|by left]. }
  assert (Hr : has_room m (make_cancel_key 1 7)) by (exists 1; split; [lia|left; vm_compute; reflexivity]).
  assert (Hl : lookup m (make_cancel_key 2 7) = 41) by (vm_compute; reflexivity).
  split; [done|].
  destruct (cancel_map_refines m 1 7 42 2 7) as (_ & H1 & H2 & _ & H3 & H4 & _);
    [exact Hok|unfold is_u32; lia..|vm_compute; congruence|vm_compute; congruence|vm_compute; congruence
    |exact Hr|vm_compute; reflexivity|congruence|].
  rewrite Hl in H2, H4. split; [exact H1|]. split; [exact H2|]. split; [exact H3|exact H4].
Defined.

End CancelMapFacts.

(** ** Outbound ring *)
Module OutboundFacts.
Import MatchEngine.

(** The messages between head and tail, oldest first. *)
Definition pending_count (e : t) : Z := u32 (outbound_tail_ e - outbound_head_ e).
Definition pending (e : t) : list OutboundMsg :=
  (fun i => outbound_ e ((outbound_head_ e + i) mod OUTBOUND_QUEUE_SIZE)) <$> seqZ 0 (pending_count e).

Record ring_ok (e : t) : Prop := {
  ring_head : 0 <= outbound_head_ e < 4294967296;
  ring_tail : 0 <= outbound_tail_ e < 4294967296 }.

Lemma slot_u32 x i : (u32 x + i) mod OUTBOUND_QUEUE_SIZE = (x + i) mod OUTBOUND_QUEUE_SIZE.
Proof.
  unfold u32, OUTBOUND_QUEUE_SIZE. rewrite <- (Zplus_mod_idemp_l (x mod 4294967296)).
  rewrite Z.mod_mod_divide by (by exists 1048576).
  apply Zplus_mod_idemp_l.
Qed.

Lemma u32_sub_l a b : u32 (u32 a - b) = u32 (a - b).
Proof. unfold u32. apply Zminus_mod_idemp_l. Qed.
Lemma u32_sub_r a b : u32 (a - u32 b) = u32 (a - b).
Proof. unfold u32. apply Zminus_mod_idemp_r. Qed.

Lemma tail_slot e : ring_ok e ->
  outbound_tail_ e mod OUTBOUND_QUEUE_SIZE =
  (outbound_head_ e + pending_count e) mod OUTBOUND_QUEUE_SIZE.
Proof.
  intros _. unfold pending_count. rewrite Z.add_comm, slot_u32. f_equal. lia.
Qed.

Lemma length_pending e : Z.of_nat (length (pending e)) = pending_count e.
Proof.
  unfold pending. rewrite length_fmap, length_seqZ.
  pose proof (u32_range (outbound_tail_ e - outbound_head_ e)). unfold pending_count. lia.
Qed.

(** The slot [enqueue_outbound] fills. *)
Definition enqueued (e : t) (cid : Z) (data : list Z) (size : Z) : OutboundMsg :=
  {| om_data := take (Z.to_nat size) data ++
       drop (Z.to_nat size) (om_data (outbound_ e (outbound_tail_ e mod OUTBOUND_QUEUE_SIZE)));
     om_size := size; om_contestant_id := cid |}.

Lemma enqueue_pending e cid data size :
  ring_ok e -> pending_count e < OUTBOUND_QUEUE_SIZE ->
  ring_ok (enqueue_outbound e cid data size) /\
  pending (enqueue_outbound e cid data size) = pending e ++ [enqueued e cid data size].
Proof.
  intros Hok Hlt. pose proof (u32_range (outbound_tail_ e - outbound_head_ e)) as Hr.
  fold (pending_count e) in Hr. unfold OUTBOUND_QUEUE_SIZE in Hlt.
  assert (Hn : pending_count (enqueue_outbound e cid data size) = pending_count e + 1).
  { unfold pending_count at 1. simpl. rewrite u32_sub_l.
    replace (outbound_tail_ e + 1 - outbound_head_ e) with
      ((outbound_tail_ e - outbound_head_ e) + 1) by lia.
    unfold u32. rewrite <- Zplus_mod_idemp_l. fold (u32 (outbound_tail_ e - outbound_head_ e)).
    fold (pending_count e). apply Z.mod_small. lia. }
  split; [destruct Hok; split; simpl; [done|apply u32_range]|].
  unfold pending at 1. rewrite Hn, seqZ_app, fmap_app by lia. f_equal.
  - apply list_fmap_ext. intros i x Hx%lookup_seqZ. simpl. rewrite upd_ne; [done|].
    rewrite tail_slot by done. unfold OUTBOUND_QUEUE_SIZE. intros E.
    pose proof (Z.div_mod (outbound_head_ e + x) 4096).
    pose proof (Z.div_mod (outbound_head_ e + pending_count e) 4096). lia.
  - simpl. rewrite <- tail_slot by done. rewrite upd_eq. done.
Qed.

Lemma pop_pending e :
  ring_ok e ->
  match pending e with
  | [] => pop_outbound e = (None, e)
  | m :: rest => exists e', pop_outbound e = (Some m, e') /\ ring_ok e' /\ pending e' = rest
  end.
Proof.
  intros Hok. pose proof (u32_range (outbound_tail_ e - outbound_head_ e)) as Hr.
  fold (pending_count e) in Hr. unfold pop_outbound.
  destruct (Z.eqb_spec (outbound_head_ e) (outbound_tail_ e)) as [E|E].
  - assert (pending_count e = 0) as E0 by (unfold pending_count; by rewrite E, Z.sub_diag).
    unfold pending. by rewrite E0.
  - assert (0 < pending_count e).
    { destruct (Z.eq_dec (pending_count e) 0) as [E0|]; [|lia]. exfalso. apply E.
      unfold pending_count, u32 in E0. destruct Hok. apply Z.mod_divide in E0 as [k Hk]; [|done]. lia. }
    unfold pending. rewrite (seqZ_cons 0 (pending_count e)) by lia. rewrite fmap_cons.
    rewrite Z.add_0_r. eexists. split; [reflexivity|]. split.
    { destruct Hok. split; simpl; [apply u32_range|done]. }
    assert (Hn : pending_count (set_outbound e (outbound_ e) (u32 (outbound_head_ e + 1))
                   (outbound_tail_ e)) = pending_count e - 1).
    { unfold pending_count at 1. simpl. rewrite u32_sub_r.
      replace (outbound_tail_ e - (outbound_head_ e + 1)) with
        ((outbound_tail_ e - outbound_head_ e) - 1) by lia.
      unfold u32. rewrite <- Zminus_mod_idemp_l. fold (u32 (outbound_tail_ e - outbound_head_ e)).
      fold (pending_count e). apply Z.mod_small. lia. }
    rewrite Hn.
    replace (seqZ (Z.succ 0) (Z.pred (pending_count e))) with
      (Z.add 1 <$> seqZ 0 (pending_count e - 1)) by (rewrite fmap_add_seqZ; f_equal; lia).
    rewrite <- list_fmap_compose. apply list_fmap_ext. intros i x _. simpl.
    rewrite slot_u32. f_equal. f_equal. lia.
Qed.

(** the outbound ring is a FIFO of 4096 messages: with fewer pending, an
    enqueued message is appended with its recipient and its bytes, and
    [pop_outbound] returns the oldest pending message, or nothing exactly when
    none is pending; the 32-bit counters may wrap at any time. *)
Theorem outbound_fifo e cid data size :
  ring_ok e -> Z.of_nat (length (pending e)) < OUTBOUND_QUEUE_SIZE ->
  Z.of_nat (length data) = size ->
  let e1 := enqueue_outbound e cid data size in
  ring_ok e1 /\
  (exists m, pending e1 = pending e ++ [m] /\ take (Z.to_nat size) (om_data m) = data /\
     om_size m = size /\ om_contestant_id m = cid) /\
  match pending e with
  | [] => pop_outbound e = (None, e)
  | m :: rest => exists e', pop_outbound e = (Some m, e') /\ ring_ok e' /\ pending e' = rest
  end.
Proof.
  intros Hok Hlt Hsz e1. rewrite length_pending in Hlt.
  destruct (enqueue_pending e cid data size Hok Hlt) as [Hok1 Hp]. split; [done|].
  split; [|by apply pop_pending]. exists (enqueued e cid data size). split; [done|].
  split; [|done]. simpl. rewrite (take_ge data) by lia. by rewrite take_app_length' by lia.
Qed.

Lemma outbound_fifo_witness :
  let e1 := enqueue_outbound demo_engine 1 [2; 0; 5] 3 in
  ring_ok demo_engine /\
  ring_ok e1 /\
  (exists m, pending e1 = pending demo_engine ++ [m] /\ take 3 (om_data m) = [2; 0; 5] /\
     om_size m = 3 /\ om_contestant_id m = 1) /\
  pop_outbound demo_engine = (None, demo_engine).
Proof.
  intros e1. assert (Hok : ring_ok demo_engine) by (split; vm_compute; split; congruence).
  split; [exact Hok|].
  assert (Hlt : Z.of_nat (length (pending demo_engine)) < OUTBOUND_QUEUE_SIZE)
    by (rewrite length_pending; vm_compute; reflexivity).
  pose proof (outbound_fifo demo_engine 1 [2; 0; 5] 3 Hok Hlt eq_refl) as (H1 & H2 & H3).
  split; [exact H1|]. split; [exact H2|].
  assert (E : pending demo_engine = []).
  { apply length_zero_iff_nil. apply Nat2Z.inj. rewrite length_pending. vm_compute. reflexivity. }
  rewrite E in H3. exact H3.
Defined.

End OutboundFacts.
