(* ===== verification/EnginePnl.v ===== *)
(** Profit and loss of the matching engine (MatchEngine.v): what
    [ContestantState::apply_fill] does to the marked-to-market total, and where
    it departs from it. *)

From S2P Require Import Prelude Protocol OrderBook MatchEngine EngineMaps.
Import ContestantState.

(** Prices and results for which no 64-bit product or sum of [apply_fill] or
    [total_pnl] overflows. *)
Record pnl_range (c : t) (cid price mid : Z) : Prop := {
  pr_pos : - 1073741824 <= position c cid <= 1073741824;
  pr_avg : 0 <= avg_entry c cid <= 1073741824;
  pr_price : 0 <= price <= 1073741824;
  pr_mid : 0 <= mid <= 1073741824;
  pr_real : - 1152921504606846976 <= realized_pnl c cid <= 1152921504606846976 }.

Lemma prod_bound x y B C : - B <= x <= B -> - C <= y <= C -> 0 <= B -> 0 <= C ->
  - (B * C) <= x * y <= B * C.
Proof. intros. nia. Qed.

(** The mathematical total: realised plus position times the distance to mid. *)
Definition marked (c : t) (cid mid : Z) : Z :=
  realized_pnl c cid + position c cid * (mid - avg_entry c cid).

Lemma total_pnl_marked c cid mid :
  - 2147483647 <= position c cid <= 2147483647 -> 0 <= avg_entry c cid <= 1073741824 ->
  0 <= mid <= 1073741824 -> - 4611686018427387904 <= realized_pnl c cid <= 4611686018427387904 ->
  total_pnl c cid mid = marked c cid mid.
Proof.
  intros Hp Ha Hm Hr. unfold total_pnl, unrealized_pnl, marked.
  pose proof (prod_bound (position c cid) (mid - avg_entry c cid) 2147483647 1073741824
    ltac:(lia) ltac:(lia) ltac:(lia) ltac:(lia)).
  destruct (Z.eqb_spec (position c cid) 0) as [->|Hne]; [rewrite i64_small; lia|].
  destruct (Z.ltb_spec 0 (position c cid)).
  - rewrite (i64_small (mid - _)), (i64_small (_ * _)), i64_small by lia. lia.
  - rewrite (i32_small (- _)), (i64_small (avg_entry c cid - mid)) by lia.
    replace (- position c cid * (avg_entry c cid - mid)) with
      (position c cid * (mid - avg_entry c cid)) by lia.
    rewrite (i64_small (_ * _)), i64_small by lia. lia.
Qed.

Lemma signed_small side qty : 0 < qty <= 1073741824 ->
  signed side qty = if is_buy side then qty else - qty.
Proof. intros. unfold signed. destruct (is_buy side); [done|]. apply i32_small. lia. Qed.

Lemma position_after c cid side price qty :
  - 1073741824 <= position c cid <= 1073741824 -> 0 < qty <= 1073741823 ->
  position (apply_fill c cid side price qty) cid = position c cid + signed side qty.
Proof.
  intros Hp Hq. unfold apply_fill. cbn [position]. rewrite upd_eq, (signed_small side qty) by lia.
  apply i32_small. destruct (is_buy side); lia.
Qed.

(** A fill against the position, not beyond flat. *)
Lemma reduce_spec c cid side price qty mid :
  pnl_range c cid price mid -> 0 < qty <= 1073741824 ->
  let s := signed side qty in
  (0 < position c cid /\ - position c cid <= s < 0) \/
  (position c cid < 0 /\ 0 < s <= - position c cid) ->
  avg_entry (apply_fill c cid side price qty) cid = avg_entry c cid /\
  realized_pnl (apply_fill c cid side price qty) cid =
    realized_pnl c cid - s * (price - avg_entry c cid).
Proof.
  intros [Hp Ha Hpr Hm Hr] Hq s Hred.
  pose proof (prod_bound s (price - avg_entry c cid) 1073741824 1073741824
    ltac:(lia) ltac:(lia) ltac:(lia) ltac:(lia)) as Hb.
  assert (Hs : - 1073741824 <= s <= 1073741824) by lia.
  unfold apply_fill. fold s. cbn [avg_entry realized_pnl].
  destruct Hred as [[Ho Hse]|[Ho Hse]].
  - rewrite (proj2 (Z.ltb_lt 0 (position c cid))), (proj2 (Z.ltb_lt s 0)) by lia. cbn [andb orb].
    rewrite (proj2 (Z.ltb_ge 0 s)), (proj2 (Z.leb_gt (position c cid) 0)), andb_false_r by lia.
    split; [done|]. rewrite upd_eq, (i32_small (- position c cid)), Z.max_l by lia.
    rewrite (proj2 (Z.leb_gt 0 s)), (i32_small (- s)), (i64_small (price - _)) by lia.
    rewrite (i64_small (- s * _)), i64_small by lia. lia.
  - rewrite (proj2 (Z.ltb_ge 0 (position c cid))), (proj2 (Z.ltb_lt (position c cid) 0)),
      (proj2 (Z.ltb_lt 0 s)) by lia. cbn [andb orb].
    rewrite (proj2 (Z.leb_gt 0 (position c cid))), (proj2 (Z.ltb_ge s 0)), !andb_false_r by lia.
    split; [done|]. rewrite upd_eq, (i32_small (- position c cid)), Z.min_l by lia.
    rewrite (proj2 (Z.leb_le 0 s)), (i64_small (avg_entry c cid - _)) by lia.
    rewrite (i64_small (s * _)), i64_small by lia. lia.
Qed.

(** A fill with the position (or from flat). *)
Lemma extend_spec c cid side price qty mid :
  pnl_range c cid price mid -> 0 < qty <= 1073741823 ->
  let s := signed side qty in
  (0 <= position c cid /\ 0 < s) \/ (position c cid <= 0 /\ s < 0) ->
  let n := Z.abs (position c cid) + Z.abs s in
  realized_pnl (apply_fill c cid side price qty) cid = realized_pnl c cid /\
  avg_entry (apply_fill c cid side price qty) cid =
    (avg_entry c cid * Z.abs (position c cid) + price * Z.abs s) / n.
Proof.
  intros [Hp Ha Hpr Hm Hr] Hq s Hext n.
  assert (Hs : - 1073741823 <= s <= 1073741823).
  { unfold s. rewrite signed_small by lia. destruct (is_buy side); lia. }
  pose proof (prod_bound (avg_entry c cid) (Z.abs (position c cid)) 1073741824 1073741824
    ltac:(lia) ltac:(lia) ltac:(lia) ltac:(lia)) as Hb1.
  pose proof (prod_bound price (Z.abs s) 1073741824 1073741824
    ltac:(lia) ltac:(lia) ltac:(lia) ltac:(lia)) as Hb2.
  assert (Habs : (if 0 <=? position c cid then position c cid else i32 (- position c cid)) =
                 Z.abs (position c cid)).
  { destruct (Z.leb_spec 0 (position c cid)); [lia|]. rewrite i32_small; lia. }
  assert (Habs' : (if 0 <=? s then s else i32 (- s)) = Z.abs s).
  { destruct (Z.leb_spec 0 s); [lia|]. rewrite i32_small; lia. }
  assert (Hc1 : ((0 <? position c cid) && (s <? 0)) || ((position c cid <? 0) && (0 <? s)) = false).
  { apply orb_false_iff. rewrite !andb_false_iff, !Z.ltb_ge. lia. }
  assert (Hc2 : ((0 <=? position c cid) && (0 <? s)) || ((position c cid <=? 0) && (s <? 0)) = true).
  { apply orb_true_iff. rewrite !andb_true_iff, !Z.leb_le, !Z.ltb_lt. lia. }
  unfold apply_fill. fold s. cbn [avg_entry realized_pnl]. rewrite Hc1, Hc2, Habs, Habs'.
  split; [done|].
  rewrite (i32_small (Z.abs _ + Z.abs _)) by lia. fold n.
  rewrite (proj2 (Z.ltb_lt 0 n)) by (unfold n; lia). rewrite upd_eq.
  rewrite !(i64_small (_ * _)), i64_small by lia. apply Z.quot_div_nonneg; [|unfold n; lia].
  assert (0 <= avg_entry c cid * Z.abs (position c cid)) by (apply Z.mul_nonneg_nonneg; lia).
  assert (0 <= price * Z.abs s) by (apply Z.mul_nonneg_nonneg; lia). lia.
Qed.

(** C30: a fill moves the marked-to-market total by the signed quantity times
    the distance between mid and fill price: exactly when it reduces the
    position towards flat, and up to the rounding of the average entry price
    (less than one price unit per unit held) when it opens or extends it. *)
Theorem apply_fill_pnl c cid side price qty mid :
  pnl_range c cid price mid -> 0 < qty <= 1073741823 ->
  let s := signed side qty in
  let c' := apply_fill c cid side price qty in
  position c' cid = position c cid + s /\
  ((0 < position c cid /\ - position c cid <= s < 0) \/
   (position c cid < 0 /\ 0 < s <= - position c cid) ->
     total_pnl c' cid mid = total_pnl c cid mid + s * (mid - price)) /\
  ((0 <= position c cid /\ 0 < s) \/ (position c cid <= 0 /\ s < 0) ->
     Z.abs (total_pnl c' cid mid - (total_pnl c cid mid + s * (mid - price))) <
       Z.abs (position c' cid)).
Proof.
  intros Hrange Hq s c'. pose proof Hrange as [Hp Ha Hpr Hm Hr].
  assert (Hpos : position c' cid = position c cid + s) by (apply position_after; lia).
  assert (Hs : - 1073741823 <= s <= 1073741823).
  { unfold s. rewrite signed_small by lia. destruct (is_buy side); lia. }
  split; [done|]. rewrite (total_pnl_marked c) by lia. split; intros Hcase.
  - destruct (reduce_spec c cid side price qty mid Hrange ltac:(lia) Hcase) as [Hav Hre].
    fold s c' in Hav, Hre.
    pose proof (prod_bound s (price - avg_entry c cid) 1073741824 1073741824
      ltac:(lia) ltac:(lia) ltac:(lia) ltac:(lia)).
    rewrite total_pnl_marked by lia. unfold marked. rewrite Hpos, Hav, Hre. lia.
  - destruct (extend_spec c cid side price qty mid Hrange Hq Hcase) as [Hre Hav].
    fold s c' in Hav, Hre. set (n := Z.abs (position c cid) + Z.abs s) in *.
    set (cost := avg_entry c cid * Z.abs (position c cid) + price * Z.abs s) in *.
    assert (Hn : 0 < n) by (unfold n; lia).
    pose proof (Z.div_mod cost n ltac:(lia)) as Hdm. pose proof (Z.mod_pos_bound cost n Hn) as Hmod.
    assert (Hcost : 0 <= cost <= 1073741824 * n) by (unfold cost, n; nia).
    assert (0 <= cost / n) by (apply Z.div_pos; lia).
    assert (cost / n <= 1073741824) by (apply Z.div_le_upper_bound; lia).
    rewrite total_pnl_marked by lia. unfold marked. rewrite Hre, Hav, Hpos.
    set (d := cost / n) in *. set (r := cost mod n) in *.
    assert (Habs : Z.abs (position c cid + s) = n) by (unfold n; lia). rewrite Habs.
    destruct Hcase as [[H1 H2]|[H1 H2]].
    + assert (cost = avg_entry c cid * position c cid + price * s) by (unfold cost; f_equal; f_equal; lia).
      assert (n = position c cid + s) by (unfold n; lia). nia.
    + assert (cost = - (avg_entry c cid * position c cid + price * s)).
      { unfold cost. rewrite !Z.abs_neq by lia. lia. }
      assert (n = - (position c cid + s)) by (unfold n; lia). nia.
Qed.

(** A contestant state for concrete fills: flat, then bought 1 at 100. *)
Definition flat_state : t := MatchEngine.contestants_ demo_engine.
Definition long_one : t := apply_fill flat_state 1 BUY 100 1.

Lemma apply_fill_pnl_witness :
  pnl_range long_one 1 110 120 /\
  (position (apply_fill long_one 1 SELL 110 1) 1 = position long_one 1 + signed SELL 1 /\
   total_pnl (apply_fill long_one 1 SELL 110 1) 1 120 =
     total_pnl long_one 1 120 + signed SELL 1 * (120 - 110)).
Proof.
  assert (Hr : pnl_range long_one 1 110 120) by (split; vm_compute; split; congruence).
  split; [exact Hr|].
  destruct (apply_fill_pnl long_one 1 SELL 110 1 120 Hr ltac:(lia)) as (H1 & H2 & _).
  split; [exact H1|]. apply H2. left. vm_compute. split; [reflexivity|]. split; [congruence|reflexivity].
Defined.

(** a fill that takes the position through flat keeps the old average entry
    price. A contestant long 1 from 100 who sells 2 at 110 is short 1 with
    average entry 100 instead of 110: marked at 110 the engine reports a total
    of 0 where 10 was made. *)
Theorem flip_keeps_old_entry :
  let c := apply_fill long_one 1 SELL 110 2 in
  position c 1 = -1 /\ avg_entry c 1 = 100 /\ realized_pnl c 1 = 10 /\
  total_pnl c 1 110 = 0 /\
  total_pnl long_one 1 110 + signed SELL 2 * (110 - 110) = 10.
Proof. vm_compute. auto. Qed.
