(* ===== verification/EngineSpec.v ===== *)
(** The matching engine's contract (MatchEngine.v) on top of the order book's
    (BookSpec.v): order entry and cancellation always return and keep the
    book well formed, every contestant's position is booked against another's,
    the risk limit bounds the aggressor, and the behaviours in which the code
    departs from what its comments promise. *)

From S2P Require Import Prelude Arena Protocol PriceMap OrderBook BookRep BookOps BookMatch BookSpec.
From S2P Require Import Xorshift MarketData MatchEngine EngineMaps EnginePnl.
Import PriceLevelPool OrderPool OrderBook MatchEngine.

(** ** Sums over the contestants *)

Definition net_position (e : t) : Z := zsum (slice (ContestantState.position (contestants_ e)) MAX_CONTESTANTS).

(** Congruence of stored 32-bit values. *)
Notation "a ≡32 b" := (a mod 4294967296 = b mod 4294967296) (at level 70).

Lemma i32_mod x : i32 x ≡32 x.
Proof.
  pose proof (i32_congr x) as H. apply Z.mod_divide in H as [k Hk]; [|done].
  replace (i32 x) with (x + k * 4294967296) by lia. by rewrite Z.mod_add.
Qed.

Lemma mod_shift a b c d : a ≡32 b -> d ≡32 c -> a + d ≡32 b + c.
Proof. intros H1 H2. by rewrite Zplus_mod, H1, H2, <- Zplus_mod. Qed.

Lemma fill_net e cid s p q :
  0 <= cid < MAX_CONTESTANTS ->
  net_position (set_contestants e (ContestantState.apply_fill (contestants_ e) cid s p q)) ≡32
  net_position e + ContestantState.signed s q.
Proof.
  intros Hc. unfold net_position, set_contestants, ContestantState.apply_fill.
  cbn [contestants_ ContestantState.position]. rewrite slice_upd_sum by done.
  set (pos := ContestantState.position _). set (sg := ContestantState.signed s q).
  replace (zsum (slice pos MAX_CONTESTANTS) + sg) with
    (zsum (slice pos MAX_CONTESTANTS) - pos cid + (pos cid + sg)) by lia.
  apply mod_shift; [done|apply i32_mod].
Qed.

Lemma signed_cancel s s' q : is_buy s' = negb (is_buy s) ->
  ContestantState.signed s q + ContestantState.signed s' q ≡32 0.
Proof.
  intros E. unfold ContestantState.signed. rewrite E. destruct (is_buy s); simpl.
  - rewrite Z.add_comm, (mod_shift _ (- q) q q); [by replace (- q + q) with 0 by lia|apply i32_mod|done].
  - rewrite (mod_shift _ (- q) q q); [by replace (- q + q) with 0 by lia|apply i32_mod|done].
Qed.

(** ** Books that differ only in their best-level caches *)

Record same_but_cache (b b' : OrderBook.t) : Prop := {
  sbc_pool : pool_ b' = pool_ b;
  sbc_next : next_exchange_id_ b' = next_exchange_id_ b;
  sbc_levels : forall bid, exists i, levels b' bid = set_best_idx (levels b bid) i }.

Lemma set_best_same l : set_best_idx l (best_idx l) = l.
Proof. by destruct l. Qed.

Lemma same_but_cache_refl b : same_but_cache b b.
Proof. split; try done. intros bid. exists (best_idx (levels b bid)). by rewrite set_best_same. Qed.

Lemma same_but_cache_trans b1 b2 b3 :
  same_but_cache b1 b2 -> same_but_cache b2 b3 -> same_but_cache b1 b3.
Proof.
  intros [H1 H2 H3] [H4 H5 H6]. split; try congruence. intros bid.
  destruct (H3 bid) as [i Hi], (H6 bid) as [j Hj]. exists j. rewrite Hj, Hi. done.
Qed.

Lemma find_best_cache bid l : exists i, (find_best bid l).2 = set_best_idx l i.
Proof.
  rewrite find_best_eq. destruct (cache_valid l); simpl; [|eauto].
  exists (best_idx l). by rewrite set_best_same.
Qed.

Lemma best_bid_cache b : same_but_cache b (best_bid_price b).2.
Proof.
  unfold best_bid_price. pose proof (find_best_cache true (bids_ b)) as [i Hi]. simpl in Hi.
  destruct (find_best_bid (bids_ b)) as [x l]. simpl in *. subst l. split; try done.
  intros [|]; simpl; [by exists i|]. exists (best_idx (asks_ b)). by rewrite set_best_same.
Qed.

Lemma best_ask_cache b : same_but_cache b (best_ask_price b).2.
Proof.
  unfold best_ask_price. pose proof (find_best_cache false (asks_ b)) as [i Hi]. simpl in Hi.
  destruct (find_best_ask (asks_ b)) as [x l]. simpl in *. subst l. split; try done.
  intros [|]; simpl; [|by exists i]. exists (best_idx (bids_ b)). by rewrite set_best_same.
Qed.

Lemma accepts_cache b b' bid p n n' :
  same_but_cache b b' -> accepts b bid p n -> 0 < n' <= n -> accepts b' bid p n'.
Proof.
  intros [_ _ H] Hacc Hn. destruct (H bid) as [i Hi].
  destruct (accepts_less _ _ _ _ n' Hacc Hn) as [H1 H2 H3 H4]. by split; rewrite ?Hi.
Qed.

Lemma best_bid_ok b bids asks : book_ok b bids asks -> book_ok (best_bid_price b).2 bids asks.
Proof.
  intros Hok. destruct (best_book b true _ _ Hok) as (Hr & _).
  unfold best_bid_price, find_best, levels in *. by destruct (find_best_bid (bids_ b)).
Qed.

Lemma best_ask_ok b bids asks : book_ok b bids asks -> book_ok (best_ask_price b).2 bids asks.
Proof.
  intros Hok. destruct (best_book b false asks bids) as (Hr & _);
    [by apply (rep_book_ok b false)|]. apply (rep_book_ok _ false) in Hr.
  unfold best_ask_price, find_best, levels in *. by destruct (find_best_ask (asks_ b)).
Qed.

(** ** The engine invariant *)

Record engine_ok (e : t) (bids asks : list glevel) : Prop := {
  eo_book : book_ok (book_ e) bids asks;
  eo_owner : forall o, 0 <= contestant_id (order_at (book_ e) o) < MAX_CONTESTANTS;
  eo_count : 0 <= ContestantState.count (contestants_ e) <= MAX_CONTESTANTS;
  eo_size : max_order_size (cfg_ e) <= INT32_MAX;
  eo_net : net_position e ≡32 0;
  eo_map : forall i, 0 <= CancelMap.vals (cancel_map_ e) i }.

(** What reporting leaves alone. *)
Record reported (e e' : t) : Prop := {
  rp_book : same_but_cache (book_ e) (book_ e');
  rp_count : ContestantState.count (contestants_ e') = ContestantState.count (contestants_ e);
  rp_cfg : cfg_ e' = cfg_ e;
  rp_map : cancel_map_ e' = cancel_map_ e }.

Lemma reported_trans e1 e2 e3 : reported e1 e2 -> reported e2 e3 -> reported e1 e3.
Proof.
  intros [? ? ? ?] [? ? ? ?]. split; try congruence. by eapply same_but_cache_trans.
Qed.

Lemma send_fill_spec e cid co xo s p q r ts bids asks :
  book_ok (book_ e) bids asks ->
  let e' := send_fill e cid co xo s p q r ts in
  book_ok (book_ e') bids asks /\ reported e e' /\ contestants_ e' = contestants_ e.
Proof.
  intros Hok e'. pose proof (best_bid_ok _ _ _ Hok) as Hok1. pose proof (best_ask_ok _ _ _ Hok1) as Hok2.
  pose proof (best_bid_cache (book_ e)) as Hc1. pose proof (best_ask_cache (best_bid_price (book_ e)).2) as Hc2.
  unfold e', send_fill. destruct (best_bid_price (book_ e)) as [x1 b1]. cbn [snd] in *.
  destruct (best_ask_price b1) as [x2 b2]. cbn [snd] in *. split; [done|]. split; [|done].
  split; try done. by eapply same_but_cache_trans.
Qed.

(** A fill the loop of [process_order] can report. *)
Definition reportable (e : t) (order : OrderEntry) (f : MatchResult) : Prop :=
  let maker := order_at (book_ e) (maker_idx f) in
  is_buy (side maker) = negb (is_buy (oe_side order)) /\ 0 < fill_qty f /\
  0 <= contestant_id maker < MAX_CONTESTANTS.

Lemma report_fill_spec e n taker order ts f bids asks :
  book_ok (book_ e) bids asks -> reportable e order f ->
  0 <= taker < MAX_CONTESTANTS ->
  let '(e', n') := report_fill taker order ts (e, n) f in
  book_ok (book_ e') bids asks /\ reported e e' /\ net_position e' ≡32 net_position e /\
  n' = i32 (n + fill_qty f) /\
  contestants_ e' =
    (let m := order_at (book_ e) (maker_idx f) in
     ContestantState.apply_fill
       (ContestantState.apply_fill (contestants_ e) (contestant_id m) (side m) (fill_price f) (fill_qty f))
       taker (oe_side order) (fill_price f) (fill_qty f)).
Proof.
  intros Hok (Hside & Hq & Hcid) Ht. unfold report_fill.
  set (maker := order_at (book_ e) (maker_idx f)) in *. cbn zeta.
  set (e1 := set_contestants e _). set (e2 := set_contestants e1 _).
  destruct (send_fill_spec e2 (contestant_id maker) (client_order_id maker) (exchange_id maker)
    (side maker) (fill_price f) (fill_qty f) (remaining_qty maker) ts bids asks Hok) as (Hok3 & Hr3 & Hc3).
  set (e3 := send_fill e2 _ _ _ _ _ _ _ _) in *.
  destruct (send_fill_spec e3 taker (oe_client_order_id order) 0 (oe_side order) (fill_price f)
    (fill_qty f) (i32 (i32 (oe_quantity order - n) - fill_qty f)) ts bids asks Hok3) as (Hok4 & Hr4 & Hc4).
  set (e4 := send_fill e3 _ _ _ _ _ _ _ _) in *.
  assert (Hc : contestants_ e4 = contestants_ e2) by congruence.
  split; [done|]. split.
  { assert (reported e e2) by (split; try done; apply same_but_cache_refl).
    pose proof (reported_trans _ _ _ Hr3 Hr4) as H34.
    pose proof (reported_trans _ _ _ H H34) as [? ? ? ?]. by split. }
  split; [|split; [done|exact Hc]].
  assert (net_position (set_last_trade e4 (fill_price f) (fill_qty f)) = net_position e2) as ->
    by (unfold net_position, set_last_trade; cbn [contestants_]; by rewrite Hc).
  unfold e2. rewrite fill_net by done. unfold e1 at 1.
  rewrite (mod_shift _ (net_position e + ContestantState.signed (side maker) (fill_qty f))
    (ContestantState.signed (oe_side order) (fill_qty f))); [|apply fill_net; lia|done].
  rewrite <- Z.add_assoc, (mod_shift (net_position e) (net_position e) 0); [by rewrite Z.add_0_r|done|].
  apply signed_cancel. by rewrite Hside, negb_involutive.
Qed.

Lemma reportable_cache e e' order f :
  same_but_cache (book_ e) (book_ e') -> reportable e order f -> reportable e' order f.
Proof.
  intros [Hp _ _]. unfold reportable, order_at. by rewrite Hp.
Qed.

Lemma report_fills_spec taker order ts bids asks fs : forall e n,
  book_ok (book_ e) bids asks -> (forall f, f ∈ fs -> reportable e order f) ->
  0 <= taker < MAX_CONTESTANTS -> 0 <= n -> n + fills_qty fs <= INT32_MAX ->
  let '(e', n') := foldl (report_fill taker order ts) (e, n) fs in
  book_ok (book_ e') bids asks /\ reported e e' /\ net_position e' ≡32 net_position e /\
  n' = n + fills_qty fs.
Proof.
  induction fs as [|f fs IH]; intros e n Hok Hrep Ht Hn Hle.
  { simpl. unfold fills_qty. simpl. split; [done|].
    split; [split; try done; apply same_but_cache_refl|]. split; [done|lia]. }
  change (fills_qty (f :: fs)) with (fill_qty f + fills_qty fs) in *.
  pose proof (Hrep f (list_elem_of_here _ _)) as Hf.
  assert (0 <= fills_qty fs).
  { apply zsum_nonneg. intros x (g & -> & Hg)%list_elem_of_fmap.
    destruct (Hrep g (list_elem_of_further _ _ _ Hg)) as (_ & ? & _). lia. }
  pose proof (report_fill_spec e n taker order ts f bids asks Hok Hf Ht) as Hstep.
  cbn [foldl]. destruct (report_fill taker order ts (e, n) f) as [e1 n1].
  destruct Hstep as (Hok1 & Hr1 & Hnet1 & Hn1 & _). destruct Hf as (_ & Hq & _).
  rewrite i32_small in Hn1 by (unfold INT32_MAX in *; lia).
  specialize (IH e1 n1 Hok1). destruct (foldl _ (e1, n1) fs) as [e2 n2].
  destruct IH as (Hok2 & Hr2 & Hnet2 & Hn2).
  - intros g Hg. eapply reportable_cache; [apply Hr1|].
    apply Hrep. by right.
  - done.
  - lia.
  - lia.
  - split; [done|]. split; [by eapply reported_trans|]. split; [congruence|lia].
Qed.

(** ** Order entry *)

Lemma insert_vals_nonneg m k v :
  (forall i, 0 <= CancelMap.vals m i) -> 0 <= v -> forall i, 0 <= CancelMap.vals (CancelMap.insert m k v) i.
Proof.
  intros Hm Hv i. unfold CancelMap.insert.
  destruct (CancelMapFacts.insert_loop_cases 64 m k v 0) as [(j & _ & _ & _ & ->)|[_ ->]]; [|done].
  cbn [CancelMap.vals]. unfold upd. by destruct (i =? _).
Qed.

Lemma remove_vals_nonneg m k :
  (forall i, 0 <= CancelMap.vals m i) -> forall i, 0 <= CancelMap.vals (CancelMap.remove m k) i.
Proof.
  intros Hm. enough (forall n j i, 0 <= CancelMap.vals (CancelMap.remove_loop n m k j) i)
    by (intros i; apply H).
  induction n as [|n IH]; intros j i; [apply Hm|]. cbn [CancelMap.remove_loop].
  destruct (_ =? k); [|destruct (_ =? 0); [apply Hm|apply IH]].
  cbn [CancelMap.vals]. unfold upd. destruct (i =? _); [|apply Hm]. unfold NULL_INDEX, UINT32_MAX. lia.
Qed.

Lemma lookup_nonneg m k : (forall i, 0 <= CancelMap.vals m i) -> 0 <= CancelMap.lookup m k.
Proof.
  intros Hm. enough (forall n j, 0 <= CancelMap.lookup_loop n m k j) by (apply H).
  assert (0 <= NULL_INDEX) by (unfold NULL_INDEX, UINT32_MAX; lia).
  induction n as [|n IH]; intros j; [done|]. cbn [CancelMap.lookup_loop].
  destruct (_ && _); [apply Hm|]. destruct (_ =? 0); [done|apply IH].
Qed.

Lemma engine_ok_outbound e bids asks o h tl :
  engine_ok e bids asks -> engine_ok (set_outbound e o h tl) bids asks.
Proof. intros [? ? ? ? ? ?]. by split. Qed.

Lemma engine_ok_counters e bids asks c m :
  engine_ok e bids asks ->
  ContestantState.position c = ContestantState.position (contestants_ e) ->
  ContestantState.count c = ContestantState.count (contestants_ e) ->
  (forall i, 0 <= CancelMap.vals m i) ->
  engine_ok (set_cancel_map (set_contestants e c) m) bids asks.
Proof.
  intros [? ? ? ? ? ?] Hp Hc Hm. split; simpl; rewrite ?Hc; try done.
  unfold net_position. simpl. by rewrite Hp.
Qed.

(** The fills of a match can be reported: their makers rested on the contra
    side and belong to a contestant. *)
Lemma fill_reportable e e1 b' order L M f :
  (forall o, 0 <= contestant_id (order_at (book_ e) o) < MAX_CONTESTANTS) ->
  rep (book_ e) (negb (is_buy (oe_side order))) L M ->
  (forall x, same_ids (order_at (book_ e) x) (order_at b' x)) ->
  maker_idx f ∈ oids L -> 0 < fill_qty f -> reportable (set_book e1 b') order f.
Proof.
  intros How Hr Hids Hin Hq0. destruct (Hids (maker_idx f)) as (Hs & _ & _ & Hc & _).
  unfold reportable. cbn [book_ set_book]. rewrite Hs, Hc. split; [|split; [done|apply How]].
  apply elem_of_oids in Hin as (g & Hg & Hgo). apply list_elem_of_fmap in Hgo as ([o x] & Ho & Hox).
  simpl in Ho. rewrite Ho.
  by destruct (lo_orders _ _ _ _ (sc_levels _ _ _ _ (rep_side _ _ _ _ Hr) g Hg) _ _ Hox) as (_ & E & _).
Qed.

(** The matching and reporting half of [process_order]. *)
Lemma match_and_report e taker order ts bids asks :
  engine_ok e bids asks -> 0 <= taker < MAX_CONTESTANTS -> 0 < oe_quantity order <= INT32_MAX ->
  let bid := is_buy (oe_side order) in
  let e1 := set_contestants e (ContestantState.bump_total_orders (contestants_ e) taker) in
  exists ms b' e2 n bids' asks',
    match_ (book_ e1) (oe_side order) (oe_price order) (oe_quantity order) taker 64 = Some (ms, b') /\
    foldl (report_fill taker order ts) (set_book e1 b', 0) ms = (e2, n) /\
    engine_ok e2 bids' asks' /\ reported (set_book e1 b') e2 /\
    n = fills_qty ms /\ 0 <= n <= oe_quantity order /\
    lists bid bids' asks' = lists bid bids asks /\
    (forall x, same_ids (order_at (book_ e) x) (order_at (book_ e2) x)) /\
    (exists i, levels (book_ e2) bid = set_best_idx (levels (book_ e) bid) i).
Proof.
  intros [Hok How Hcnt Hsz Hnet Hmap] Ht Hq bid e1. set (contra := negb bid).
  pose proof (proj1 (book_rep (book_ e) contra bids asks) Hok) as Hr.
  destruct (match_book (book_ e) (oe_side order) (oe_price order) (oe_quantity order) taker 64 _ _ Hr
    ltac:(lia)) as (ms & b' & L' & Hm & Hr' & Hle & Hms & _ & Hlv & Hids & _).
  fold bid contra in Hr', Hlv, Hms.
  set (bids' := if contra then L' else bids). set (asks' := if contra then asks else L').
  assert (Hok' : book_ok b' bids' asks').
  { apply (book_rep b' contra). unfold bids', asks'. by destruct contra. }
  assert (Hrep : forall f, f ∈ ms -> reportable (set_book e1 b') order f).
  { intros f Hf. destruct (Hms f Hf) as (Hq0 & _ & Hin).
    exact (fill_reportable e e1 b' order _ _ f How Hr Hids Hin Hq0). }
  assert (Hnn : 0 <= fills_qty ms).
  { apply zsum_nonneg. intros x (f & -> & Hf)%list_elem_of_fmap. destruct (Hms f Hf). lia. }
  pose proof (report_fills_spec taker order ts bids' asks' ms (set_book e1 b') 0 Hok' Hrep Ht
    ltac:(lia) ltac:(lia)) as Hfold.
  destruct (foldl _ _ ms) as [e2 n] eqn:Efold. destruct Hfold as (Hok2 & Hr2 & Hnet2 & Hn).
  assert (Hpool : pool_ (book_ e2) = pool_ b') by apply (sbc_pool _ _ (rp_book _ _ Hr2)).
  assert (Hids2 : forall x, same_ids (order_at (book_ e) x) (order_at (book_ e2) x)).
  { intros x. unfold order_at. rewrite Hpool. apply Hids. }
  exists ms, b', e2, n, bids', asks'. split; [done|]. split; [done|].
  split; [|split; [done|split; [lia|split; [lia|split; [|split; [done|]]]]]].
  - split; try done.
    + intros o. destruct (Hids2 o) as (_ & _ & _ & -> & _). apply How.
    + by rewrite (rp_count _ _ Hr2).
    + by rewrite (rp_cfg _ _ Hr2).
    + by rewrite Hnet2.
    + by rewrite (rp_map _ _ Hr2).
  - unfold bids', asks', contra. by destruct bid.
  - destruct (sbc_levels _ _ (rp_book _ _ Hr2) bid) as [i Hi]. exists i. rewrite Hi. f_equal.
    unfold contra in Hlv. rewrite negb_involutive in Hlv. exact Hlv.
Qed.

(** The resting half: what [process_order] does with the remainder. *)
Lemma rest_remainder e2 taker order ts remaining bids asks :
  engine_ok e2 bids asks -> 0 <= taker < MAX_CONTESTANTS ->
  accepts (book_ e2) (is_buy (oe_side order)) (oe_price order) remaining ->
  exists o b3 bids' asks',
    add_order (book_ e2) taker (oe_client_order_id order) (oe_side order) (oe_price order)
      remaining ts = Some (o, b3) /\ 0 <= o /\ engine_ok (set_book e2 b3) bids' asks' /\
    (forall x, contestant_id (order_at b3 x) = taker \/
       contestant_id (order_at b3 x) = contestant_id (order_at (book_ e2) x)).
Proof.
  intros [Hok How Hcnt Hsz Hnet Hmap] Ht Hacc. set (bid := is_buy (oe_side order)).
  destruct (decide (free_top (pool_ (book_ e2)) = 0)) as [E|E].
  - rewrite add_order_pool_full, store_same by done. exists NULL_INDEX, (book_ e2), bids, asks.
    split; [done|]. split; [done|]. split; [by split|by right].
  - pose proof (proj1 (book_rep (book_ e2) bid bids asks) Hok) as Hr.
    destruct (accepts_can _ _ _ _ _ _ Hr Hacc) as [Hcl Hcs]. destruct Hacc.
    destruct (add_order_spec (book_ e2) bid _ _ (oe_side order) taker (oe_client_order_id order)
      (oe_price order) remaining ts Hr eq_refl E Hcl Hcs) as
      (o & b3 & L' & Hadd & Hr3 & _ & [_ Ho] & _ & _ & _ & (_ & Hcid & _) & Hsd); [done|lia|].
    exists o, b3, (if bid then L' else bids), (if bid then asks else L'). split; [done|]. split; [done|].
    assert (Hown : forall x, contestant_id (order_at b3 x) = taker \/
      contestant_id (order_at b3 x) = contestant_id (order_at (book_ e2) x)).
    { intros x. destruct (Z.eq_dec x o) as [->|Hx]; [by left|right]. by destruct (Hsd x Hx) as (_ & _ & _ & _ & -> & _). }
    split; [|exact Hown]. split; try done.
    + apply (book_rep b3 bid). by destruct bid.
    + intros x. simpl. destruct (Hown x) as [->| ->]; [done|apply How].
Qed.

(** The orders the engine's book has room for: a limit order of an allowed
    size, whose remainder may rest, is one the book accepts.  Every other order
    (of another type, or rejected for its size) is taken as it comes. *)
Definition takes (e : t) (order : OrderEntry) : Prop :=
  0 < oe_quantity order <= max_order_size (cfg_ e) -> oe_order_type order = LIMIT ->
  accepts (book_ e) (is_buy (oe_side order)) (oe_price order) (oe_quantity order).

(** Entry of such an order returns; an order of the pool keeps its owner or gets the
    sender as its owner. *)
Lemma process_order_spec e taker order ts bids asks :
  engine_ok e bids asks -> 0 <= taker ->
  takes e order ->
  exists e' bids' asks', process_order e taker order ts = Some e' /\ engine_ok e' bids' asks' /\
    forall x, contestant_id (order_at (book_ e') x) = taker \/
      contestant_id (order_at (book_ e') x) = contestant_id (order_at (book_ e) x).
Proof.
  intros Hok Ht Hacc. unfold process_order.
  destruct (Z.leb_spec (ContestantState.count (contestants_ e)) taker) as [|Hlt]; [by eauto 10|].
  assert (Hrej : forall st, exists e' bids' asks',
    Some (send_ack e taker (oe_client_order_id order) st 0 (oe_price order) (oe_quantity order)) = Some e' /\
    engine_ok e' bids' asks' /\
    forall x, contestant_id (order_at (book_ e') x) = taker \/
      contestant_id (order_at (book_ e') x) = contestant_id (order_at (book_ e) x)).
  { intros st. eexists _, bids, asks. split; [done|]. split; [by apply engine_ok_outbound|by right]. }
  destruct (Z.leb_spec (oe_quantity order) 0) as [|Hq0]; [by apply Hrej|].
  destruct (Z.ltb_spec (max_order_size (cfg_ e)) (oe_quantity order)) as [|Hq1]; [by apply Hrej|].
  cbn [orb]. destruct (_ && _); [by apply Hrej|]. destruct (_ && _); [by apply Hrej|].
  pose proof (eo_count _ _ _ Hok) as Hc. pose proof (eo_size _ _ _ Hok) as Hs.
  specialize (Hacc ltac:(lia)).
  destruct (match_and_report e taker order ts bids asks Hok ltac:(lia) ltac:(lia)) as
    (ms & b' & e2 & n & bids' & asks' & Hm & Hf & Hok2 & Hrp & Hn & Hnb & _ & Hids & (i & Hlv)).
  assert (Hown : forall x, contestant_id (order_at (book_ e2) x) = taker \/
    contestant_id (order_at (book_ e2) x) = contestant_id (order_at (book_ e) x))
    by (intros x; right; by destruct (Hids x) as (_ & _ & _ & -> & _)).
  cbn zeta. rewrite Hm. simpl mbind. cbn iota beta. rewrite Hf.
  rewrite i32_small by (unfold INT32_MAX in *; lia).
  destruct (Z.ltb_spec 0 (oe_quantity order - n)) as [Hrem|Hrem]; cbn [andb].
  - destruct (bool_decide_reflect (oe_order_type order = LIMIT)) as [Hlim|]; cbn [andb].
    + destruct (rest_remainder e2 taker order ts (oe_quantity order - n) bids' asks' Hok2 ltac:(lia)) as
        (o & b3 & bids3 & asks3 & Hadd & Ho & Hok3 & Hown3).
      { destruct (accepts_less _ _ _ _ (oe_quantity order - n) (Hacc Hlim) ltac:(lia)) as [H1 H2 H3 H4].
        by split; rewrite ?Hlv. }
      assert (Hown' : forall x, contestant_id (order_at b3 x) = taker \/
        contestant_id (order_at b3 x) = contestant_id (order_at (book_ e) x))
        by (intros x; destruct (Hown3 x) as [->| ->]; [by left|apply Hown]).
      rewrite Hadd. simpl mbind. cbn iota beta. destruct (negb _); [|by eauto 10].
      eexists _, bids3, asks3. split; [done|]. split; [|done]. apply engine_ok_counters; try done.
      * by apply engine_ok_outbound.
      * apply insert_vals_nonneg; [apply Hok3|done].
    + destruct (0 <? n); [|by eauto 10]. eexists _, bids', asks'. split; [done|]. split; [by apply engine_ok_outbound|done].
  - destruct (0 <? n); [|by eauto 10]. eexists _, bids', asks'. split; [done|]. split; [by apply engine_ok_outbound|done].
Qed.

Lemma process_order_ok e taker order ts bids asks :
  engine_ok e bids asks -> 0 <= taker ->
  takes e order ->
  exists e' bids' asks', process_order e taker order ts = Some e' /\ engine_ok e' bids' asks'.
Proof.
  intros Hok Ht Hacc. destruct (process_order_spec e taker order ts bids asks Hok Ht Hacc) as (e' & b' & a' & H1 & H2 & _).
  by exists e', b', a'.
Qed.

(** So does cancellation; no order changes its owner, no contestant's position
    moves. *)
Lemma process_cancel_spec e cid cancel ts bids asks :
  engine_ok e bids asks ->
  exists e' bids' asks', process_cancel e cid cancel ts = Some e' /\ engine_ok e' bids' asks' /\
    (forall x, contestant_id (order_at (book_ e') x) = contestant_id (order_at (book_ e) x)) /\
    ContestantState.position (contestants_ e') = ContestantState.position (contestants_ e).
Proof.
  intros Hok. unfold process_cancel.
  set (key := CancelMap.make_cancel_key _ _).
  pose proof (lookup_nonneg (cancel_map_ e) key (eo_map _ _ _ Hok)) as Hlk.
  destruct (_ =? NULL_INDEX); [eexists _, bids, asks; split; [done|]; split; [by apply engine_ok_outbound|done]|].
  destruct (_ || _); [eexists _, bids, asks; split; [done|]; split; [by apply engine_ok_outbound|done]|].
  destruct Hok as [Hb How Hcnt Hsz Hnet Hmap].
  set (o := CancelMap.lookup _ _) in *.
  assert (exists r b' bids' asks', cancel_order (book_ e) o = Some (r, b') /\ book_ok b' bids' asks' /\
    forall x, same_ids (order_at (book_ e) x) (order_at b' x)) as (r & b' & bids' & asks' & Hc & Hb' & Hids).
  { destruct (decide (o ∈ oids bids)) as [Hi|Hi]; [|destruct (decide (o ∈ oids asks)) as [Ha|Ha]].
    - destruct (cancel_order_spec (book_ e) true bids asks o) as (b' & L' & Hc & Hr & _ & _ & _ & Hids); try done.
      by exists true, b', L', asks.
    - destruct (cancel_order_spec (book_ e) false asks bids o) as (b' & L' & Hc & Hr & _ & _ & _ & Hids);
        [by apply (rep_book_ok (book_ e) false)|done|].
      exists true, b', bids, L'. split; [done|]. split; [by apply (rep_book_ok b' false)|done].
    - exists false, (book_ e), bids, asks. split; [|split; [done|intros; apply same_ids_refl]].
      apply (cancel_order_absent (book_ e) true bids asks); [done|done|]. rewrite elem_of_app. tauto. }
  rewrite Hc. simpl mbind. cbn iota beta. eexists _, bids', asks'. split; [done|].
  split; [|split; [intros x; by destruct (Hids x) as (_ & _ & _ & E & _)|done]].
  apply engine_ok_outbound. split; simpl; try done.
  - intros x. destruct (Hids x) as (_ & _ & _ & -> & _). apply How.
  - by apply remove_vals_nonneg.
Qed.

Lemma process_cancel_ok e cid cancel ts bids asks :
  engine_ok e bids asks ->
  exists e' bids' asks', process_cancel e cid cancel ts = Some e' /\ engine_ok e' bids' asks'.
Proof.
  intros Hok. destruct (process_cancel_spec e cid cancel ts bids asks Hok) as (e' & b' & a' & H1 & H2 & _).
  by exists e', b', a'.
Qed.

(** ** Reachable engines *)

Definition default_positions (c : ContestantState.t) : Prop :=
  forall i, ContestantState.position c i = 0.

Lemma contestants_init_spec arena arena' c c' n :
  ContestantState.init arena c n = (true, arena', c') ->
  default_positions c' /\ ContestantState.count c' = ContestantState.count c.
Proof. unfold ContestantState.init. intros H. repeat case_match; simplify_eq. done. Qed.

Lemma net_zero e : default_positions (contestants_ e) -> net_position e ≡32 0.
Proof.
  intros H. unfold net_position. f_equal. unfold slice.
  induction (seqZ 0 MAX_CONTESTANTS) as [|x l IH]; [done|].
  rewrite fmap_cons. cbn [zsum]. rewrite IH, H. done.
Qed.

Lemma engine_init_ok arena mem omem cfg :
  (init arena mem omem cfg new_engine).1.1 = true ->
  (forall o, remaining_qty (mem o) <= 0 /\ 0 <= contestant_id (mem o) < MAX_CONTESTANTS) ->
  max_order_size cfg <= INT32_MAX ->
  let e := (init arena mem omem cfg new_engine).2 in
  engine_ok e [] [] /\ ContestantState.count (contestants_ e) = 0.
Proof.
  intros H Hmem Hsz. unfold init in *. cbn [book_] in *.
  pose proof (init_spec arena mem) as Hbook.
  assert (Hpool : (OrderBook.init arena mem new_book).1.1 = true ->
    orders (pool_ (OrderBook.init arena mem new_book).2) = mem).
  { unfold OrderBook.init, OrderPool.init. intros Hi. repeat case_match; simplify_eq; done. }
  destruct (OrderBook.init arena mem (book_ new_engine)) as [[ok1 a1] b] eqn:E1.
  change (book_ new_engine) with new_book in E1. rewrite E1 in Hbook, Hpool. cbn [fst snd] in *.
  destruct ok1; cbn [negb] in *; [|done]. specialize (Hpool eq_refl).
  destruct (Hbook eq_refl (fun o => proj1 (Hmem o))) as (Hok & _).
  destruct (ContestantState.init a1 _ _) as [[ok2 a2] c] eqn:E2.
  destruct ok2; cbn [negb] in *; [|done].
  destruct (contestants_init_spec _ _ _ _ _ E2) as [Hpos Hcnt].
  destruct (HugePageArena.allocate_raw a2 _ _) as [p1 a3]. destruct (negb _); [done|].
  destruct (HugePageArena.allocate a3 _ _ _) as [p2 a4].
  destruct (HugePageArena.allocate a4 _ _ _) as [p3 a5]. destruct (negb _); [done|].
  cbn [fst snd]. split; [split|]; cbn [book_ contestants_ cfg_ cancel_map_ set_cancel_map set_outbound].
  - exact Hok.
  - intros o. unfold order_at. change (0 <= contestant_id (orders (pool_ b) o) < MAX_CONTESTANTS). rewrite Hpool. apply Hmem.
  - change (0 <= ContestantState.count c <= MAX_CONTESTANTS). rewrite Hcnt. unfold MAX_CONTESTANTS. simpl. lia.
  - done.
  - apply net_zero. exact Hpos.
  - intros i. cbn. unfold NULL_INDEX, UINT32_MAX. lia.
  - exact Hcnt.
Qed.

Lemma register_ok e cash bids asks :
  engine_ok e bids asks -> ContestantState.count (contestants_ e) < MAX_CONTESTANTS ->
  engine_ok (register_contestant e cash).2 bids asks /\
  ContestantState.count (contestants_ (register_contestant e cash).2) =
    ContestantState.count (contestants_ e) + 1.
Proof.
  intros [Hok How Hcnt Hsz Hnet Hmap] Hlt. unfold MAX_CONTESTANTS in *.
  assert (Hu : u32 (ContestantState.count (contestants_ e) + 1) =
               ContestantState.count (contestants_ e) + 1) by (apply u32_small; lia).
  split; [split|]; cbn; rewrite ?Hu; try done; unfold MAX_CONTESTANTS; lia.
Qed.

Lemma engine_ok_book e b bids asks :
  engine_ok e bids asks -> book_ok b bids asks -> same_but_cache (book_ e) b ->
  forall gen h tl k, engine_ok
    {| cfg_ := cfg_ e; book_ := b; contestants_ := contestants_ e; market_gen_ := gen;
       outbound_ := outbound_ e; outbound_head_ := h; outbound_tail_ := tl;
       last_trade_price_ := last_trade_price_ e; last_trade_qty_ := last_trade_qty_ e;
       tick_count_ := k; cancel_map_ := cancel_map_ e |} bids asks.
Proof.
  intros [Hok How Hcnt Hsz Hnet Hmap] Hb [Hp _ _] gen h tl k. split; cbn; try done.
  intros o. unfold order_at. rewrite Hp. apply How.
Qed.

Lemma best_bid_qty_book b : (best_bid_qty b).2 = (best_bid_price b).2.
Proof. unfold best_bid_qty, best_bid_price. by destruct (find_best_bid _). Qed.
Lemma best_ask_qty_book b : (best_ask_qty b).2 = (best_ask_price b).2.
Proof. unfold best_ask_qty, best_ask_price. by destruct (find_best_ask _). Qed.

Lemma best_both b bids asks :
  book_ok b bids asks ->
  let b' := (best_ask_price (best_bid_price b).2).2 in
  book_ok b' bids asks /\ same_but_cache b b'.
Proof.
  intros Hok. split; [by apply best_ask_ok, best_bid_ok|].
  eapply same_but_cache_trans; [apply best_bid_cache|apply best_ask_cache].
Qed.

Lemma generate_tick_ok dlog dcos e ts bids asks :
  engine_ok e bids asks -> engine_ok (generate_tick dlog dcos e ts).2 bids asks.
Proof.
  intros Hok. destruct (best_both _ _ _ (eo_book _ _ _ Hok)) as [H1 H2]. unfold generate_tick.
  destruct (MarketDataGenerator.next_tick _ _ _ _) as [u gen].
  destruct (best_bid_price (book_ e)) as [bb b1]. cbn [snd] in *.
  destruct (best_ask_price b1) as [ba b2]. cbn [snd] in *.
  set (r1 := if 0 <? bb then best_bid_qty b2 else _).
  assert (book_ok r1.2 bids asks /\ same_but_cache (book_ e) r1.2) as [H3 H4].
  { unfold r1. destruct (0 <? bb); [|done]. rewrite best_bid_qty_book.
    split; [by apply best_bid_ok|]. eapply same_but_cache_trans; [done|apply best_bid_cache]. }
  destruct r1 as [bq b3]. cbn [snd] in *. set (r2 := if 0 <? ba then best_ask_qty b3 else _).
  assert (book_ok r2.2 bids asks /\ same_but_cache (book_ e) r2.2) as [H5 H6].
  { unfold r2. destruct (0 <? ba); [|done]. rewrite best_ask_qty_book.
    split; [by apply best_ask_ok|]. eapply same_but_cache_trans; [done|apply best_ask_cache]. }
  destruct r2 as [aq b4]. cbn [snd] in *. by apply engine_ok_book.
Qed.

Inductive ereach : t -> Prop :=
| er_init arena mem omem cfg :
    (init arena mem omem cfg new_engine).1.1 = true ->
    (forall o, remaining_qty (mem o) <= 0 /\ 0 <= contestant_id (mem o) < MAX_CONTESTANTS) ->
    max_order_size cfg <= INT32_MAX -> ereach (init arena mem omem cfg new_engine).2
| er_register e cash :
    ereach e -> ContestantState.count (contestants_ e) < MAX_CONTESTANTS ->
    ereach (register_contestant e cash).2
| er_order e taker order ts e' :
    ereach e -> 0 <= taker ->
    takes e order ->
    process_order e taker order ts = Some e' -> ereach e'
| er_cancel e cid cancel ts e' :
    ereach e -> process_cancel e cid cancel ts = Some e' -> ereach e'
| er_tick dlog dcos e ts : ereach e -> ereach (generate_tick dlog dcos e ts).2
| er_pop e : ereach e -> ereach (pop_outbound e).2
| er_end e cid ts : ereach e -> ereach (make_session_end e cid ts).2.

Lemma ereach_ok e : ereach e -> exists bids asks, engine_ok e bids asks.
Proof.
  induction 1 as [arena mem omem cfg Hi Hm Hs|e cash _ (bids & asks & Hok) Hlt
    |e taker order ts e' _ (bids & asks & Hok) Ht Hacc Hp|e cid cancel ts e' _ (bids & asks & Hok) Hp
    |dlog dcos e ts _ (bids & asks & Hok)|e _ (bids & asks & Hok)|e cid ts _ (bids & asks & Hok)].
  - exists [], []. by apply engine_init_ok.
  - exists bids, asks. by apply register_ok.
  - destruct (process_order_ok e taker order ts bids asks Hok Ht Hacc) as (e'' & b' & a' & Hp' & Hok').
    rewrite Hp in Hp'. simplify_eq. eauto.
  - destruct (process_cancel_ok e cid cancel ts bids asks Hok) as (e'' & b' & a' & Hp' & Hok').
    rewrite Hp in Hp'. simplify_eq. eauto.
  - exists bids, asks. by apply generate_tick_ok.
  - exists bids, asks. unfold pop_outbound. destruct (_ =? _); [done|]. by apply engine_ok_outbound.
  - exists bids, asks. destruct (best_both _ _ _ (eo_book _ _ _ Hok)) as [H1 H2].
    unfold make_session_end. destruct (best_bid_price (book_ e)) as [bb b1]. cbn [snd] in *.
    destruct (best_ask_price b1) as [ba b2]. cbn [snd] in *. by apply engine_ok_book.
Qed.

(** C6: every engine reached by registering at most 64 contestants, entering
    orders, cancelling, publishing ticks and draining messages is consistent,
    where a limit order of an allowed size is entered only when the book can
    take it ([takes]: price strictly inside the 64-bit range, no overflow of
    its level's 32-bit total, and a live level at its price or else an unused
    level slot and probe distances below 250) and the orders of every other
    type and size are arbitrary.  Its book is well formed; the entry of such an
    order and every cancellation return; and the positions of all contestants
    add up to zero (modulo the 32 bits they are stored in), every fill being
    booked to both its sides.  (An order that finds no level slot leaves an ill
    formed book, [levels_exhausted].) *)
Theorem reachable_engine e :
  ereach e ->
  exists bids asks, book_ok (book_ e) bids asks /\ net_position e ≡32 0 /\
    (forall taker order ts, 0 <= taker -> takes e order ->
       is_Some (process_order e taker order ts)) /\
    (forall cid cancel ts, is_Some (process_cancel e cid cancel ts)).
Proof.
  intros Hr. destruct (ereach_ok e Hr) as (bids & asks & Hok). exists bids, asks.
  split; [exact (eo_book _ _ _ Hok)|]. split; [exact (eo_net _ _ _ Hok)|]. split.
  - intros taker order ts Ht Hacc.
    destruct (process_order_ok e taker order ts bids asks Hok Ht Hacc) as (? & ? & ? & -> & _). done.
  - intros cid cancel ts.
    destruct (process_cancel_ok e cid cancel ts bids asks Hok) as (? & ? & ? & -> & _). done.
Qed.

Lemma demo_engine_init :
  (init demo_arena (fun _ => zero_order) (fun _ => zero_slot) default_engine_config new_engine).1.1 = true.
Proof. vm_compute. reflexivity. Qed.

Lemma demo_engine_ok : engine_ok demo_engine [] [] /\ ContestantState.count (contestants_ demo_engine) = 3.
Proof.
  destruct (engine_init_ok demo_arena (fun _ => zero_order) (fun _ => zero_slot) default_engine_config
    demo_engine_init) as [H0 C0]; [intros o; cbn; unfold MAX_CONTESTANTS; lia|done|].
  destruct (register_ok _ 10000000 _ _ H0) as [H1 C1]; [by rewrite C0|].
  destruct (register_ok _ 10000000 _ _ H1) as [H2 C2]; [by rewrite C1, C0|].
  destruct (register_ok _ 10000000 _ _ H2) as [H3 C3]; [by rewrite C2, C1, C0|].
  split; [exact H3|]. etransitivity; [exact C3|]. by rewrite C2, C1, C0.
Qed.

Lemma demo_engine_reach : ereach demo_engine.
Proof.
  destruct (engine_init_ok demo_arena (fun _ => zero_order) (fun _ => zero_slot) default_engine_config
    demo_engine_init) as [H0 C0]; [intros o; cbn; unfold MAX_CONTESTANTS; lia|done|].
  destruct (register_ok _ 10000000 _ _ H0) as [H1 C1]; [by rewrite C0|].
  destruct (register_ok _ 10000000 _ _ H1) as [H2 C2]; [by rewrite C1, C0|].
  unfold demo_engine. apply er_register; [|by rewrite C2, C1, C0].
  apply er_register; [|by rewrite C1, C0]. apply er_register; [|by rewrite C0].
  apply er_init; [exact demo_engine_init|intros o; cbn; unfold MAX_CONTESTANTS; lia|done].
Qed.

Lemma engine_accepts_empty e order :
  INT64_MIN < oe_price order < INT64_MAX -> max_order_size (cfg_ e) <= INT32_MAX ->
  (let l := levels (book_ e) (is_buy (oe_side order)) in
   count l = 0 /\ 0 < PriceLevelPool.capacity l /\ PriceHashMap.probe_room (price_map l)) ->
  takes e order.
Proof. intros Hp Hs (H1 & H2 & H3) Hq _. apply accepts_empty; try done. lia. Qed.

(** Contestant 1 offers 5 at 100 and contestant 2 buys 3 of them. *)
Definition limit_order (s : Side) (client p q : Z) : OrderEntry :=
  {| oe_msg_type := ORDER_ENTRY; oe_side := s; oe_order_type := LIMIT; oe_instrument_id := 0;
     oe_client_order_id := client; oe_price := p; oe_quantity := q |}.

Definition offered : t := default demo_engine (process_order demo_engine 1 (limit_order SELL 7 100 5) 0).
Definition traded : t := default demo_engine (process_order offered 2 (limit_order BUY 8 100 3) 0).

Lemma offered_eq : process_order demo_engine 1 (limit_order SELL 7 100 5) 0 = Some offered.
Proof. apply some_default. vm_compute. reflexivity. Qed.

Lemma traded_eq : process_order offered 2 (limit_order BUY 8 100 3) 0 = Some traded.
Proof. apply some_default. vm_compute. reflexivity. Qed.

Lemma offered_reach : ereach offered.
Proof.
  eapply er_order; [exact demo_engine_reach| | |exact offered_eq]; [lia|].
  apply engine_accepts_empty; [split; reflexivity|vm_compute; congruence|].
  split; [vm_compute; reflexivity|]. split; [vm_compute; reflexivity|]. intros i _. vm_compute. reflexivity.
Qed.

Lemma traded_reach : ereach traded.
Proof.
  eapply er_order; [exact offered_reach| | |exact traded_eq]; [lia|].
  apply engine_accepts_empty; [split; reflexivity|vm_compute; congruence|].
  split; [vm_compute; reflexivity|]. split; [vm_compute; reflexivity|]. intros i _. vm_compute. reflexivity.
Qed.

Lemma reachable_engine_witness :
  ereach traded /\ net_position traded ≡32 0 /\
  is_Some (process_order traded 1 (limit_order SELL 9 100 5000) 0) /\
  (forall cid cancel ts, is_Some (process_cancel traded cid cancel ts)).
Proof.
  split; [exact traded_reach|].
  destruct (reachable_engine traded traded_reach) as (bids & asks & _ & Hnet & Ho & Hc).
  split; [exact Hnet|]. split; [|exact Hc]. apply Ho; [lia|]. intros Hq. exfalso.
  revert Hq. vm_compute. intros [_ H]. by apply H.
Defined.

(** ** Rejections *)

Lemma ack_of_slot e cid client st xo p q :
  wire_ok (order_ack client st xo p q) ->
  of_wire (om_data (OutboundFacts.enqueued e cid (to_wire (order_ack client st xo p q)) (wire_size OrderAck))) =
  order_ack client st xo p q.
Proof.
  intros Hok. unfold OutboundFacts.enqueued. cbn [om_data].
  rewrite take_ge; [by apply of_to_wire|].
  pose proof (length_to_wire (order_ack client st xo p q)). lia.
Qed.

(** The two rejections of [process_order], in the order the code tests them. *)
Definition rejection (e : t) (taker : Z) (order : OrderEntry) : option AckStatus :=
  let pos := ContestantState.position (contestants_ e) taker in
  if (oe_quantity order <=? 0) || (max_order_size (cfg_ e) <? oe_quantity order)
  then Some REJECTED_SIZE
  else if is_buy (oe_side order) && (max_position (cfg_ e) <? i32 (pos + oe_quantity order))
  then Some REJECTED_RISK
  else if bool_decide (oe_side order = SELL) &&
          (i32 (pos - oe_quantity order) <? i32 (- max_position (cfg_ e)))
  then Some REJECTED_RISK else None.

(** a rejected order changes nothing but the outbound queue: exactly one
    message is appended, addressed to the sender, which reads back as the
    acknowledgment of that client order id with the reason, no exchange id and
    the order's own price and quantity. *)
Theorem rejected_order_acked e taker order ts st :
  0 <= taker < ContestantState.count (contestants_ e) ->
  rejection e taker order = Some st ->
  OutboundFacts.ring_ok e ->
  Z.of_nat (length (OutboundFacts.pending e)) < OUTBOUND_QUEUE_SIZE ->
  is_u32 (oe_client_order_id order) -> is_i64 (oe_price order) -> is_i32 (oe_quantity order) ->
  exists e' m, process_order e taker order ts = Some e' /\
    OutboundFacts.pending e' = OutboundFacts.pending e ++ [m] /\
    om_contestant_id m = taker /\ om_size m = 32 /\
    of_wire (om_data m) =
      order_ack (oe_client_order_id order) st 0 (oe_price order) (oe_quantity order) /\
    book_ e' = book_ e /\ contestants_ e' = contestants_ e /\ cancel_map_ e' = cancel_map_ e.
Proof.
  intros Ht Hrej Hring Hlen Hc Hp Hq. set (e' := send_ack e taker (oe_client_order_id order) st 0
    (oe_price order) (oe_quantity order)).
  assert (Hproc : process_order e taker order ts = Some e').
  { unfold process_order. unfold rejection in Hrej. rewrite (proj2 (Z.leb_gt _ _)) by lia.
    destruct (_ || _); [by injection Hrej as <-|].
    destruct (is_buy _ && _); [by injection Hrej as <-|].
    destruct (bool_decide _ && _); [by injection Hrej as <-|done]. }
  rewrite OutboundFacts.length_pending in Hlen.
  destruct (OutboundFacts.enqueue_pending e taker
    (to_wire (order_ack (oe_client_order_id order) st 0 (oe_price order) (oe_quantity order)))
    (wire_size OrderAck) Hring Hlen) as [_ Hpend].
  eexists e', _. split; [done|]. split; [exact Hpend|]. split; [done|]. split; [done|].
  split; [|done]. apply ack_of_slot.
  assert (enum_ok st).
  { unfold rejection in Hrej. repeat case_match; simplify_eq; done. }
  unfold wire_ok. cbn. unfold is_u64. split_and!; try done; lia.
Qed.

Definition big_order : OrderEntry :=
  {| oe_msg_type := ORDER_ENTRY; oe_side := BUY; oe_order_type := LIMIT; oe_instrument_id := 0;
     oe_client_order_id := 7; oe_price := 100; oe_quantity := 51 |}.

Lemma rejected_order_acked_witness :
  rejection demo_engine 1 big_order = Some REJECTED_SIZE /\
  exists e' m, process_order demo_engine 1 big_order 0 = Some e' /\
    OutboundFacts.pending e' = OutboundFacts.pending demo_engine ++ [m] /\
    om_contestant_id m = 1 /\ om_size m = 32 /\
    of_wire (om_data m) = order_ack 7 REJECTED_SIZE 0 100 51 /\
    book_ e' = book_ demo_engine /\ contestants_ e' = contestants_ demo_engine /\
    cancel_map_ e' = cancel_map_ demo_engine.
Proof.
  assert (Hrej : rejection demo_engine 1 big_order = Some REJECTED_SIZE) by (vm_compute; reflexivity).
  split; [exact Hrej|].
  assert (Hring : OutboundFacts.ring_ok demo_engine) by (split; vm_compute; split; congruence).
  assert (Hlt : Z.of_nat (length (OutboundFacts.pending demo_engine)) < OUTBOUND_QUEUE_SIZE)
    by (rewrite OutboundFacts.length_pending; vm_compute; reflexivity).
  assert (Hc : 0 <= 1 < ContestantState.count (contestants_ demo_engine))
    by (rewrite (proj2 demo_engine_ok); lia).
  exact (rejected_order_acked demo_engine 1 big_order 0 REJECTED_SIZE Hc Hrej Hring Hlt
    ltac:(vm_compute; split; congruence) ltac:(vm_compute; split; congruence)
    ltac:(vm_compute; split; congruence)).
Defined.

(** ** The risk limit *)

Definition pos_of (e : t) (cid : Z) : Z := ContestantState.position (contestants_ e) cid.

Lemma apply_position c cid s p q j :
  ContestantState.position (ContestantState.apply_fill c cid s p q) j =
  if j =? cid then i32 (ContestantState.position c cid + ContestantState.signed s q)
  else ContestantState.position c j.
Proof. done. Qed.

(** A reported fill moves the aggressor by at most its quantity, towards the
    side of the order; against itself it nets out. *)
Lemma report_fill_pos e n taker order ts f bids asks :
  book_ok (book_ e) bids asks -> reportable e order f -> 0 <= taker < MAX_CONTESTANTS ->
  -1073741824 <= pos_of e taker <= 1073741824 -> fill_qty f <= 1073741823 ->
  let '(e', _) := report_fill taker order ts (e, n) f in
  if is_buy (oe_side order)
  then pos_of e taker <= pos_of e' taker <= pos_of e taker + fill_qty f
  else pos_of e taker - fill_qty f <= pos_of e' taker <= pos_of e taker.
Proof.
  intros Hok Hrep Ht Hp Hq.
  pose proof (report_fill_spec e n taker order ts f bids asks Hok Hrep Ht) as Hs.
  destruct (report_fill taker order ts (e, n) f) as [e' n']. destruct Hs as (_ & _ & _ & _ & Hc).
  destruct Hrep as (Hside & Hq0 & _). unfold pos_of in *. rewrite Hc.
  set (m := order_at (book_ e) (maker_idx f)) in *. cbn zeta.
  rewrite !apply_position, Z.eqb_refl, !signed_small, Hside by lia.
  set (x := ContestantState.position (contestants_ e)) in *.
  destruct (Z.eqb_spec taker (contestant_id m)) as [<-|_];
    destruct (is_buy (oe_side order)); cbn [negb].
  - rewrite (i32_small (x taker + - fill_qty f)), i32_small by lia. lia.
  - rewrite (i32_small (x taker + fill_qty f)), i32_small by lia. lia.
  - rewrite i32_small by lia. lia.
  - rewrite i32_small by lia. lia.
Qed.

Lemma report_fills_pos taker order ts bids asks fs : forall e n,
  book_ok (book_ e) bids asks -> (forall f, f ∈ fs -> reportable e order f) ->
  0 <= taker < MAX_CONTESTANTS ->
  -1073741824 <= pos_of e taker - fills_qty fs -> pos_of e taker + fills_qty fs <= 1073741823 ->
  let '(e', _) := foldl (report_fill taker order ts) (e, n) fs in
  if is_buy (oe_side order)
  then pos_of e taker <= pos_of e' taker <= pos_of e taker + fills_qty fs
  else pos_of e taker - fills_qty fs <= pos_of e' taker <= pos_of e taker.
Proof.
  induction fs as [|f fs IH]; intros e n Hok Hrep Ht Hlo Hhi.
  { cbn [foldl]. change (fills_qty []) with 0. destruct (is_buy _); lia. }
  change (fills_qty (f :: fs)) with (fill_qty f + fills_qty fs) in *.
  pose proof (Hrep f (list_elem_of_here _ _)) as Hf.
  assert (0 <= fills_qty fs).
  { apply zsum_nonneg. intros x (g & -> & Hg)%list_elem_of_fmap.
    destruct (Hrep g (list_elem_of_further _ _ _ Hg)) as (_ & ? & _). lia. }
  assert (0 < fill_qty f) by apply Hf.
  pose proof (report_fill_spec e n taker order ts f bids asks Hok Hf Ht) as Hs.
  pose proof (report_fill_pos e n taker order ts f bids asks Hok Hf Ht ltac:(lia) ltac:(lia)) as Hp.
  cbn [foldl]. destruct (report_fill taker order ts (e, n) f) as [e1 n1].
  destruct Hs as (Hok1 & Hr1 & _ & _ & _).
  specialize (IH e1 n1 Hok1). destruct (foldl _ (e1, n1) fs) as [e2 n2].
  destruct (is_buy (oe_side order)).
  - destruct IH as [IH1 IH2]; try done; try lia.
    intros g Hg. eapply reportable_cache; [apply Hr1|]. apply Hrep. by right.
  - destruct IH as [IH1 IH2]; try done; try lia.
    intros g Hg. eapply reportable_cache; [apply Hr1|]. apply Hrep. by right.
Qed.

(** Where the positions of a processed order come from: unchanged if it was
    rejected, otherwise from the reported fills. *)
Lemma process_order_positions e taker order ts e' :
  process_order e taker order ts = Some e' ->
  ContestantState.position (contestants_ e') = ContestantState.position (contestants_ e) \/
  (rejection e taker order = None /\ taker < ContestantState.count (contestants_ e) /\
   exists ms b' e2 n,
     let e1 := set_contestants e (ContestantState.bump_total_orders (contestants_ e) taker) in
     match_ (book_ e1) (oe_side order) (oe_price order) (oe_quantity order) taker 64 = Some (ms, b') /\
     foldl (report_fill taker order ts) (set_book e1 b', 0) ms = (e2, n) /\
     ContestantState.position (contestants_ e') = ContestantState.position (contestants_ e2)).
Proof.
  unfold process_order, rejection.
  destruct (Z.leb_spec (ContestantState.count (contestants_ e)) taker); [intros [= <-]; by left|].
  destruct (_ || _); [intros [= <-]; by left|].
  destruct (is_buy _ && _); [intros [= <-]; by left|].
  destruct (bool_decide _ && _); [intros [= <-]; by left|].
  cbn zeta. destruct (match_ _ _ _ _ _ _) as [[ms b']|] eqn:Em; [|done]. simpl mbind. cbn iota beta.
  destruct (foldl _ _ ms) as [e2 n] eqn:Ef. intros Hp. right. split; [done|]. split; [done|].
  exists ms, b', e2, n. split; [done|]. split; [done|].
  destruct (_ && _).
  - destruct (add_order _ _ _ _ _ _ _) as [[o b3]|]; [|done]. simpl mbind in Hp. cbn iota beta in Hp.
    destruct (negb _); by injection Hp as <-.
  - destruct (0 <? n); by injection Hp as <-.
Qed.

(** C7: the risk limit holds for the aggressor of an order whose side byte is
    BUY or SELL. A processed BUY order never lowers the sender's position and,
    unless it already was above, leaves it at most [max_position]; a SELL order
    never raises it and leaves it at least [-max_position], on every consistent
    engine and whoever the makers are, for positions and limits small enough
    not to wrap (position and [max_position] up to 10^9, order size up to
    5 * 10^7).  An order with any other side byte passes neither check and is
    matched as a sell order: nothing is claimed of it. *)
Theorem aggressor_risk e taker order ts e' bids asks :
  engine_ok e bids asks -> 0 <= taker ->
  -1000000000 <= pos_of e taker <= 1000000000 ->
  0 <= max_position (cfg_ e) <= 1000000000 -> max_order_size (cfg_ e) <= 50000000 ->
  process_order e taker order ts = Some e' ->
  (oe_side order = BUY ->
     pos_of e taker <= pos_of e' taker <= Z.max (pos_of e taker) (max_position (cfg_ e))) /\
  (oe_side order = SELL ->
     Z.min (pos_of e taker) (- max_position (cfg_ e)) <= pos_of e' taker <= pos_of e taker).
Proof.
  intros [Hok How Hcnt Hsz Hnet Hmap] Ht Hpos Hmax Hsize Hproc.
  destruct (process_order_positions _ _ _ _ _ Hproc) as
    [E|(Hrej & Hlt & ms & b' & e2 & n & Hm & Hf & E)]; [unfold pos_of; rewrite E; lia|].
  cbn zeta in Hm, Hf. set (e1 := set_contestants e _) in *.
  assert (Epos : pos_of e' taker = pos_of e2 taker) by (unfold pos_of; by rewrite E). rewrite Epos.
  assert (Hq : 0 < oe_quantity order <= max_order_size (cfg_ e)).
  { unfold rejection in Hrej. destruct (Z.leb_spec (oe_quantity order) 0); [done|].
    destruct (Z.ltb_spec (max_order_size (cfg_ e)) (oe_quantity order)); [done|]. lia. }
  set (contra := negb (is_buy (oe_side order))).
  pose proof (proj1 (book_rep (book_ e) contra bids asks) Hok) as Hr.
  destruct (match_book (book_ e) (oe_side order) (oe_price order) (oe_quantity order) taker 64 _ _ Hr
    ltac:(lia)) as (ms' & b'' & L' & Hm' & Hr' & Hle & Hms & _ & _ & Hids & _).
  change (book_ e1) with (book_ e) in Hm. rewrite Hm in Hm'. simplify_eq.
  assert (Hrep : forall f, f ∈ ms' -> reportable (set_book e1 b'') order f).
  { intros f Hin. destruct (Hms f Hin) as (Hq0 & _ & Hmk).
    exact (fill_reportable e e1 b'' order _ _ f How Hr Hids Hmk Hq0). }
  assert (Hok' : exists bids' asks', book_ok b'' bids' asks').
  { exists (if contra then L' else bids), (if contra then asks else L').
    apply (book_rep b'' contra). fold contra in Hr'. by destruct contra. }
  destruct Hok' as (bids' & asks' & Hok'). unfold MAX_CONTESTANTS in *.
  pose proof (report_fills_pos taker order ts bids' asks' ms' (set_book e1 b'') 0 Hok' Hrep
    ltac:(unfold MAX_CONTESTANTS; lia)) as Hfold.
  change (pos_of (set_book e1 b'') taker) with (pos_of e taker) in Hfold.
  rewrite Hf in Hfold. specialize (Hfold ltac:(lia) ltac:(lia)).
  unfold rejection in Hrej. fold (pos_of e taker) in Hrej.
  rewrite (proj2 (Z.leb_gt _ _)), (proj2 (Z.ltb_ge (max_order_size (cfg_ e)) _)) in Hrej by lia.
  cbn [orb] in Hrej. split; intros Hside; rewrite Hside in *; cbn [is_buy andb] in *.
  - rewrite i32_small in Hrej by lia. destruct (Z.ltb_spec (max_position (cfg_ e)) (pos_of e taker + oe_quantity order)); [done|]. lia.
  - rewrite bool_decide_true in Hrej by done. cbn [andb] in Hrej. rewrite !i32_small in Hrej by lia.
    destruct (Z.ltb_spec (pos_of e taker - oe_quantity order) (- max_position (cfg_ e))); [done|]. lia.
Qed.

(** ** Concrete sessions *)

Definition enter (oe : option t) (cid : Z) (o : OrderEntry) : option t :=
  e ← oe; process_order e cid o 0.

Lemma aggressor_risk_witness :
  process_order offered 2 (limit_order BUY 8 100 3) 0 = Some traded /\
  (pos_of offered 2 = 0 /\ pos_of traded 2 = 3 /\ pos_of traded 1 = -3) /\
  pos_of offered 2 <= pos_of traded 2 <= Z.max (pos_of offered 2) (max_position (cfg_ offered)).
Proof.
  split; [exact traded_eq|]. split; [vm_compute; split_and!; reflexivity|].
  destruct (ereach_ok _ offered_reach) as (bids & asks & Hok).
  exact (proj1 (aggressor_risk offered 2 (limit_order BUY 8 100 3) 0 traded bids asks Hok
    ltac:(lia) ltac:(vm_compute; split; congruence) ltac:(vm_compute; split; congruence)
    ltac:(vm_compute; congruence) traded_eq) eq_refl).
Defined.

(** Three offers of 50 rest for contestant 1 while its position is flat; the
    others then buy them. *)
Definition maker_session : option t :=
  let e := enter (Some demo_engine) 1 (limit_order SELL 1 100 50) in
  let e := enter e 1 (limit_order SELL 2 100 50) in
  let e := enter e 1 (limit_order SELL 3 100 50) in
  let e := enter e 2 (limit_order BUY 1 100 50) in
  let e := enter e 2 (limit_order BUY 2 100 50) in
  enter e 0 (limit_order BUY 1 100 50).

Lemma maker_session_run :
  (e ← maker_session; Some (max_position (cfg_ e), pos_of e 0, pos_of e 1, pos_of e 2)) =
  Some (100, 50, -150, 100).
Proof. vm_compute. reflexivity. Qed.

(** the position limit is not enforced for resting orders. With a limit of
    100, a contestant whose three offers of 50 were all accepted while it was
    flat ends short 150 once they are filled. *)
Theorem maker_exceeds_limit : exists e, maker_session = Some e /\
  max_position (cfg_ e) = 100 /\ pos_of e 1 = -150.
Proof.
  pose proof maker_session_run as H. destruct maker_session as [e|]; [|done]. exists e.
  simpl in H. injection H as H1 _ H2 _. done.
Qed.

(** Contestant 1 offers 5 as order 7, contestant 2 buys them all, contestant 1
    offers 5 more as order 8, and then cancels order 7. *)
Definition stale_cancel_session : option t :=
  let e := enter (Some demo_engine) 1 (limit_order SELL 7 100 5) in
  let e := enter e 2 (limit_order BUY 1 100 5) in
  enter e 1 (limit_order SELL 8 100 5).

Definition cancel_7 (e : t) : option t :=
  process_cancel e 1 {| cr_msg_type := CANCEL_REQUEST; cr_client_order_id := 7;
                        cr_exchange_order_id := 0 |} 0.

(** The status byte of the last message sent. *)
Definition last_status (e : t) : AckStatus :=
  of_byte (nth 1 (om_data (outbound_ e ((outbound_tail_ e - 1) mod OUTBOUND_QUEUE_SIZE))) 255).

Lemma stale_cancel_run :
  (e ← stale_cancel_session; e' ← cancel_7 e;
   Some (client_order_id (order_at (book_ e) 0), remaining_qty (order_at (book_ e) 0),
         remaining_qty (order_at (book_ e') 0), last_status e',
         (best_ask_price (book_ e)).1, (best_ask_price (book_ e')).1)) =
  Some (8, 5, 0, CANCELLED, 100, 0).
Proof. vm_compute. reflexivity. Qed.

(** a cancel can hit the wrong order. The cancel-map entry of a fully
    filled order survives it; once its pool slot is reused by a later order of
    the same contestant, cancelling the filled order (7) is acknowledged and
    removes the other one (8) from the book. *)
Theorem stale_cancel_hits_other_order : exists e e',
  stale_cancel_session = Some e /\ cancel_7 e = Some e' /\
  client_order_id (order_at (book_ e) 0) = 8 /\ remaining_qty (order_at (book_ e) 0) = 5 /\
  last_status e' = CANCELLED /\ remaining_qty (order_at (book_ e') 0) = 0 /\
  (best_ask_price (book_ e)).1 = 100 /\ (best_ask_price (book_ e')).1 = 0.
Proof.
  pose proof stale_cancel_run as H. destruct stale_cancel_session as [e|]; [|done].
  simpl in H. destruct (cancel_7 e) as [e'|] eqn:E; [|done]. simpl in H.
  exists e, e'. injection H as H1 H2 H3 H4 H5 H6. by rewrite E.
Qed.

(** An offer of 5 at 100 rests; contestant 2 sends a market buy with price 0. *)
Definition market_session : option t :=
  let e := enter (Some demo_engine) 1 (limit_order SELL 7 100 5) in
  enter e 2 {| oe_msg_type := ORDER_ENTRY; oe_side := BUY; oe_order_type := MARKET;
               oe_instrument_id := 0; oe_client_order_id := 1; oe_price := 0; oe_quantity := 5 |}.

Lemma market_session_run :
  (e ← market_session; Some (pos_of e 2, remaining_qty (order_at (book_ e) 0), outbound_tail_ e)) =
  Some (0, 5, 1).
Proof. vm_compute. reflexivity. Qed.

(** the engine does not ignore the price of a market order. A market buy
    with price 0 does not trade with a resting offer and is not answered: the
    only message sent in the session is the acknowledgment of the offer. *)
Theorem market_order_price_used : exists e, market_session = Some e /\
  pos_of e 2 = 0 /\ remaining_qty (order_at (book_ e) 0) = 5 /\ outbound_tail_ e = 1.
Proof.
  pose proof market_session_run as H. destruct market_session as [e|]; [|done]. exists e.
  simpl in H. injection H as H1 H2 H3. done.
Qed.
