(* ===== verification/RingBuffer.v ===== *)
(** The lock-free single-producer single-consumer ring of
    src/core/include/core/ring_buffer.hpp: the operations as functions on the
    shared header and data array, and the two threads as a step relation that
    interleaves their individual loads and stores (sequentially consistent
    memory; the acquire/release pairs of the source order exactly these
    accesses).  The queue contents are compared with a FIFO. *)

From S2P Require Import Prelude.

Definition RING_BUFFER_MAGIC : Z := 0xDEADBEEFCAFEBABE.

Module SPSCRingBuffer.
Section Ring.
Context {T : Type} (Capacity sizeof_T : Z).

Record t := {
  write_pos : Z; read_pos : Z; capacity : Z; element_size : Z; magic : Z; data_ : arr T }.

Definition MASK : Z := Capacity - 1.

(** The initialising constructor; [zero] is the all-zero element. *)
Definition create (zero : T) : t :=
  {| write_pos := 0; read_pos := 0; capacity := Capacity; element_size := sizeof_T;
     magic := RING_BUFFER_MAGIC; data_ := fun _ => zero |}.

(** The attaching constructor: spin on the magic with a cycle budget.  The
    [i]-th turn sees [magic_at i] in the header and reads the clock
    [tsc_at i]; the result is whether the wait timed out. *)
Fixpoint attach_loop (fuel : nat) (i : nat) (magic_at tsc_at : nat -> Z)
    (start timeout_us timeout_cycles : Z) : option bool :=
  match fuel with
  | O => None
  | S fuel =>
      if magic_at i =? RING_BUFFER_MAGIC then Some false
      else if (0 <? timeout_us) && (timeout_cycles <? u64 (tsc_at i - start)) then Some true
      else attach_loop fuel (S i) magic_at tsc_at start timeout_us timeout_cycles
  end.
Definition attach (fuel : nat) (magic_at tsc_at : nat -> Z) (start timeout_us : Z) : option bool :=
  attach_loop fuel 0 magic_at tsc_at start timeout_us (u64 (timeout_us * 3000)).

Definition set_write (b : t) (w : Z) (d : arr T) : t :=
  {| write_pos := w; read_pos := read_pos b; capacity := capacity b;
     element_size := element_size b; magic := magic b; data_ := d |}.
Definition set_read (b : t) (r : Z) : t :=
  {| write_pos := write_pos b; read_pos := r; capacity := capacity b;
     element_size := element_size b; magic := magic b; data_ := data_ b |}.

Definition try_push (b : t) (item : T) : bool * t :=
  let w := write_pos b in
  let r := read_pos b in
  if Capacity <=? u64 (w - r) then (false, b)
  else (true, set_write b (u64 (w + 1)) ((data_ b).[Z.land w MASK <- item])).

Definition try_pop (b : t) : option T * t :=
  let r := read_pos b in
  let w := write_pos b in
  if w <=? r then (None, b)
  else (Some (data_ b (Z.land r MASK)), set_read b (u64 (r + 1))).

Fixpoint store_all (d : arr T) (w : Z) (items : list T) : arr T :=
  match items with
  | [] => d
  | x :: items => store_all (d.[Z.land w MASK <- x]) (w + 1) items
  end.

(** [try_push_batch]: the number pushed and the ring. *)
Definition try_push_batch (b : t) (items : list T) : Z * t :=
  let w := write_pos b in
  let r := read_pos b in
  let available := u64 (Capacity - u64 (w - r)) in
  let count := Z.of_nat (length items) in
  let to_push := if count <? available then count else available in
  (to_push, set_write b (u64 (w + to_push)) (store_all (data_ b) w (take (Z.to_nat to_push) items))).

(** [try_pop_batch]: the elements copied out and the ring. *)
Definition try_pop_batch (b : t) (max_count : Z) : list T * t :=
  let r := read_pos b in
  let w := write_pos b in
  let available := u64 (w - r) in
  let to_pop := if max_count <? available then max_count else available in
  ((fun i => data_ b (Z.land (r + i) MASK)) <$> seqZ 0 to_pop, set_read b (u64 (r + to_pop))).

Definition size (b : t) : Z := u64 (write_pos b - read_pos b).
Definition empty (b : t) : bool := size b =? 0.
Definition full (b : t) : bool := Capacity <=? size b.

(** ** The two threads *)

(** Where the producer is inside [try_push]. *)
Inductive producer :=
| P_idle
| P_w (item : T) (w : Z)             (* write_pos loaded *)
| P_wr (item : T) (w r : Z)          (* read_pos loaded *)
| P_written (item : T) (w : Z).      (* data stored, not yet published *)

(** Where the consumer is inside [try_pop]. *)
Inductive consumer :=
| C_idle
| C_r (r : Z)                        (* read_pos loaded *)
| C_rw (r w : Z)                     (* write_pos loaded *)
| C_read (r : Z) (item : T).         (* data copied, slot not yet released *)

(** The ring, the threads, and the history of completed operations. *)
Record conf := {
  ring : t; prod : producer; cons_ : consumer; pushed : list T; popped : list T }.

Inductive step : conf -> conf -> Prop :=
| s_push_w c item : prod c = P_idle ->
    step c {| ring := ring c; prod := P_w item (write_pos (ring c)); cons_ := cons_ c;
              pushed := pushed c; popped := popped c |}
| s_push_r c item w : prod c = P_w item w ->
    step c {| ring := ring c; prod := P_wr item w (read_pos (ring c)); cons_ := cons_ c;
              pushed := pushed c; popped := popped c |}
| s_push_full c item w r : prod c = P_wr item w r -> Capacity <= u64 (w - r) ->
    step c {| ring := ring c; prod := P_idle; cons_ := cons_ c;
              pushed := pushed c; popped := popped c |}
| s_push_data c item w r : prod c = P_wr item w r -> u64 (w - r) < Capacity ->
    step c {| ring := set_write (ring c) (write_pos (ring c)) ((data_ (ring c)).[Z.land w MASK <- item]);
              prod := P_written item w; cons_ := cons_ c; pushed := pushed c; popped := popped c |}
| s_push_publish c item w : prod c = P_written item w ->
    step c {| ring := set_write (ring c) (u64 (w + 1)) (data_ (ring c)); prod := P_idle;
              cons_ := cons_ c; pushed := pushed c ++ [item]; popped := popped c |}
| s_pop_r c : cons_ c = C_idle ->
    step c {| ring := ring c; prod := prod c; cons_ := C_r (read_pos (ring c));
              pushed := pushed c; popped := popped c |}
| s_pop_w c r : cons_ c = C_r r ->
    step c {| ring := ring c; prod := prod c; cons_ := C_rw r (write_pos (ring c));
              pushed := pushed c; popped := popped c |}
| s_pop_empty c r w : cons_ c = C_rw r w -> w <= r ->
    step c {| ring := ring c; prod := prod c; cons_ := C_idle;
              pushed := pushed c; popped := popped c |}
| s_pop_data c r w : cons_ c = C_rw r w -> r < w ->
    step c {| ring := ring c; prod := prod c; cons_ := C_read r (data_ (ring c) (Z.land r MASK));
              pushed := pushed c; popped := popped c |}
| s_pop_release c r item : cons_ c = C_read r item ->
    step c {| ring := set_read (ring c) (u64 (r + 1)); prod := prod c; cons_ := C_idle;
              pushed := pushed c; popped := popped c ++ [item] |}.

Definition start (zero : T) : conf :=
  {| ring := create zero; prod := P_idle; cons_ := C_idle; pushed := []; popped := [] |}.

Inductive reach (zero : T) : conf -> Prop :=
| reach_start : reach zero (start zero)
| reach_step c c' : reach zero c -> step c c' -> reach zero c'.

(** ** Invariants *)

Context (k : Z) (Hk : 0 <= k <= 32) (HC : Capacity = 2 ^ k).

Lemma slot_mod i : Z.land i MASK = i mod Capacity.
Proof. unfold MASK. rewrite HC. by rewrite land_mask by lia. Qed.

Lemma cap_bounds : 0 < Capacity <= 4294967296.
Proof.
  rewrite HC. split; [apply Z.pow_pos_nonneg; lia|].
  change 4294967296 with (2 ^ 32). apply Z.pow_le_mono_r; lia.
Qed.

Lemma slot_inj i j : i mod Capacity = j mod Capacity -> - Capacity < i - j < Capacity -> i = j.
Proof.
  pose proof cap_bounds. intros E Hd. pose proof (Z.div_mod i Capacity). pose proof (Z.div_mod j Capacity).
  assert (i / Capacity = j / Capacity) by nia. nia.
Qed.

Definition len (l : list T) : Z := Z.of_nat (length l).

(** What the two counters and the data array say about the history. *)
Record rb_ok (b : t) (ins outs : list T) : Prop := {
  rb_write : write_pos b = len ins;
  rb_read : read_pos b = len outs;
  rb_le : len outs <= len ins <= len outs + Capacity;
  rb_outs : outs = take (length outs) ins;
  rb_data : forall i x, len outs <= Z.of_nat i -> ins !! i = Some x ->
    data_ b (Z.of_nat i mod Capacity) = x }.

Definition prod_ok (c : conf) : Prop :=
  match prod c with
  | P_idle => True
  | P_w _ w => w = len (pushed c)
  | P_wr _ w r => w = len (pushed c) /\ 0 <= r <= len (popped c) /\ w <= r + Capacity
  | P_written item w => w = len (pushed c) /\ w < len (popped c) + Capacity /\
      data_ (ring c) (w mod Capacity) = item
  end.

Definition cons_ok (c : conf) : Prop :=
  match cons_ c with
  | C_idle => True
  | C_r r => r = len (popped c)
  | C_rw r w => r = len (popped c) /\ w <= len (pushed c)
  | C_read r item => r = len (popped c) /\ r < len (pushed c) /\
      pushed c !! length (popped c) = Some item
  end.

Record conf_ok (c : conf) : Prop := {
  co_ring : rb_ok (ring c) (pushed c) (popped c);
  co_prod : prod_ok c;
  co_cons : cons_ok c }.

Lemma len_snoc l x : len (l ++ [x]) = len l + 1.
Proof. unfold len. rewrite length_app. simpl. lia. Qed.

(** Storing into the slot after the last element disturbs none that is still queued. *)
Lemma rb_store b ins outs x :
  rb_ok b ins outs -> len ins < len outs + Capacity ->
  rb_ok (set_write b (write_pos b) ((data_ b).[len ins mod Capacity <- x])) ins outs.
Proof.
  intros [? ? ? ? Hd] Hlt. split; try done. intros i y Hi Hy. simpl.
  assert (Z.of_nat i < len ins) by (unfold len; apply lookup_lt_Some in Hy; lia).
  rewrite upd_ne; [by apply Hd|]. intros E. apply slot_inj in E; lia.
Qed.

Lemma rb_publish b ins outs x :
  rb_ok b ins outs -> len ins < len outs + Capacity -> len ins + 1 < 2 ^ 64 ->
  data_ b (len ins mod Capacity) = x ->
  rb_ok (set_write b (u64 (len ins + 1)) (data_ b)) (ins ++ [x]) outs.
Proof.
  intros [Hw Hr Hle Ho Hd] Hlt Hb Hx. split; simpl.
  - rewrite len_snoc, u64_small; [done|]. unfold len in *. lia.
  - done.
  - rewrite len_snoc. lia.
  - rewrite take_app_le; [done|]. unfold len in *. lia.
  - intros i y Hi Hy. destruct (decide (i < length ins)%nat).
    + rewrite lookup_app_l in Hy by done. by apply Hd.
    + rewrite lookup_app_r in Hy by lia. destruct (i - length ins)%nat eqn:E; [|done].
      injection Hy as <-. replace (Z.of_nat i) with (len ins) by (unfold len; lia). done.
Qed.

Lemma rb_release b ins outs x :
  rb_ok b ins outs -> ins !! length outs = Some x -> len ins < 2 ^ 64 ->
  rb_ok (set_read b (u64 (len outs + 1))) ins (outs ++ [x]).
Proof.
  intros [Hw Hr Hle Ho Hd] Hx Hb. pose proof (lookup_lt_Some _ _ _ Hx) as Hlt.
  split; simpl; try done.
  - rewrite len_snoc, u64_small; [done|]. unfold len in *. lia.
  - rewrite len_snoc. unfold len in *. lia.
  - rewrite length_app. simpl. replace (length outs + 1)%nat with (S (length outs)) by lia.
    rewrite (take_S_r _ _ x) by done. by rewrite <- Ho.
  - intros i y Hi Hy. apply Hd; [|done]. rewrite len_snoc in Hi. lia.
Qed.

Lemma step_ok c c' : conf_ok c -> step c c' -> len (pushed c') < 2 ^ 64 -> conf_ok c'.
Proof.
  intros [Hr Hp Hc] Hstep Hb. pose proof cap_bounds as HCb.
  pose proof Hr as [Hw Hrd Hle Ho Hd].
  assert (H0 : 0 <= len (popped c)) by (unfold len; lia).
  unfold prod_ok, cons_ok in *.
  destruct Hstep as [c item E|c item w E|c item w r E Hf|c item w r E Hf|c item w E
    |c E|c r E|c r w E Hf|c r w E Hf|c r item E]; rewrite E in *; simpl in *.
  - split; [done|done|done].
  - split; [done| |done]. unfold prod_ok. simpl. subst w. rewrite Hrd. lia.
  - split; [done|done|done].
  - destruct Hp as (-> & Hr1 & Hr2). rewrite u64_small in Hf by (unfold len in *; lia).
    rewrite slot_mod. split; simpl.
    + apply rb_store; [done|lia].
    + unfold prod_ok. simpl. split; [done|]. split; [lia|apply upd_eq].
    + done.
  - destruct Hp as (-> & Hr1 & Hx). rewrite len_snoc in Hb. split; simpl.
    + by apply rb_publish.
    + done.
    + unfold cons_ok in *. simpl. rewrite len_snoc. destruct (cons_ c); try done; [lia|].
      destruct Hc as (H1 & H2 & H3). split; [done|]. split; [lia|].
      rewrite lookup_app_l; [done|]. unfold len in *. lia.
  - split; [done|done|done].
  - subst r. split; [done|done|]. unfold cons_ok. simpl. rewrite Hw. done.
  - split; [done|done|done].
  - destruct Hc as (-> & Hw2). split; [done|done|]. unfold cons_ok. simpl.
    split; [done|]. split; [lia|].
    destruct (lookup_lt_is_Some_2 (pushed c) (length (popped c))) as [y Hy]; [unfold len in *; lia|].
    rewrite Hy. f_equal. rewrite slot_mod. symmetry. by apply Hd.
  - destruct Hc as (-> & Hlt & Hx). split; simpl.
    + apply rb_release; [done|done|lia].
    + unfold prod_ok in *. simpl. rewrite len_snoc. destruct (prod c); try done; [lia|].
      destruct Hp as (H1 & H2 & H3). split_and!; [done|lia|done].
    + done.
Qed.

Lemma start_ok zero : conf_ok (start zero).
Proof.
  pose proof cap_bounds. split; try done. split; simpl; try done; try lia.
Qed.

Lemma step_pushed c c' : step c c' -> len (pushed c) <= len (pushed c').
Proof. destruct 1; simpl; rewrite ?len_snoc; lia. Qed.

Lemma reach_ok zero c : reach zero c -> len (pushed c) < 2 ^ 64 -> conf_ok c.
Proof.
  induction 1 as [|c c' Hr IH Hs]; intros Hb; [apply start_ok|].
  pose proof (step_pushed _ _ Hs). eapply step_ok; [apply IH; lia|done|done].
Qed.

(** ** Claims *)

(** C9: whatever the interleaving of the producer's and the consumer's loads
    and stores, with fewer than 2^64 pushes the elements popped are exactly the
    first elements pushed, in order, never more than [Capacity] are in flight,
    and an element the consumer has copied but not yet released is the next one
    in order: no element is lost, duplicated, reordered or overwritten. *)
Theorem spsc_fifo zero c :
  reach zero c -> len (pushed c) < 2 ^ 64 ->
  popped c = take (length (popped c)) (pushed c) /\
  len (popped c) <= len (pushed c) <= len (popped c) + Capacity /\
  (forall r item, cons_ c = C_read r item -> pushed c !! length (popped c) = Some item).
Proof.
  intros Hr Hb. destruct (reach_ok zero c Hr Hb) as [[_ _ Hle Ho _] _ Hc].
  split; [done|]. split; [done|]. intros r item E. unfold cons_ok in Hc. rewrite E in Hc. tauto.
Qed.

(** The contents, oldest first. *)
Definition contents (ins outs : list T) : list T := drop (length outs) ins.

(** run without interference, [try_push] and [try_pop] are the operations
    of a bounded FIFO: a push fails exactly when [Capacity] elements are queued
    and otherwise appends, a pop fails exactly when none is queued and otherwise
    returns and removes the oldest. *)
Theorem spsc_sequential b ins outs item :
  rb_ok b ins outs -> len ins + 1 < 2 ^ 64 ->
  (if len (contents ins outs) =? Capacity
   then try_push b item = (false, b)
   else exists b', try_push b item = (true, b') /\ rb_ok b' (ins ++ [item]) outs /\
          contents (ins ++ [item]) outs = contents ins outs ++ [item]) /\
  match contents ins outs with
  | [] => try_pop b = (None, b)
  | x :: rest => exists b', try_pop b = (Some x, b') /\ rb_ok b' ins (outs ++ [x]) /\
                   contents ins (outs ++ [x]) = rest
  end.
Proof.
  intros Hok Hb. pose proof Hok as [Hw Hr Hle Ho Hd]. pose proof cap_bounds as HCb.
  assert (H0 : 0 <= len outs) by (unfold len; lia).
  assert (Hlen : len (contents ins outs) = len ins - len outs).
  { unfold contents, len in *. rewrite length_drop. lia. }
  split.
  - unfold try_push. rewrite Hw, Hr, u64_small by lia. rewrite Hlen.
    destruct (Z.eqb_spec (len ins - len outs) Capacity) as [E|E].
    + by rewrite (proj2 (Z.leb_le _ _)) by lia.
    + rewrite (proj2 (Z.leb_gt _ _)) by lia. eexists. split; [done|]. rewrite slot_mod. split.
      * pose proof (rb_store b ins outs item Hok ltac:(lia)) as Hs.
        apply (rb_publish _ ins outs item Hs); [lia|lia|]. simpl. apply upd_eq.
      * unfold contents. apply drop_app_le. unfold len in *. lia.
  - unfold try_pop. rewrite Hw, Hr. unfold contents in *.
    destruct (drop (length outs) ins) as [|x rest] eqn:E.
    + unfold len in Hlen at 1. simpl in Hlen. by rewrite (proj2 (Z.leb_le _ _)) by lia.
    + unfold len in Hlen at 1. simpl in Hlen. rewrite (proj2 (Z.leb_gt _ _)) by lia.
      assert (Hx : ins !! length outs = Some x).
      { rewrite <- (Nat.add_0_r (length outs)), <- lookup_drop, E. done. }
      eexists. split; [|split].
      * rewrite slot_mod. do 2 f_equal. apply (Hd (length outs)); [unfold len; lia|done].
      * apply rb_release; [done|done|lia].
      * rewrite length_app. simpl. rewrite <- drop_drop, E. done.
Qed.

Lemma store_all_ok items : forall b ins outs,
  rb_ok b ins outs -> len ins + len items <= len outs + Capacity -> len ins + len items < 2 ^ 64 ->
  rb_ok (set_write b (u64 (len ins + len items)) (store_all (data_ b) (len ins) items)) (ins ++ items) outs.
Proof.
  induction items as [|x items IH]; intros b ins outs Hok Hle Hb.
  - rewrite app_nil_r. unfold len at 2. simpl. rewrite Z.add_0_r, u64_small by (unfold len in *; lia).
    destruct Hok. split; try done.
  - assert (Hl : len (x :: items) = len items + 1) by (unfold len; simpl; lia).
    assert (0 <= len items) by (unfold len; lia).
    pose proof (rb_store b ins outs x Hok ltac:(lia)) as Hs.
    pose proof (rb_publish _ ins outs x Hs ltac:(lia) ltac:(lia) ltac:(apply upd_eq)) as Hp.
    specialize (IH _ _ _ Hp). rewrite len_snoc in IH. specialize (IH ltac:(lia) ltac:(lia)).
    rewrite <- (assoc_L (++)) in IH. cbn [store_all]. rewrite slot_mod.
    replace (len ins + len (x :: items)) with (len ins + 1 + len items) by lia. exact IH.
Qed.

(** a batch push appends the longest prefix of the batch that fits, and a
    batch pop returns and removes the oldest elements, up to the number asked
    for; both are the corresponding runs of single operations. *)
Theorem spsc_batch b ins outs items n :
  rb_ok b ins outs -> len ins + len items < 2 ^ 64 -> 0 <= n ->
  let fit := Z.min (len items) (Capacity - len (contents ins outs)) in
  (exists b', try_push_batch b items = (fit, b') /\
     rb_ok b' (ins ++ take (Z.to_nat fit) items) outs) /\
  (exists b', try_pop_batch b n = (take (Z.to_nat n) (contents ins outs), b') /\
     rb_ok b' ins (outs ++ take (Z.to_nat n) (contents ins outs))).
Proof.
  intros Hok Hb Hn. pose proof Hok as [Hw Hr Hle Ho Hd]. pose proof cap_bounds as HCb.
  assert (H0 : 0 <= len outs) by (unfold len; lia). assert (H1 : 0 <= len items) by (unfold len; lia).
  assert (Hlen : len (contents ins outs) = len ins - len outs).
  { unfold contents, len in *. rewrite length_drop. lia. }
  rewrite Hlen. intros fit. split.
  - unfold try_push_batch. rewrite Hw, Hr, (u64_small (len ins - len outs)), (u64_small (Capacity - _)) by lia.
    assert ((if Z.of_nat (length items) <? Capacity - (len ins - len outs)
             then Z.of_nat (length items) else Capacity - (len ins - len outs)) = fit) as ->.
    { fold (len items). unfold fit.
      destruct (Z.ltb_spec (len items) (Capacity - (len ins - len outs))); lia. }
    eexists. split; [done|].
    assert (Hfl : len (take (Z.to_nat fit) items) = fit).
    { unfold len in *. rewrite length_take. lia. }
    pose proof (store_all_ok (take (Z.to_nat fit) items) b ins outs Hok) as Hs.
    rewrite Hfl in Hs. apply Hs; lia.
  - unfold try_pop_batch. rewrite Hw, Hr, !(u64_small (len ins - len outs)) by lia.
    set (m := if n <? len ins - len outs then n else len ins - len outs).
    assert (Hm : m = Z.min n (len ins - len outs)).
    { unfold m. destruct (Z.ltb_spec n (len ins - len outs)); lia. }
    assert (Hout : ((fun i => data_ b (Z.land (len outs + i) MASK)) <$> seqZ 0 m) =
                   take (Z.to_nat n) (contents ins outs)).
    { apply list_eq. intros i. rewrite list_lookup_fmap.
      destruct (decide (Z.of_nat i < m)) as [Hi|Hi].
      - rewrite lookup_seqZ_lt by lia. rewrite lookup_take_lt by lia. unfold contents.
        rewrite lookup_drop. simpl. rewrite slot_mod.
        destruct (lookup_lt_is_Some_2 ins (length outs + i)) as [y Hy]; [unfold len in *; lia|].
        rewrite Hy. f_equal. rewrite <- (Hd (length outs + i)%nat y); [|unfold len; lia|done].
        f_equal. f_equal. unfold len. lia.
      - rewrite lookup_seqZ_ge by lia. simpl. symmetry. apply lookup_ge_None.
        rewrite length_take. unfold len in *. lia. }
    eexists. split; [by rewrite Hout|].
    assert (Hml : length (take (Z.to_nat n) (contents ins outs)) = Z.to_nat m).
    { rewrite length_take. unfold len in *. lia. }
    split; simpl; try done.
    + unfold len at 2. rewrite length_app, Hml, u64_small by (unfold len in *; lia). unfold len. lia.
    + unfold len at 1 4. rewrite length_app, Hml. unfold len in *. lia.
    + rewrite length_app. unfold contents. rewrite Ho at 1.
      rewrite <- take_take_drop. f_equal. by rewrite length_take, <- take_take, firstn_all.
    + intros i y Hi Hy. apply Hd; [|done]. unfold len in Hi at 1. rewrite length_app in Hi. unfold len. lia.
Qed.

Lemma attach_loop_S m i magic_at tsc_at start_tsc timeout_us budget :
  attach_loop (S m) i magic_at tsc_at start_tsc timeout_us budget =
  if magic_at i =? RING_BUFFER_MAGIC then Some false
  else if (0 <? timeout_us) && (budget <? u64 (tsc_at i - start_tsc)) then Some true
  else attach_loop m (S i) magic_at tsc_at start_tsc timeout_us budget.
Proof. reflexivity. Qed.

(** The spin loop from turn [i], by induction on the turns left before the
    clock passes the budget at turn [n]. *)
Lemma attach_loop_spec magic_at tsc_at start_tsc timeout_us budget n m i :
  0 < timeout_us -> budget < u64 (tsc_at n - start_tsc) -> (i + m = n)%nat ->
  exists r, attach_loop (S m) i magic_at tsc_at start_tsc timeout_us budget = Some r /\
    (r = true -> forall j, (i <= j <= n)%nat -> (forall j', (i <= j' < j)%nat ->
       u64 (tsc_at j' - start_tsc) <= budget) -> magic_at j <> RING_BUFFER_MAGIC) /\
    (r = false -> exists j, (i <= j <= n)%nat /\ magic_at j = RING_BUFFER_MAGIC).
Proof.
  clear Hk HC. intros Ht Hn. revert i. induction m as [|m IH]; intros i Hi; rewrite attach_loop_S;
    (destruct (Z.eqb_spec (magic_at i) RING_BUFFER_MAGIC) as [E|E];
     [exists false; split; [done|]; split; [done|]; intros _; exists i; split; [lia|done]|]);
    rewrite (proj2 (Z.ltb_lt 0 timeout_us)) by lia; cbn [andb].
  - assert (i = n) as -> by lia. rewrite (proj2 (Z.ltb_lt _ _)) by lia.
    exists true. split; [done|]. split; [|done]. intros _ j Hj _. by assert (j = n) as -> by lia.
  - destruct (Z.ltb_spec budget (u64 (tsc_at i - start_tsc))) as [Hb|Hb].
    { exists true. split; [done|]. split; [|done]. intros _ j Hj Hall.
      destruct (decide (j = i)) as [->|]; [done|]. specialize (Hall i ltac:(lia)). lia. }
    destruct (IH (S i) ltac:(lia)) as (r & Hr & H1 & H2). exists r. split; [done|]. split.
    + intros Hrt j Hj Hall. destruct (decide (j = i)) as [->|]; [done|].
      apply (H1 Hrt); [lia|]. intros j' Hj'. apply Hall. lia.
    + intros Hrf. destruct (H2 Hrf) as (j & Hj & Hm). exists j. split; [lia|done].
Qed.

(** C33: attaching with a timeout always ends: if the clock passes the budget
    at some turn [n], the constructor returns within [n + 1] turns; it succeeds
    only when the magic was seen, and it reports a failed initialisation only
    when the magic was absent at every turn up to the first over budget. *)
Theorem attach_terminates magic_at tsc_at start_tsc timeout_us n :
  0 < timeout_us -> u64 (timeout_us * 3000) < u64 (tsc_at n - start_tsc) ->
  exists r, attach (S n) magic_at tsc_at start_tsc timeout_us = Some r /\
    (r = true -> forall j, (j <= n)%nat -> (forall j', (j' < j)%nat ->
       u64 (tsc_at j' - start_tsc) <= u64 (timeout_us * 3000)) -> magic_at j <> RING_BUFFER_MAGIC) /\
    (r = false -> exists j, (j <= n)%nat /\ magic_at j = RING_BUFFER_MAGIC).
Proof.
  clear Hk HC. intros Ht Hn. destruct (attach_loop_spec magic_at _ _ _ _ n n 0 Ht Hn ltac:(lia)) as (r & Hr & H1 & H2).
  exists r. split; [done|]. split.
  - intros Hrt j Hj Hall. apply (H1 Hrt j); [lia|]. intros j' Hj'. apply Hall. lia.
  - intros Hrf. destruct (H2 Hrf) as (j & Hj & Hm). exists j. split; [lia|done].
Qed.

End Ring.
End SPSCRingBuffer.

(** ** Witnesses: a ring of four elements *)

Module RingWitness.
Import SPSCRingBuffer.

Definition ring4 : t (T := Z) := create 4 8 0.

(** One more step of the run that [H] records. *)
Tactic Notation "turn" hyp(H) uconstr(rule) :=
  let H' := fresh in
  eassert (H' : reach 4 8 0 _) by (eapply reach_step; [exact H|eapply rule; reflexivity]);
  clear H; rename H' into H;
  cbn [ring prod cons_ pushed popped write_pos read_pos data_ set_write set_read] in H.

(** A producer in the middle of its second push while the consumer has copied
    the first element and not yet released it. *)
Lemma mid_flight : exists c, reach 4 8 0 c /\ pushed c = [11] /\ popped c = [] /\
  prod c = P_written 12 1 /\ cons_ c = C_read 0 11.
Proof.
  eassert (H : reach 4 8 0 _) by apply reach_start.
  unfold start, create in H. turn H (s_push_w 4 _ 11). turn H (s_push_r 4). turn H (s_push_data 4). turn H (s_push_publish 4).
  turn H (s_pop_r 4). turn H (s_push_w 4 _ 12). turn H (s_pop_w 4). turn H (s_push_r 4).
  turn H (s_pop_data 4). turn H (s_push_data 4).
  eexists. split; [exact H|]. split_and!; reflexivity.
Qed.

Lemma spsc_fifo_witness : exists c, reach 4 8 0 c /\ len (pushed c) < 2 ^ 64 /\
  pushed c !! length (popped c) = Some 11.
Proof.
  destruct mid_flight as (c & Hr & Hp & Ho & _ & Hc).
  assert (Hb : len (pushed c) < 2 ^ 64) by (rewrite Hp; reflexivity).
  exists c. split; [exact Hr|]. split; [exact Hb|].
  destruct (spsc_fifo 4 8 2 ltac:(lia) eq_refl 0 c Hr Hb) as (_ & _ & H).
  exact (H 0 11 Hc).
Defined.

Lemma ring4_ok : rb_ok 4 ring4 [] [].
Proof. split; try reflexivity; [split; discriminate|]. intros i x _ Hx. discriminate Hx. Qed.

Lemma spsc_sequential_witness : rb_ok 4 ring4 [] [] /\
  exists b', try_push 4 ring4 11 = (true, b') /\ rb_ok 4 b' [11] [].
Proof.
  split; [exact ring4_ok|].
  destruct (spsc_sequential 4 2 ltac:(lia) eq_refl ring4 [] [] 11 ring4_ok eq_refl) as [H _].
  destruct H as (b' & H1 & H2 & _). exists b'. split; [exact H1|exact H2].
Defined.

Lemma spsc_batch_witness : rb_ok 4 ring4 [] [] /\
  exists b', try_push_batch 4 ring4 [1; 2; 3; 4; 5; 6] = (4, b') /\ rb_ok 4 b' [1; 2; 3; 4] [].
Proof.
  split; [exact ring4_ok|].
  destruct (spsc_batch 4 2 ltac:(lia) eq_refl ring4 [] [] [1; 2; 3; 4; 5; 6] 0
              ring4_ok eq_refl ltac:(lia)) as [(b' & H1 & H2) _].
  exists b'. split; [exact H1|exact H2].
Defined.

Lemma attach_terminates_witness :
  u64 (1 * 3000) < u64 (5000 - 100) /\
  exists r, attach 4 (fun _ => 0) (fun i => 100 + Z.of_nat i * 1634) 100 1 = Some r.
Proof.
  split; [reflexivity|].
  destruct (attach_terminates (fun _ => 0) (fun i => 100 + Z.of_nat i * 1634) 100 1 3
              ltac:(lia) ltac:(reflexivity)) as (r & H & _).
  exists r. exact H.
Defined.
End RingWitness.
