(* ===== verification/Sequencer.v ===== *)
(** The order sequencer of src/exchange/include/exchange/sequencer.hpp: the
    multi-producer ring whose slots are guarded by committed flags.  The
    operations are functions on the shared state; the gateways and the draining
    engine are also given as a step relation that interleaves their atomic
    accesses (sequentially consistent), for any number of gateways. *)

From S2P Require Import Prelude Protocol Arena.

Definition SEQ_RING_SIZE : Z := 65536.
Definition SEQ_RING_MASK : Z := SEQ_RING_SIZE - 1.

(** The union member that [so_msg_type] selects. *)
Inductive payload := P_order (order : OrderEntry) | P_cancel (cancel : CancelRequest).

Record SequencedOrder := {
  so_sequence_no : Z; so_recv_tsc : Z; so_contestant_id : Z; so_msg_type : MsgType;
  so_body : payload }.

Definition body_type (b : payload) : MsgType :=
  match b with P_order _ => ORDER_ENTRY | P_cancel _ => CANCEL_REQUEST end.

(** The bytes of a zeroed slot. *)
Definition zero_order : OrderEntry := of_wire (replicate 64 0).
Definition zero_sequenced : SequencedOrder :=
  {| so_sequence_no := 0; so_recv_tsc := 0; so_contestant_id := 0;
     so_msg_type := MsgType_of_byte 0; so_body := P_order zero_order |}.

Module OrderSequencer.

Record t := {
  ring_ : arr SequencedOrder; committed_ : arr Z; seq_counter_ : Z; total_stamped_ : Z;
  drops_ : Z; drain_pos_ : Z; total_drained_ : Z }.

(** The zeroed ring and flags, and the counters at zero. *)
Definition fresh : t :=
  {| ring_ := fun _ => zero_sequenced; committed_ := fun _ => 0; seq_counter_ := 0;
     total_stamped_ := 0; drops_ := 0; drain_pos_ := 0; total_drained_ := 0 |}.

(** [init]: [None] when either arena allocation fails. *)
Definition init (arena : HugePageArena.t) : option t * HugePageArena.t :=
  let '(p, arena) := HugePageArena.allocate_raw arena (128 * SEQ_RING_SIZE) 64 in
  match p with
  | None => (None, arena)
  | Some _ =>
      let '(q, arena) := HugePageArena.allocate_raw arena (1 * SEQ_RING_SIZE) 64 in
      match q with
      | None => (None, arena)
      | Some _ => (Some fresh, arena)
      end
  end.

Definition slot_of (seq : Z) : Z := Z.land (u32 seq) SEQ_RING_MASK.

Definition set_counter (s : t) (c : Z) : t :=
  {| ring_ := ring_ s; committed_ := committed_ s; seq_counter_ := c;
     total_stamped_ := total_stamped_ s; drops_ := drops_ s; drain_pos_ := drain_pos_ s;
     total_drained_ := total_drained_ s |}.
Definition set_flag (s : t) (slot v : Z) : t :=
  {| ring_ := ring_ s; committed_ := (committed_ s).[slot <- v]; seq_counter_ := seq_counter_ s;
     total_stamped_ := total_stamped_ s; drops_ := drops_ s; drain_pos_ := drain_pos_ s;
     total_drained_ := total_drained_ s |}.
Definition set_ring (s : t) (slot : Z) (so : SequencedOrder) : t :=
  {| ring_ := (ring_ s).[slot <- so]; committed_ := committed_ s; seq_counter_ := seq_counter_ s;
     total_stamped_ := total_stamped_ s; drops_ := drops_ s; drain_pos_ := drain_pos_ s;
     total_drained_ := total_drained_ s |}.
Definition count_drop (s : t) : t :=
  {| ring_ := ring_ s; committed_ := committed_ s; seq_counter_ := seq_counter_ s;
     total_stamped_ := total_stamped_ s; drops_ := u64 (drops_ s + 1);
     drain_pos_ := drain_pos_ s; total_drained_ := total_drained_ s |}.
Definition count_stamped (s : t) : t :=
  {| ring_ := ring_ s; committed_ := committed_ s; seq_counter_ := seq_counter_ s;
     total_stamped_ := u64 (total_stamped_ s + 1); drops_ := drops_ s;
     drain_pos_ := drain_pos_ s; total_drained_ := total_drained_ s |}.
Definition count_drained (s : t) : t :=
  {| ring_ := ring_ s; committed_ := committed_ s; seq_counter_ := seq_counter_ s;
     total_stamped_ := total_stamped_ s; drops_ := drops_ s;
     drain_pos_ := u64 (drain_pos_ s + 1); total_drained_ := u64 (total_drained_ s + 1) |}.

Definition sequenced (seq tsc contestant_id : Z) (b : payload) : SequencedOrder :=
  {| so_sequence_no := seq; so_recv_tsc := tsc; so_contestant_id := contestant_id;
     so_msg_type := body_type b; so_body := b |}.

(** The common shape of the two stamping functions. *)
Definition stamp (s : t) (contestant_id : Z) (b : payload) (tsc : Z) : Z * t :=
  let seq := u64 (seq_counter_ s + 1) in
  let s := set_counter s seq in
  let slot := slot_of seq in
  if committed_ s slot =? 0 then
    let s := set_flag s slot 2 in
    let s := set_ring s slot (sequenced seq tsc contestant_id b) in
    let s := set_flag s slot 1 in
    (seq, count_stamped s)
  else (0, count_drop s).
Definition stamp_order (s : t) (contestant_id : Z) (order : OrderEntry) (tsc : Z) : Z * t :=
  stamp s contestant_id (P_order order) tsc.
Definition stamp_cancel (s : t) (contestant_id : Z) (cancel : CancelRequest) (tsc : Z) : Z * t :=
  stamp s contestant_id (P_cancel cancel) tsc.

Definition drain (s : t) : option SequencedOrder * t :=
  let slot := slot_of (u64 (drain_pos_ s + 1)) in
  if negb (committed_ s slot =? 1) then (None, s)
  else (Some (ring_ s slot), count_drained (set_flag s slot 0)).

Fixpoint drain_loop (n : nat) (s : t) : list SequencedOrder * t :=
  match n with
  | O => ([], s)
  | S n => match drain s with
           | (None, s) => ([], s)
           | (Some so, s) => let '(l, s) := drain_loop n s in (so :: l, s)
           end
  end.
Definition drain_batch (s : t) (max_batch : Z) : list SequencedOrder * t :=
  drain_loop (Z.to_nat max_batch) s.

Definition current_seq (s : t) : Z := seq_counter_ s.
Definition pending (s : t) : Z := u64 (total_stamped_ s - total_drained_ s).

(** ** The gateways and the engine, interleaved *)

(** Where a gateway thread is inside a stamping function. *)
Inductive gateway :=
| G_idle
| G_numbered (seq cid : Z) (b : payload)   (* fetch_add done *)
| G_claimed (seq cid : Z) (b : payload)    (* flag moved from 0 to 2 *)
| G_written (seq cid : Z) (b : payload)    (* slot filled *)
| G_committed.                             (* flag set to 1 *)

(** Where the engine thread is inside [drain]. *)
Inductive engine :=
| E_idle
| E_ready (slot : Z)                       (* flag 1 seen *)
| E_copied (slot : Z) (so : SequencedOrder).

(** The shared state, the threads, every stamping request in the order of its
    [fetch_add], and what [drain] has returned. *)
Record conf := {
  shared : t; gws : nat -> gateway; eng : engine;
  issued : list (Z * payload); drained : list SequencedOrder }.

Definition set_gw (g : nat -> gateway) (i : nat) (v : gateway) : nat -> gateway :=
  fun j => if decide (j = i) then v else g j.

Inductive step : conf -> conf -> Prop :=
| s_number c i cid b : gws c i = G_idle ->
    let seq := u64 (seq_counter_ (shared c) + 1) in
    step c {| shared := set_counter (shared c) seq; gws := set_gw (gws c) i (G_numbered seq cid b);
              eng := eng c; issued := issued c ++ [(cid, b)]; drained := drained c |}
| s_claim c i seq cid b : gws c i = G_numbered seq cid b -> committed_ (shared c) (slot_of seq) = 0 ->
    step c {| shared := set_flag (shared c) (slot_of seq) 2;
              gws := set_gw (gws c) i (G_claimed seq cid b);
              eng := eng c; issued := issued c; drained := drained c |}
| s_drop c i seq cid b : gws c i = G_numbered seq cid b -> committed_ (shared c) (slot_of seq) <> 0 ->
    step c {| shared := count_drop (shared c); gws := set_gw (gws c) i G_idle;
              eng := eng c; issued := issued c; drained := drained c |}
| s_write c i seq cid b tsc : gws c i = G_claimed seq cid b ->
    step c {| shared := set_ring (shared c) (slot_of seq) (sequenced seq tsc cid b);
              gws := set_gw (gws c) i (G_written seq cid b);
              eng := eng c; issued := issued c; drained := drained c |}
| s_commit c i seq cid b : gws c i = G_written seq cid b ->
    step c {| shared := set_flag (shared c) (slot_of seq) 1; gws := set_gw (gws c) i G_committed;
              eng := eng c; issued := issued c; drained := drained c |}
| s_counted c i : gws c i = G_committed ->
    step c {| shared := count_stamped (shared c); gws := set_gw (gws c) i G_idle;
              eng := eng c; issued := issued c; drained := drained c |}
| s_load c : eng c = E_idle ->
    let slot := slot_of (u64 (drain_pos_ (shared c) + 1)) in
    committed_ (shared c) slot = 1 ->
    step c {| shared := shared c; gws := gws c; eng := E_ready slot;
              issued := issued c; drained := drained c |}
| s_copy c slot : eng c = E_ready slot ->
    step c {| shared := shared c; gws := gws c; eng := E_copied slot (ring_ (shared c) slot);
              issued := issued c; drained := drained c |}
| s_release c slot so : eng c = E_copied slot so ->
    step c {| shared := count_drained (set_flag (shared c) slot 0); gws := gws c; eng := E_idle;
              issued := issued c; drained := drained c ++ [so] |}.

Definition start : conf :=
  {| shared := fresh; gws := fun _ => G_idle; eng := E_idle; issued := []; drained := [] |}.

(** The gateways never run more than a ring ahead of the engine. *)
Definition bounded (c : conf) : Prop :=
  seq_counter_ (shared c) <= drain_pos_ (shared c) + SEQ_RING_SIZE.

(** Runs whose every configuration is [bounded]. *)
Inductive reach : conf -> Prop :=
| reach_start : reach start
| reach_step c c' : reach c -> step c c' -> bounded c' -> reach c'.

(** ** The invariant of bounded runs *)

Lemma slot_of_mod seq : slot_of seq = seq mod SEQ_RING_SIZE.
Proof.
  unfold slot_of, SEQ_RING_MASK, SEQ_RING_SIZE, u32. change (65536 - 1) with (2 ^ 16 - 1).
  rewrite land_mask by lia. change (2 ^ 16) with 65536.
  rewrite (Z.div_mod seq 4294967296) at 2 by lia.
  replace (4294967296 * (seq / 4294967296)) with ((65536 * (seq / 4294967296)) * 65536) by lia.
  rewrite Z.add_comm, Z.mod_add by lia. done.
Qed.

Lemma ring_slot_inj d a b :
  d < a <= d + SEQ_RING_SIZE -> d < b <= d + SEQ_RING_SIZE -> slot_of a = slot_of b -> a = b.
Proof.
  rewrite !slot_of_mod. unfold SEQ_RING_SIZE. intros Ha Hb E.
  pose proof (Z.div_mod a 65536). pose proof (Z.div_mod b 65536). lia.
Qed.

Lemma slot_wrap a : slot_of (a + SEQ_RING_SIZE) = slot_of a.
Proof.
  rewrite !slot_of_mod. unfold SEQ_RING_SIZE.
  rewrite <- (Z.mul_1_l 65536) at 1. by rewrite Z.mod_add.
Qed.

Definition len {A} (l : list A) : Z := Z.of_nat (length l).

Lemma qlen_snoc {A} (l : list A) x : len (l ++ [x]) = len l + 1.
Proof. unfold len. rewrite length_app. simpl. lia. Qed.

(** The request numbered [seq], as it appears in a slot. *)
Definition entry (iss : list (Z * payload)) (seq : Z) (so : SequencedOrder) : Prop :=
  exists tsc cid b, iss !! Z.to_nat (seq - 1) = Some (cid, b) /\ so = sequenced seq tsc cid b.

(** The sequence number a gateway is working on. *)
Definition holds (g : gateway) : option Z :=
  match g with
  | G_numbered seq _ _ | G_claimed seq _ _ | G_written seq _ _ => Some seq
  | G_idle | G_committed => None
  end.

Definition gw_ok (s : t) (iss : list (Z * payload)) (lo : Z) (g : gateway) : Prop :=
  match g with
  | G_numbered seq cid b =>
      lo < seq <= len iss /\ iss !! Z.to_nat (seq - 1) = Some (cid, b) /\ committed_ s (slot_of seq) = 0
  | G_claimed seq cid b =>
      lo < seq <= len iss /\ iss !! Z.to_nat (seq - 1) = Some (cid, b) /\ committed_ s (slot_of seq) = 2
  | G_written seq cid b =>
      lo < seq <= len iss /\ iss !! Z.to_nat (seq - 1) = Some (cid, b) /\ committed_ s (slot_of seq) = 2 /\
      entry iss seq (ring_ s (slot_of seq))
  | G_idle | G_committed => True
  end.

Definition eng_ok (s : t) (iss : list (Z * payload)) (lo : Z) (e : engine) : Prop :=
  match e with
  | E_idle => True
  | E_ready slot => slot = slot_of (lo + 1) /\ committed_ s slot = 1 /\ lo < len iss /\
      entry iss (lo + 1) (ring_ s slot)
  | E_copied slot so => slot = slot_of (lo + 1) /\ committed_ s slot = 1 /\ lo < len iss /\
      entry iss (lo + 1) so
  end.

Record conf_ok (c : conf) : Prop := {
  k_counter : seq_counter_ (shared c) = len (issued c);
  k_drain : drain_pos_ (shared c) = len (drained c);
  k_bounds : len (drained c) <= len (issued c) <= len (drained c) + SEQ_RING_SIZE;
  k_drops : drops_ (shared c) = 0;
  k_gw : forall i, gw_ok (shared c) (issued c) (len (drained c)) (gws c i);
  k_inj : forall i j seq, holds (gws c i) = Some seq -> holds (gws c j) = Some seq -> i = j;
  k_pend : forall seq, len (drained c) < seq <= len (issued c) ->
    (exists i, holds (gws c i) = Some seq) \/
    committed_ (shared c) (slot_of seq) = 1 /\ entry (issued c) seq (ring_ (shared c) (slot_of seq));
  k_free : forall seq, len (issued c) < seq <= len (drained c) + SEQ_RING_SIZE ->
    committed_ (shared c) (slot_of seq) = 0;
  k_out : forall i so, drained c !! i = Some so -> entry (issued c) (Z.of_nat i + 1) so;
  k_eng : eng_ok (shared c) (issued c) (len (drained c)) (eng c) }.

Lemma entry_snoc iss x seq so : entry iss seq so -> entry (iss ++ [x]) seq so.
Proof.
  intros (tsc & cid & b & Hl & ->). exists tsc, cid, b. split; [|done].
  by apply lookup_app_l_Some.
Qed.

Lemma gw_holds s iss lo g seq : gw_ok s iss lo g -> holds g = Some seq ->
  lo < seq <= len iss /\ committed_ s (slot_of seq) <> 1.
Proof. destruct g; simpl; try done; intros H [= <-]; destruct H as (? & ? & H); split; try done; lia. Qed.

Lemma set_gw_cases g i v j : (j = i /\ set_gw g i v j = v) \/ (j <> i /\ set_gw g i v j = g j).
Proof. unfold set_gw. destruct (decide (j = i)); [by left|by right]. Qed.

(** A gateway keeps its clause when the flags and slots of the window change
    only at a sequence number that is not its own. *)
Lemma gw_ok_frame s s' iss lo g :
  (forall seq, holds g = Some seq -> committed_ s' (slot_of seq) = committed_ s (slot_of seq) /\
     ring_ s' (slot_of seq) = ring_ s (slot_of seq)) ->
  gw_ok s iss lo g -> gw_ok s' iss lo g.
Proof.
  intros Hf. destruct g; simpl; try done; specialize (Hf _ eq_refl) as [-> E]; try done.
  by rewrite E.
Qed.

Lemma idle_ok : conf_ok start.
Proof.
  split; simpl; try done; unfold len; simpl; lia.
Qed.

(** Taking a number. *)
Lemma number_ok c i cid b :
  conf_ok c -> gws c i = G_idle -> len (issued c) + 1 < 2 ^ 64 ->
  seq_counter_ (shared c) + 1 <= drain_pos_ (shared c) + SEQ_RING_SIZE ->
  conf_ok {| shared := set_counter (shared c) (u64 (seq_counter_ (shared c) + 1));
             gws := set_gw (gws c) i (G_numbered (u64 (seq_counter_ (shared c) + 1)) cid b);
             eng := eng c; issued := issued c ++ [(cid, b)]; drained := drained c |}.
Proof.
  intros [Hc Hd Hb Hdr Hg Hi Hp Hf Ho He] Hidle Hlim Hbd.
  assert (H0 : 0 <= len (drained c)) by (unfold len; lia).
  rewrite Hc, u64_small by (unfold len in *; lia).
  split; simpl; rewrite ?qlen_snoc; try done.
  - lia.
  - intros j. destruct (set_gw_cases (gws c) i (G_numbered (len (issued c) + 1) cid b) j)
      as [[-> ->]|[Hj ->]]; simpl.
    + rewrite qlen_snoc. split; [lia|]. split; [|apply Hf; lia].
      rewrite lookup_app_r by (unfold len; lia).
      replace (Z.to_nat _ - _)%nat with 0%nat by (unfold len; lia). done.
    + specialize (Hg j). destruct (gws c j); simpl in *; try done; rewrite qlen_snoc.
      * destruct Hg as (? & ? & ?). split_and!; [lia|lia|by apply lookup_app_l_Some|done].
      * destruct Hg as (? & ? & ?). split_and!; [lia|lia|by apply lookup_app_l_Some|done].
      * destruct Hg as (? & ? & ? & ?).
        split_and!; [lia|lia|by apply lookup_app_l_Some|done|by apply entry_snoc].
  - intros j1 j2 seq.
    destruct (set_gw_cases (gws c) i (G_numbered (len (issued c) + 1) cid b) j1) as [[-> ->]|[Hj1 ->]];
    destruct (set_gw_cases (gws c) i (G_numbered (len (issued c) + 1) cid b) j2) as [[-> ->]|[Hj2 ->]];
    try done; simpl.
    + intros [= <-] H. apply (gw_holds _ _ _ _ _ (Hg j2)) in H. lia.
    + intros H [= <-]. apply (gw_holds _ _ _ _ _ (Hg j1)) in H. lia.
    + apply Hi.
  - intros seq Hs. destruct (decide (seq = len (issued c) + 1)) as [->|Hne].
    + left. exists i. unfold set_gw. by rewrite decide_True.
    + destruct (Hp seq ltac:(lia)) as [[j Hj]|[H1 H2]].
      * left. exists j. unfold set_gw. rewrite decide_False; [done|]. intros ->. by rewrite Hidle in Hj.
      * right. split; [done|by apply entry_snoc].
  - intros seq Hs. apply Hf. lia.
  - intros j so Hj. apply entry_snoc. by apply Ho.
  - destruct (eng c); simpl in *; try done; rewrite qlen_snoc;
      destruct He as (? & ? & ? & ?); split_and!; try done; try lia; by apply entry_snoc.
Qed.

(** A gateway working on its own slot: the shared state changes only there, and
    the gateway either keeps its number or has committed it. *)
Lemma work_ok c i g' s' seq :
  conf_ok c -> holds (gws c i) = Some seq ->
  seq_counter_ s' = seq_counter_ (shared c) -> drain_pos_ s' = drain_pos_ (shared c) ->
  drops_ s' = drops_ (shared c) ->
  (forall sl, sl <> slot_of seq ->
     committed_ s' sl = committed_ (shared c) sl /\ ring_ s' sl = ring_ (shared c) sl) ->
  gw_ok s' (issued c) (len (drained c)) g' ->
  (holds g' = Some seq \/
   holds g' = None /\ committed_ s' (slot_of seq) = 1 /\ entry (issued c) seq (ring_ s' (slot_of seq))) ->
  conf_ok {| shared := s'; gws := set_gw (gws c) i g'; eng := eng c; issued := issued c;
             drained := drained c |}.
Proof.
  intros [Hc Hd Hb Hdr Hg Hi Hp Hf Ho He] Hh E1 E2 E3 Hframe Hg' Hcase.
  destruct (gw_holds _ _ _ _ _ (Hg i) Hh) as [Hrange Hn1].
  assert (Hoth : forall seq', len (drained c) < seq' <= len (drained c) + SEQ_RING_SIZE -> seq' <> seq ->
    slot_of seq' <> slot_of seq).
  { intros seq' H1 H2 E. apply H2. eapply (ring_slot_inj (len (drained c))); [done|lia|done]. }
  split; simpl; try done; try congruence.
  - intros j. destruct (set_gw_cases (gws c) i g' j) as [[-> ->]|[Hj ->]]; [done|].
    eapply gw_ok_frame; [|apply Hg]. intros seq' Hs'. apply Hframe.
    destruct (gw_holds _ _ _ _ _ (Hg j) Hs') as [? _]. apply Hoth; [lia|].
    intros ->. apply Hj. by eapply Hi.
  - intros j1 j2 seq'.
    assert (Hk : forall seq', holds g' = Some seq' -> seq' = seq).
    { intros q Hq. destruct Hcase as [H|[H _]]; congruence. }
    destruct (set_gw_cases (gws c) i g' j1) as [[-> ->]|[Hj1 ->]];
    destruct (set_gw_cases (gws c) i g' j2) as [[-> ->]|[Hj2 ->]]; try done.
    + intros H1 H2. rewrite (Hk _ H1) in H2. by apply (Hi _ _ seq).
    + intros H1 H2. rewrite (Hk _ H2) in H1. by apply (Hi _ _ seq).
    + apply Hi.
  - intros seq' Hs'. destruct (decide (seq' = seq)) as [->|Hne].
    + destruct Hcase as [H|(_ & H1 & H2)]; [|by right].
      left. exists i. unfold set_gw. by rewrite decide_True.
    + destruct (Hp seq' Hs') as [[j Hj]|[H1 H2]].
      * left. exists j. unfold set_gw. rewrite decide_False; [done|]. intros ->. congruence.
      * right. destruct (Hframe (slot_of seq')) as [-> ->]; [|done]. apply Hoth; [lia|done].
  - intros seq' Hs'. destruct (Hframe (slot_of seq')) as [-> _]; [|by apply Hf].
    apply Hoth; lia.
  - destruct (eng c); simpl in *; try done; destruct He as (-> & H1 & H2 & H3);
      (destruct (Hframe (slot_of (len (drained c) + 1))) as [E4 E5]; [congruence|]; by rewrite E4, ?E5).
Qed.

(** Releasing the oldest slot. *)
Lemma release_ok c slot so :
  conf_ok c -> eng c = E_copied slot so -> len (issued c) < 2 ^ 64 ->
  conf_ok {| shared := count_drained (set_flag (shared c) slot 0); gws := gws c; eng := E_idle;
             issued := issued c; drained := drained c ++ [so] |}.
Proof.
  intros [Hc Hd Hb Hdr Hg Hi Hp Hf Ho He] E Hlim. rewrite E in He. destruct He as (-> & H1 & H2 & H3).
  assert (H0 : 0 <= len (drained c)) by (unfold len; lia).
  assert (Hoth : forall seq', len (drained c) + 1 < seq' <= len (drained c) + SEQ_RING_SIZE ->
    slot_of seq' <> slot_of (len (drained c) + 1)).
  { intros seq' Hs E'. apply (ring_slot_inj (len (drained c))) in E'; unfold SEQ_RING_SIZE in *; lia. }
  split; simpl; rewrite ?qlen_snoc; try done.
  - rewrite Hd, u64_small; [done|]. unfold len in *; lia.
  - lia.
  - intros j. destruct (holds (gws c j)) as [seq|] eqn:Eh.
    2: { destruct (gws c j); done. }
    destruct (gw_holds _ _ _ _ _ (Hg j) Eh) as [Hr Hn].
    assert (seq <> len (drained c) + 1) by congruence.
    specialize (Hg j). destruct (gws c j); simpl in *; try done; injection Eh as ->;
      (rewrite upd_ne by (apply Hoth; lia)); destruct Hg as (? & ? & ?); split_and!; try done; try lia;
      tauto.
  - intros seq Hs. destruct (Hp seq ltac:(lia)) as [H|[Ha Hb']]; [by left|right].
    rewrite upd_ne by (apply Hoth; lia). done.
  - intros seq Hs. destruct (decide (seq = len (drained c) + 1 + SEQ_RING_SIZE)) as [->|Hne].
    + rewrite slot_wrap. apply upd_eq.
    + rewrite upd_ne by (apply Hoth; lia). apply Hf. lia.
  - intros j so' Hj. destruct (decide (j < length (drained c))%nat).
    + rewrite lookup_app_l in Hj by done. by apply Ho.
    + rewrite lookup_app_r in Hj by lia. destruct (j - length (drained c))%nat eqn:Ej; [|done].
      injection Hj as <-. replace (Z.of_nat j) with (len (drained c)) by (unfold len; lia). done.
Qed.
(** An idle [drain] that sees the next flag set has the next request. *)
Lemma next_ready c :
  conf_ok c -> committed_ (shared c) (slot_of (len (drained c) + 1)) = 1 ->
  len (drained c) < len (issued c) /\
  entry (issued c) (len (drained c) + 1) (ring_ (shared c) (slot_of (len (drained c) + 1))).
Proof.
  intros [Hc Hd Hb Hdr Hg Hi Hp Hf Ho He] Hflag.
  assert (Hlt : len (drained c) < len (issued c)).
  { destruct (decide (len (drained c) < len (issued c))); [done|].
    rewrite Hf in Hflag; [done|]. unfold SEQ_RING_SIZE. lia. }
  split; [done|]. destruct (Hp (len (drained c) + 1) ltac:(lia)) as [[j Hj]|[_ H]]; [|done].
  by destruct (gw_holds _ _ _ _ _ (Hg j) Hj).
Qed.

Lemma thread_step_ok c c' : conf_ok c -> step c c' -> bounded c' -> len (issued c') + 1 < 2 ^ 64 -> conf_ok c'.
Proof.
  intros Hok Hs Hbd Hlim. pose proof Hok as [Hc Hd Hb Hdr Hg Hi Hp Hf Ho He].
  assert (H0 : 0 <= len (drained c)) by (unfold len; lia).
  destruct Hs as [c i cid b E seq|c i seq cid b E Hz|c i seq cid b E Hz|c i seq cid b tsc E|c i seq cid b E
    |c i E|c E slot Hfl|c slot E|c slot so E]; simpl in *.
  - subst seq. unfold bounded in Hbd. simpl in Hbd. rewrite qlen_snoc in Hlim.
    rewrite Hc, u64_small in Hbd by (unfold len in *; lia).
    apply number_ok; [done|done|lia|lia].
  - specialize (Hg i). rewrite E in Hg. destruct Hg as (Hr & Hl & _).
    apply (work_ok c i _ _ seq); simpl; try done; [by rewrite E| |by rewrite upd_eq|by left].
    intros sl Hsl. by rewrite upd_ne.
  - specialize (Hg i). rewrite E in Hg. by destruct Hg as (_ & _ & Hg).
  - specialize (Hg i). rewrite E in Hg. destruct Hg as (Hr & Hl & Hfl).
    apply (work_ok c i _ _ seq); simpl; try done; [by rewrite E| | |by left].
    + intros sl Hsl. by rewrite upd_ne.
    + rewrite upd_eq. split_and!; try done; try lia. by exists tsc, cid, b.
  - specialize (Hg i). rewrite E in Hg. destruct Hg as (Hr & Hl & Hfl & Hent).
    apply (work_ok c i _ _ seq); simpl; try done; [by rewrite E| |].
    + intros sl Hsl. by rewrite upd_ne.
    + right. by rewrite upd_eq.
  - destruct Hok. split; simpl; try done.
    + intros j. destruct (set_gw_cases (gws c) i G_idle j) as [[-> ->]|[Hj ->]]; [done|]. apply k_gw0.
    + intros j1 j2 seq.
      destruct (set_gw_cases (gws c) i G_idle j1) as [[-> ->]|[Hj1 ->]]; [done|].
      destruct (set_gw_cases (gws c) i G_idle j2) as [[-> ->]|[Hj2 ->]]; [done|]. apply Hi.
    + intros seq Hs. destruct (Hp seq Hs) as [[j Hj]|H]; [left|by right].
      exists j. unfold set_gw. rewrite decide_False; [done|]. intros ->. by rewrite E in Hj.
  - subst slot. rewrite Hd, u64_small in Hfl |- * by lia.
    destruct (next_ready c Hok Hfl). split; simpl; try done.
  - rewrite E in He. split; simpl; done.
  - apply release_ok; [done|done|lia].
Qed.

Lemma step_issued c c' : step c c' -> len (issued c) <= len (issued c').
Proof. destruct 1; simpl; rewrite ?qlen_snoc; lia. Qed.

Lemma run_ok c : reach c -> len (issued c) + 1 < 2 ^ 64 -> conf_ok c.
Proof.
  induction 1 as [|c c' Hr IH Hs Hb]; intros Hlim; [apply idle_ok|].
  pose proof (step_issued _ _ Hs). eapply thread_step_ok; [apply IH; lia|done..].
Qed.
(** ** A thread running alone *)

(** [stamp] by one thread is its run of steps, and [drain] the engine's. *)
Lemma stamp_steps c i cid b tsc :
  gws c i = G_idle ->
  exists c', rtc step c c' /\ shared c' = (stamp (shared c) cid b tsc).2 /\
    gws c' i = G_idle /\ (forall j, j <> i -> gws c' j = gws c j) /\ eng c' = eng c /\
    drained c' = drained c /\ issued c' = issued c ++ [(cid, b)].
Proof.
  intros E. pose proof (s_number c i cid b E) as H1. simpl in H1. unfold stamp.
  set (seq := u64 (seq_counter_ (shared c) + 1)) in *.
  assert (Hi : forall v, set_gw (gws c) i v i = v) by (intros v; unfold set_gw; by rewrite decide_True).
  assert (Hs : forall (g : nat -> gateway) v j, j <> i -> set_gw g i v j = g j)
    by (intros g v j Hj; unfold set_gw; by rewrite decide_False).
  assert (Hii : forall g v, set_gw g i v i = v) by (intros g v; unfold set_gw; by rewrite decide_True).
  simpl. destruct (Z.eqb_spec (committed_ (shared c) (slot_of seq)) 0) as [Hz|Hz].
  - eexists. split.
    + eapply rtc_l; [exact H1|]. eapply rtc_l; [eapply (s_claim _ i seq cid b); simpl; [apply Hi|exact Hz]|].
      eapply rtc_l; [eapply (s_write _ i seq cid b tsc), Hii|].
      eapply rtc_l; [eapply (s_commit _ i seq cid b), Hii|].
      eapply rtc_l; [eapply (s_counted _ i), Hii|]. apply rtc_refl.
    + cbn. split_and!; [done|apply Hii|intros j Hj; by rewrite !Hs by done|done..].
  - eexists. split.
    + eapply rtc_l; [exact H1|]. eapply rtc_l; [eapply (s_drop _ i seq cid b); simpl; [apply Hi|exact Hz]|].
      apply rtc_refl.
    + cbn. split_and!; [done|apply Hii|intros j Hj; by rewrite !Hs by done|done..].
Qed.

(** ** Filling and emptying the ring from the start *)

(** What the flags of a quiescent ring holding the requests [d+1 .. c] look like. *)
Record window (s : t) (d c : Z) : Prop := {
  w_drain : drain_pos_ s = d;
  w_set : forall seq, d < seq <= c -> committed_ s (slot_of seq) = 1;
  w_clear : forall seq, c < seq <= d + SEQ_RING_SIZE -> committed_ s (slot_of seq) = 0 }.

Lemma stamp_window s d c cid b tsc :
  window s d c -> seq_counter_ s = c -> 0 <= d <= c -> c < d + SEQ_RING_SIZE -> c + 1 < 2 ^ 64 ->
  exists s', stamp s cid b tsc = (c + 1, s') /\ window s' d (c + 1) /\ seq_counter_ s' = c + 1.
Proof.
  intros [Hd Hs Hz] Hc H0 Hlt Hb. unfold stamp. rewrite Hc, u64_small by lia. simpl.
  rewrite Hz by lia. simpl. eexists. split; [done|]. split; [|done].
  assert (Hoth : forall seq, d < seq <= d + SEQ_RING_SIZE -> seq <> c + 1 -> slot_of seq <> slot_of (c + 1)).
  { intros seq H1 H2 E. apply H2. apply (ring_slot_inj d); [done|lia|done]. }
  split; simpl; try done.
  - intros seq Hr. destruct (decide (seq = c + 1)) as [->|Hne]; [by rewrite upd_eq|].
    rewrite !upd_ne by (apply Hoth; lia). apply Hs. lia.
  - intros seq Hr. rewrite !upd_ne by (apply Hoth; lia). apply Hz. lia.
Qed.

Lemma drain_window s d c :
  window s d c -> 0 <= d < c -> c <= d + SEQ_RING_SIZE -> c < 2 ^ 64 ->
  exists s', drain s = (Some (ring_ s (slot_of (d + 1))), s') /\ window s' (d + 1) c /\ seq_counter_ s' = seq_counter_ s.
Proof.
  intros [Hd Hs Hz] H0 Hlt Hb. unfold drain. rewrite Hd, u64_small by lia.
  rewrite Hs by lia. simpl. eexists. split; [done|]. split; [|done].
  assert (Hoth : forall seq, d < seq <= d + SEQ_RING_SIZE -> seq <> d + 1 -> slot_of seq <> slot_of (d + 1)).
  { intros seq H1 H2 E. apply H2. apply (ring_slot_inj d); [done|unfold SEQ_RING_SIZE; lia|done]. }
  split; simpl; try done.
  - rewrite Hd, u64_small; lia.
  - intros seq Hr. rewrite upd_ne by (apply Hoth; lia). apply Hs. lia.
  - intros seq Hr. destruct (decide (seq = d + 1 + SEQ_RING_SIZE)) as [->|Hne].
    + rewrite slot_wrap. apply upd_eq.
    + rewrite upd_ne by (apply Hoth; lia). apply Hz. lia.
Qed.

(** Stamping a list of requests one after the other; the numbers returned. *)
Fixpoint stamp_all (s : t) (reqs : list (Z * payload)) : list Z * t :=
  match reqs with
  | [] => ([], s)
  | (cid, b) :: reqs =>
      let '(q, s) := stamp s cid b 0 in
      let '(qs, s) := stamp_all s reqs in (q :: qs, s)
  end.

Lemma stamp_all_window reqs : forall s d c,
  window s d c -> seq_counter_ s = c -> 0 <= d <= c -> c + len reqs <= d + SEQ_RING_SIZE -> c + len reqs < 2 ^ 64 ->
  exists s', stamp_all s reqs = (seqZ (c + 1) (len reqs), s') /\ window s' d (c + len reqs) /\
    seq_counter_ s' = c + len reqs.
Proof.
  induction reqs as [|[cid b] reqs IH]; intros s d c Hw Hc H0 Hle Hb; cbn [stamp_all].
  - exists s. unfold len. simpl. by rewrite Z.add_0_r.
  - assert (El : len ((cid, b) :: reqs) = len reqs + 1) by (unfold len; simpl; lia).
    assert (0 <= len reqs) by (unfold len; lia). rewrite El in *.
    destruct (stamp_window s d c cid b 0 Hw Hc H0 ltac:(lia) ltac:(lia)) as (s1 & -> & Hw1 & Hc1).
    destruct (IH s1 d (c + 1) Hw1 Hc1 ltac:(lia) ltac:(lia) ltac:(lia)) as (s2 & -> & Hw2 & Hc2).
    exists s2. split_and!; [| |lia].
    + rewrite (seqZ_cons (c + 1)) by lia. do 2 f_equal. f_equal; lia.
    + by replace (c + (len reqs + 1)) with (c + 1 + len reqs) by lia.
Qed.

Lemma drain_loop_window n : forall s d c,
  window s d c -> 0 <= d -> d + Z.of_nat n <= c -> c <= d + SEQ_RING_SIZE -> c < 2 ^ 64 ->
  exists l s', drain_loop n s = (l, s') /\ length l = n /\ window s' (d + Z.of_nat n) c /\
    seq_counter_ s' = seq_counter_ s.
Proof.
  induction n as [|n IH]; intros s d c Hw H0 Hle Hlt Hb; cbn [drain_loop].
  - exists [], s. by rewrite Z.add_0_r.
  - destruct (drain_window s d c Hw ltac:(lia) ltac:(lia) Hb) as (s1 & -> & Hw1 & Hc1).
    destruct (IH s1 (d + 1) c Hw1 ltac:(lia) ltac:(lia) ltac:(lia) Hb) as (l & s2 & -> & Hl & Hw2 & Hc2).
    eexists _, _. split; [done|]. split; [simpl; by rewrite Hl|]. split; [|congruence].
    by replace (d + Z.of_nat (S n)) with (d + 1 + Z.of_nat n) by lia.
Qed.

Lemma fresh_window : window fresh 0 0.
Proof. split; simpl; try done; lia. Qed.

(** ** Claims *)

(** C8: for any number of gateway threads and any interleaving of their
    fetch-adds, claims, writes and commits with the engine's drains, as long as
    the gateways stay within one ring of the engine (and fewer than 2^64 - 1
    requests are made) no request is dropped and what the engine drains is
    exactly the requests in the order of their numbers 1, 2, 3, ..., each with
    the contestant, type and body it was stamped with. *)
Theorem sequencer_total_order c :
  reach c -> len (issued c) + 1 < 2 ^ 64 ->
  drops_ (shared c) = 0 /\ drain_pos_ (shared c) = len (drained c) /\
  (forall i so, drained c !! i = Some so ->
     so_sequence_no so = Z.of_nat i + 1 /\ so_msg_type so = body_type (so_body so) /\
     issued c !! i = Some (so_contestant_id so, so_body so)).
Proof.
  intros Hr Hb. destruct (run_ok c Hr Hb). split; [done|]. split; [done|].
  intros i so Hi. destruct (k_out0 i so Hi) as (tsc & cid & b & Hl & ->). simpl.
  split; [done|]. split; [done|]. by replace (Z.to_nat (Z.of_nat i + 1 - 1)) with i in Hl by lia.
Qed.

(** a drop leaves a hole that stalls the engine.  After a full ring and one
    dropped request, the engine drains the whole ring, the next request is
    stamped and committed under a fresh non-zero number, and [drain] still
    returns nothing: the slot it waits for belongs to the dropped number, so
    accepted requests stay undelivered. *)
Theorem drop_stalls_drain (reqs : list (Z * payload)) cid b cid' b' :
  len reqs = SEQ_RING_SIZE -> exists s1 s2 l s3 s4,
    stamp_all fresh reqs = (seqZ 1 SEQ_RING_SIZE, s1) /\
    stamp s1 cid b 0 = (0, s2) /\
    drain_batch s2 SEQ_RING_SIZE = (l, s3) /\ len l = SEQ_RING_SIZE /\
    stamp s3 cid' b' 0 = (SEQ_RING_SIZE + 2, s4) /\ drain s4 = (None, s4).
Proof.
  intros Hlen.
  destruct (stamp_all_window reqs fresh 0 0 fresh_window eq_refl ltac:(lia)) as (s1 & E1 & Hw1 & Hc1);
    [rewrite Hlen; done..|]. rewrite Hlen in *. rewrite !Z.add_0_l in *.
  exists s1. unfold stamp at 1. rewrite Hc1.
  change (u64 (SEQ_RING_SIZE + 1)) with (1 + SEQ_RING_SIZE). cbn [committed_ set_counter].
  rewrite slot_wrap, (w_set _ _ _ Hw1) by (unfold SEQ_RING_SIZE; lia). cbn [Z.eqb Pos.eqb].
  set (s2 := count_drop (set_counter s1 (1 + SEQ_RING_SIZE))). exists s2.
  assert (Hw2 : window s2 0 SEQ_RING_SIZE) by (destruct Hw1; split; assumption).
  destruct (drain_loop_window (Z.to_nat SEQ_RING_SIZE) s2 0 SEQ_RING_SIZE Hw2 ltac:(lia)
    ltac:(unfold SEQ_RING_SIZE; lia) ltac:(lia) ltac:(done)) as (l & s3 & E3 & Hl & Hw3 & Hc3).
  rewrite Z2Nat.id in Hw3 by (unfold SEQ_RING_SIZE; lia). rewrite Z.add_0_l in Hw3.
  change (seq_counter_ s2) with (1 + SEQ_RING_SIZE) in Hc3. exists l, s3.
  unfold stamp. rewrite Hc3. change (u64 (1 + SEQ_RING_SIZE + 1)) with (SEQ_RING_SIZE + 2).
  cbn [committed_ set_counter].
  rewrite (w_clear _ _ _ Hw3) by (unfold SEQ_RING_SIZE; lia). cbn [Z.eqb].
  eexists. split; [exact E1|]. split; [done|]. split; [exact E3|]. split; [unfold len; rewrite Hl; by rewrite Z2Nat.id|].
  split; [done|]. unfold drain.
  cbn [committed_ drain_pos_ count_stamped set_flag set_ring set_counter].
  rewrite (w_drain _ _ _ Hw3). change (u64 (SEQ_RING_SIZE + 1)) with (SEQ_RING_SIZE + 1).
  assert (Hne : slot_of (SEQ_RING_SIZE + 1) <> slot_of (SEQ_RING_SIZE + 2)).
  { intros E. apply (ring_slot_inj SEQ_RING_SIZE) in E; unfold SEQ_RING_SIZE in *; lia. }
  rewrite !upd_ne by done. rewrite (w_clear _ _ _ Hw3) by (unfold SEQ_RING_SIZE; lia). done.
Qed.
(** ** Witnesses *)

(** One gateway stamps a cancel, the engine drains it. *)
Lemma one_delivery (b : payload) : exists c, reach c /\ issued c = [(7, b)] /\
  drained c = [sequenced 1 99 7 b].
Proof.
  eassert (H : reach _) by apply reach_start.
  assert (Hb : forall c, seq_counter_ (shared c) <= 65536 -> 0 <= drain_pos_ (shared c) -> bounded c)
    by (intros; unfold bounded, SEQ_RING_SIZE; lia).
  eapply reach_step in H; [|apply (s_number _ 0%nat 7 b); reflexivity|apply Hb; done].
  eapply reach_step in H; [|apply (s_claim _ 0%nat 1 7 b); reflexivity|apply Hb; done].
  eapply reach_step in H; [|apply (s_write _ 0%nat 1 7 b 99); reflexivity|apply Hb; done].
  eapply reach_step in H; [|apply (s_commit _ 0%nat 1 7 b); reflexivity|apply Hb; done].
  eapply reach_step in H; [|apply s_load; reflexivity|apply Hb; done].
  eapply reach_step in H; [|apply (s_copy _ 1); reflexivity|apply Hb; done].
  eapply reach_step in H; [|apply (s_release _ 1 (sequenced 1 99 7 b)); reflexivity|apply Hb; done].
  eexists. split; [exact H|]. split; reflexivity.
Qed.

Lemma sequencer_total_order_witness : exists c,
  reach c /\ len (issued c) + 1 < 2 ^ 64 /\ drops_ (shared c) = 0 /\
  issued c !! 0%nat = Some (7, P_order zero_order).
Proof.
  destruct (one_delivery (P_order zero_order)) as (c & Hr & Hi & Hd).
  assert (Hb : len (issued c) + 1 < 2 ^ 64) by (rewrite Hi; reflexivity).
  destruct (sequencer_total_order c Hr Hb) as (H1 & _ & H3).
  exists c. split; [exact Hr|]. split; [exact Hb|]. split; [exact H1|].
  destruct (H3 0%nat (sequenced 1 99 7 (P_order zero_order))) as (_ & _ & H); [by rewrite Hd|exact H].
Defined.

Lemma drop_stalls_drain_witness :
  let reqs := replicate (Z.to_nat SEQ_RING_SIZE) (1, P_order zero_order) in
  len reqs = SEQ_RING_SIZE /\ exists s1 s2 s4,
    stamp_all fresh reqs = (seqZ 1 SEQ_RING_SIZE, s1) /\
    stamp s1 2 (P_order zero_order) 0 = (0, s2) /\ drain s4 = (None, s4).
Proof.
  intros reqs.
  assert (Hl : len reqs = SEQ_RING_SIZE).
  { unfold len, reqs. rewrite length_replicate. by rewrite Z2Nat.id. }
  split; [exact Hl|].
  destruct (drop_stalls_drain reqs 2 (P_order zero_order) 3 (P_order zero_order) Hl)
    as (s1 & s2 & l & s3 & s4 & H1 & H2 & _ & _ & _ & H6).
  exists s1, s2, s4. split; [exact H1|]. split; [exact H2|exact H6].
Defined.
End OrderSequencer.
