(* ===== verification/AuditLog.v ===== *)
(** The append-only audit log (src/exchange/include/exchange/audit_log.hpp):
    the mapped file as an array of fixed-size entries with a length in bytes,
    the log object with its cursors, and the life cycle open - append - close -
    open - read.  System calls are arguments (the descriptor, and whether a call
    succeeded); their effect on the file is the documented one: [O_TRUNC] and a
    growing [ftruncate] give zero bytes, a shared mapping writes through. *)

From S2P Require Import Prelude Protocol.

Inductive AuditEntryType :=
| AT_ORDER | AT_CANCEL | AT_FILL | AT_ACK | AT_CANCEL_ACK | AT_MARKET_DATA | AT_SESSION
| AT_OTHER (raw : Z).

Definition AuditEntryType_to_byte (a : AuditEntryType) : Z :=
  match a with
  | AT_ORDER => 1 | AT_CANCEL => 2 | AT_FILL => 3 | AT_ACK => 4 | AT_CANCEL_ACK => 5
  | AT_MARKET_DATA => 6 | AT_SESSION => 7 | AT_OTHER b => b
  end.

(** The union member last written. *)
Inductive audit_body :=
| B_order (order : OrderEntry) | B_cancel (cancel : CancelRequest) | B_fill (fill : Fill)
| B_ack (ack : OrderAck) | B_raw (bytes : list Z).

Record AuditEntry := {
  ae_type : AuditEntryType; ae_contestant_id : Z; ae_sequence_no : Z; ae_tsc : Z;
  ae_body : audit_body }.

(** A zeroed entry: its type byte is 0. *)
Definition zero_entry : AuditEntry :=
  {| ae_type := AT_OTHER 0; ae_contestant_id := 0; ae_sequence_no := 0; ae_tsc := 0;
     ae_body := B_raw (replicate 96 0) |}.

(** 24 bytes of header, the union aligned to 64, the whole padded to 64. *)
Definition sizeof_AuditEntry : Z := 192.
Definition AUDIT_LOG_MAX_ENTRIES : Z := Z.shiftl 1 20.
Definition AUDIT_LOG_MAX_SIZE : Z := AUDIT_LOG_MAX_ENTRIES * sizeof_AuditEntry.

(** The file behind the descriptor. *)
Record file := { f_size : Z; f_data : arr AuditEntry }.

Definition truncated (n : Z) (f : file) : file :=
  {| f_size := n; f_data := fun i => if i * sizeof_AuditEntry <? Z.min n (f_size f) then f_data f i else zero_entry |}.

Module AuditLog.

Record t := {
  base_ : bool; (* non-null *)
  fd_ : Z; write_pos_ : Z; read_pos_ : Z; max_entries_ : Z; file_size_ : Z; readonly_ : bool }.

Definition new : t :=
  {| base_ := false; fd_ := -1; write_pos_ := 0; read_pos_ := 0; max_entries_ := 0;
     file_size_ := 0; readonly_ := false |}.

Definition set_fd (l : t) (fd : Z) : t :=
  {| base_ := base_ l; fd_ := fd; write_pos_ := write_pos_ l; read_pos_ := read_pos_ l;
     max_entries_ := max_entries_ l; file_size_ := file_size_ l; readonly_ := readonly_ l |}.

(** [open_write]: [fd] is the result of [open], [trunc_ok] and [map_ok] say
    whether [ftruncate] and [mmap] succeed. *)
Definition open_write (l : t) (f : file) (fd : Z) (trunc_ok map_ok : bool) : bool * t * file :=
  let l := set_fd l fd in
  if fd <? 0 then (false, l, f) else
  let f := truncated 0 f in
  if negb trunc_ok then (false, set_fd l (-1), f) else
  let f := truncated AUDIT_LOG_MAX_SIZE f in
  if negb map_ok then
    (false, {| base_ := false; fd_ := -1; write_pos_ := write_pos_ l; read_pos_ := read_pos_ l;
               max_entries_ := max_entries_ l; file_size_ := file_size_ l;
               readonly_ := readonly_ l |}, f)
  else
    (true, {| base_ := true; fd_ := fd; write_pos_ := 0; read_pos_ := read_pos_ l;
              max_entries_ := max_entries_ l; file_size_ := file_size_ l; readonly_ := false |}, f).

Definition open_read (l : t) (f : file) (fd : Z) (stat_ok map_ok : bool) : bool * t :=
  let l := set_fd l fd in
  if fd <? 0 then (false, l) else
  if negb stat_ok then (false, set_fd l (-1)) else
  if negb map_ok then
    (false, {| base_ := false; fd_ := -1; write_pos_ := write_pos_ l; read_pos_ := read_pos_ l;
               max_entries_ := max_entries_ l; file_size_ := f_size f; readonly_ := readonly_ l |})
  else
    (true, {| base_ := true; fd_ := fd; write_pos_ := write_pos_ l; read_pos_ := 0;
              max_entries_ := f_size f / sizeof_AuditEntry; file_size_ := f_size f;
              readonly_ := true |}).

Definition can_write (l : t) : bool :=
  base_ l && negb (readonly_ l) && (write_pos_ l <? AUDIT_LOG_MAX_ENTRIES).

(** The common shape of the four [log_*] functions. *)
Definition append (l : t) (f : file) (e : AuditEntry) : t * file :=
  if negb (can_write l) then (l, f)
  else
    ({| base_ := base_ l; fd_ := fd_ l; write_pos_ := u64 (write_pos_ l + 1);
        read_pos_ := read_pos_ l; max_entries_ := max_entries_ l; file_size_ := file_size_ l;
        readonly_ := readonly_ l |},
     {| f_size := f_size f; f_data := (f_data f).[write_pos_ l <- e] |}).

Definition log_order (l : t) (f : file) (seq_no contestant_id : Z) (order : OrderEntry) (tsc : Z) : t * file :=
  append l f {| ae_type := AT_ORDER; ae_contestant_id := contestant_id; ae_sequence_no := seq_no;
                ae_tsc := tsc; ae_body := B_order order |}.
Definition log_cancel (l : t) (f : file) (seq_no contestant_id : Z) (cancel : CancelRequest) (tsc : Z) : t * file :=
  append l f {| ae_type := AT_CANCEL; ae_contestant_id := contestant_id; ae_sequence_no := seq_no;
                ae_tsc := tsc; ae_body := B_cancel cancel |}.
Definition log_fill (l : t) (f : file) (seq_no contestant_id : Z) (fill : Fill) (tsc : Z) : t * file :=
  append l f {| ae_type := AT_FILL; ae_contestant_id := contestant_id; ae_sequence_no := seq_no;
                ae_tsc := tsc; ae_body := B_fill fill |}.
Definition log_ack (l : t) (f : file) (seq_no contestant_id : Z) (ack : OrderAck) (tsc : Z) : t * file :=
  append l f {| ae_type := AT_ACK; ae_contestant_id := contestant_id; ae_sequence_no := seq_no;
                ae_tsc := tsc; ae_body := B_ack ack |}.

Definition read_next (l : t) (f : file) : option AuditEntry * t :=
  if negb (readonly_ l) || (max_entries_ l <=? read_pos_ l) then (None, l)
  else
    let e := f_data f (read_pos_ l) in
    if AuditEntryType_to_byte (ae_type e) =? 0 then (None, l)
    else (Some e, {| base_ := base_ l; fd_ := fd_ l; write_pos_ := write_pos_ l;
                     read_pos_ := u64 (read_pos_ l + 1); max_entries_ := max_entries_ l;
                     file_size_ := file_size_ l; readonly_ := readonly_ l |}).

Definition reset_read (l : t) : t :=
  {| base_ := base_ l; fd_ := fd_ l; write_pos_ := write_pos_ l; read_pos_ := 0;
     max_entries_ := max_entries_ l; file_size_ := file_size_ l; readonly_ := readonly_ l |}.

Definition close (l : t) (f : file) : t * file :=
  let b := {| base_ := false; fd_ := fd_ l; write_pos_ := write_pos_ l; read_pos_ := read_pos_ l;
              max_entries_ := max_entries_ l; file_size_ := file_size_ l; readonly_ := readonly_ l |} in
  if 0 <=? fd_ l then
    (set_fd b (-1),
     if negb (readonly_ l) && (0 <? write_pos_ l)
     then truncated (u64 (write_pos_ l * sizeof_AuditEntry)) f else f)
  else (b, f).

Definition entry_count (l : t) : Z := write_pos_ l.
Definition is_open (l : t) : bool := base_ l.

(** Reading until [read_next] fails; every success advances the cursor, so
    [max_entries_ + 1] turns are enough. *)
Fixpoint read_loop (fuel : nat) (l : t) (f : file) : option (list AuditEntry * t) :=
  match fuel with
  | O => None
  | S fuel => match read_next l f with
              | (None, l) => Some ([], l)
              | (Some e, l) => '(es, l) ← read_loop fuel l f; Some (e :: es, l)
              end
  end.
Definition read_all (l : t) (f : file) : option (list AuditEntry * t) :=
  read_loop (S (Z.to_nat (max_entries_ l - read_pos_ l))) l f.

Fixpoint append_all (l : t) (f : file) (es : list AuditEntry) : t * file :=
  match es with
  | [] => (l, f)
  | e :: es => let '(l, f) := append l f e in append_all l f es
  end.

(** ** Reading and writing *)

Definition len (es : list AuditEntry) : Z := Z.of_nat (length es).
Definition nonzero (e : AuditEntry) : Prop := AuditEntryType_to_byte (ae_type e) <> 0.

(** An open log that has been given the entries [es]. *)
Record writing (l : t) (f : file) (es : list AuditEntry) : Prop := {
  wr_base : base_ l = true; wr_ro : readonly_ l = false; wr_fd : 0 <= fd_ l;
  wr_pos : write_pos_ l = len es; wr_max : len es <= AUDIT_LOG_MAX_ENTRIES;
  wr_size : f_size f = AUDIT_LOG_MAX_SIZE;
  wr_data : forall i, f_data f (Z.of_nat i) = default zero_entry (es !! i) }.

Lemma open_write_writing l f fd l' f' :
  open_write l f fd true true = (true, l', f') -> writing l' f' [].
Proof.
  unfold open_write. destruct (Z.ltb_spec fd 0) as [|Hfd]; [done|]. cbn [negb].
  intros [= <- <-]. split; cbn [base_ readonly_ fd_ write_pos_ f_size f_data truncated]; try done.
  intros i. rewrite lookup_nil. simpl. repeat case_match; try done.
  apply Z.ltb_lt in H0. unfold sizeof_AuditEntry in *. lia.
Qed.

Lemma append_writing l f es e :
  writing l f es ->
  let '(l', f') := append l f e in
  writing l' f' (if len es <? AUDIT_LOG_MAX_ENTRIES then es ++ [e] else es).
Proof.
  intros Hw. pose proof Hw as [Hb Hro Hfd Hp Hm Hs Hd]. unfold append, can_write.
  rewrite Hb, Hro, Hp. cbn [andb negb].
  destruct (Z.ltb_spec (len es) AUDIT_LOG_MAX_ENTRIES) as [Hlt|Hge]; cbn [negb]; [|done].
  assert (AUDIT_LOG_MAX_ENTRIES = 1048576) as HM by reflexivity.
  assert (0 <= len es) by (unfold len; lia).
  assert (El : len (es ++ [e]) = len es + 1) by (unfold len; rewrite length_app; simpl; lia).
  split; simpl; try done.
  - rewrite u64_small; lia.
  - lia.
  - intros i. destruct (decide (i = length es)) as [->|Hne].
    + fold (len es). rewrite upd_eq, list_lookup_middle by done. done.
    + rewrite upd_ne by (unfold len; lia). rewrite Hd. destruct (decide (i < length es)%nat).
      * by rewrite lookup_app_l.
      * rewrite !lookup_ge_None_2; [done|rewrite length_app; simpl; lia|lia].
Qed.

Lemma append_all_writing es' : forall l f es,
  writing l f es ->
  let '(l', f') := append_all l f es' in
  writing l' f' (take (Z.to_nat AUDIT_LOG_MAX_ENTRIES) (es ++ es')).
Proof.
  induction es' as [|e es' IH]; intros l f es Hw; cbn [append_all].
  - rewrite app_nil_r, take_ge; [done|]. destruct Hw. unfold len in *. lia.
  - pose proof (append_writing l f es e Hw) as Ha. destruct (append l f e) as [l' f'].
    destruct (Z.ltb_spec (len es) AUDIT_LOG_MAX_ENTRIES) as [Hlt|Hge].
    + specialize (IH l' f' _ Ha). by rewrite <- (assoc_L (++)) in IH.
    + specialize (IH l' f' _ Ha). destruct (append_all l' f' es') as [l2 f2].
      assert (length es = Z.to_nat AUDIT_LOG_MAX_ENTRIES) as E by (destruct Hw; unfold len in *; lia).
      rewrite take_app_le in * by lia. done.
Qed.

Lemma read_loop_spec f es : forall l,
  readonly_ l = true -> 0 <= read_pos_ l -> max_entries_ l < 2 ^ 63 ->
  (forall i, (i < length es)%nat -> read_pos_ l + Z.of_nat i < max_entries_ l) ->
  (forall i e, es !! i = Some e -> f_data f (read_pos_ l + Z.of_nat i) = e /\ nonzero e) ->
  (max_entries_ l <= read_pos_ l + len es \/
   AuditEntryType_to_byte (ae_type (f_data f (read_pos_ l + len es))) = 0) ->
  forall fuel, (length es < fuel)%nat ->
  exists l', read_loop fuel l f = Some (es, l') /\ read_pos_ l' = read_pos_ l + len es /\
    read_next l' f = (None, l').
Proof.
  induction es as [|e es IH]; intros l Hro H0 Hmax Hin Hd Hend fuel Hfuel;
    (destruct fuel as [|fuel]; [simpl in Hfuel; lia|]); cbn [read_loop].
  - assert (Hr : read_next l f = (None, l)).
    { unfold read_next. rewrite Hro. cbn [negb orb]. unfold len in Hend. simpl in Hend.
      rewrite Z.add_0_r in Hend. destruct (Z.leb_spec (max_entries_ l) (read_pos_ l)); [done|].
      destruct Hend as [|Hz]; [lia|]. by rewrite Hz. }
    rewrite Hr. exists l. split; [done|]. unfold len. simpl. split; [lia|done].
  - unfold read_next at 1. rewrite Hro. cbn [negb orb].
    specialize (Hin 0%nat ltac:(simpl; lia)) as Hlt. rewrite (proj2 (Z.leb_gt _ _)) by lia.
    destruct (Hd 0%nat e eq_refl) as [He Hnz]. rewrite Z.add_0_r in He. rewrite He.
    rewrite (proj2 (Z.eqb_neq _ _)) by done.
    set (l1 := {| base_ := base_ l |}). change (read_pos_ l1) with (u64 (read_pos_ l + 1)) in *.
    assert (E1 : read_pos_ l1 = read_pos_ l + 1).
    { subst l1. simpl. rewrite u64_small; lia. }
    destruct (IH l1) with (fuel := fuel) as (l' & Hl & Hp & Hn); rewrite ?E1; try done; try lia.
    + intros i Hi. specialize (Hin (S i) ltac:(simpl; lia)). subst l1. simpl in *. lia.
    + intros i x Hx. specialize (Hd (S i) x Hx). by replace (read_pos_ l + 1 + Z.of_nat i)
        with (read_pos_ l + Z.of_nat (S i)) by lia.
    + replace (read_pos_ l + 1 + len es) with (read_pos_ l + len (e :: es)) by (unfold len; simpl; lia).
      done.
    + simpl in Hfuel. lia.
    + rewrite Hl. simpl. exists l'. split; [done|]. split; [|done]. rewrite Hp, E1. unfold len. simpl. lia.
Qed.
(** What [close] leaves in the file. *)
Lemma close_data l f es :
  writing l f es ->
  let f' := (close l f).2 in
  (forall i e, es !! i = Some e -> f_data f' (Z.of_nat i) = e) /\
  (es = [] /\ f_size f' = AUDIT_LOG_MAX_SIZE /\ ae_type (f_data f' 0) = AT_OTHER 0 \/
   es <> [] /\ f_size f' = len es * sizeof_AuditEntry).
Proof.
  intros [Hb Hro Hfd Hp Hm Hs Hd]. unfold close. rewrite Hro, Hp.
  rewrite (proj2 (Z.leb_le _ _) Hfd). cbn [snd negb andb].
  assert (AUDIT_LOG_MAX_ENTRIES = 1048576) as HM by reflexivity.
  assert (AUDIT_LOG_MAX_SIZE = 201326592) as HS by reflexivity.
  destruct es as [|e0 es].
  { change (0 <? len []) with false. split; [intros i e; by rewrite lookup_nil|].
    left. split; [done|]. split; [done|]. exact (f_equal ae_type (Hd 0%nat)). }
  assert (0 < len (e0 :: es)) as Hpos by (unfold len; simpl; lia).
  rewrite (proj2 (Z.ltb_lt _ _)) by done. unfold sizeof_AuditEntry in *.
  rewrite u64_small by lia. split; [|by right].
  intros i e He. cbn [f_data truncated]. rewrite Hs, (proj2 (Z.ltb_lt _ _)); [by rewrite Hd, He|].
  apply lookup_lt_Some in He. unfold sizeof_AuditEntry, len in *. lia.
Qed.

(** C29: the audit log round trip.  After a successful open for writing, any
    sequence of logged entries and a close, opening the file for reading and
    reading to the end returns exactly the entries logged, in order, cut off
    silently at the capacity of the log, and then nothing more. *)
Theorem audit_roundtrip l f fd l1 f1 es l2 f2 l3 f3 fd' l4 :
  open_write l f fd true true = (true, l1, f1) -> Forall nonzero es ->
  append_all l1 f1 es = (l2, f2) -> close l2 f2 = (l3, f3) ->
  open_read l3 f3 fd' true true = (true, l4) ->
  exists l5, read_all l4 f3 = Some (take (Z.to_nat AUDIT_LOG_MAX_ENTRIES) es, l5) /\
    read_next l5 f3 = (None, l5) /\ entry_count l2 = Z.min (len es) AUDIT_LOG_MAX_ENTRIES.
Proof.
  intros Ho Hnz Ha Hc Hr. apply open_write_writing in Ho.
  pose proof (append_all_writing es _ _ _ Ho) as Hw. rewrite Ha, app_nil_l in Hw.
  set (kept := take (Z.to_nat AUDIT_LOG_MAX_ENTRIES) es) in *.
  assert (AUDIT_LOG_MAX_ENTRIES = 1048576) as HM by reflexivity.
  assert (Hkl : len kept = Z.min (len es) AUDIT_LOG_MAX_ENTRIES).
  { unfold len, kept. rewrite length_take, HM. lia. }
  assert (Hnk : Forall nonzero kept) by (by apply Forall_take).
  pose proof (close_data _ _ _ Hw) as [Hd Hsz]. rewrite Hc in Hd, Hsz. cbn [snd] in Hd, Hsz.
  unfold open_read in Hr. destruct (Z.ltb_spec fd' 0); [done|]. cbn [negb] in Hr. injection Hr as <-.
  unfold read_all. cbn [max_entries_ read_pos_].
  destruct (read_loop_spec f3 kept
    {| base_ := true; fd_ := fd'; write_pos_ := write_pos_ l3; read_pos_ := 0;
       max_entries_ := f_size f3 / sizeof_AuditEntry; file_size_ := f_size f3; readonly_ := true |})
    with (fuel := S (Z.to_nat (f_size f3 / sizeof_AuditEntry - 0))) as (l5 & H1 & H2 & H3);
    cbn [readonly_ read_pos_ max_entries_]; try done.
  - destruct Hsz as [(_ & -> & _)|[_ ->]]; [done|]. unfold sizeof_AuditEntry.
    rewrite Z.div_mul by lia. lia.
  - intros i Hi. destruct Hsz as [(E & _ & _)|[_ ->]]; [by rewrite E in Hi; simpl in Hi; lia|].
    unfold sizeof_AuditEntry. rewrite Z.div_mul by lia. unfold len. lia.
  - intros i e He. split; [by apply Hd|]. by eapply Forall_lookup_1 in Hnk.
  - destruct Hsz as [(E & _ & Hz)|[_ ->]].
    + right. rewrite E. exact (f_equal AuditEntryType_to_byte Hz).
    + left. unfold sizeof_AuditEntry. rewrite Z.div_mul by lia. lia.
  - rewrite Z.sub_0_r. destruct Hsz as [(-> & _ & _)|[_ ->]]; [simpl; lia|].
    unfold sizeof_AuditEntry. rewrite Z.div_mul by lia. unfold len. lia.
  - exists l5. split; [exact H1|]. split; [exact H3|].
    unfold entry_count. rewrite (wr_pos _ _ _ Hw). exact Hkl.
Qed.

Definition demo_entries : list AuditEntry :=
  [{| ae_type := AT_ORDER; ae_contestant_id := 3; ae_sequence_no := 1; ae_tsc := 10;
      ae_body := B_raw [] |};
   {| ae_type := AT_ACK; ae_contestant_id := 3; ae_sequence_no := 2; ae_tsc := 11;
      ae_body := B_raw [] |}].
Definition empty_file : file := {| f_size := 0; f_data := fun _ => zero_entry |}.

Lemma audit_roundtrip_witness : exists l1 f1 l2 f2 l3 f3 l4 l5,
  open_write new empty_file 3 true true = (true, l1, f1) /\ Forall nonzero demo_entries /\
  append_all l1 f1 demo_entries = (l2, f2) /\ close l2 f2 = (l3, f3) /\
  open_read l3 f3 4 true true = (true, l4) /\
  read_all l4 f3 = Some (take (Z.to_nat AUDIT_LOG_MAX_ENTRIES) demo_entries, l5).
Proof.
  assert (Hn : Forall nonzero demo_entries) by (repeat constructor; discriminate).
  edestruct (audit_roundtrip new empty_file 3 _ _ demo_entries _ _ _ _ 4 _
    eq_refl Hn eq_refl eq_refl eq_refl) as (l5 & H & _).
  eexists _, _, _, _, _, _, _, l5. split; [reflexivity|]. split; [exact Hn|].
  split; [reflexivity|]. split; [reflexivity|]. split; [reflexivity|exact H].
Defined.
End AuditLog.
