(* ===== verification/Validator.v ===== *)
(** The post-run checker (src/exchange/include/exchange/correctness_validator.hpp):
    one pass over the audit log, the violation counters and the score. *)

From S2P Require Import Prelude Protocol AuditLog Xorshift.
From Stdlib Require Import SpecFloat.

(** ** Report *)

Record CorrectnessReport := {
  total_events : Z; total_orders : Z; total_cancels : Z; total_fills : Z; total_acks : Z;
  crossed_book_violations : Z; priority_violations : Z; fill_integrity_errors : Z;
  conservation_errors : Z; position_limit_breaches : Z; self_trade_violations : Z;
  sequence_errors : Z; phantom_fills : Z }.

Definition empty_report : CorrectnessReport :=
  {| total_events := 0; total_orders := 0; total_cancels := 0; total_fills := 0; total_acks := 0;
     crossed_book_violations := 0; priority_violations := 0; fill_integrity_errors := 0;
     conservation_errors := 0; position_limit_breaches := 0; self_trade_violations := 0;
     sequence_errors := 0; phantom_fills := 0 |}.

Definition total_violations (r : CorrectnessReport) : Z :=
  u64 (crossed_book_violations r + priority_violations r + fill_integrity_errors r +
       conservation_errors r + position_limit_breaches r + self_trade_violations r +
       sequence_errors r + phantom_fills r).

(** [std::fmin] and [std::fmax]: a NaN argument is ignored. *)
Definition is_nan (x : spec_float) : bool := match x with S754_nan => true | _ => false end.
Definition fmin (a b : spec_float) : spec_float :=
  if is_nan a then b else if is_nan b then a else if F64.ltb b a then b else a.
Definition fmax (a b : spec_float) : spec_float :=
  if is_nan a then b else if is_nan b then a else if F64.ltb a b then b else a.

Definition correctness_score (r : CorrectnessReport) : spec_float :=
  if total_events r =? 0 then F64.of_Z 1 else
  let violation_rate := F64.div (F64.of_Z (total_violations r)) (F64.of_Z (total_events r)) in
  let score := F64.of_Z 1 in
  let score := F64.sub score (F64.mul violation_rate (F64.of_Z 2)) in
  let score := if 0 <? crossed_book_violations r then F64.sub score (F64.lit 3 10) else score in
  let score := if 0 <? self_trade_violations r then F64.sub score (F64.lit 2 10) else score in
  let score := if 0 <? sequence_errors r then F64.sub score (F64.lit 2 10) else score in
  fmax (F64.of_Z 0) (fmin (F64.of_Z 1) score).

(** ** Replay *)

Definition VAL_MAX_CONTESTANTS : Z := 64.
Definition VAL_MAX_POSITION : Z := 100.

(** Reading a union member other than the one written reads its bytes. *)
Definition body_bytes (b : audit_body) : list Z :=
  match b with
  | B_order o => to_wire o | B_cancel c => to_wire c | B_fill f => to_wire f
  | B_ack a => to_wire a | B_raw bs => bs
  end.
Definition as_order (b : audit_body) : OrderEntry :=
  match b with B_order o => o | _ => of_wire (body_bytes b) end.
Definition as_fill (b : audit_body) : Fill :=
  match b with B_fill f => f | _ => of_wire (body_bytes b) end.

(** The locals of [validate]. *)
Record vstate := {
  v_report : CorrectnessReport; v_positions : arr Z; v_buy : Z; v_sell : Z; v_last_seq : Z;
  v_bid : Z; v_ask : Z }.

Definition vstart : vstate :=
  {| v_report := empty_report; v_positions := fun _ => 0; v_buy := 0; v_sell := 0;
     v_last_seq := 0; v_bid := 0; v_ask := INT64_MAX |}.

Definition inc (x : Z) : Z := u64 (x + 1).

(** Counter updates; the arguments say how much each counter moves. *)
Definition bump (r : CorrectnessReport) (ev ord can fil ack crossed pos sq : bool) : CorrectnessReport :=
  let add (b : bool) x := if b then inc x else x in
  {| total_events := add ev (total_events r); total_orders := add ord (total_orders r);
     total_cancels := add can (total_cancels r); total_fills := add fil (total_fills r);
     total_acks := add ack (total_acks r);
     crossed_book_violations := add crossed (crossed_book_violations r);
     priority_violations := priority_violations r; fill_integrity_errors := fill_integrity_errors r;
     conservation_errors := conservation_errors r;
     position_limit_breaches := add pos (position_limit_breaches r);
     self_trade_violations := self_trade_violations r;
     sequence_errors := add sq (sequence_errors r); phantom_fills := phantom_fills r |}.

(** The event counter and the sequence check. *)
Definition visit_seq (st : vstate) (e : AuditEntry) : vstate :=
  let r := bump (v_report st) true false false false false false false false in
  if 0 <? ae_sequence_no e then
    {| v_report := if ae_sequence_no e <=? v_last_seq st
                   then bump r false false false false false false false true else r;
       v_positions := v_positions st; v_buy := v_buy st; v_sell := v_sell st;
       v_last_seq := ae_sequence_no e; v_bid := v_bid st; v_ask := v_ask st |}
  else {| v_report := r; v_positions := v_positions st; v_buy := v_buy st; v_sell := v_sell st;
          v_last_seq := v_last_seq st; v_bid := v_bid st; v_ask := v_ask st |}.

Definition visit_order (st : vstate) (o : OrderEntry) : vstate :=
  let r := bump (v_report st) false true false false false false false false in
  let limit := bool_decide (oe_order_type o = LIMIT) in
  let up := limit && bool_decide (oe_side o = BUY) && (v_bid st <? oe_price o) in
  let down := limit && bool_decide (oe_side o = SELL) && (oe_price o <? v_ask st) in
  {| v_report := r; v_positions := v_positions st; v_buy := v_buy st; v_sell := v_sell st;
     v_last_seq := v_last_seq st;
     v_bid := if up then oe_price o else v_bid st;
     v_ask := if up then v_ask st else if down then oe_price o else v_ask st |}.

Definition visit_fill (max_position : Z) (st : vstate) (cid : Z) (f : Fill) : vstate :=
  let r := bump (v_report st) false false false true false false false false in
  let buy := bool_decide (fl_side f = BUY) in
  let known := cid <? VAL_MAX_CONTESTANTS in
  let signed_qty := if buy then fl_fill_qty f else i32 (- fl_fill_qty f) in
  let pos := i32 (v_positions st cid + signed_qty) in
  let abs_pos := if 0 <=? pos then pos else i32 (- pos) in
  let r := bump r false false false false false false (known && (max_position <? abs_pos)) false in
  let crossed := (0 <? v_bid st) && (v_ask st <? INT64_MAX) && (v_ask st <=? v_bid st) &&
                 ((fl_fill_price f <? v_ask st) || (v_bid st <? fl_fill_price f)) in
  let r := bump r false false false false false crossed false false in
  {| v_report := r;
     v_positions := if known then (v_positions st).[cid <- pos] else v_positions st;
     v_buy := if buy then i64 (v_buy st + fl_fill_qty f) else v_buy st;
     v_sell := if buy then v_sell st else i64 (v_sell st + fl_fill_qty f);
     v_last_seq := v_last_seq st; v_bid := v_bid st; v_ask := v_ask st |}.

Definition set_report (st : vstate) (r : CorrectnessReport) : vstate :=
  {| v_report := r; v_positions := v_positions st; v_buy := v_buy st; v_sell := v_sell st;
     v_last_seq := v_last_seq st; v_bid := v_bid st; v_ask := v_ask st |}.

(** One turn of the [while]. *)
Definition visit (max_position : Z) (st : vstate) (e : AuditEntry) : vstate :=
  let st := visit_seq st e in
  match ae_type e with
  | AT_ORDER => visit_order st (as_order (ae_body e))
  | AT_CANCEL => set_report st (bump (v_report st) false false true false false false false false)
  | AT_FILL => visit_fill max_position st (ae_contestant_id e) (as_fill (ae_body e))
  | AT_ACK => set_report st (bump (v_report st) false false false false true false false false)
  | _ => st
  end.

Fixpoint validate_loop (fuel : nat) (l : AuditLog.t) (f : file) (max_position : Z) (st : vstate) :
    option (vstate * AuditLog.t) :=
  match fuel with
  | O => None
  | S fuel => match AuditLog.read_next l f with
              | (None, l) => Some (st, l)
              | (Some e, l) => validate_loop fuel l f max_position (visit max_position st e)
              end
  end.

(** The conservation test after the loop. *)
Definition finish (st : vstate) : CorrectnessReport :=
  let r := v_report st in
  {| total_events := total_events r; total_orders := total_orders r;
     total_cancels := total_cancels r; total_fills := total_fills r; total_acks := total_acks r;
     crossed_book_violations := crossed_book_violations r;
     priority_violations := priority_violations r; fill_integrity_errors := fill_integrity_errors r;
     conservation_errors := if v_buy st =? v_sell st then conservation_errors r
                            else inc (conservation_errors r);
     position_limit_breaches := position_limit_breaches r;
     self_trade_violations := self_trade_violations r; sequence_errors := sequence_errors r;
     phantom_fills := phantom_fills r |}.

Definition validate (l : AuditLog.t) (f : file) (max_position : Z) :
    option (CorrectnessReport * AuditLog.t) :=
  let l := AuditLog.reset_read l in
  '(st, l) ← validate_loop (S (Z.to_nat (AuditLog.max_entries_ l))) l f max_position vstart;
  Some (finish st, l).

(** ** What the counters mean *)

Definition signed_qty (f : Fill) : Z := if bool_decide (fl_side f = BUY) then fl_fill_qty f else - fl_fill_qty f.
Definition fill_of (e : AuditEntry) : Fill := as_fill (ae_body e).
Definition is_fill (e : AuditEntry) : bool := match ae_type e with AT_FILL => true | _ => false end.
Definition sum_fills (g : AuditEntry -> Z) (es : list AuditEntry) : Z :=
  zsum ((fun e => if is_fill e then g e else 0) <$> es).

(** A contestant's position, and the quantities bought and sold. *)
Definition net (cid : Z) : list AuditEntry -> Z :=
  sum_fills (fun e => if ae_contestant_id e =? cid then signed_qty (fill_of e) else 0).
Definition bought : list AuditEntry -> Z :=
  sum_fills (fun e => if bool_decide (fl_side (fill_of e) = BUY) then fl_fill_qty (fill_of e) else 0).
Definition sold : list AuditEntry -> Z :=
  sum_fills (fun e => if bool_decide (fl_side (fill_of e) = BUY) then 0 else fl_fill_qty (fill_of e)).
Definition volume : list AuditEntry -> Z := sum_fills (fun e => Z.abs (fl_fill_qty (fill_of e))).

(** The last sequence number, and the best limit prices ever entered. *)
Definition last_seq : list AuditEntry -> Z :=
  foldl (fun s e => if 0 <? ae_sequence_no e then ae_sequence_no e else s) 0.
Definition limit_order (e : AuditEntry) (s : Side) : bool :=
  match ae_type e with
  | AT_ORDER => bool_decide (oe_order_type (as_order (ae_body e)) = LIMIT) &&
                bool_decide (oe_side (as_order (ae_body e)) = s)
  | _ => false
  end.
Definition bid_seen : list AuditEntry -> Z :=
  foldl (fun b e => if limit_order e BUY then Z.max b (oe_price (as_order (ae_body e))) else b) 0.
Definition ask_seen : list AuditEntry -> Z :=
  foldl (fun a e => if limit_order e SELL then Z.min a (oe_price (as_order (ae_body e))) else a) INT64_MAX.

(** A condition on every entry and the entries before it. *)
Definition all_at (P : list AuditEntry -> AuditEntry -> Prop) (es : list AuditEntry) : Prop :=
  forall i e, es !! i = Some e -> P (take i es) e.

Definition seq_ok (pre : list AuditEntry) (e : AuditEntry) : Prop :=
  0 < ae_sequence_no e -> last_seq pre < ae_sequence_no e.
Definition pos_ok (max_position : Z) (pre : list AuditEntry) (e : AuditEntry) : Prop :=
  is_fill e = true -> ae_contestant_id e < VAL_MAX_CONTESTANTS ->
  Z.abs (net (ae_contestant_id e) (pre ++ [e])) <= max_position.
Definition cross_ok (pre : list AuditEntry) (e : AuditEntry) : Prop :=
  is_fill e = true -> 0 < bid_seen pre -> ask_seen pre < INT64_MAX -> ask_seen pre <= bid_seen pre ->
  ask_seen pre <= fl_fill_price (fill_of e) <= bid_seen pre.

Lemma all_at_snoc P es e : all_at P (es ++ [e]) <-> all_at P es /\ P es e.
Proof.
  unfold all_at. split.
  - intros H. split.
    + intros i x Hx. pose proof (lookup_lt_Some _ _ _ Hx). rewrite <- (take_app_le es [e]) by lia.
      apply H. by apply lookup_app_l_Some.
    + rewrite <- (take_app_length es [e]) at 1. apply H. by apply list_lookup_middle.
  - intros [H1 H2] i x Hx. destruct (decide (i < length es)%nat).
    + rewrite take_app_le by lia. apply H1. by rewrite lookup_app_l in Hx.
    + rewrite lookup_app_r in Hx by lia. destruct (i - length es)%nat eqn:E; [|done].
      injection Hx as <-. by rewrite take_app_length' by lia.
Qed.

Lemma sum_fills_snoc g es e : sum_fills g (es ++ [e]) = sum_fills g es + (if is_fill e then g e else 0).
Proof. unfold sum_fills. rewrite fmap_app, zsum_app. simpl. lia. Qed.

Lemma sum_fills_bound g es :
  (forall e, Z.abs (g e) <= Z.abs (fl_fill_qty (fill_of e))) -> Z.abs (sum_fills g es) <= volume es.
Proof.
  intros H. induction es as [|e es IH] using rev_ind; [done|].
  unfold volume in *. rewrite !sum_fills_snoc. specialize (H e). destruct (is_fill e); lia.
Qed.

Lemma net_bound cid es : Z.abs (net cid es) <= volume es.
Proof. apply sum_fills_bound. intros e. unfold signed_qty. repeat case_match; lia. Qed.
Lemma bought_bound es : Z.abs (bought es) <= volume es.
Proof. apply sum_fills_bound. intros e. case_match; lia. Qed.
Lemma sold_bound es : Z.abs (sold es) <= volume es.
Proof. apply sum_fills_bound. intros e. case_match; lia. Qed.

(** A violation counter: it is zero exactly when its condition held throughout. *)
Definition counts (x : Z) (P : Prop) (n : Z) : Prop := 0 <= x <= n /\ (x = 0 <-> P).

#[global] Instance counts_proper : Proper (eq ==> iff ==> eq ==> iff) counts.
Proof. intros x ? <- P Q HPQ n ? <-. unfold counts. by rewrite HPQ. Qed.

Lemma counts_step x P Q n (b : bool) :
  counts x P n -> 0 <= n < 2 ^ 60 -> (b = false <-> Q) -> counts (if b then inc x else x) (P /\ Q) (n + 1).
Proof.
  intros [Hx Hi] Hn Hb. unfold counts, inc. destruct b.
  - rewrite u64_small by lia. split; [lia|]. split; [lia|]. intros [_ HQ]. by apply Hb in HQ.
  - split; [lia|]. rewrite Hi. split; [intros HP; split; [done|by apply Hb]|tauto].
Qed.

Lemma counts_keep x P Q n : counts x P n -> Q -> counts x (P /\ Q) (n + 1).
Proof. intros [Hx Hi] HQ. split; [lia|]. rewrite Hi. tauto. Qed.

(** ** The invariant of the replay *)

Definition elen (es : list AuditEntry) : Z := Z.of_nat (length es).

Record vinv (max_position : Z) (es : list AuditEntry) (st : vstate) : Prop := {
  vi_seq : v_last_seq st = last_seq es;
  vi_bid : v_bid st = bid_seen es;
  vi_ask : v_ask st = ask_seen es;
  vi_pos : forall cid, cid < VAL_MAX_CONTESTANTS -> v_positions st cid = net cid es;
  vi_buy : v_buy st = bought es;
  vi_sell : v_sell st = sold es;
  vi_events : total_events (v_report st) = elen es;
  vi_sequence : counts (sequence_errors (v_report st)) (all_at seq_ok es) (elen es);
  vi_position : counts (position_limit_breaches (v_report st)) (all_at (pos_ok max_position) es) (elen es);
  vi_crossed : counts (crossed_book_violations (v_report st)) (all_at cross_ok es) (elen es);
  vi_rest : priority_violations (v_report st) = 0 /\ fill_integrity_errors (v_report st) = 0 /\
    conservation_errors (v_report st) = 0 /\ self_trade_violations (v_report st) = 0 /\
    phantom_fills (v_report st) = 0 }.

Lemma counts_start P : counts 0 (all_at P []) (elen []).
Proof. split; [done|]. split; [|done]. intros _ i e. by rewrite lookup_nil. Qed.

Lemma vstart_inv mp : vinv mp [] vstart.
Proof. split; try done; apply counts_start. Qed.

(** The sequence check leaves everything else alone. *)
Lemma visit_seq_spec st e es n :
  v_last_seq st = last_seq es -> counts (sequence_errors (v_report st)) (all_at seq_ok es) n ->
  0 <= n < 2 ^ 60 ->
  let st' := visit_seq st e in
  v_last_seq st' = last_seq (es ++ [e]) /\
  counts (sequence_errors (v_report st')) (all_at seq_ok (es ++ [e])) (n + 1) /\
  v_bid st' = v_bid st /\ v_ask st' = v_ask st /\ v_positions st' = v_positions st /\
  v_buy st' = v_buy st /\ v_sell st' = v_sell st /\
  v_report st' = bump (v_report st) true false false false false false false
    ((0 <? ae_sequence_no e) && (ae_sequence_no e <=? v_last_seq st)).
Proof.
  intros Hl Hc Hn. unfold visit_seq. unfold last_seq at 1. rewrite foldl_snoc. fold (last_seq es).
  assert (Hb : (0 <? ae_sequence_no e) && (ae_sequence_no e <=? v_last_seq st) = false <-> seq_ok es e).
  { unfold seq_ok. rewrite <- Hl. rewrite andb_false_iff, Z.ltb_ge, Z.leb_gt. lia. }
  pose proof (counts_step _ _ _ _ _ Hc Hn Hb) as Hs. rewrite all_at_snoc.
  destruct (0 <? ae_sequence_no e); simpl in *; [|done].
  destruct (ae_sequence_no e <=? v_last_seq st); done.
Qed.

(** The conditions an entry that is not a fill satisfies trivially. *)
Lemma not_fill_ok mp es e : is_fill e = false ->
  pos_ok mp es e /\ cross_ok es e /\ (forall g, sum_fills g (es ++ [e]) = sum_fills g es).
Proof.
  intros E. unfold pos_ok, cross_ok. rewrite E. split; [done|]. split; [done|].
  intros g. rewrite sum_fills_snoc, E. lia.
Qed.

Lemma seen_snoc es e : limit_order e BUY = false -> limit_order e SELL = false ->
  bid_seen (es ++ [e]) = bid_seen es /\ ask_seen (es ++ [e]) = ask_seen es.
Proof. intros H1 H2. unfold bid_seen, ask_seen. rewrite !foldl_snoc. by rewrite H1, H2. Qed.

Lemma elen_snoc es e : elen (es ++ [e]) = elen es + 1.
Proof. unfold elen. rewrite length_app. simpl. lia. Qed.

(** A fill: the locals and the two counters it can move. *)
Lemma visit_fill_spec mp st es e :
  (forall cid, cid < VAL_MAX_CONTESTANTS -> v_positions st cid = net cid es) ->
  v_bid st = bid_seen es -> v_ask st = ask_seen es -> v_buy st = bought es -> v_sell st = sold es ->
  is_fill e = true -> volume (es ++ [e]) <= INT32_MAX ->
  exists pos_bad cross_bad,
    (pos_bad = false <-> pos_ok mp es e) /\ (cross_bad = false <-> cross_ok es e) /\
    let st' := visit_fill mp st (ae_contestant_id e) (fill_of e) in
    v_report st' = bump (bump (bump (v_report st) false false false true false false false false)
      false false false false false false pos_bad false) false false false false false cross_bad false false /\
    (forall cid, cid < VAL_MAX_CONTESTANTS -> v_positions st' cid = net cid (es ++ [e])) /\
    v_buy st' = bought (es ++ [e]) /\ v_sell st' = sold (es ++ [e]) /\
    v_bid st' = bid_seen es /\ v_ask st' = ask_seen es /\ v_last_seq st' = v_last_seq st.
Proof.
  intros Hp Hb Ha Hbuy Hsell Hf Hv. unfold visit_fill. cbn [v_report v_positions v_buy v_sell v_bid v_ask v_last_seq].
  set (cid := ae_contestant_id e). set (f := fill_of e).
  assert (Hq : Z.abs (fl_fill_qty f) <= INT32_MAX).
  { pose proof (net_bound 0 es). unfold volume in *. rewrite sum_fills_snoc, Hf in Hv. fold f in Hv. lia. }
  assert (Hnet : net cid (es ++ [e]) = net cid es + signed_qty f).
  { unfold net. rewrite sum_fills_snoc, Hf. unfold cid. by rewrite Z.eqb_refl. }
  assert (Hsg : (if bool_decide (fl_side f = BUY) then fl_fill_qty f else i32 (- fl_fill_qty f)) = signed_qty f).
  { unfold signed_qty. case_match; [done|]. unfold INT32_MAX in *. rewrite i32_small; lia. }
  pose proof (net_bound cid (es ++ [e])) as Hnb. pose proof (bought_bound (es ++ [e])) as Hbb.
  pose proof (sold_bound (es ++ [e])) as Hsb. unfold INT32_MAX in *.
  assert (Hbuy' : bought (es ++ [e]) = bought es + if bool_decide (fl_side f = BUY) then fl_fill_qty f else 0).
  { unfold bought. by rewrite sum_fills_snoc, Hf. }
  assert (Hsell' : sold (es ++ [e]) = sold es + if bool_decide (fl_side f = BUY) then 0 else fl_fill_qty f).
  { unfold sold. by rewrite sum_fills_snoc, Hf. }
  rewrite Hsg, Hb, Ha, Hbuy, Hsell. eexists _, _. split; [|split]; [| |split; [done|split]].
  - unfold pos_ok. fold cid. rewrite Hf. destruct (Z.ltb_spec cid VAL_MAX_CONTESTANTS) as [Hc|Hc];
      cbn [andb]; [|split; [intros _ _; lia|done]].
    rewrite Hp by done. rewrite <- Hnet, i32_small by lia.
    assert ((if 0 <=? net cid (es ++ [e]) then net cid (es ++ [e]) else i32 (- net cid (es ++ [e])))
            = Z.abs (net cid (es ++ [e]))) as ->.
    { destruct (Z.leb_spec 0 (net cid (es ++ [e]))); [lia|]. rewrite i32_small; lia. }
    rewrite Z.ltb_ge. tauto.
  - unfold cross_ok. fold f. rewrite Hf. rewrite !andb_false_iff, orb_false_iff, !Z.ltb_ge, Z.leb_gt. lia.
  - intros c Hc. destruct (Z.ltb_spec cid VAL_MAX_CONTESTANTS) as [Hk|Hk].
    + destruct (decide (c = cid)) as [->|Hne].
      * rewrite upd_eq, Hp by done. rewrite <- Hnet. apply i32_small. lia.
      * rewrite upd_ne by done. rewrite Hp by done. unfold net at 2. rewrite sum_fills_snoc, Hf.
        fold cid. rewrite (proj2 (Z.eqb_neq _ _)) by done. unfold net. lia.
    + rewrite Hp by done. unfold net at 2. rewrite sum_fills_snoc, Hf. fold cid.
      rewrite (proj2 (Z.eqb_neq _ _)) by lia. unfold net. lia.
  - rewrite Hbuy', Hsell' in *. split_and!; try done.
    + case_match; [rewrite i64_small; lia|lia].
    + case_match; [lia|rewrite i64_small; lia].
Qed.

Lemma volume_mono es e : volume es <= volume (es ++ [e]).
Proof. unfold volume. rewrite sum_fills_snoc. case_match; lia. Qed.

Lemma visit_order_seen st es e :
  ae_type e = AT_ORDER -> v_bid st = bid_seen es -> v_ask st = ask_seen es ->
  let st' := visit_order st (as_order (ae_body e)) in
  v_bid st' = bid_seen (es ++ [e]) /\ v_ask st' = ask_seen (es ++ [e]).
Proof.
  intros Ht Hb Ha. unfold visit_order, bid_seen, ask_seen. rewrite !foldl_snoc.
  fold (bid_seen es) (ask_seen es). unfold limit_order. rewrite Ht. cbn [v_bid v_ask].
  rewrite Hb, Ha. set (o := as_order (ae_body e)).
  destruct (bool_decide (oe_order_type o = LIMIT)); cbn [andb]; [|done].
  destruct (oe_side o); simpl; try done.
  - destruct (Z.ltb_spec (bid_seen es) (oe_price o)); split; try done; lia.
  - destruct (Z.ltb_spec (oe_price o) (ask_seen es)); split; try done; lia.
Qed.

Lemma visit_inv mp es st e :
  vinv mp es st -> volume (es ++ [e]) <= INT32_MAX -> elen es < 2 ^ 60 ->
  vinv mp (es ++ [e]) (visit mp st e).
Proof.
  intros [Hseq Hbid Hask Hpos Hbuy Hsell Hev Hcs Hcp Hcc Hrest] Hv Hn.
  assert (Hn' : 0 <= elen es < 2 ^ 60) by (unfold elen in *; lia).
  destruct (visit_seq_spec st e es (elen es) Hseq Hcs Hn') as (H1 & H2 & H3 & H4 & H5 & H6 & H7 & H8).
  unfold visit. set (st1 := visit_seq st e) in *.
  assert (Hev1 : total_events (v_report st1) = elen (es ++ [e])).
  { rewrite H8. cbn [total_events bump]. rewrite Hev, elen_snoc. unfold inc. rewrite u64_small; lia. }
  assert (Hcp1 : position_limit_breaches (v_report st1) = position_limit_breaches (v_report st))
    by (by rewrite H8).
  assert (Hcc1 : crossed_book_violations (v_report st1) = crossed_book_violations (v_report st))
    by (by rewrite H8).
  assert (Hrest1 : priority_violations (v_report st1) = 0 /\ fill_integrity_errors (v_report st1) = 0 /\
    conservation_errors (v_report st1) = 0 /\ self_trade_violations (v_report st1) = 0 /\
    phantom_fills (v_report st1) = 0) by (by rewrite H8).
  rewrite <- Hcp1 in Hcp. rewrite <- Hcc1 in Hcc. rewrite <- elen_snoc with (e := e) in H2.
  destruct (is_fill e) eqn:Hf.
  - assert (ae_type e = AT_FILL) as Et by (unfold is_fill in Hf; by destruct (ae_type e)). rewrite Et.
    destruct (visit_fill_spec mp st1 es e) as (pb & cb & Hpb & Hcb & Hr & Hp' & Hb' & Hs' & Hbd & Hak & Hls);
      try done; try congruence; [by rewrite H5|].
    destruct (seen_snoc es e) as [Es1 Es2]; [by unfold limit_order; rewrite Et..|].
    pose proof (counts_step _ _ _ _ _ Hcp Hn' Hpb) as Hcp'. pose proof (counts_step _ _ _ _ _ Hcc Hn' Hcb) as Hcc'.
    rewrite <- all_at_snoc, <- elen_snoc with (e := e) in Hcp', Hcc'.
    fold (fill_of e). split; rewrite ?Hr; cbn [bump total_events sequence_errors position_limit_breaches
      crossed_book_violations priority_violations fill_integrity_errors conservation_errors
      self_trade_violations phantom_fills]; try done; congruence.
  - destruct (not_fill_ok mp es e Hf) as (Hpk & Hck & Hsum).
    pose proof (counts_keep _ _ _ _ Hcp Hpk) as Hcp'. pose proof (counts_keep _ _ _ _ Hcc Hck) as Hcc'.
    rewrite <- all_at_snoc, <- elen_snoc with (e := e) in Hcp', Hcc'.
    assert (Hpos1 : forall c, c < VAL_MAX_CONTESTANTS -> v_positions st1 c = net c (es ++ [e])).
    { intros c Hc. rewrite H5, Hpos by done. symmetry. apply Hsum. }
    assert (Hbuy1 : v_buy st1 = bought (es ++ [e])) by (rewrite H6, Hbuy; symmetry; apply Hsum).
    assert (Hsell1 : v_sell st1 = sold (es ++ [e])) by (rewrite H7, Hsell; symmetry; apply Hsum).
    destruct (ae_type e) eqn:Et; try (by unfold is_fill in Hf; rewrite Et in Hf);
      try (destruct (seen_snoc es e) as [Es1 Es2]; [by unfold limit_order; rewrite Et..|];
           split; cbn [set_report v_report v_bid v_ask v_positions v_buy v_sell v_last_seq]; try done;
           congruence).
    destruct (visit_order_seen st1 es e Et) as [Es1 Es2]; [congruence..|].
    split; try done.
Qed.

Lemma foldl_inv mp es : volume es <= INT32_MAX -> elen es < 2 ^ 60 ->
  vinv mp es (foldl (visit mp) vstart es).
Proof.
  induction es as [|e es IH] using rev_ind; intros Hv Hn; [apply vstart_inv|].
  rewrite foldl_snoc. pose proof (volume_mono es e). rewrite elen_snoc in Hn.
  apply visit_inv; [apply IH; lia|done|lia].
Qed.

(** The loop is a fold over what the log reads. *)
Lemma validate_loop_fold mp f fuel : forall l st es l',
  AuditLog.read_loop fuel l f = Some (es, l') ->
  validate_loop fuel l f mp st = Some (foldl (visit mp) st es, l').
Proof.
  induction fuel as [|fuel IH]; intros l st es l' Hr; [done|]. cbn [AuditLog.read_loop validate_loop] in *.
  destruct (AuditLog.read_next l f) as [[e|] l1]; [|by simplify_eq].
  destruct (AuditLog.read_loop fuel l1 f) as [[es1 l2]|] eqn:E; [|done]. simpl in Hr.
  injection Hr as <- <-. exact (IH l1 (visit mp st e) es1 l2 E).
Qed.

Lemma validate_fold mp l f es l' :
  AuditLog.read_all (AuditLog.reset_read l) f = Some (es, l') ->
  validate l f mp = Some (finish (foldl (visit mp) vstart es), l').
Proof.
  unfold AuditLog.read_all, validate. cbn [AuditLog.reset_read AuditLog.read_pos_ AuditLog.max_entries_].
  rewrite Z.sub_0_r. intros Hr. erewrite validate_loop_fold by exact Hr. done.
Qed.

(** ** Claims *)

(** C31: what a clean report means.  For a log that reads as the entries [es]
    (traded volume within 32 bits), the replay returns, counts every entry, and
    reports no violation exactly when: numbered entries are strictly
    increasing, bought and sold quantities are equal, every contestant's
    position is within the limit after each of its fills, and every fill that
    follows crossing limit prices lies between the best ask and the best bid
    entered before it. *)
Theorem validate_clean_iff mp l f es l' :
  AuditLog.read_all (AuditLog.reset_read l) f = Some (es, l') ->
  volume es <= INT32_MAX -> elen es < 2 ^ 60 ->
  exists r, validate l f mp = Some (r, l') /\ total_events r = elen es /\
    (total_violations r = 0 <->
       all_at seq_ok es /\ bought es = sold es /\ all_at (pos_ok mp) es /\ all_at cross_ok es).
Proof.
  intros Hr Hv Hn. rewrite (validate_fold mp l f es l' Hr). eexists. split; [done|].
  destruct (foldl_inv mp es Hv Hn) as [_ _ _ _ Hb Hs Hev [Hq1 Hq2] [Hp1 Hp2] [Hc1 Hc2] (Z1 & Z2 & Z3 & Z4 & Z5)].
  split; [done|]. unfold total_violations. cbn [finish crossed_book_violations priority_violations
    fill_integrity_errors conservation_errors position_limit_breaches self_trade_violations
    sequence_errors phantom_fills]. rewrite Z1, Z2, Z3, Z4, Z5, Hb, Hs, <- Hq2, <- Hp2, <- Hc2.
  destruct (Z.eqb_spec (bought es) (sold es)) as [E|E]; unfold inc; rewrite ?(u64_small (0 + 1)) by lia;
    rewrite u64_small by lia; lia.
Qed.

Lemma visit_unchecked mp st e :
  let r := v_report st in let r' := v_report (visit mp st e) in
  priority_violations r' = priority_violations r /\ fill_integrity_errors r' = fill_integrity_errors r /\
  self_trade_violations r' = self_trade_violations r /\ phantom_fills r' = phantom_fills r.
Proof. unfold visit, visit_seq. repeat case_match; done. Qed.

Definition blank_log (f : file) : AuditLog.t :=
  {| AuditLog.base_ := true; AuditLog.fd_ := 3; AuditLog.write_pos_ := 0; AuditLog.read_pos_ := 0;
     AuditLog.max_entries_ := f_size f / sizeof_AuditEntry; AuditLog.file_size_ := f_size f;
     AuditLog.readonly_ := true |}.

(** A file of given entries, as the log leaves it. *)
Definition file_of (es : list AuditEntry) : file :=
  {| f_size := elen es * sizeof_AuditEntry;
     f_data := fun i => if i <? 0 then zero_entry else default zero_entry (es !! Z.to_nat i) |}.

Definition mk_fill (s : Side) (coid p q : Z) : Fill :=
  {| fl_msg_type := FILL; fl_side := s; fl_instrument_id := 0; fl_client_order_id := coid;
     fl_exchange_order_id := 0; fl_fill_price := p; fl_fill_qty := q; fl_remaining_qty := 0;
     fl_fee := 0; fl_realized_pnl := 0; fl_exchange_ts_ns := 0 |}.
Definition mk_entry (ty : AuditEntryType) (cid seq : Z) (b : audit_body) : AuditEntry :=
  {| ae_type := ty; ae_contestant_id := cid; ae_sequence_no := seq; ae_tsc := 0; ae_body := b |}.

(** Contestant 5 trades with itself against orders nobody entered. *)
Definition phantom_log : list AuditEntry :=
  [mk_entry AT_FILL 5 1 (B_fill (mk_fill BUY 100 50 10));
   mk_entry AT_FILL 5 2 (B_fill (mk_fill SELL 100 50 10))].

(** half of the documented checks are not made: whatever the log, the
    priority, fill-integrity, self-trade and phantom-fill counters are zero; and
    a log of fills of a contestant with itself, for orders that were never
    entered, gets a report without violations and the score 1. *)
Theorem validator_unchecked :
  (forall mp es, let r := finish (foldl (visit mp) vstart es) in
     priority_violations r = 0 /\ fill_integrity_errors r = 0 /\
     self_trade_violations r = 0 /\ phantom_fills r = 0) /\
  (exists r l', validate (blank_log (file_of phantom_log)) (file_of phantom_log) VAL_MAX_POSITION
                  = Some (r, l') /\
     total_fills r = 2 /\ total_orders r = 0 /\ total_violations r = 0 /\
     correctness_score r = F64.of_Z 1).
Proof.
  split.
  - intros mp es.
    cbn [finish priority_violations fill_integrity_errors self_trade_violations phantom_fills].
    induction es as [|e es IH] using rev_ind; [done|]. rewrite foldl_snoc.
    destruct (visit_unchecked mp (foldl (visit mp) vstart es) e) as (-> & -> & -> & ->). exact IH.
  - eexists _, _. split; [reflexivity|]. split_and!; vm_compute; reflexivity.
Qed.

(** ** The score *)

Definition leb (a b : spec_float) : bool := SFleb a b.

Lemma ltb_false_leb a b : is_nan a = false -> is_nan b = false -> F64.ltb a b = false -> leb b a = true.
Proof.
  unfold F64.ltb, leb, SFltb, SFleb, is_nan. intros Ha Hb.
  destruct a as [sa|sa| |sa ma ea], b as [sb|sb| |sb mb eb]; try done; simpl;
    repeat match goal with s : bool |- _ => destruct s end; simpl; try done;
    rewrite (Z.compare_antisym ea eb); destruct (Z.compare ea eb); simpl; try done;
    pose proof (Pos.compare_cont_antisym ma mb Eq) as HA; simpl in HA; rewrite <- HA;
    destruct (Pos.compare_cont Eq ma mb); simpl; done.
Qed.

Lemma ltb_leb a b : F64.ltb a b = true -> leb a b = true.
Proof. unfold F64.ltb, leb, SFltb, SFleb. destruct (SFcompare a b) as [[]|]; done. Qed.

(** the score of any report is a number between 0 and 1. *)
Theorem correctness_score_range r :
  leb (F64.of_Z 0) (correctness_score r) = true /\ leb (correctness_score r) (F64.of_Z 1) = true.
Proof.
  unfold correctness_score. destruct (total_events r =? 0); [split; reflexivity|].
  match goal with |- context [fmin _ ?x] => generalize x end. intros s.
  assert (H1 : is_nan (fmin (F64.of_Z 1) s) = false /\ leb (fmin (F64.of_Z 1) s) (F64.of_Z 1) = true).
  { unfold fmin. change (is_nan (F64.of_Z 1)) with false. cbv iota.
    destruct (is_nan s) eqn:En; [split; reflexivity|].
    destruct (F64.ltb s (F64.of_Z 1)) eqn:El; [|split; reflexivity].
    split; [exact En|by apply ltb_leb]. }
  destruct H1 as [Hn Hle]. set (m := fmin (F64.of_Z 1) s) in *. clearbody m.
  unfold fmax. change (is_nan (F64.of_Z 0)) with false. cbv iota. rewrite Hn.
  destruct (F64.ltb (F64.of_Z 0) m) eqn:El; [|split; reflexivity].
  split; [by apply ltb_leb|exact Hle].
Qed.

Lemma validate_clean_iff_witness : exists l' r,
  AuditLog.read_all (AuditLog.reset_read (blank_log (file_of phantom_log))) (file_of phantom_log)
    = Some (phantom_log, l') /\ volume phantom_log <= INT32_MAX /\
  validate (blank_log (file_of phantom_log)) (file_of phantom_log) 100 = Some (r, l') /\
  total_events r = 2.
Proof.
  edestruct (validate_clean_iff 100 (blank_log (file_of phantom_log)) (file_of phantom_log)
    phantom_log _ eq_refl ltac:(discriminate) ltac:(reflexivity)) as (r & H1 & H2 & _).
  eexists _, r. split; [reflexivity|]. split; [discriminate|]. split; [exact H1|exact H2].
Defined.
