(* ===== verification/Shadow.v ===== *)
(** The reference book of the validation stage
    (src/exchange/include/exchange/shadow_orderbook.hpp): an order book that
    replays the contestant's order stream, the fills it expects, and the
    comparison of the contestant's fills with them. *)

From S2P Require Import Prelude Arena Protocol PriceMap OrderBook BookRep BookOps BookMatch BookSpec Xorshift.
From Stdlib Require Import SpecFloat.
Import PriceLevelPool OrderPool OrderBook.

Record ExpectedFill := {
  ef_order_id : Z; ef_fill_price : Z; ef_fill_qty : Z; ef_aggressor_side : Side }.

Record ValidationResult := {
  vr_total_orders : Z; vr_total_expected : Z; vr_total_actual : Z; vr_correct_fills : Z;
  vr_wrong_price : Z; vr_wrong_qty : Z; vr_missing_fills : Z; vr_extra_fills : Z;
  vr_priority_errors : Z; vr_total_acks : Z }.

Definition zero_result : ValidationResult :=
  {| vr_total_orders := 0; vr_total_expected := 0; vr_total_actual := 0; vr_correct_fills := 0;
     vr_wrong_price := 0; vr_wrong_qty := 0; vr_missing_fills := 0; vr_extra_fills := 0;
     vr_priority_errors := 0; vr_total_acks := 0 |}.

Definition shadow_score (r : ValidationResult) : spec_float :=
  if vr_total_expected r =? 0 then F64.of_Z 1 else
  let base := F64.div (F64.of_Z (vr_correct_fills r)) (F64.of_Z (vr_total_expected r)) in
  let penalty := F64.mul (F64.of_Z (vr_priority_errors r)) (F64.lit 1 10) in
  let penalty :=
    if 0 <? vr_total_expected r then
      let extra_ratio := F64.div (F64.of_Z (vr_extra_fills r))
                           (F64.of_Z (u64 (vr_total_expected r + vr_extra_fills r))) in
      let missing_ratio := F64.div (F64.of_Z (vr_missing_fills r)) (F64.of_Z (vr_total_expected r)) in
      F64.add penalty (F64.add (F64.mul extra_ratio (F64.lit 3 10)) (F64.mul missing_ratio (F64.lit 3 10)))
    else penalty in
  let score := F64.sub base penalty in
  if F64.ltb score (F64.of_Z 0) then F64.of_Z 0
  else if F64.ltb (F64.of_Z 1) score then F64.of_Z 1 else score.

Definition SHADOW_MAX_FILLS : Z := 262144.

Module ShadowOrderbook.

Record t := {
  book_ : OrderBook.t; expected_ : arr ExpectedFill; expected_count_ : Z; result_ : ValidationResult }.

Definition init (arena : HugePageArena.t) (mem : arr Order) (s : t) : bool * HugePageArena.t * t :=
  let '(ok, arena, b) := OrderBook.init arena mem (book_ s) in
  let s := {| book_ := b; expected_ := expected_ s; expected_count_ := expected_count_ s;
              result_ := result_ s |} in
  if negb ok then (false, arena, s) else
  let '(p, arena) := HugePageArena.allocate arena 32 32 SHADOW_MAX_FILLS in
  match p with
  | None => (false, arena, s)
  | Some _ => (true, arena, {| book_ := b; expected_ := expected_ s; expected_count_ := 0;
                               result_ := result_ s |})
  end.

Definition count_order (r : ValidationResult) : ValidationResult :=
  {| vr_total_orders := u64 (vr_total_orders r + 1); vr_total_expected := vr_total_expected r;
     vr_total_actual := vr_total_actual r; vr_correct_fills := vr_correct_fills r;
     vr_wrong_price := vr_wrong_price r; vr_wrong_qty := vr_wrong_qty r;
     vr_missing_fills := vr_missing_fills r; vr_extra_fills := vr_extra_fills r;
     vr_priority_errors := vr_priority_errors r; vr_total_acks := vr_total_acks r |}.
Definition count_expected (r : ValidationResult) : ValidationResult :=
  {| vr_total_orders := vr_total_orders r; vr_total_expected := u64 (vr_total_expected r + 1);
     vr_total_actual := vr_total_actual r; vr_correct_fills := vr_correct_fills r;
     vr_wrong_price := vr_wrong_price r; vr_wrong_qty := vr_wrong_qty r;
     vr_missing_fills := vr_missing_fills r; vr_extra_fills := vr_extra_fills r;
     vr_priority_errors := vr_priority_errors r; vr_total_acks := vr_total_acks r |}.

Definition with_result (s : t) (r : ValidationResult) : t :=
  {| book_ := book_ s; expected_ := expected_ s; expected_count_ := expected_count_ s; result_ := r |}.
Definition with_book (s : t) (b : OrderBook.t) : t :=
  {| book_ := b; expected_ := expected_ s; expected_count_ := expected_count_ s; result_ := result_ s |}.

(** The expected fill that a match produces for the order. *)
Definition expect (order : OrderEntry) (f : MatchResult) : ExpectedFill :=
  {| ef_order_id := oe_client_order_id order; ef_fill_price := fill_price f;
     ef_fill_qty := fill_qty f; ef_aggressor_side := oe_side order |}.

(** One turn of the recording loop. *)
Definition record_fill (order : OrderEntry) (s : t) (f : MatchResult) : t :=
  if expected_count_ s <? SHADOW_MAX_FILLS then
    {| book_ := book_ s; expected_ := (expected_ s).[expected_count_ s <- expect order f];
       expected_count_ := u32 (expected_count_ s + 1); result_ := count_expected (result_ s) |}
  else s.

Definition known_type (ty : OrderType) : bool :=
  match ty with LIMIT | MARKET | IOC => true | OTYPE_OTHER _ => false end.

(** The price [process_order] matches at. *)
Definition limit_of (order : OrderEntry) : Z :=
  if bool_decide (oe_order_type order = MARKET)
  then (if is_buy (oe_side order) then INT64_MAX else 0) else oe_price order.

(** [process_order]; [ts] is the time stamp counter read before resting. *)
Definition process_order (s : t) (order : OrderEntry) (ts : Z) : option t :=
  let s := with_result s (count_order (result_ s)) in
  if known_type (oe_order_type order) then
    '(fills, b) ← match_ (book_ s) (oe_side order) (limit_of order) (oe_quantity order) 0 64;
    let s := foldl (record_fill order) (with_book s b) fills in
    let filled := foldl (fun q f => i32 (q + fill_qty f)) 0 fills in
    let remaining := i32 (oe_quantity order - filled) in
    if (0 <? remaining) && bool_decide (oe_order_type order = LIMIT) then
      '(_, b) ← add_order (book_ s) 0 (oe_client_order_id order) (oe_side order)
                  (oe_price order) remaining ts;
      Some (with_book s b)
    else Some s
  else Some s.

Definition process_cancel (s : t) (cancel : CancelRequest) : t := s.

(** The scan of [validate_fill]: the first unconsumed entry of the order. *)
Fixpoint find_expected (n : nat) (a : arr ExpectedFill) (i order_id : Z) : option Z :=
  match n with
  | O => None
  | S n => if (ef_order_id (a i) =? order_id) && (0 <? ef_fill_qty (a i)) then Some i
           else find_expected n a (i + 1) order_id
  end.

Definition consume (ef : ExpectedFill) : ExpectedFill :=
  {| ef_order_id := ef_order_id ef; ef_fill_price := ef_fill_price ef; ef_fill_qty := 0;
     ef_aggressor_side := ef_aggressor_side ef |}.

Inductive verdict := V_correct | V_wrong_price | V_wrong_qty | V_extra.

Definition judge (ef : ExpectedFill) (price qty : Z) : verdict :=
  if (ef_fill_price ef =? price) && (ef_fill_qty ef =? qty) then V_correct
  else if negb (ef_fill_price ef =? price) then V_wrong_price
  else V_wrong_qty.

Definition tally (r : ValidationResult) (v : verdict) : ValidationResult :=
  let bump (b : bool) x := if b then u64 (x + 1) else x in
  {| vr_total_orders := vr_total_orders r; vr_total_expected := vr_total_expected r;
     vr_total_actual := u64 (vr_total_actual r + 1);
     vr_correct_fills := bump (match v with V_correct => true | _ => false end) (vr_correct_fills r);
     vr_wrong_price := bump (match v with V_wrong_price => true | _ => false end) (vr_wrong_price r);
     vr_wrong_qty := bump (match v with V_wrong_qty => true | _ => false end) (vr_wrong_qty r);
     vr_missing_fills := vr_missing_fills r;
     vr_extra_fills := bump (match v with V_extra => true | _ => false end) (vr_extra_fills r);
     vr_priority_errors := vr_priority_errors r; vr_total_acks := vr_total_acks r |}.

Definition validate_fill (s : t) (order_id price qty : Z) : t :=
  match find_expected (Z.to_nat (expected_count_ s)) (expected_ s) 0 order_id with
  | Some i =>
      {| book_ := book_ s; expected_ := (expected_ s).[i <- consume (expected_ s i)];
         expected_count_ := expected_count_ s;
         result_ := tally (result_ s) (judge (expected_ s i) price qty) |}
  | None => with_result s (tally (result_ s) V_extra)
  end.

(** The loop of [finalize]. *)
Fixpoint count_missing (n : nat) (a : arr ExpectedFill) (i acc : Z) : Z :=
  match n with
  | O => acc
  | S n => count_missing n a (i + 1) (if 0 <? ef_fill_qty (a i) then u64 (acc + 1) else acc)
  end.

Definition finalize (s : t) : t :=
  let r := result_ s in
  with_result s
    {| vr_total_orders := vr_total_orders r; vr_total_expected := vr_total_expected r;
       vr_total_actual := vr_total_actual r; vr_correct_fills := vr_correct_fills r;
       vr_wrong_price := vr_wrong_price r; vr_wrong_qty := vr_wrong_qty r;
       vr_missing_fills := count_missing (Z.to_nat (expected_count_ s)) (expected_ s) 0 (vr_missing_fills r);
       vr_extra_fills := vr_extra_fills r; vr_priority_errors := vr_priority_errors r;
       vr_total_acks := vr_total_acks r |}.

(** A contestant's fill stream, each fill an order id, a price and a quantity. *)
Definition validate_all (s : t) (fs : list (Z * Z * Z)) : t :=
  foldl (fun s f => validate_fill s f.1.1 f.1.2 f.2) s fs.

(** ** Comparing fills *)

Definition hit (a : arr ExpectedFill) (order_id i : Z) : Prop :=
  ef_order_id (a i) = order_id /\ 0 < ef_fill_qty (a i).

Lemma find_expected_spec n : forall a i id,
  match find_expected n a i id with
  | Some j => i <= j < i + Z.of_nat n /\ hit a id j /\ (forall k, i <= k < j -> ~ hit a id k)
  | None => forall k, i <= k < i + Z.of_nat n -> ~ hit a id k
  end.
Proof.
  induction n as [|n IH]; intros a i id; cbn [find_expected]; [intros k Hk; lia|].
  destruct ((ef_order_id (a i) =? id) && (0 <? ef_fill_qty (a i))) eqn:E.
  - apply andb_true_iff in E as [E1 E2]. apply Z.eqb_eq in E1. apply Z.ltb_lt in E2.
    split; [lia|]. split; [done|]. intros k Hk. lia.
  - assert (Hno : ~ hit a id i).
    { intros [H1 H2]. apply Z.eqb_eq in H1. apply Z.ltb_lt in H2. by rewrite H1, H2 in E. }
    specialize (IH a (i + 1) id). destruct (find_expected n a (i + 1) id) as [j|].
    + destruct IH as (H1 & H2 & H3). split; [lia|]. split; [done|]. intros k Hk.
      destruct (decide (k = i)) as [->|]; [done|]. apply H3. lia.
    + intros k Hk. destruct (decide (k = i)) as [->|]; [done|]. apply IH. lia.
Qed.

(** The entries not yet consumed. *)
Definition live_at (a : arr ExpectedFill) (i : Z) : Z := if 0 <? ef_fill_qty (a i) then 1 else 0.
Definition live (s : t) : Z := zsum (slice (live_at (expected_ s)) (expected_count_ s)).

Lemma live_bounds a n : 0 <= n -> 0 <= zsum (slice (live_at a) n) <= n.
Proof.
  intros Hn. pose proof (zsum_bounds (slice (live_at a) n) 0 1) as H.
  rewrite length_slice, Z.max_r in H by lia. rewrite Z.mul_0_l, Z.mul_1_l in H. apply H.
  intros x (i & _ & <-)%elem_of_slice. unfold live_at. case_match; lia.
Qed.

Lemma live_consume a i n : 0 <= i < n -> 0 < ef_fill_qty (a i) ->
  zsum (slice (live_at (a.[i <- consume (a i)])) n) = zsum (slice (live_at a) n) - 1.
Proof.
  intros Hi Hq. rewrite (slice_ext (live_at (a.[i <- consume (a i)])) ((live_at a).[i <- 0]) n).
  - rewrite slice_upd_sum by done. unfold live_at at 2. rewrite (proj2 (Z.ltb_lt _ _)) by done. lia.
  - intros j Hj. unfold live_at, upd. by destruct (j =? i).
Qed.
(** The counters that classify the fills seen so far. *)
Definition matched (r : ValidationResult) : Z :=
  vr_correct_fills r + vr_wrong_price r + vr_wrong_qty r.

Record tallied (s : t) (n : Z) (total : Z) : Prop := {
  ta_actual : vr_total_actual (result_ s) = n;
  ta_sum : matched (result_ s) + vr_extra_fills (result_ s) = n;
  ta_live : matched (result_ s) + live s = total;
  ta_nonneg : 0 <= vr_correct_fills (result_ s) /\ 0 <= vr_wrong_price (result_ s) /\
    0 <= vr_wrong_qty (result_ s) /\ 0 <= vr_extra_fills (result_ s);
  ta_count : 0 <= expected_count_ s <= SHADOW_MAX_FILLS;
  ta_missing : vr_missing_fills (result_ s) = 0 }.

Lemma judge_found ef p q : judge ef p q <> V_extra.
Proof. unfold judge. repeat case_match; done. Qed.

Lemma validate_fill_tallied s n total id p q :
  tallied s n total -> n < 2 ^ 60 -> tallied (validate_fill s id p q) (n + 1) total.
Proof.
  intros [Ha Hs Hl (H1 & H2 & H3 & H4) Hc Hm] Hn. unfold validate_fill.
  pose proof (find_expected_spec (Z.to_nat (expected_count_ s)) (expected_ s) 0 id) as Hf.
  unfold matched in *. destruct (find_expected _ _ _ _) as [i|].
  - destruct Hf as (Hi & [_ Hq] & _). pose proof (live_consume (expected_ s) i (expected_count_ s) ltac:(lia) Hq) as Hlv.
    pose proof (judge_found (expected_ s i) p q) as Hj. unfold live in *. split; cbn [result_ expected_ expected_count_ tally vr_total_actual vr_correct_fills
      vr_wrong_price vr_wrong_qty vr_extra_fills vr_missing_fills]; unfold matched; cbn [tally vr_correct_fills
      vr_wrong_price vr_wrong_qty]; try done; try (rewrite u64_small; lia);
      unfold live; cbn [expected_ expected_count_];
      destruct (judge (expected_ s i) p q); try done; cbv iota; rewrite ?u64_small by lia; lia.
  - split; cbn [with_result result_ tally vr_total_actual vr_extra_fills vr_missing_fills]; unfold matched;
      cbn [tally vr_correct_fills vr_wrong_price vr_wrong_qty]; try done; cbv iota; rewrite ?u64_small by lia; try lia.
Qed.

Lemma validate_all_tallied fs : forall s n total,
  tallied s n total -> n + Z.of_nat (length fs) < 2 ^ 60 ->
  tallied (validate_all s fs) (n + Z.of_nat (length fs)) total.
Proof.
  induction fs as [|[[id p] q] fs IH]; intros s n total Ht Hn.
  - by rewrite Z.add_0_r.
  - cbn [validate_all foldl]. cbn [length] in *. 
    replace (n + Z.of_nat (S (length fs))) with (n + 1 + Z.of_nat (length fs)) by lia.
    apply IH; [|lia]. apply validate_fill_tallied; [done|lia].
Qed.

Lemma count_missing_live n : forall a i acc,
  0 <= acc -> acc + Z.of_nat n < 2 ^ 60 ->
  count_missing n a i acc = acc + zsum (live_at a <$> seqZ i (Z.of_nat n)).
Proof.
  induction n as [|n IH]; intros a i acc H0 Hb; cbn [count_missing]; [simpl; lia|].
  rewrite (seqZ_cons i) by lia. rewrite fmap_cons. cbn [zsum].
  replace (Z.pred (Z.of_nat (S n))) with (Z.of_nat n) by lia. unfold live_at at 1.
  change (Z.succ i) with (i + 1).
  rewrite IH; destruct (0 <? ef_fill_qty (a i)); rewrite ?u64_small by lia; try lia.
Qed.

(** A validation that has not seen any fill yet. *)
Record unvalidated (s : t) : Prop := {
  un_zero : vr_total_actual (result_ s) = 0 /\ vr_correct_fills (result_ s) = 0 /\
    vr_wrong_price (result_ s) = 0 /\ vr_wrong_qty (result_ s) = 0 /\
    vr_extra_fills (result_ s) = 0 /\ vr_missing_fills (result_ s) = 0;
  un_count : 0 <= expected_count_ s <= SHADOW_MAX_FILLS }.

Lemma unvalidated_tallied s : unvalidated s -> tallied s 0 (live s).
Proof.
  intros [(H1 & H2 & H3 & H4 & H5 & H6) Hc].
  split; unfold matched; rewrite ?H2, ?H3, ?H4, ?H5; lia.
Qed.

Lemma finalize_missing s : 0 <= expected_count_ s <= SHADOW_MAX_FILLS ->
  vr_missing_fills (result_ s) = 0 -> vr_missing_fills (result_ (finalize s)) = live s.
Proof.
  unfold SHADOW_MAX_FILLS. intros Hc Hm. unfold finalize. cbn [with_result result_ vr_missing_fills].
  rewrite Hm, count_missing_live by lia. unfold live, slice. rewrite Z2Nat.id by lia. lia.
Qed.

(** ** Claims *)

(** the verdicts account for every fill and every expectation.  Whatever
    fills a contestant reports, each is counted once, as correct, wrong in
    price, wrong in quantity or extra, and after [finalize] each fill that was
    expected is counted once, as matched by a reported fill or as missing. *)
Theorem shadow_accounting s fs :
  unvalidated s -> Z.of_nat (length fs) < 2 ^ 60 ->
  let r := result_ (finalize (validate_all s fs)) in
  vr_total_actual r = Z.of_nat (length fs) /\
  vr_correct_fills r + vr_wrong_price r + vr_wrong_qty r + vr_extra_fills r = Z.of_nat (length fs) /\
  vr_correct_fills r + vr_wrong_price r + vr_wrong_qty r + vr_missing_fills r = live s.
Proof.
  intros Hu Hn r. pose proof (validate_all_tallied fs s 0 (live s) (unvalidated_tallied s Hu) Hn) as [Ha Hs Hl _ Hc Hm].
  unfold r. rewrite finalize_missing by done. cbn [finalize with_result result_ vr_total_actual
    vr_correct_fills vr_wrong_price vr_wrong_qty vr_extra_fills]. unfold matched in *. lia.
Qed.
(** The fills a faithful contestant reports: the expected ones. *)
Definition reported (a : arr ExpectedFill) (i : Z) : Z * Z * Z :=
  (ef_order_id (a i), ef_fill_price (a i), ef_fill_qty (a i)).

(** [k] of the [n] expected fills have been reported correctly. *)
Record echoed (s : t) (a : arr ExpectedFill) (n k : Z) : Prop := {
  ec_count : expected_count_ s = n;
  ec_done : forall i, 0 <= i < k -> ef_fill_qty (expected_ s i) = 0;
  ec_rest : forall i, k <= i -> expected_ s i = a i;
  ec_correct : vr_correct_fills (result_ s) = k;
  ec_wrong : vr_wrong_price (result_ s) = 0 /\ vr_wrong_qty (result_ s) = 0 /\
    vr_extra_fills (result_ s) = 0 /\ vr_missing_fills (result_ s) = 0 }.

Lemma echo_step s a n k :
  echoed s a n k -> 0 <= k < n -> n <= SHADOW_MAX_FILLS -> 0 < ef_fill_qty (a k) ->
  let f := reported a k in echoed (validate_fill s f.1.1 f.1.2 f.2) a n (k + 1).
Proof.
  intros [Hc Hd Hr Hk (W1 & W2 & W3 & W4)] Hkn Hn Hq. unfold SHADOW_MAX_FILLS in Hn. cbn [reported fst snd].
  unfold validate_fill. rewrite Hc.
  pose proof (find_expected_spec (Z.to_nat n) (expected_ s) 0 (ef_order_id (a k))) as Hf.
  assert (Hhit : hit (expected_ s) (ef_order_id (a k)) k) by (split; by rewrite Hr by lia).
  destruct (find_expected _ _ _ _) as [j|]; [|by destruct (Hf k ltac:(lia))].
  destruct Hf as (Hj & [_ Hjq] & Hfirst).
  assert (j = k) as ->.
  { destruct (Z.lt_trichotomy j k) as [H|[H|H]]; [|done|by destruct (Hfirst k ltac:(lia))].
    rewrite Hd in Hjq by lia. lia. }
  assert (Ej : judge (expected_ s k) (ef_fill_price (a k)) (ef_fill_qty (a k)) = V_correct).
  { unfold judge. rewrite Hr by lia. by rewrite !Z.eqb_refl. }
  rewrite Ej. split; cbn [expected_count_ expected_ result_ tally vr_correct_fills vr_wrong_price
    vr_wrong_qty vr_extra_fills vr_missing_fills]; try done.
  - intros i Hi. destruct (decide (i = k)) as [->|]; [by rewrite upd_eq|].
    rewrite upd_ne by done. apply Hd. lia.
  - intros i Hi. rewrite upd_ne by lia. apply Hr. lia.
  - rewrite Hk, u64_small; lia.
Qed.

Lemma echo_all a n m : forall s k,
  echoed s a n k -> 0 <= k -> k + Z.of_nat m <= n -> n <= SHADOW_MAX_FILLS ->
  (forall i, 0 <= i < n -> 0 < ef_fill_qty (a i)) ->
  echoed (validate_all s (reported a <$> seqZ k (Z.of_nat m))) a n (k + Z.of_nat m).
Proof.
  induction m as [|m IH]; intros s k He Hk Hm Hn Hq.
  - by rewrite Z.add_0_r.
  - rewrite (seqZ_cons k) by lia. rewrite fmap_cons. unfold validate_all. cbn [foldl].
    replace (Z.pred (Z.of_nat (S m))) with (Z.of_nat m) by lia. change (Z.succ k) with (k + 1).
    replace (k + Z.of_nat (S m)) with (k + 1 + Z.of_nat m) by lia.
    apply IH; [|lia..|done]. apply echo_step; [done|lia|done|apply Hq; lia].
Qed.

(** C15: a faithful contestant gets full marks.  If the contestant reports
    exactly the fills the reference book expected, in order, then every one is
    counted correct and nothing is wrong, extra or missing, even when orders
    have several fills or share an identifier. *)
Theorem shadow_faithful s :
  unvalidated s -> (forall i, 0 <= i < expected_count_ s -> 0 < ef_fill_qty (expected_ s i)) ->
  let r := result_ (finalize (validate_all s (slice (reported (expected_ s)) (expected_count_ s)))) in
  vr_correct_fills r = expected_count_ s /\ vr_wrong_price r = 0 /\ vr_wrong_qty r = 0 /\
  vr_extra_fills r = 0 /\ vr_missing_fills r = 0.
Proof.
  intros [(H1 & H2 & H3 & H4 & H5 & H6) Hc] Hq r. set (n := expected_count_ s) in *.
  assert (He : echoed s (expected_ s) n 0) by (split; try done; lia).
  pose proof (echo_all (expected_ s) n (Z.to_nat n) s 0 He ltac:(lia) ltac:(lia) ltac:(lia) Hq) as Ha.
  rewrite Z2Nat.id, Z.add_0_l in Ha by lia.
  change (reported (expected_ s) <$> seqZ 0 n) with (slice (reported (expected_ s)) n) in Ha. destruct Ha as [Ec Ed _ Ek (W1 & W2 & W3 & W4)].
  unfold r. rewrite finalize_missing; [|rewrite Ec; done|done].
  cbn [finalize with_result result_ vr_correct_fills vr_wrong_price vr_wrong_qty vr_extra_fills].
  split_and!; try done. unfold live. rewrite Ec.
  rewrite (slice_ext _ (fun _ => 0)); [unfold slice; generalize (seqZ 0 n)|].
  - intros l. induction l as [|x l IHl]; [done|]. rewrite fmap_cons. cbn [zsum]. lia.
  - intros i Hi. unfold live_at. by rewrite Ed.
Qed.

(** ** Replaying orders *)

Lemma record_all order fs : forall s,
  0 <= expected_count_ s -> expected_count_ s + Z.of_nat (length fs) <= SHADOW_MAX_FILLS ->
  let s' := foldl (record_fill order) s fs in
  book_ s' = book_ s /\ expected_count_ s' = expected_count_ s + Z.of_nat (length fs) /\
  slice (expected_ s') (expected_count_ s') =
    slice (expected_ s) (expected_count_ s) ++ (expect order <$> fs).
Proof.
  induction fs as [|f fs IH]; intros s H0 Hb; cbn [foldl].
  - cbn [length fmap list_fmap]. rewrite app_nil_r. split_and!; [done|lia|done].
  - cbn [length] in Hb. unfold record_fill at 2 4 6 8. unfold SHADOW_MAX_FILLS in *.
    rewrite (proj2 (Z.ltb_lt _ _)) by lia. rewrite u32_small by lia.
    set (s1 := {| book_ := book_ s |}). destruct (IH s1) as (E1 & E2 & E3); simpl; [lia..|].
    rewrite E3, E2. simpl. split_and!; [done|lia|]. rewrite slice_snoc by done.
    rewrite <- (assoc_L (++)). done.
Qed.

Lemma filled_sum fs : forall q, 0 <= q -> (forall f, f ∈ fs -> 0 < fill_qty f) ->
  q + fills_qty fs <= INT32_MAX -> foldl (fun q f => i32 (q + fill_qty f)) q fs = q + fills_qty fs.
Proof.
  unfold fills_qty, INT32_MAX. induction fs as [|f fs IH]; intros q Hq Hp Hb;
    [cbn; lia|]. rewrite fmap_cons in *. cbn [zsum foldl] in *.
  assert (Hpf : forall f', f' ∈ fs -> 0 < fill_qty f') by (intros; apply Hp; by right).
  assert (0 <= zsum (fill_qty <$> fs)).
  { apply zsum_nonneg. intros x (f' & -> & Hf')%list_elem_of_fmap. specialize (Hpf f' Hf'). lia. }
  pose proof (Hp f ltac:(left)). rewrite i32_small by lia. rewrite IH; [lia|lia|done|lia].
Qed.
(** Matching never needs more order slots than before, and writes at most [n] fills. *)
Lemma match_flat_length cross taker n : forall rem F ms F',
  match_flat cross taker rem n F = (ms, F') -> (length F' <= length F /\ length ms <= n)%nat.
Proof.
  induction n as [|n IH]; intros rem F ms F' H; destruct F as [|[[o p] q] F]; cbn [match_flat] in H;
    try (by simplify_eq; simpl; lia). destruct ((0 <? rem) && cross p); [|by simplify_eq; simpl; lia].
  destruct (q <=? rem); [|by simplify_eq; simpl; lia].
  destruct (match_flat cross taker (rem - Z.min rem q) n F) as [ms1 F1] eqn:E. simplify_eq.
  apply IH in E. simpl. lia.
Qed.

Lemma free_top_rep b bid L M : rep b bid L M ->
  free_top (pool_ b) = MAX_ORDERS * 2 - Z.of_nat (length (flat L)) - Z.of_nat (length (flat M)) /\
  0 <= free_top (pool_ b).
Proof.
  intros [_ _ _ _ [Hp Ht Hc _]]. apply Permutation_length in Hp.
  rewrite !length_app, length_seqZ, !length_oids_flat, Hc in Hp.
  pose proof (length_slice (free_list (pool_ b)) (free_top (pool_ b))). unfold MAX_ORDERS in *. lia.
Qed.

(** Resting the remainder. *)
Lemma rest_spec b order q ts L M :
  let own := is_buy (oe_side order) in
  rep b own L M -> accepts b own (oe_price order) q -> free_top (pool_ b) <> 0 -> 0 < q ->
  exists o b' L', add_order b 0 (oe_client_order_id order) (oe_side order) (oe_price order) q ts = Some (o, b') /\
    rep b' own L' M /\ flat L' = insert_flat own (o, oe_price order, q) (flat L).
Proof.
  intros own Hr Hacc Htop Hq. destruct (accepts_can _ _ _ _ _ _ Hr Hacc) as [Hcl Hcs]. destruct Hacc.
  destruct (add_order_spec b own L M (oe_side order) 0 (oe_client_order_id order) (oe_price order) q ts
    Hr eq_refl Htop Hcl Hcs) as (o & b' & L' & H1 & H2 & H3 & _); [done..|]. by exists o, b', L'.
Qed.

(** C14: the expectations are those of a price-time priority book.  On a
    well-formed reference book with right caches and room, an order adds to the
    expected fills exactly the fills of the first 64 steps along the contra
    priority list (at the order's price, or at any price for a market order),
    and the unfilled rest of a limit order, and only that, is entered behind the
    resting orders of its price. *)
Theorem shadow_expects s order ts bids asks :
  book_ok (book_ s) bids asks -> book_fresh (book_ s) bids asks ->
  0 < oe_quantity order <= INT32_MAX -> known_type (oe_order_type order) = true ->
  0 <= expected_count_ s -> expected_count_ s + 64 <= SHADOW_MAX_FILLS ->
  let own := is_buy (oe_side order) in
  accepts (book_ s) own (oe_price order) (oe_quantity order) -> free_top (pool_ (book_ s)) <> 0 ->
  exists fs F s' bids' asks',
    match_flat (acceptable (oe_side order) (limit_of order)) 0 (oe_quantity order) 64
      (flat (lists (negb own) bids asks)) = (fs, F) /\
    process_order s order ts = Some s' /\ book_ok (book_ s') bids' asks' /\
    slice (expected_ s') (expected_count_ s') =
      slice (expected_ s) (expected_count_ s) ++ (expect order <$> fs) /\
    flat (lists (negb own) bids' asks') = F /\
    (if (fills_qty fs <? oe_quantity order) && bool_decide (oe_order_type order = LIMIT)
     then exists o, flat (lists own bids' asks') =
            insert_flat own (o, oe_price order, oe_quantity order - fills_qty fs) (flat (lists own bids asks))
     else lists own bids' asks' = lists own bids asks).
Proof.
  intros Hok Hf Hq Hty H0 Hroom own Hacc Htop.
  apply (book_rep _ (negb own)) in Hok. apply (book_fresh_side _ (negb own)) in Hf as [Hf1 _].
  rewrite negb_involutive in Hok.
  destruct (match_book (book_ s) (oe_side order) (limit_of order) (oe_quantity order) 0 64 _ _ Hok ltac:(lia)) as
    (fs & b & L' & Hm & Hr & Hle & Hms & _ & Hlv & _ & Hflat). fold own in Hr, Hlv, Hflat.
  rewrite negb_involutive in Hlv. destruct (Hflat Hf1) as [Hmf _]. clear Hflat.
  rewrite (match_flat_ext _ _ _ _ (crosses_acceptable _ _)) in Hmf.
  destruct (match_flat_length _ _ _ _ _ _ _ Hmf) as [HlF Hlen]. change entry with (Z * Z * Z)%type in HlF.
  assert (Hlen' : Z.of_nat (length fs) <= 64) by (change (Z.to_nat 64) with 64%nat in Hlen; lia).
  destruct (record_all order fs (with_book (with_result s (count_order (result_ s))) b)) as (E1 & E2 & E3);
    cbn [with_book with_result expected_count_]; [done|lia|].
  cbn [with_book with_result book_ expected_ expected_count_] in E1, E2, E3.
  assert (Hsum : foldl (fun q f => i32 (q + fill_qty f)) 0 fs = fills_qty fs).
  { rewrite filled_sum; [lia|lia| |lia]. intros f Hfin. by destruct (Hms f Hfin). }
  assert (Hn0 : 0 <= fills_qty fs).
  { apply zsum_nonneg. intros x (f & -> & Hfin)%list_elem_of_fmap. destruct (Hms f Hfin). lia. }
  unfold process_order. rewrite Hty. cbn [with_result book_]. rewrite Hm. simpl mbind. cbn iota beta.
  rewrite Hsum, i32_small by (unfold INT32_MAX in *; lia). rewrite E1.
  set (s2 := foldl _ _ fs) in *.
  exists fs, (flat L'). 
  replace (0 <? oe_quantity order - fills_qty fs) with (fills_qty fs <? oe_quantity order)
    by (destruct (Z.ltb_spec (fills_qty fs) (oe_quantity order)), (Z.ltb_spec 0 (oe_quantity order - fills_qty fs)); lia).
  apply rep_swap in Hr. rewrite negb_involutive in Hr.
  destruct ((fills_qty fs <? oe_quantity order) && bool_decide (oe_order_type order = LIMIT)) eqn:Erest.
  - apply andb_true_iff in Erest as [Hlt%Z.ltb_lt _].
    destruct (rest_spec b order (oe_quantity order - fills_qty fs) ts _ _ Hr) as (o & b3 & L3 & Hadd & Hr3 & Hfl3).
    { eapply accepts_levels; [exact Hlv|]. eapply accepts_less; [exact Hacc|lia]. }
    { pose proof (free_top_rep _ _ _ _ Hr). pose proof (free_top_rep _ _ _ _ Hok). lia. }
    { lia. }
    fold own in Hadd. rewrite Hadd. simpl mbind. cbn iota beta. fold own in Hr3, Hfl3. clearbody own.
    exists (with_book s2 b3), (if own then L3 else L'), (if own then L' else L3).
    split; [done|]. split; [done|]. cbn [with_book book_ expected_ expected_count_].
    split; [apply (book_rep b3 own); by destruct own|]. split; [exact E3|].
    split; [by destruct own|]. exists o. by destruct own.
  - clearbody own. exists s2, (if own then lists own bids asks else L'), (if own then L' else lists own bids asks).
    split; [done|]. split; [done|]. split; [rewrite E1; apply (book_rep b own); by destruct own|].
    split; [exact E3|]. by destruct own.
Qed.
(** ** Concrete sessions *)

Definition no_fill : ExpectedFill :=
  {| ef_order_id := 0; ef_fill_price := 0; ef_fill_qty := 0; ef_aggressor_side := BUY |}.
Definition demo_shadow : t :=
  {| book_ := demo_book; expected_ := fun _ => no_fill; expected_count_ := 0; result_ := zero_result |}.

Definition demo_order (sd : Side) (id p q : Z) : OrderEntry :=
  {| oe_msg_type := ORDER_ENTRY; oe_side := sd; oe_order_type := LIMIT; oe_instrument_id := 0;
     oe_client_order_id := id; oe_price := p; oe_quantity := q |}.

Lemma shadow_expects_witness : exists fs F s',
  book_ok (book_ demo_shadow) [] [] /\
  match_flat (acceptable SELL 100) 0 5 64 [] = (fs, F) /\
  process_order demo_shadow (demo_order SELL 7 100 5) 0 = Some s'.
Proof.
  destruct demo_ok as [Hok Hfr].
  destruct (shadow_expects demo_shadow (demo_order SELL 7 100 5) 0 [] [] Hok Hfr
    ltac:(cbn; unfold INT32_MAX; lia) eq_refl ltac:(cbn; lia) ltac:(cbn; unfold SHADOW_MAX_FILLS; lia)
    (demo_accepts SELL 100 5 ltac:(done) ltac:(done)) demo_free)
    as (fs & F & s' & bids' & asks' & H1 & H2 & _).
  exists fs, F, s'. split; [exact Hok|]. split; [exact H1|exact H2].
Defined.

(** Two expected fills of the same order. *)
Definition two_expected : t :=
  {| book_ := demo_book;
     expected_ := fun i => {| ef_order_id := 7; ef_fill_price := 100 + i; ef_fill_qty := 5;
                              ef_aggressor_side := BUY |};
     expected_count_ := 2; result_ := zero_result |}.

Lemma two_expected_unvalidated : unvalidated two_expected.
Proof. split; [split_and!; reflexivity|]. cbn. unfold SHADOW_MAX_FILLS. lia. Qed.

Lemma shadow_accounting_witness : unvalidated two_expected /\
  vr_total_actual (result_ (finalize (validate_all two_expected [(7, 101, 5); (9, 1, 1)]))) = 2.
Proof.
  split; [exact two_expected_unvalidated|].
  exact (proj1 (shadow_accounting two_expected [(7, 101, 5); (9, 1, 1)] two_expected_unvalidated eq_refl)).
Defined.

Lemma shadow_faithful_witness : unvalidated two_expected /\
  vr_correct_fills (result_ (finalize (validate_all two_expected
    (slice (reported (expected_ two_expected)) 2)))) = 2.
Proof.
  split; [exact two_expected_unvalidated|].
  exact (proj1 (shadow_faithful two_expected two_expected_unvalidated
    (fun i _ => eq_refl : 0 < ef_fill_qty (expected_ two_expected i)))).
Defined.

Definition cancel_of (id : Z) : CancelRequest :=
  {| cr_msg_type := CANCEL_REQUEST; cr_client_order_id := id; cr_exchange_order_id := 0 |}.

(** An offer of 5 is entered, cancelled and then asked for: the reference book,
    and the exchange's own book under the same requests. *)
Definition cancelled_offer : option t :=
  s ← process_order demo_shadow (demo_order SELL 7 100 5) 0;
  process_order (process_cancel s (cancel_of 7)) (demo_order BUY 8 100 5) 1.
Definition cancelled_offer_book : option (list MatchResult) :=
  '(o, b) ← add_order demo_book 0 7 SELL 100 5 0;
  '(_, b) ← cancel_order b o;
  '(fs, _) ← match_ b BUY 100 5 0 64; Some fs.

Lemma cancelled_offer_run :
  (s ← cancelled_offer; Some (expected_count_ s, ef_order_id (expected_ s 0), ef_fill_qty (expected_ s 0))) =
  Some (1, 8, 5) /\ cancelled_offer_book = Some [].
Proof. split; vm_compute; reflexivity. Qed.

(** the reference book ignores cancels.  After an offer was cancelled, the
    reference book still expects the next buyer to trade with it, while the
    exchange's book, given the same requests, produces no fill: a correct
    contestant is charged with a missing fill. *)
Theorem shadow_ignores_cancel : exists s,
  cancelled_offer = Some s /\ expected_count_ s = 1 /\ ef_order_id (expected_ s 0) = 8 /\
  ef_fill_qty (expected_ s 0) = 5 /\ cancelled_offer_book = Some [] /\
  (forall s cancel, process_cancel s cancel = s).
Proof.
  destruct cancelled_offer_run as [H1 H2]. destruct cancelled_offer as [s|]; [|discriminate H1].
  injection H1 as E1 E2 E3. exists s. split; [reflexivity|]. split; [exact E1|].
  split; [exact E2|]. split; [exact E3|]. split; [exact H2|]. intros s' c. reflexivity.
Qed.
End ShadowOrderbook.
