(* ===== verification/Spinlock.v ===== *)
(** The locks of src/core/include/core/spinlock.hpp: the ticket lock and the
    sequence lock as step relations over any number of threads (each step one
    atomic access, sequentially consistent), and the multi-producer queue. *)

From S2P Require Import Prelude.

(** The thread table: [nat]-indexed states. *)
Definition set_thread {A} (g : nat -> A) (i : nat) (v : A) : nat -> A :=
  fun j => if decide (j = i) then v else g j.

Lemma set_thread_eq {A} (g : nat -> A) i v : set_thread g i v i = v.
Proof. unfold set_thread. by rewrite decide_True. Qed.
Lemma set_thread_ne {A} (g : nat -> A) i j v : j <> i -> set_thread g i v j = g j.
Proof. intros. unfold set_thread. by rewrite decide_False. Qed.

Lemma u32_near a b : u32 a = u32 b -> a <= b < a + 4294967296 -> a = b.
Proof.
  unfold u32. intros E H. pose proof (Z.div_mod a 4294967296). pose proof (Z.div_mod b 4294967296). lia.
Qed.

Definition zlen {A} (l : list A) : Z := Z.of_nat (length l).
Lemma zlen_snoc {A} (l : list A) x : zlen (l ++ [x]) = zlen l + 1.
Proof. unfold zlen. rewrite length_app. simpl. lia. Qed.

(** ** Ticket lock *)
Module TicketSpinlock.

Record t := { next_ticket_ : Z; now_serving_ : Z }.
Definition new : t := {| next_ticket_ := 0; now_serving_ := 0 |}.

(** The atomic accesses. *)
Definition take_ticket (l : t) : Z * t :=
  (next_ticket_ l, {| next_ticket_ := u32 (next_ticket_ l + 1); now_serving_ := now_serving_ l |}).
Definition unlock (l : t) : t :=
  {| next_ticket_ := next_ticket_ l; now_serving_ := u32 (now_serving_ l + 1) |}.
Definition cas_ticket (l : t) (expected : Z) : bool * t :=
  if next_ticket_ l =? expected
  then (true, {| next_ticket_ := u32 (expected + 1); now_serving_ := now_serving_ l |})
  else (false, l).

(** [lock] and [try_lock] by a thread that runs alone. *)
Definition lock_free (l : t) : bool := next_ticket_ l =? now_serving_ l.
Definition try_lock (l : t) : bool * t := cas_ticket l (now_serving_ l).

(** A thread: outside, spinning with its ticket, between the load and the
    exchange of [try_lock] (with the number of releases at the load), inside. *)
Inductive thread :=
| T_idle
| T_wait (ticket : Z)
| T_try (expected : Z) (seen : Z)
| T_crit.

(** The lock, the threads, the threads in the order of their tickets, the
    threads in the order they entered, and the number of releases. *)
Record conf := {
  lk : t; th : nat -> thread; queue : list nat; served : list nat; released : Z }.

Inductive step : conf -> conf -> Prop :=
| s_ticket c i tk l : th c i = T_idle -> take_ticket (lk c) = (tk, l) ->
    step c {| lk := l; th := set_thread (th c) i (T_wait tk); queue := queue c ++ [i];
              served := served c; released := released c |}
| s_enter c i tk : th c i = T_wait tk -> now_serving_ (lk c) = tk ->
    step c {| lk := lk c; th := set_thread (th c) i T_crit; queue := queue c;
              served := served c ++ [i]; released := released c |}
| s_spin c i tk : th c i = T_wait tk -> now_serving_ (lk c) <> tk -> step c c
| s_try_load c i : th c i = T_idle ->
    step c {| lk := lk c; th := set_thread (th c) i (T_try (now_serving_ (lk c)) (released c));
              queue := queue c; served := served c; released := released c |}
| s_try_win c i e k l : th c i = T_try e k -> cas_ticket (lk c) e = (true, l) ->
    step c {| lk := l; th := set_thread (th c) i T_crit; queue := queue c ++ [i];
              served := served c ++ [i]; released := released c |}
| s_try_fail c i e k l : th c i = T_try e k -> cas_ticket (lk c) e = (false, l) ->
    step c {| lk := l; th := set_thread (th c) i T_idle; queue := queue c;
              served := served c; released := released c |}
| s_unlock c i : th c i = T_crit ->
    step c {| lk := unlock (lk c); th := set_thread (th c) i T_idle; queue := queue c;
              served := served c; released := released c + 1 |}.

Definition start : conf :=
  {| lk := new; th := fun _ => T_idle; queue := []; served := []; released := 0 |}.

(** Fewer than 2^32 tickets are outstanding, and no [try_lock] is overtaken by
    2^32 tickets between its two accesses. *)
Definition bounded (c : conf) : Prop :=
  zlen (queue c) + 1 < released c + 4294967296 /\
  forall i e k, th c i = T_try e k -> zlen (queue c) + 1 < k + 4294967296.

Inductive reach : conf -> Prop :=
| reach_start : reach start
| reach_step c c' : reach c -> step c c' -> bounded c' -> reach c'.

(** *** The invariant *)

Record lock_ok (c : conf) : Prop := {
  l_next : next_ticket_ (lk c) = u32 (zlen (queue c));
  l_serving : now_serving_ (lk c) = u32 (released c);
  l_rel : 0 <= released c <= zlen (served c);
  l_one : zlen (served c) <= released c + 1;
  l_prefix : served c `prefix_of` queue c;
  l_wait : forall i tk, th c i = T_wait tk -> exists k, zlen (served c) <= Z.of_nat k /\
    queue c !! k = Some i /\ tk = u32 (Z.of_nat k);
  l_all : forall k i, zlen (served c) <= Z.of_nat k -> queue c !! k = Some i ->
    th c i = T_wait (u32 (Z.of_nat k));
  l_try : forall i e k, th c i = T_try e k -> e = u32 k /\ k <= released c;
  l_crit : forall i, th c i = T_crit <->
    zlen (served c) = released c + 1 /\ served c !! Z.to_nat (released c) = Some i }.

Lemma start_lock_ok : lock_ok start.
Proof.
  split; simpl; try done; try (unfold zlen; simpl; lia).
  intros i. split; [done|]. intros [H _]. unfold zlen in H. simpl in H. lia.
Qed.

Lemma prefix_len {A} (l k : list A) : l `prefix_of` k -> zlen l <= zlen k.
Proof. intros H%prefix_length. unfold zlen. lia. Qed.

Lemma snoc_lookup {A} (l : list A) x k y : (l ++ [x]) !! k = Some y ->
  l !! k = Some y \/ (Z.of_nat k = zlen l /\ y = x).
Proof.
  unfold zlen. destruct (decide (k < length l)%nat).
  - rewrite lookup_app_l by done. by left.
  - rewrite lookup_app_r by lia. destruct (k - length l)%nat eqn:E; [|done].
    intros [= ->]. right. split; [lia|done].
Qed.

(** A prefix that stops where the next element is known grows by it. *)
Lemma prefix_snoc {A} (l k : list A) x : l `prefix_of` k -> k !! length l = Some x -> l ++ [x] `prefix_of` k.
Proof.
  intros [k' ->] H. rewrite lookup_app_r, Nat.sub_diag in H by lia. destruct k' as [|y k']; [done|].
  injection H as ->. exists k'. by rewrite <- (assoc_L (++)).
Qed.
(** Case analysis on which thread a changed thread table is read at. *)
Ltac thread_cases j i :=
  destruct (decide (j = i)) as [->|];
  [rewrite set_thread_eq in *|rewrite set_thread_ne in * by done].

Lemma ticket_ok c i :
  lock_ok c -> th c i = T_idle ->
  lock_ok {| lk := (take_ticket (lk c)).2; th := set_thread (th c) i (T_wait (next_ticket_ (lk c)));
             queue := queue c ++ [i]; served := served c; released := released c |}.
Proof.
  intros [Hn Hs Hr Ho Hp Hw Ha Ht Hc] Hi. pose proof (prefix_len _ _ Hp) as Hpl.
  split; simpl; try done.
  - rewrite zlen_snoc, Hn. unfold u32. by rewrite Zplus_mod_idemp_l.
  - by apply prefix_app_r.
  - intros j tk H. thread_cases j i.
    + injection H as <-. exists (length (queue c)). split; [unfold zlen in *; lia|].
      split; [by apply list_lookup_middle|]. by rewrite Hn.
    + destruct (Hw j tk H) as (k & H1 & H2 & H3). exists k. split; [done|]. split; [|done].
      by apply lookup_app_l_Some.
  - intros k j Hk H. apply snoc_lookup in H as [H|[E ->]].
    + specialize (Ha k j Hk H). thread_cases j i; [congruence|done].
    + rewrite set_thread_eq, Hn, E. done.
  - intros j e k H. thread_cases j i; [done|by apply Ht in H].
  - intros j. rewrite <- Hc. thread_cases j i; [|done]. by rewrite Hi.
Qed.

Lemma crit_holder c i : lock_ok c -> th c i = T_crit ->
  zlen (served c) = released c + 1 /\ queue c !! Z.to_nat (released c) = Some i.
Proof.
  intros Hok [H1 H2]%(l_crit _ Hok). split; [done|].
  destruct (l_prefix _ Hok) as [k ->]. by apply lookup_app_l_Some.
Qed.

Lemma enter_ok c i tk :
  lock_ok c -> zlen (queue c) < released c + 4294967296 ->
  th c i = T_wait tk -> now_serving_ (lk c) = tk ->
  lock_ok {| lk := lk c; th := set_thread (th c) i T_crit; queue := queue c;
             served := served c ++ [i]; released := released c |}.
Proof.
  intros [Hn Hs Hr Ho Hp Hw Ha Ht Hc] Hb Hi Hsv. pose proof (prefix_len _ _ Hp) as Hpl.
  destruct (Hw i tk Hi) as (k & Hk & Hq & ->). pose proof (lookup_lt_Some _ _ _ Hq) as Hlt.
  assert (released c = Z.of_nat k) as Ek.
  { apply u32_near; [congruence|]. unfold zlen in *. lia. }
  assert (Hsl : zlen (served c) = released c) by lia.
  assert (k = length (served c)) as -> by (unfold zlen in *; lia).
  split; simpl; rewrite ?zlen_snoc; try done; try lia.
  - by apply prefix_snoc.
  - intros j tk' H. thread_cases j i; [done|]. destruct (Hw j tk' H) as (k & H1 & H2 & H3).
    exists k. split; [|done]. destruct (decide (k = length (served c))) as [->|]; [congruence|].
    unfold zlen in *. lia.
  - intros k j Hk' H. specialize (Ha k j ltac:(lia) H). thread_cases j i; [|done].
    rewrite Hi in Ha. injection Ha as E. apply u32_near in E; [lia|].
    pose proof (lookup_lt_Some _ _ _ H). unfold zlen in *. lia.
  - intros j e k H. thread_cases j i; [done|by apply Ht in H].
  - intros j. replace (Z.to_nat (released c)) with (length (served c)) by (unfold zlen in *; lia).
    rewrite list_lookup_middle by done. thread_cases j i.
    + split; [intros _; split; [lia|done]|done].
    + rewrite Hc. split; [intros [? _]; lia|intros [_ [= ->]]; done].
Qed.

Lemma try_load_ok c i :
  lock_ok c -> th c i = T_idle ->
  lock_ok {| lk := lk c; th := set_thread (th c) i (T_try (now_serving_ (lk c)) (released c));
             queue := queue c; served := served c; released := released c |}.
Proof.
  intros [Hn Hs Hr Ho Hp Hw Ha Ht Hc] Hi. split; simpl; try done.
  - intros j tk H. thread_cases j i; [done|by apply Hw].
  - intros k j Hk H. specialize (Ha k j Hk H). thread_cases j i; [congruence|done].
  - intros j e k H. thread_cases j i; [|by apply (Ht j)]. injection H as <- <-. split; [done|lia].
  - intros j. rewrite <- Hc. thread_cases j i; [|done]. by rewrite Hi.
Qed.

Lemma try_win_ok c i e k :
  lock_ok c -> th c i = T_try e k -> zlen (queue c) < k + 4294967296 -> next_ticket_ (lk c) = e ->
  lock_ok {| lk := {| next_ticket_ := u32 (e + 1); now_serving_ := now_serving_ (lk c) |};
             th := set_thread (th c) i T_crit; queue := queue c ++ [i];
             served := served c ++ [i]; released := released c |}.
Proof.
  intros [Hn Hs Hr Ho Hp Hw Ha Ht Hc] Hi Hb He. pose proof (prefix_len _ _ Hp) as Hpl.
  destruct (Ht i e k Hi) as [-> Hk].
  assert (k = zlen (queue c)) as ->.
  { apply u32_near; [congruence|]. lia. }
  assert (El : zlen (served c) = released c) by lia.
  assert (Eq : served c = queue c).
  { destruct Hp as [t0 E]. rewrite E in *. unfold zlen in *. rewrite length_app in *.
    destruct t0; [by rewrite app_nil_r|]. simpl in *. lia. }
  split; simpl; rewrite ?zlen_snoc; try done; try lia.
  - unfold u32. by rewrite Zplus_mod_idemp_l.
  - by rewrite Eq.
  - intros j tk H. thread_cases j i; [done|]. destruct (Hw j tk H) as (m & H1 & H2 & _).
    apply lookup_lt_Some in H2. rewrite <- Eq in H2. unfold zlen in *. lia.
  - intros m j Hm H. apply lookup_lt_Some in H. rewrite length_app in H. simpl in H.
    unfold zlen in *. rewrite Eq in *. lia.
  - intros j e' k' H. thread_cases j i; [done|by apply Ht in H].
  - intros j. replace (Z.to_nat (released c)) with (length (served c)) by (unfold zlen in *; lia).
    rewrite list_lookup_middle by done. thread_cases j i.
    + split; [intros _; split; [lia|done]|done].
    + rewrite Hc. split; [intros [? _]; lia|intros [_ [= ->]]; done].
Qed.

Lemma unlock_ok c i :
  lock_ok c -> th c i = T_crit ->
  lock_ok {| lk := unlock (lk c); th := set_thread (th c) i T_idle; queue := queue c;
             served := served c; released := released c + 1 |}.
Proof.
  intros Hok Hi. destruct (crit_holder c i Hok Hi) as [Hone Hq].
  destruct Hok as [Hn Hs Hr Ho Hp Hw Ha Ht Hc]. pose proof (proj1 (Hc i) Hi) as [_ Hsi].
  split; simpl; try done; try lia.
  - rewrite Hs. unfold u32. by rewrite Zplus_mod_idemp_l.
  - intros j tk H. thread_cases j i; [done|by apply Hw].
  - intros k j Hk H. specialize (Ha k j Hk H). thread_cases j i; [congruence|done].
  - intros j e k H. thread_cases j i; [done|]. destruct (Ht j e k H). split; [done|lia].
  - intros j. split; [|intros [? _]; lia]. thread_cases j i; [done|]. intros H.
    apply Hc in H as [_ H]. congruence.
Qed.

(** A failed [try_lock] only forgets what it loaded. *)
Lemma try_fail_ok c i e k :
  lock_ok c -> th c i = T_try e k ->
  lock_ok {| lk := lk c; th := set_thread (th c) i T_idle; queue := queue c;
             served := served c; released := released c |}.
Proof.
  intros [Hn Hs Hr Ho Hp Hw Ha Ht Hc] Hi. split; simpl; try done.
  - intros j tk H. thread_cases j i; [done|by apply Hw].
  - intros m j Hm H. specialize (Ha m j Hm H). thread_cases j i; [congruence|done].
  - intros j e' k' H. thread_cases j i; [done|by apply Ht in H].
  - intros j. rewrite <- Hc. thread_cases j i; [|done]. by rewrite Hi.
Qed.

Lemma lock_step c c' : lock_ok c -> bounded c -> step c c' -> lock_ok c'.
Proof.
  intros Hok [Hb1 Hb2] Hs.
  destruct Hs as [c i tk l Hi E|c i tk Hi E|c i tk Hi E|c i Hi|c i e k l Hi E|c i e k l Hi E|c i Hi].
  - injection E as <- <-. by apply ticket_ok.
  - eapply enter_ok; [done|lia|done|done].
  - done.
  - by apply try_load_ok.
  - unfold cas_ticket in E. destruct (Z.eqb_spec (next_ticket_ (lk c)) e) as [En|]; [|done].
    injection E as <-. eapply try_win_ok; [done|done| |done]. specialize (Hb2 _ _ _ Hi). lia.
  - unfold cas_ticket in E. destruct (Z.eqb_spec (next_ticket_ (lk c)) e) as [|]; [done|].
    injection E as <-. by eapply try_fail_ok.
  - by apply unlock_ok.
Qed.

Lemma reach_lock_ok c : reach c -> lock_ok c /\ bounded c.
Proof.
  induction 1 as [|c c' Hr [IH Hb] Hs Hb'].
  - split; [apply start_lock_ok|]. split; [unfold zlen; simpl; lia|done].
  - split; [by eapply lock_step|done].
Qed.

(** C16: the ticket lock excludes and is fair.  In every run of any number of
    threads using [lock], [try_lock] and [unlock], wrap-around of the 32-bit
    counters included (with fewer than 2^32 tickets outstanding), at most one
    thread is inside; threads enter in the order in which they drew their
    tickets; and when nobody is inside while somebody waits, the thread whose
    ticket is being served is waiting and can enter. *)
Theorem ticket_lock_fair c :
  reach c ->
  (forall i j, th c i = T_crit -> th c j = T_crit -> i = j) /\
  served c `prefix_of` queue c /\
  ((forall i, th c i <> T_crit) -> zlen (served c) < zlen (queue c) ->
     exists i, queue c !! length (served c) = Some i /\ th c i = T_wait (now_serving_ (lk c))).
Proof.
  intros Hr. destruct (reach_lock_ok c Hr) as [Hok _]. pose proof Hok as [Hn Hs Hrl Ho Hp Hw Ha Ht Hc].
  split; [|split; [done|]].
  - intros i j [_ H1]%Hc [_ H2]%Hc. congruence.
  - intros Hno Hlt.
    destruct (lookup_lt_is_Some_2 (queue c) (length (served c))) as [i Hi]; [unfold zlen in *; lia|].
    exists i. split; [done|]. rewrite (Ha (length (served c)) i ltac:(unfold zlen; lia) Hi), Hs. f_equal. f_equal.
    destruct (decide (zlen (served c) = released c)) as [E|E]; [done|].
    destruct (lookup_lt_is_Some_2 (served c) (Z.to_nat (released c))) as [x Hx]; [unfold zlen in *; lia|].
    destruct (Hno x). apply Hc. split; [lia|done].
Qed.

(** A concrete configuration is within the bounds. *)
Ltac lock_bounds :=
  split; [unfold zlen; cbn; lia|];
  intros ? ? ?; cbn; unfold set_thread; repeat case_decide; try discriminate;
  intros [= <- <-]; unfold zlen; cbn; lia.

(** Thread 0 is inside, thread 1 waits, thread 2 is in the middle of [try_lock]. *)
Lemma contended : exists c, reach c /\ th c 0%nat = T_crit /\ th c 1%nat = T_wait 1 /\
  queue c = [0; 1]%nat /\ served c = [0]%nat.
Proof.
  eassert (H : reach _) by apply reach_start.
  eapply reach_step in H; [|apply (s_ticket _ 0%nat); reflexivity|lock_bounds].
  eapply reach_step in H; [|apply (s_ticket _ 1%nat); reflexivity|lock_bounds].
  eapply reach_step in H; [|apply (s_try_load _ 2%nat); reflexivity|lock_bounds].
  eapply reach_step in H; [|eapply (s_enter _ 0%nat); reflexivity|lock_bounds].
  eexists. split; [exact H|]. split_and!; reflexivity.
Qed.

Lemma ticket_lock_fair_witness : exists c, reach c /\ th c 0%nat = T_crit /\
  (forall j, th c j = T_crit -> j = 0%nat) /\ served c `prefix_of` queue c.
Proof.
  destruct contended as (c & Hr & H0 & _ & _).
  destruct (ticket_lock_fair c Hr) as (H1 & H2 & _).
  exists c. split; [exact Hr|]. split; [exact H0|]. split; [|exact H2].
  intros j Hj. exact (H1 j 0%nat Hj H0).
Defined.
End TicketSpinlock.

(** ** Sequence lock *)
Module SeqLock.
Section Words.

(** The protected data is [n] machine words. *)
Context (n : nat).

Record t := { seq_ : Z }.
Definition new : t := {| seq_ := 0 |}.
Definition write_lock (l : t) : t := {| seq_ := u32 (seq_ l + 1) |}.
Definition write_unlock (l : t) : t := {| seq_ := u32 (seq_ l + 1) |}.

(** [read_begin]: the sequences the spin loop loads, until an even one. *)
Fixpoint read_begin (loads : list Z) : option Z :=
  match loads with
  | [] => None
  | s :: loads => if Z.land s 1 =? 0 then Some s else read_begin loads
  end.
Definition read_valid (l : t) (start_seq : Z) : bool := seq_ l =? start_seq.

(** The writer is outside or inside its critical section; a reader is outside,
    has begun (at a given sequence and number of completed half-writes) and
    copied a prefix of the words, or has validated a copy. *)
Inductive reader :=
| R_idle
| R_copy (s : Z) (half : Z) (got : list Z)
| R_done (got : list Z).

(** The lock, the words, the writer, the readers, the number of lock and unlock
    calls, and every version of the words that was published, oldest first. *)
Record conf := {
  lk : t; words : list Z; writing : bool; rd : nat -> reader; half : Z; versions : list (list Z) }.

Inductive step : conf -> conf -> Prop :=
| s_wlock c : writing c = false ->
    step c {| lk := write_lock (lk c); words := words c; writing := true; rd := rd c;
              half := half c + 1; versions := versions c |}
| s_write c i v : writing c = true -> (i < length (words c))%nat ->
    step c {| lk := lk c; words := <[i := v]> (words c); writing := true; rd := rd c;
              half := half c; versions := versions c |}
| s_wunlock c : writing c = true ->
    step c {| lk := write_unlock (lk c); words := words c; writing := false; rd := rd c;
              half := half c + 1; versions := versions c ++ [words c] |}
| s_begin c r s : rd c r = R_idle -> read_begin [seq_ (lk c)] = Some s ->
    step c {| lk := lk c; words := words c; writing := writing c;
              rd := set_thread (rd c) r (R_copy s (half c) []); half := half c; versions := versions c |}
| s_copy c r s h got v : rd c r = R_copy s h got -> words c !! length got = Some v ->
    step c {| lk := lk c; words := words c; writing := writing c;
              rd := set_thread (rd c) r (R_copy s h (got ++ [v])); half := half c; versions := versions c |}
| s_valid c r s h got : rd c r = R_copy s h got -> length got = n -> read_valid (lk c) s = true ->
    step c {| lk := lk c; words := words c; writing := writing c;
              rd := set_thread (rd c) r (R_done got); half := half c; versions := versions c |}
| s_retry c r s h got : rd c r = R_copy s h got -> length got = n -> read_valid (lk c) s = false ->
    step c {| lk := lk c; words := words c; writing := writing c;
              rd := set_thread (rd c) r R_idle; half := half c; versions := versions c |}
| s_leave c r got : rd c r = R_done got ->
    step c {| lk := lk c; words := words c; writing := writing c;
              rd := set_thread (rd c) r R_idle; half := half c; versions := versions c |}.

Definition start (ws : list Z) : conf :=
  {| lk := new; words := ws; writing := false; rd := fun _ => R_idle; half := 0; versions := [ws] |}.

(** No reader is overtaken by 2^31 writes. *)
Definition bounded (c : conf) : Prop :=
  forall r s h got, rd c r = R_copy s h got -> half c < h + 4294967296.

Inductive reach (ws : list Z) : conf -> Prop :=
| reach_start : reach ws (start ws)
| reach_step c c' : reach ws c -> step c c' -> bounded c' -> reach ws c'.

Record seq_ok (c : conf) : Prop := {
  q_seq : seq_ (lk c) = u32 (half c);
  q_half : 0 <= half c;
  q_parity : writing c = negb (Z.even (half c));
  q_len : length (words c) = n;
  q_pub : writing c = false -> last (versions c) = Some (words c);
  q_copy : forall r s h got, rd c r = R_copy s h got ->
    s = u32 h /\ Z.even h = true /\ h <= half c /\ (h = half c -> got `prefix_of` words c);
  q_done : forall r got, rd c r = R_done got -> got ∈ versions c }.

Lemma start_seq_ok ws : length ws = n -> seq_ok (start ws).
Proof. intros H. by split. Qed.

Lemma even_u32 h : Z.land (u32 h) 1 = 0 -> Z.even h = true.
Proof.
  intros H. change 1 with (2 ^ 1 - 1) in H. rewrite land_mask in H by lia. change (2 ^ 1) with 2 in H.
  rewrite Zmod_even in H. assert (E : Z.even (u32 h) = true) by (by destruct (Z.even (u32 h))).
  unfold u32 in E. rewrite (Z.div_mod h 4294967296) by done.
  replace (4294967296 * (h / 4294967296)) with (2 * (2147483648 * (h / 4294967296))) by lia.
  rewrite Z.add_comm. by rewrite Z.even_add_mul_2.
Qed.

Lemma even_succ h : Z.even (h + 1) = negb (Z.even h).
Proof. rewrite Z.even_add. by destruct (Z.even h). Qed.

Lemma u32_succ x : u32 (u32 x + 1) = u32 (x + 1).
Proof. unfold u32. by rewrite Zplus_mod_idemp_l. Qed.

(** The writer's moves: readers that began earlier are now behind. *)
Lemma writer_ok c c' :
  seq_ok c -> rd c' = rd c -> half c' = half c + 1 -> words c' = words c -> writing c' = negb (writing c) ->
  seq_ (lk c') = u32 (seq_ (lk c) + 1) ->
  (writing c' = false -> versions c' = versions c ++ [words c]) ->
  (writing c' = true -> versions c' = versions c) -> seq_ok c'.
Proof.
  intros [H1 H2 H3 H4 H5 H6 H7] E1 E2 E3 E4 E5 E6 E7. split; rewrite ?E1, ?E2, ?E3.
  - by rewrite E5, H1, u32_succ.
  - lia.
  - by rewrite E4, H3, even_succ.
  - done.
  - intros Hw. rewrite (E6 Hw). apply last_snoc.
  - intros r s h got Hr. destruct (H6 r s h got Hr) as (A & B & C & D). split_and!; try done; lia.
  - intros r got Hr. destruct (writing c') eqn:Ew; [rewrite E7 by done|rewrite E6 by done];
      rewrite ?elem_of_app; [|left]; by eapply H7.
Qed.

(** A reader's move. *)
Lemma reader_ok c r v :
  seq_ok c ->
  (forall s h got, v = R_copy s h got ->
     s = u32 h /\ Z.even h = true /\ h <= half c /\ (h = half c -> got `prefix_of` words c)) ->
  (forall got, v = R_done got -> got ∈ versions c) ->
  seq_ok {| lk := lk c; words := words c; writing := writing c; rd := set_thread (rd c) r v;
            half := half c; versions := versions c |}.
Proof.
  intros [H1 H2 H3 H4 H5 H6 H7] Hv1 Hv2. split; simpl; try done.
  - intros r' s h got. destruct (decide (r' = r)) as [->|];
      [rewrite set_thread_eq; apply Hv1|rewrite set_thread_ne by done; apply H6].
  - intros r' got. destruct (decide (r' = r)) as [->|];
      [rewrite set_thread_eq; apply Hv2|rewrite set_thread_ne by done; apply H7].
Qed.

Lemma seq_step c c' : seq_ok c -> bounded c -> step c c' -> seq_ok c'.
Proof.
  intros Hok Hb Hs. pose proof Hok as [H1 H2 H3 H4 H5 H6 H7].
  destruct Hs as [c Hw|c i v Hw Hi|c Hw|c r s Hr Hbg|c r s h got v Hr Hv|c r s h got Hr Hn Hv
    |c r s h got Hr Hn Hv|c r got Hr].
  - apply (writer_ok c); simpl; try done. by rewrite Hw.
  - split; simpl; try done.
    + congruence.
    + by rewrite length_insert.
    + intros r s h got Hr. destruct (H6 r s h got Hr) as (A & B & C & D). split_and!; try done.
      intros ->. rewrite B in H3. simpl in H3. congruence.
  - apply (writer_ok c); simpl; try done. by rewrite Hw.
  - apply reader_ok; try done. intros s' h got [= <- <- <-]. cbn [read_begin] in Hbg.
    destruct (Z.eqb_spec (Z.land (seq_ (lk c)) 1) 0) as [E|]; [|done]. injection Hbg as <-.
    rewrite H1 in *. split_and!; [done|by apply even_u32|lia|]. intros _. apply prefix_nil.
  - destruct (H6 r s h got Hr) as (A & B & C & D). apply reader_ok; try done.
    intros s' h' got' [= <- <- <-]. split_and!; try done. intros E.
    by apply TicketSpinlock.prefix_snoc; [apply D|].
  - destruct (H6 r s h got Hr) as (-> & B & C & D). apply reader_ok; try done. intros got' [= <-].
    apply Z.eqb_eq in Hv. rewrite H1 in Hv. symmetry in Hv. apply u32_near in Hv; [|specialize (Hb _ _ _ _ Hr); lia].
    subst h. assert (got = words c) as ->.
    { destruct (D eq_refl) as [k E]. rewrite E in H4. rewrite length_app in H4.
      destruct k; [by rewrite E, app_nil_r|simpl in H4; lia]. }
    apply last_Some_elem_of, H5. by rewrite H3, B.
  - by apply reader_ok.
  - by apply reader_ok.
Qed.

Lemma reach_seq_ok ws c : length ws = n -> reach ws c -> seq_ok c /\ bounded c.
Proof.
  intros Hn. induction 1 as [|c c' Hr [IH Hb] Hs Hb'].
  - split; [by apply start_seq_ok|done].
  - split; [by eapply seq_step|done].
Qed.

Definition begun_nonneg (c : conf) : Prop :=
  0 <= half c /\ forall r s h got, rd c r = R_copy s h got -> 0 <= h.

Lemma step_nonneg c c' : begun_nonneg c -> step c c' -> begun_nonneg c' /\ half c <= half c'.
Proof.
  intros [H0 Hc] Hs.
  assert (Hset : forall r v, (forall s h got, v = R_copy s h got -> 0 <= h) ->
    forall r' s h got, set_thread (rd c) r v r' = R_copy s h got -> 0 <= h).
  { intros r v Hv r' s h got. unfold set_thread. case_decide; [apply Hv|apply Hc]. }
  destruct Hs as [c Hw|c i v Hw Hi|c Hw|c r s Hr Hbg|c r s h got v Hr Hv|c r s h got Hr Hn Hv
    |c r s h got Hr Hn Hv|c r got Hr]; (split; [split; simpl; [lia|]|simpl; lia]);
    try done; apply Hset; try done.
  - by intros ? ? ? [= _ <- _].
  - intros ? ? ? [= _ <- _]. by eapply Hc.
Qed.

Lemma run_nonneg ws c : rtc step (start ws) c -> begun_nonneg c.
Proof.
  revert c. apply (rtc_ind_r begun_nonneg (start ws)); [by split|].
  intros c c' _ Hs IH. by apply (step_nonneg c c').
Qed.

(** A run with few writes is within the bounds throughout. *)
Lemma reach_few ws c : rtc step (start ws) c -> half c < 4294967296 -> reach ws c.
Proof.
  revert c. apply (rtc_ind_r (fun c => half c < 4294967296 -> reach ws c) (start ws));
    [intros _; apply reach_start|].
  intros c c' Hr Hs IH Hb.
  destruct (step_nonneg c c' (run_nonneg ws c Hr) Hs) as [[H0 Hn] Hm].
  eapply reach_step; [apply IH; lia|done|]. intros r s h got E. specialize (Hn _ _ _ _ E). lia.
Qed.

(** readers of the sequence lock see no torn data.  Whatever the
    interleaving of the writer's word stores with any number of readers (with
    no reader overtaken by 2^31 writes), a copy that passes [read_valid] is one
    of the versions the writer published, the initial one included. *)
Theorem seqlock_snapshot ws c r got :
  length ws = n -> reach ws c -> rd c r = R_done got -> got ∈ versions c.
Proof. intros Hn Hr Hd. destruct (reach_seq_ok ws c Hn Hr) as [Hok _]. by eapply q_done. Qed.

End Words.

(** One more step of the run that [H] records. *)
Tactic Notation "seq_turn" hyp(H) uconstr(rule) :=
  let H' := fresh in
  eassert (H' : rtc (step 2) (start [1; 2]) _)
    by (eapply rtc_r; [exact H|apply rule; first [reflexivity|cbn; lia]]);
  clear H; rename H' into H; cbn [lk words writing rd half versions] in H.

(** A reader copies one word, the writer replaces both, the reader finishes,
    fails to validate, starts again and succeeds. *)
Lemma retried : exists c, reach 2 [1; 2] c /\ rd c 0%nat = R_done [7; 8] /\ versions c = [[1; 2]; [7; 8]].
Proof.
  eassert (H : rtc (step 2) (start [1; 2]) _) by apply rtc_refl.
  seq_turn H (s_begin 2 _ 0%nat 0). seq_turn H (s_copy 2 _ 0%nat 0 0 [] 1). seq_turn H (s_wlock 2).
  seq_turn H (s_write 2 _ 0%nat 7). seq_turn H (s_write 2 _ 1%nat 8). seq_turn H (s_wunlock 2).
  seq_turn H (s_copy 2 _ 0%nat 0 0 [1] 8). seq_turn H (s_retry 2 _ 0%nat 0 0 [1; 8]).
  seq_turn H (s_begin 2 _ 0%nat 2). seq_turn H (s_copy 2 _ 0%nat 2 2 [] 7).
  seq_turn H (s_copy 2 _ 0%nat 2 2 [7] 8). seq_turn H (s_valid 2 _ 0%nat 2 2 [7; 8]).
  eexists. split; [apply reach_few; [exact H|reflexivity]|]. split; reflexivity.
Qed.

Lemma seqlock_snapshot_witness : exists c, reach 2 [1; 2] c /\ [7; 8] ∈ versions c.
Proof.
  destruct retried as (c & Hr & Hd & _). exists c. split; [exact Hr|].
  exact (seqlock_snapshot 2 [1; 2] c 0%nat [7; 8] eq_refl Hr Hd).
Defined.
End SeqLock.

(** ** Multi-producer queue *)
Module MPSCQueue.
Section Queue.
Context {T : Type} (Capacity : Z).

Definition MASK : Z := Capacity - 1.

Record t := { head_ : Z; tail_ : Z; buffer_ : arr T; filled_ : arr bool }.

Definition init (q : t) : t :=
  {| head_ := 0; tail_ := 0; buffer_ := buffer_ q; filled_ := filled_ q |}.

Definition succ (i : Z) : Z := Z.land (u32 (i + 1)) MASK.

(** The exchange of the push loop, the store, and the flag. *)
Definition cas_head (q : t) (cur_head next_head : Z) : bool * t :=
  if head_ q =? cur_head
  then (true, {| head_ := next_head; tail_ := tail_ q; buffer_ := buffer_ q; filled_ := filled_ q |})
  else (false, q).
Definition put (q : t) (i : Z) (x : T) : t :=
  {| head_ := head_ q; tail_ := tail_ q; buffer_ := (buffer_ q).[i <- x]; filled_ := filled_ q |}.
Definition set_filled (q : t) (i : Z) (b : bool) : t :=
  {| head_ := head_ q; tail_ := tail_ q; buffer_ := buffer_ q; filled_ := (filled_ q).[i <- b] |}.
Definition set_tail (q : t) (i : Z) : t :=
  {| head_ := head_ q; tail_ := i; buffer_ := buffer_ q; filled_ := filled_ q |}.

(** [try_push] and [try_pop] by a thread that runs alone; a pop of a slot that
    is claimed but not filled spins ([None]). *)
Definition try_push (q : t) (item : T) : bool * t :=
  let cur_head := head_ q in
  let next_head := succ cur_head in
  if next_head =? tail_ q then (false, q)
  else
    let q := (cas_head q cur_head next_head).2 in
    (true, set_filled (put q cur_head item) cur_head true).
Definition try_pop (q : t) : option (option T * t) :=
  let cur_tail := tail_ q in
  if cur_tail =? head_ q then Some (None, q)
  else if negb (filled_ q cur_tail) then None
  else
    let item := buffer_ q cur_tail in
    let q := set_filled q cur_tail false in
    Some (Some item, set_tail q (succ cur_tail)).

(** A producer inside [try_push]: it has loaded the head, has seen that the
    queue is not full, has claimed its slot, has stored its item. *)
Inductive producer :=
| P_idle
| P_head (item : T) (cur_head : Z)
| P_room (item : T) (cur_head : Z)
| P_claimed (item : T) (cur_head : Z)
| P_stored (cur_head : Z).

Record conf := { q_ : t; ps : nat -> producer; pushed : list T; popped : list T }.

(** The producers' accesses interleave freely; the runs considered are those in
    which the consumer's [try_pop] is not interrupted. *)
Inductive step : conf -> conf -> Prop :=
| s_load c i x : ps c i = P_idle ->
    step c {| q_ := q_ c; ps := set_thread (ps c) i (P_head x (head_ (q_ c))); pushed := pushed c; popped := popped c |}
| s_full c i x h : ps c i = P_head x h -> succ h = tail_ (q_ c) ->
    step c {| q_ := q_ c; ps := set_thread (ps c) i P_idle; pushed := pushed c; popped := popped c |}
| s_room c i x h : ps c i = P_head x h -> succ h <> tail_ (q_ c) ->
    step c {| q_ := q_ c; ps := set_thread (ps c) i (P_room x h); pushed := pushed c; popped := popped c |}
| s_claim c i x h q : ps c i = P_room x h -> cas_head (q_ c) h (succ h) = (true, q) ->
    step c {| q_ := q; ps := set_thread (ps c) i (P_claimed x h); pushed := pushed c; popped := popped c |}
| s_lost c i x h q : ps c i = P_room x h -> cas_head (q_ c) h (succ h) = (false, q) ->
    step c {| q_ := q; ps := set_thread (ps c) i (P_head x (head_ q)); pushed := pushed c; popped := popped c |}
| s_put c i x h : ps c i = P_claimed x h ->
    step c {| q_ := put (q_ c) h x; ps := set_thread (ps c) i (P_stored h); pushed := pushed c ++ [x]; popped := popped c |}
| s_fill c i h : ps c i = P_stored h ->
    step c {| q_ := set_filled (q_ c) h true; ps := set_thread (ps c) i P_idle; pushed := pushed c; popped := popped c |}
| s_pop c x q : try_pop (q_ c) = Some (Some x, q) ->
    step c {| q_ := q; ps := ps c; pushed := pushed c; popped := popped c ++ [x] |}.

Definition start (x0 : T) : conf :=
  {| q_ := {| head_ := 0; tail_ := 0; buffer_ := fun _ => x0; filled_ := fun _ => false |};
     ps := fun _ => P_idle; pushed := []; popped := [] |}.

(** *** Without interference *)

Context (k : Z) (Hk : 0 <= k <= 31) (HC : Capacity = 2 ^ k).

(** The queue holds [l], oldest first. *)
Record holds (q : t) (l : list T) : Prop := {
  h_tail : 0 <= tail_ q < Capacity;
  h_head : head_ q = (tail_ q + zlen l) mod Capacity;
  h_len : zlen l < Capacity;
  h_data : forall i x, l !! i = Some x ->
    buffer_ q ((tail_ q + Z.of_nat i) mod Capacity) = x /\
    filled_ q ((tail_ q + Z.of_nat i) mod Capacity) = true }.

Lemma mpsc_cap : 0 < Capacity <= 2147483648.
Proof.
  rewrite HC. split; [apply Z.pow_pos_nonneg; lia|].
  change 2147483648 with (2 ^ 31). apply Z.pow_le_mono_r; lia.
Qed.

Lemma succ_mod i : 0 <= i < Capacity -> succ i = (i + 1) mod Capacity.
Proof.
  intros Hi. pose proof mpsc_cap. unfold succ, MASK. rewrite u32_small by lia.
  rewrite HC at 1. rewrite land_mask by lia. by rewrite <- HC.
Qed.

Lemma mod_near a b : a mod Capacity = b mod Capacity -> a <= b < a + Capacity -> a = b.
Proof.
  pose proof mpsc_cap. intros E Hd. pose proof (Z.div_mod a Capacity). pose proof (Z.div_mod b Capacity).
  assert (a / Capacity = b / Capacity) by nia. nia.
Qed.

Lemma push_holds q l x : holds q l ->
  if zlen l =? Capacity - 1 then try_push q x = (false, q)
  else exists q', try_push q x = (true, q') /\ holds q' (l ++ [x]).
Proof.
  intros [Ht Hh Hl Hd]. pose proof mpsc_cap as HCb. unfold try_push.
  assert (Hh0 : 0 <= head_ q < Capacity) by (rewrite Hh; apply Z.mod_pos_bound; lia).
  assert (Hs : succ (head_ q) = (tail_ q + (zlen l + 1)) mod Capacity).
  { rewrite succ_mod, Hh by done. rewrite Zplus_mod_idemp_l. f_equal. lia. }
  assert (Ht' : tail_ q = tail_ q mod Capacity) by (by rewrite Z.mod_small).
  assert (H0 : 0 <= zlen l) by (unfold zlen; lia).
  destruct (Z.eqb_spec (zlen l) (Capacity - 1)) as [E|E].
  - rewrite (proj2 (Z.eqb_eq _ _)); [done|]. rewrite Hs, E.
    replace (tail_ q + (Capacity - 1 + 1)) with (tail_ q + 1 * Capacity) by lia.
    rewrite Z.mod_add by lia. by rewrite <- Ht'.
  - rewrite (proj2 (Z.eqb_neq _ _)).
    2:{ rewrite Hs. intros Eq. rewrite Ht' in Eq at 2. symmetry in Eq. apply mod_near in Eq; lia. }
    unfold cas_head. rewrite Z.eqb_refl. cbn [snd]. eexists. split; [done|].
    split; cbn [tail_ head_ buffer_ filled_ put set_filled]; rewrite ?zlen_snoc; try done; [lia|].
    intros i y Hy. apply TicketSpinlock.snoc_lookup in Hy as [Hy|[Ei ->]].
    + pose proof (lookup_lt_Some _ _ _ Hy). destruct (Hd i y Hy) as [H1 H2].
      rewrite !upd_ne; [done|..]; (rewrite Hh; intros Eq; apply mod_near in Eq; unfold zlen in *; lia).
    + rewrite Ei, <- Hh, !upd_eq. done.
Qed.

Lemma pop_holds q l : holds q l ->
  match l with
  | [] => try_pop q = Some (None, q)
  | x :: l => exists q', try_pop q = Some (Some x, q') /\ holds q' l
  end.
Proof.
  intros [Ht Hh Hl Hd]. pose proof mpsc_cap as HCb. unfold try_pop.
  assert (Ht' : (tail_ q + 0) mod Capacity = tail_ q) by (rewrite Z.add_0_r; by rewrite Z.mod_small).
  destruct l as [|x l].
  - rewrite Hh. change (zlen []) with 0. by rewrite Ht', Z.eqb_refl.
  - assert (El : zlen (x :: l) = zlen l + 1) by (unfold zlen; simpl; lia).
    assert (H0 : 0 <= zlen l) by (unfold zlen; lia).
    rewrite (proj2 (Z.eqb_neq _ _)).
    2:{ rewrite Hh, El. intros Eq. rewrite <- Ht' in Eq at 1. apply mod_near in Eq; lia. }
    destruct (Hd 0%nat x eq_refl) as [H1 H2]. change (Z.of_nat 0) with 0 in *. rewrite Ht' in *. rewrite H1, H2.
    cbn [negb]. eexists. split; [done|]. rewrite succ_mod by done.
    assert (Hm : forall j, ((tail_ q + 1) mod Capacity + j) mod Capacity = (tail_ q + (1 + j)) mod Capacity).
    { intros j. rewrite Zplus_mod_idemp_l. f_equal. lia. }
    split; cbn [tail_ head_ buffer_ filled_ set_filled set_tail].
    + apply Z.mod_pos_bound. lia.
    + rewrite Hm, Hh, El. f_equal. lia.
    + lia.
    + intros i y Hy. pose proof (lookup_lt_Some _ _ _ Hy). destruct (Hd (S i) y Hy) as [A B].
      rewrite Hm. replace (1 + Z.of_nat i) with (Z.of_nat (S i)) by lia. rewrite upd_ne; [done|].
      rewrite <- Ht' at 2. intros Eq. symmetry in Eq. apply mod_near in Eq; unfold zlen in *; lia.
Qed.

(** used by one thread at a time, the multi-producer queue is a FIFO of
    [Capacity - 1] elements: a push fails exactly when that many are queued and
    otherwise appends, a pop fails exactly when none is queued and otherwise
    returns the oldest, and never spins. *)
Theorem mpsc_sequential q l x :
  holds q l ->
  (if zlen l =? Capacity - 1 then try_push q x = (false, q)
   else exists q', try_push q x = (true, q') /\ holds q' (l ++ [x])) /\
  match l with
  | [] => try_pop q = Some (None, q)
  | y :: l => exists q', try_pop q = Some (Some y, q') /\ holds q' l
  end.
Proof. intros H. split; [by apply push_holds|by apply pop_holds]. Qed.

End Queue.

Lemma empty4 : holds 4 (q_ (start 0)) [].
Proof. split; simpl; try done. Qed.

Lemma mpsc_sequential_witness : holds 4 (q_ (start 0)) [] /\
  exists q', try_push 4 (q_ (start 0)) 5 = (true, q') /\ holds 4 q' [5].
Proof.
  split; [exact empty4|].
  exact (proj1 (mpsc_sequential 4 2 ltac:(lia) eq_refl (q_ (start 0)) [] 5 empty4)).
Defined.

(** One more step of the run that [H] records. *)
Tactic Notation "mpsc_turn" hyp(H) uconstr(rule) :=
  let H' := fresh in
  eassert (H' : rtc (step 2) (start 0) _)
    by (eapply rtc_r; [exact H|eapply rule; first [reflexivity|discriminate]]);
  clear H; rename H' into H; cbn [q_ ps pushed popped head_ tail_ cas_head put set_filled set_tail] in H.

(** the multi-producer queue can lose elements.  A producer that is delayed
    between its check for room and its compare-and-swap, while the head index
    goes once around, claims a slot of a full queue: with two slots, after three
    completed pushes and one pop the queue reports empty although two pushed
    elements were never popped. *)
Theorem mpsc_aba_loses : exists c : conf (T := Z),
  rtc (step 2) (start 0) c /\ pushed c = [10; 20; 30] /\ popped c = [10] /\
  (forall i, ps c i = P_idle) /\ try_pop 2 (q_ c) = Some (None, q_ c).
Proof.
  eassert (H : rtc (step 2) (start 0) _) by apply rtc_refl.
  mpsc_turn H (s_load 2 _ 0%nat 30). mpsc_turn H (s_room 2 _ 0%nat 30 0).
  mpsc_turn H (s_load 2 _ 1%nat 10). mpsc_turn H (s_room 2 _ 1%nat 10 0).
  mpsc_turn H (s_claim 2 _ 1%nat 10 0). mpsc_turn H (s_put 2 _ 1%nat 10 0). mpsc_turn H (s_fill 2 _ 1%nat 0).
  mpsc_turn H (s_pop 2).
  mpsc_turn H (s_load 2 _ 1%nat 20). mpsc_turn H (s_room 2 _ 1%nat 20 1).
  mpsc_turn H (s_claim 2 _ 1%nat 20 1). mpsc_turn H (s_put 2 _ 1%nat 20 1). mpsc_turn H (s_fill 2 _ 1%nat 1).
  mpsc_turn H (s_claim 2 _ 0%nat 30 0). mpsc_turn H (s_put 2 _ 0%nat 30 0). mpsc_turn H (s_fill 2 _ 0%nat 0).
  eexists. split; [exact H|]. split; [reflexivity|]. split; [reflexivity|]. split; [|reflexivity].
  intros i. cbn. unfold set_thread. repeat case_decide; reflexivity.
Qed.
End MPSCQueue.
