(* ===== verification/Histogram.v ===== *)
(** The latency histogram (src/core/include/core/hdr_histogram.hpp and
    src/core/src/hdr_histogram.cpp): logarithmic buckets with linear
    sub-buckets, recording, percentiles and the one-pass summary.  The
    mathematical library's [pow] and [log2] are parameters. *)

From S2P Require Import Prelude Xorshift.
From Stdlib Require Import SpecFloat Sorted.

(** [std::floor] and [std::ceil] cast to an integer. *)
Definition floor_Z (x : spec_float) : Z :=
  match x with
  | S754_finite s m e =>
      let v := if s then Z.neg m else Z.pos m in
      if 0 <=? e then v * 2 ^ e else v / 2 ^ (- e)
  | _ => 0
  end.
Definition ceil_Z (x : spec_float) : Z := - floor_Z (SFopp x).

Record HdrHistConfig := { lowest_trackable : Z; highest_trackable : Z; significant_figures : Z }.
Definition default_hist_config : HdrHistConfig :=
  {| lowest_trackable := 1; highest_trackable := 10000000000; significant_figures := 2 |}.

Module HdrHistogram.

Definition MAX_BUCKETS : Z := 4096.

Record t := {
  counts_ : arr Z; total_count_ : Z; min_value_ : Z; max_value_ : Z; total_sum_ : Z;
  lowest_trackable_ : Z; highest_trackable_ : Z; sub_bucket_half_count_magnitude_ : Z;
  sub_bucket_half_count_ : Z; sub_bucket_count_ : Z; sub_bucket_mask_ : Z; unit_magnitude_ : Z;
  bucket_count_ : Z; counts_len_ : Z }.

Record Percentiles := {
  p50 : Z; p90 : Z; p99 : Z; p999 : Z; p_min : Z; p_max : Z; p_total_count : Z; p_mean : spec_float }.

Definition no_percentiles : Percentiles :=
  {| p50 := 0; p90 := 0; p99 := 0; p999 := 0; p_min := 0; p_max := 0; p_total_count := 0;
     p_mean := S754_zero false |}.

Definition new : t :=
  {| counts_ := fun _ => 0; total_count_ := 0; min_value_ := UINT64_MAX; max_value_ := 0;
     total_sum_ := 0; lowest_trackable_ := 1; highest_trackable_ := 10000000000;
     sub_bucket_half_count_magnitude_ := 0; sub_bucket_half_count_ := 0; sub_bucket_count_ := 0;
     sub_bucket_mask_ := 0; unit_magnitude_ := 0; bucket_count_ := 0; counts_len_ := 0 |}.

Definition reset (h : t) : t :=
  {| counts_ := fun i => if (0 <=? i) && (i <? counts_len_ h) then 0 else counts_ h i;
     total_count_ := 0; min_value_ := UINT64_MAX; max_value_ := 0; total_sum_ := 0;
     lowest_trackable_ := lowest_trackable_ h; highest_trackable_ := highest_trackable_ h;
     sub_bucket_half_count_magnitude_ := sub_bucket_half_count_magnitude_ h;
     sub_bucket_half_count_ := sub_bucket_half_count_ h; sub_bucket_count_ := sub_bucket_count_ h;
     sub_bucket_mask_ := sub_bucket_mask_ h; unit_magnitude_ := unit_magnitude_ h;
     bucket_count_ := bucket_count_ h; counts_len_ := counts_len_ h |}.

(** The loop that counts bucket levels; [smallest] doubles, so 64 turns are enough. *)
Fixpoint bucket_loop (fuel : nat) (smallest highest count : Z) : option Z :=
  match fuel with
  | O => None
  | S fuel =>
      if smallest <=? highest then
        if UINT64_MAX / 2 <? smallest then Some count
        else bucket_loop fuel (u64 (Z.shiftl smallest 1)) highest (u64 (count + 1))
      else Some count
  end.

Section Libm.
Context (dpow : spec_float -> spec_float -> spec_float) (dlog2 : spec_float -> spec_float).

Definition init (h : t) (config : HdrHistConfig) : option t :=
  let largest := i64 (2 * F64.trunc (dpow (F64.of_Z 10) (F64.of_Z (significant_figures config)))) in
  let magnitude := ceil_Z (dlog2 (F64.of_Z largest)) in
  let half_magnitude := if 1 <? magnitude then magnitude - 1 else 0 in
  let count := i32 (Z.shiftl 1 (half_magnitude + 1)) in
  let half := Z.quot count 2 in
  let mask := i32 (Z.shiftl (count - 1) (unit_magnitude_ h)) in
  let unit_magnitude := Z.max 0 (floor_Z (dlog2 (F64.of_Z (lowest_trackable config)))) in
  buckets ← bucket_loop 65 (u64 (Z.shiftl count unit_magnitude)) (highest_trackable config) 1;
  let len := u64 ((buckets + 1) * half) in
  let len := if MAX_BUCKETS <? len then MAX_BUCKETS else len in
  Some (reset
    {| counts_ := counts_ h; total_count_ := total_count_ h; min_value_ := min_value_ h;
       max_value_ := max_value_ h; total_sum_ := total_sum_ h;
       lowest_trackable_ := lowest_trackable config; highest_trackable_ := highest_trackable config;
       sub_bucket_half_count_magnitude_ := half_magnitude; sub_bucket_half_count_ := half;
       sub_bucket_count_ := count; sub_bucket_mask_ := mask; unit_magnitude_ := unit_magnitude;
       bucket_count_ := buckets; counts_len_ := len |}).
End Libm.

(** [__builtin_clzll] of a non-zero word. *)
Definition clz64 (v : Z) : Z := 63 - Z.log2 v.

Definition value_to_index (h : t) (value : Z) : Z :=
  if value <? u64 (Z.shiftl (sub_bucket_count_ h) (unit_magnitude_ h))
  then Z.shiftr value (unit_magnitude_ h)
  else
    let leading := clz64 value in
    let bucket_idx := 63 - leading - sub_bucket_half_count_magnitude_ h - unit_magnitude_ h in
    let sub_idx := i32 (i32 (Z.shiftr value (bucket_idx + unit_magnitude_ h)) - sub_bucket_half_count_ h) in
    let idx := u64 (i32 (sub_bucket_half_count_ h * (bucket_idx + 1) + sub_idx)) in
    Z.min idx (u64 (counts_len_ h - 1)).

Definition index_to_value (h : t) (index : Z) : Z :=
  if index <? sub_bucket_count_ h then u64 (Z.shiftl index (unit_magnitude_ h))
  else
    let bucket_idx := index / sub_bucket_half_count_ h - 1 in
    let sub_idx := index mod sub_bucket_half_count_ h + sub_bucket_half_count_ h in
    u64 (Z.shiftl sub_idx (bucket_idx + unit_magnitude_ h)).

Definition record_with_count (h : t) (value count : Z) : t :=
  let idx := value_to_index h value in
  if idx <? counts_len_ h then
    {| counts_ := (counts_ h).[idx <- u64 (counts_ h idx + count)];
       total_count_ := u64 (total_count_ h + count);
       min_value_ := if value <? min_value_ h then value else min_value_ h;
       max_value_ := if max_value_ h <? value then value else max_value_ h;
       total_sum_ := u64 (total_sum_ h + u64 (value * count));
       lowest_trackable_ := lowest_trackable_ h; highest_trackable_ := highest_trackable_ h;
       sub_bucket_half_count_magnitude_ := sub_bucket_half_count_magnitude_ h;
       sub_bucket_half_count_ := sub_bucket_half_count_ h; sub_bucket_count_ := sub_bucket_count_ h;
       sub_bucket_mask_ := sub_bucket_mask_ h; unit_magnitude_ := unit_magnitude_ h;
       bucket_count_ := bucket_count_ h; counts_len_ := counts_len_ h |}
  else h.

Definition record (h : t) (value : Z) : t := record_with_count h value 1.

(** The scan of [percentile]: [n] buckets left from index [i]. *)
Fixpoint scan (n : nat) (h : t) (i cumulative target : Z) : Z :=
  match n with
  | O => max_value_ h
  | S n =>
      let cumulative := u64 (cumulative + counts_ h i) in
      if target <=? cumulative then index_to_value h i
      else scan n h (i + 1) cumulative target
  end.

(** The rank [percentile] looks for. *)
Definition rank_of (h : t) (pct : spec_float) : Z :=
  Z.max 1 (ceil_Z (F64.mul (F64.div pct (F64.of_Z 100)) (F64.of_Z (total_count_ h)))).

Definition percentile (h : t) (pct : spec_float) : Z :=
  if total_count_ h =? 0 then 0
  else scan (Z.to_nat (counts_len_ h)) h 0 0 (rank_of h pct).

(** The loop state of [get_percentiles]: the four values and whether each is found. *)
Record found := { g50 : option Z; g90 : option Z; g99 : option Z; g999 : option Z }.

Definition note (g : option Z) (cumulative target val : Z) : option Z :=
  match g with
  | Some v => Some v
  | None => if target <=? cumulative then Some val else None
  end.

Fixpoint summary_loop (n : nat) (h : t) (i cumulative t50 t90 t99 t999 : Z) (g : found) : found :=
  match n with
  | O => g
  | S n =>
      let cumulative := u64 (cumulative + counts_ h i) in
      let val := index_to_value h i in
      let g := {| g50 := note (g50 g) cumulative t50 val; g90 := note (g90 g) cumulative t90 val;
                  g99 := note (g99 g) cumulative t99 val; g999 := note (g999 g) cumulative t999 val |} in
      match g999 g with
      | Some _ => g
      | None => summary_loop n h (i + 1) cumulative t50 t90 t99 t999 g
      end
  end.

(** The four ranks of the summary. *)
Definition target (h : t) (num den : Z) : Z :=
  ceil_Z (F64.mul (F64.lit num den) (F64.of_Z (total_count_ h))).

Definition get_percentiles (h : t) : Percentiles :=
  if total_count_ h =? 0 then no_percentiles else
  let g := summary_loop (Z.to_nat (counts_len_ h)) h 0 0 (target h 50 100) (target h 90 100)
             (target h 99 100) (target h 999 1000)
             {| g50 := None; g90 := None; g99 := None; g999 := None |} in
  {| p50 := default 0 (g50 g); p90 := default 0 (g90 g); p99 := default 0 (g99 g);
     p999 := default 0 (g999 g); p_min := min_value_ h; p_max := max_value_ h;
     p_total_count := total_count_ h;
     p_mean := F64.div (F64.of_Z (total_sum_ h)) (F64.of_Z (total_count_ h)) |}.
(** ** The bucket geometry *)

(** What [init] establishes: [2^hm] sub-buckets per level, units of [2^um],
    and a count array that holds at least the linear part. *)
Record geometry (h : t) (hm um : Z) : Prop := {
  ge_hm : sub_bucket_half_count_magnitude_ h = hm;
  ge_half : sub_bucket_half_count_ h = 2 ^ hm;
  ge_count : sub_bucket_count_ h = 2 ^ (hm + 1);
  ge_um : unit_magnitude_ h = um;
  ge_hm_range : 0 <= hm;
  ge_um_range : 0 <= um <= 20;
  ge_len : 2 ^ (hm + 1) <= counts_len_ h <= MAX_BUCKETS }.

Lemma geometry_hm h hm um : geometry h hm um -> hm <= 11.
Proof.
  intros [_ _ _ _ H0 _ [H1 H2]]. unfold MAX_BUCKETS in H2. destruct (Z.le_gt_cases hm 11); [done|].
  assert (2 ^ 13 <= 2 ^ (hm + 1)) by (apply Z.pow_le_mono_r; lia). change (2 ^ 13) with 8192 in *. lia.
Qed.

(** The bucket of a value before clamping, on exact integers. *)
Definition bucket_of (hm um v : Z) : Z :=
  if v <? 2 ^ (hm + 1 + um) then v / 2 ^ um
  else 2 ^ hm * (Z.log2 v - hm - um) + v / 2 ^ (Z.log2 v - hm).

(** The least value of a bucket. *)
Definition floor_of (hm um i : Z) : Z :=
  if i <? 2 ^ (hm + 1) then i * 2 ^ um
  else (i mod 2 ^ hm + 2 ^ hm) * 2 ^ (i / 2 ^ hm - 1 + um).

Lemma top_digits v hm : 0 <= hm <= Z.log2 v -> 0 < v ->
  2 ^ hm <= v / 2 ^ (Z.log2 v - hm) < 2 ^ (hm + 1).
Proof.
  intros Hh Hv. destruct (Z.log2_spec v Hv) as [H1 H2]. set (L := Z.log2 v) in *.
  assert (0 < 2 ^ (L - hm)) by (apply Z.pow_pos_nonneg; lia). split.
  - apply Z.div_le_lower_bound; [lia|]. rewrite <- Z.pow_add_r by lia. by replace (L - hm + hm) with L by lia.
  - apply Z.div_lt_upper_bound; [lia|]. rewrite <- Z.pow_add_r by lia.
    by replace (L - hm + (hm + 1)) with (Z.succ L) by lia.
Qed.

Lemma log_large v hm um : 0 <= hm -> 0 <= um -> 2 ^ (hm + 1 + um) <= v ->
  0 < v /\ hm + 1 + um <= Z.log2 v.
Proof.
  intros H1 H2 Hv. assert (0 < 2 ^ (hm + 1 + um)) by (apply Z.pow_pos_nonneg; lia).
  split; [lia|]. apply Z.log2_le_pow2; lia.
Qed.

Lemma bucket_large v hm um : 0 <= hm -> 0 <= um -> 2 ^ (hm + 1 + um) <= v ->
  let b := Z.log2 v - hm - um in let q := v / 2 ^ (Z.log2 v - hm) in
  1 <= b /\ 2 ^ hm <= q < 2 ^ (hm + 1) /\ bucket_of hm um v = 2 ^ hm * b + q /\
  2 ^ (hm + 1) <= bucket_of hm um v.
Proof.
  intros H1 H2 Hv b q. destruct (log_large v hm um H1 H2 Hv) as [Hp HL].
  pose proof (top_digits v hm ltac:(lia) Hp) as Hq. fold q in Hq.
  assert (Hb : bucket_of hm um v = 2 ^ hm * b + q).
  { unfold bucket_of. by rewrite (proj2 (Z.ltb_ge _ _)) by lia. }
  assert (0 < 2 ^ hm) by (apply Z.pow_pos_nonneg; lia).
  assert (E : 2 ^ (hm + 1) = 2 * 2 ^ hm) by (rewrite Z.pow_add_r by lia; lia).
  split; [lia|]. split; [exact Hq|]. split; [exact Hb|]. rewrite Hb, E. subst b. nia.
Qed.

(** The floor of a value's bucket, and how far below the value it is. *)
Lemma floor_bucket v hm um : 0 <= hm -> 0 <= um -> 0 <= v ->
  let r := floor_of hm um (bucket_of hm um v) in
  r <= v /\ (v - r < 2 ^ um \/ (v - r) * 2 ^ hm < v).
Proof.
  intros H1 H2 Hv r. assert (Hu : 0 < 2 ^ um) by (apply Z.pow_pos_nonneg; lia).
  destruct (Z.lt_ge_cases v (2 ^ (hm + 1 + um))) as [Hlt|Hge].
  - assert (Eb : bucket_of hm um v = v / 2 ^ um) by (unfold bucket_of; by rewrite (proj2 (Z.ltb_lt _ _))).
    assert (Hi : v / 2 ^ um < 2 ^ (hm + 1)).
    { apply Z.div_lt_upper_bound; [done|]. rewrite <- Z.pow_add_r by lia. by rewrite (Z.add_comm um). }
    unfold r, floor_of. rewrite Eb, (proj2 (Z.ltb_lt _ _)) by done.
    pose proof (Z.div_mod v (2 ^ um)). pose proof (Z.mod_pos_bound v (2 ^ um) Hu). lia.
  - destruct (log_large v hm um H1 H2 Hge) as [Hp HL].
    destruct (bucket_large v hm um H1 H2 Hge) as (Hb & Hq & Eb & Hlow).
    set (b := Z.log2 v - hm - um) in *. set (q := v / 2 ^ (Z.log2 v - hm)) in *.
    assert (Hh : 0 < 2 ^ hm) by (apply Z.pow_pos_nonneg; lia).
    assert (E2 : 2 ^ (hm + 1) = 2 * 2 ^ hm) by (rewrite Z.pow_add_r by lia; lia).
    assert (Ed : bucket_of hm um v / 2 ^ hm = b + 1 /\ bucket_of hm um v mod 2 ^ hm = q - 2 ^ hm).
    { rewrite Eb. replace (2 ^ hm * b + q) with ((q - 2 ^ hm) + (b + 1) * 2 ^ hm) by lia.
      rewrite Z.div_add, Z.mod_add, Z.div_small, Z.mod_small by lia. lia. }
    destruct Ed as [Ed Em]. unfold r, floor_of. rewrite (proj2 (Z.ltb_ge _ _)) by done.
    rewrite Ed, Em. replace (q - 2 ^ hm + 2 ^ hm) with q by lia.
    replace (b + 1 - 1 + um) with (Z.log2 v - hm) by lia. set (w := 2 ^ (Z.log2 v - hm)) in *.
    assert (Hw : 0 < w) by (apply Z.pow_pos_nonneg; lia).
    pose proof (Z.div_mod v w ltac:(lia)) as Hdm. pose proof (Z.mod_pos_bound v w Hw). fold q in Hdm.
    split; [nia|right]. assert (w * 2 ^ hm <= v).
    { unfold w. rewrite <- Z.pow_add_r by lia. replace (Z.log2 v - hm + hm) with (Z.log2 v) by lia.
      by destruct (Z.log2_spec v Hp). }
    nia.
Qed.

(** Buckets are ordered like the values. *)
Lemma bucket_mono v w hm um : 0 <= hm -> 0 <= um -> 0 <= v <= w -> bucket_of hm um v <= bucket_of hm um w.
Proof.
  intros H1 H2 Hv. assert (Hu : 0 < 2 ^ um) by (apply Z.pow_pos_nonneg; lia).
  assert (Hlin : forall x, x < 2 ^ (hm + 1 + um) -> bucket_of hm um x = x / 2 ^ um).
  { intros x Hx. unfold bucket_of. by rewrite (proj2 (Z.ltb_lt _ _)). }
  destruct (Z.lt_ge_cases w (2 ^ (hm + 1 + um))) as [Hw|Hw].
  { rewrite !Hlin by lia. apply Z.div_le_mono; lia. }
  destruct (bucket_large w hm um H1 H2 Hw) as (Hbw & Hqw & Ew & Hloww).
  destruct (Z.lt_ge_cases v (2 ^ (hm + 1 + um))) as [Hlt|Hge].
  { rewrite (Hlin v) by lia. assert (v / 2 ^ um < 2 ^ (hm + 1)); [|lia].
    apply Z.div_lt_upper_bound; [done|]. rewrite <- Z.pow_add_r by lia. by rewrite (Z.add_comm um). }
  destruct (bucket_large v hm um H1 H2 Hge) as (Hbv & Hqv & Ev & _). rewrite Ev, Ew.
  assert (HL : Z.log2 v <= Z.log2 w) by (apply Z.log2_le_mono; lia).
  assert (E2 : 2 ^ (hm + 1) = 2 * 2 ^ hm) by (rewrite Z.pow_add_r by lia; lia).
  assert (0 < 2 ^ hm) by (apply Z.pow_pos_nonneg; lia).
  destruct (Z.eq_dec (Z.log2 v) (Z.log2 w)) as [E|E].
  - rewrite E. assert (v / 2 ^ (Z.log2 w - hm) <= w / 2 ^ (Z.log2 w - hm)); [|lia].
    apply Z.div_le_mono; [|lia]. apply Z.pow_pos_nonneg; [lia|].
    destruct (log_large w hm um H1 H2 Hw). lia.
  - assert (2 ^ hm * (Z.log2 v - hm - um) + 2 ^ hm <= 2 ^ hm * (Z.log2 w - hm - um)) by nia. lia.
Qed.

(** The code's index and value computations are these, on the values it can hold. *)
Lemma value_to_index_bucket h hm um v : geometry h hm um -> 0 <= v < 2 ^ 64 ->
  value_to_index h v = Z.min (bucket_of hm um v) (counts_len_ h - 1).
Proof.
  intros Hg Hv. pose proof (geometry_hm h hm um Hg) as Hm. destruct Hg as [E1 E2 E3 E4 R1 R2 R3].
  assert (0 < 2 ^ (hm + 1)) by (apply Z.pow_pos_nonneg; lia). unfold MAX_BUCKETS in R3.
  assert (Hs : u64 (Z.shiftl (2 ^ (hm + 1)) um) = 2 ^ (hm + 1 + um)).
  { rewrite Z.shiftl_mul_pow2, <- Z.pow_add_r by lia. apply u64_small. split; [apply Z.pow_nonneg; lia|].
    change 18446744073709551616 with (2 ^ 64). apply Z.pow_lt_mono_r; lia. }
  unfold value_to_index. rewrite E1, E2, E3, E4, Hs, (u64_small (counts_len_ h - 1)) by lia.
  destruct (Z.ltb_spec v (2 ^ (hm + 1 + um))) as [Hlt|Hge].
  - assert (v / 2 ^ um < 2 ^ (hm + 1)).
    { apply Z.div_lt_upper_bound; [apply Z.pow_pos_nonneg; lia|].
      rewrite <- Z.pow_add_r by lia. by rewrite (Z.add_comm um). }
    unfold bucket_of. rewrite (proj2 (Z.ltb_lt _ _)) by done. rewrite Z.shiftr_div_pow2 by lia. lia.
  - destruct (bucket_large v hm um ltac:(lia) ltac:(lia) Hge) as (Hb & Hq & Eb & _).
    destruct (log_large v hm um ltac:(lia) ltac:(lia) Hge) as [Hp HL].
    assert (Z.log2 v < 64) by (apply Z.log2_lt_pow2; lia).
    assert (2 ^ hm <= 2 ^ 11 /\ 2 ^ (hm + 1) <= 2 ^ 12) as [B1 B2] by (split; apply Z.pow_le_mono_r; lia).
    change (2 ^ 11) with 2048 in B1. change (2 ^ 12) with 4096 in B2.
    unfold clz64. replace (63 - (63 - Z.log2 v) - hm - um) with (Z.log2 v - hm - um) by lia.
    replace (Z.log2 v - hm - um + um) with (Z.log2 v - hm) by lia.
    rewrite Z.shiftr_div_pow2 by lia. rewrite Eb. set (b := Z.log2 v - hm - um) in *.
    set (q := v / 2 ^ (Z.log2 v - hm)) in *.
    assert (0 < 2 ^ hm) by (apply Z.pow_pos_nonneg; lia).
    rewrite (i32_small q), (i32_small (q - 2 ^ hm)) by lia.
    assert (0 <= 2 ^ hm * b <= 2048 * 64) by nia.
    replace (2 ^ hm * (b + 1) + (q - 2 ^ hm)) with (2 ^ hm * b + q) by lia.
    rewrite i32_small by lia. rewrite u64_small by lia. reflexivity.
Qed.

Lemma index_to_value_floor h hm um i : geometry h hm um -> 0 <= i ->
  index_to_value h i = u64 (floor_of hm um i).
Proof.
  intros [E1 E2 E3 E4 R1 R2 R3] Hi. unfold index_to_value, floor_of. rewrite E2, E3, E4.
  assert (0 < 2 ^ hm) by (apply Z.pow_pos_nonneg; lia).
  assert (E : 2 ^ (hm + 1) = 2 * 2 ^ hm) by (rewrite Z.pow_add_r by lia; lia).
  destruct (Z.ltb_spec i (2 ^ (hm + 1))); rewrite Z.shiftl_mul_pow2; [done|lia|done|].
  assert (2 <= i / 2 ^ hm) by (apply Z.div_le_lower_bound; lia). lia.
Qed.

(** A value the count array covers. *)
Definition tracked (h : t) (v : Z) : Prop :=
  0 <= v < 2 ^ 64 /\
  bucket_of (sub_bucket_half_count_magnitude_ h) (unit_magnitude_ h) v < counts_len_ h.

(** What a recorded value is reported as: at most the value, within one unit or a [2^-hm] part of it. *)
Lemma recorded_value h hm um v : geometry h hm um -> tracked h v ->
  let r := index_to_value h (value_to_index h v) in
  0 <= value_to_index h v < counts_len_ h /\
  r <= v /\ (v - r < 2 ^ um \/ (v - r) * 2 ^ hm < v).
Proof.
  intros Hg [Hv Ht] r. pose proof Hg as [E1 E2 E3 E4 R1 R2 R3]. rewrite E1, E4 in Ht.
  pose proof (floor_bucket v hm um ltac:(lia) ltac:(lia) ltac:(lia)) as [Hf1 Hf2].
  pose proof (bucket_mono 0 v hm um ltac:(lia) ltac:(lia) ltac:(lia)) as Hm0.
  assert (E0 : bucket_of hm um 0 = 0).
  { unfold bucket_of. rewrite (proj2 (Z.ltb_lt _ _)) by (apply Z.pow_pos_nonneg; lia). apply Z.div_0_l.
    apply Z.pow_nonzero; lia. }
  assert (Ei : value_to_index h v = bucket_of hm um v).
  { rewrite (value_to_index_bucket h hm um) by done. lia. }
  assert (Hr : r = floor_of hm um (bucket_of hm um v)).
  { unfold r. rewrite Ei, (index_to_value_floor h hm um) by (done || lia). apply u64_small.
    change 18446744073709551616 with (2 ^ 64). split; [|lia]. unfold floor_of.
    assert (0 < 2 ^ hm) by (apply Z.pow_pos_nonneg; lia).
    pose proof (Z.mod_pos_bound (bucket_of hm um v) (2 ^ hm) ltac:(lia)).
    destruct (Z.ltb_spec (bucket_of hm um v) (2 ^ (hm + 1))); apply Z.mul_nonneg_nonneg; try lia;
      apply Z.pow_nonneg; lia. }
  rewrite Hr. split; [lia|]. split; [exact Hf1|exact Hf2].
Qed.

(** ** Initialisation with the default configuration *)

(** What the code needs of [pow] and [log2]: the exact results at exact
    powers, and a [log2 200] between 7 and 8. *)
Class LibmSpec (dpow : spec_float -> spec_float -> spec_float) (dlog2 : spec_float -> spec_float) : Prop := {
  pow_10_2 : dpow (F64.of_Z 10) (F64.of_Z 2) = F64.of_Z 100;
  log2_1 : dlog2 (F64.of_Z 1) = S754_zero false;
  log2_200 : ceil_Z (dlog2 (F64.of_Z 200)) = 8 }.

Lemma init_default dpow dlog2 `{!LibmSpec dpow dlog2} h0 : exists h,
  init dpow dlog2 h0 default_hist_config = Some h /\ geometry h 7 0 /\ counts_len_ h = 3584 /\
  (forall i, 0 <= i < counts_len_ h -> counts_ h i = 0) /\
  total_count_ h = 0 /\ min_value_ h = UINT64_MAX /\ max_value_ h = 0 /\ total_sum_ h = 0.
Proof.
  unfold init. cbn [significant_figures lowest_trackable highest_trackable default_hist_config].
  rewrite pow_10_2. replace (i64 (2 * F64.trunc (F64.of_Z 100))) with 200 by (vm_compute; reflexivity).
  rewrite log2_200, log2_1. cbn [floor_Z].
  replace (if 1 <? 8 then 8 - 1 else 0) with 7 by reflexivity.
  replace (i32 (Z.shiftl 1 (7 + 1))) with 256 by reflexivity.
  replace (256 ÷ 2) with 128 by reflexivity. replace (Z.max 0 0) with 0 by reflexivity.
  replace (bucket_loop 65 (u64 (Z.shiftl 256 0)) 10000000000 1) with (Some 27) by (vm_compute; reflexivity).
  cbn [mbind option_bind]. replace (u64 ((27 + 1) * 128)) with 3584 by reflexivity.
  replace (if MAX_BUCKETS <? 3584 then MAX_BUCKETS else 3584) with 3584 by reflexivity.
  eexists. split; [reflexivity|]. unfold reset. cbn [counts_len_ counts_ total_count_ min_value_ max_value_ total_sum_].
  split; [constructor; cbn [counts_len_ sub_bucket_half_count_magnitude_ sub_bucket_half_count_ sub_bucket_count_
    unit_magnitude_]; (reflexivity || (unfold MAX_BUCKETS; lia))|].
  split; [reflexivity|]. split; [|split_and!; reflexivity]. intros i Hi.
  by rewrite (proj2 (Z.leb_le _ _)), (proj2 (Z.ltb_lt _ _)) by lia.
Qed.

Lemma default_tracked h v : geometry h 7 0 -> counts_len_ h = 3584 -> 0 <= v <= 10000000000 -> tracked h v.
Proof.
  intros [E1 _ _ E4 _ _ _] El Hv. split; [lia|]. rewrite E1, E4, El.
  pose proof (bucket_mono v 10000000000 7 0 ltac:(lia) ltac:(lia) Hv) as Hm.
  eapply Z.le_lt_trans; [exact Hm|]. vm_compute. reflexivity.
Qed.

(** C18: A histogram initialised with the default configuration reports every
    value up to its highest trackable one, ten seconds in nanoseconds, from a
    bucket inside its count array, never above the value and within the
    128th part of it (two significant figures); larger values give larger or
    equal buckets. *)
Theorem hist_error_bound dpow dlog2 `{!LibmSpec dpow dlog2} h0 : exists h,
  init dpow dlog2 h0 default_hist_config = Some h /\
  forall v, 0 <= v <= highest_trackable default_hist_config ->
    let r := index_to_value h (value_to_index h v) in
    0 <= value_to_index h v < counts_len_ h /\ r <= v /\ (v - r) * 128 <= v /\
    (forall w, v <= w < 2 ^ 64 -> value_to_index h v <= value_to_index h w).
Proof.
  destruct (init_default dpow dlog2 h0) as (h & Hi & Hg & Hl & _). exists h. split; [done|].
  intros v Hv r. cbn in Hv. pose proof (recorded_value h 7 0 v Hg (default_tracked h v Hg Hl Hv)) as (H1 & H2 & H3).
  fold r in H2, H3. split_and!; try lia.
  intros w Hw. rewrite !(value_to_index_bucket h 7 0) by (done || lia).
  pose proof (bucket_mono v w 7 0 ltac:(lia) ltac:(lia) ltac:(lia)). lia.
Qed.

(** A concrete [pow] and [log2] with these results. *)
Definition pow_w (_ _ : spec_float) : spec_float := F64.of_Z 100.
Definition log2_w (x : spec_float) : spec_float :=
  if SFeqb x (F64.of_Z 1) then S754_zero false else F64.lit 764 100.
Lemma libm_w : LibmSpec pow_w log2_w.
Proof. split; vm_compute; reflexivity. Qed.

Lemma hist_error_bound_witness : exists h, init pow_w log2_w new default_hist_config = Some h /\
  (123456 - index_to_value h (value_to_index h 123456)) * 128 <= 123456.
Proof.
  destruct (@hist_error_bound pow_w log2_w libm_w new) as (h & Hi & Hv). exists h. split; [exact Hi|].
  destruct (Hv 123456) as (_ & _ & H & _); [vm_compute; split; discriminate|exact H].
Defined.

(** ** Percentiles *)

Definition record_all (h : t) (vs : list Z) : t := foldl record h vs.

(** The number of samples in buckets up to [i]. *)
Definition samples_upto (h : t) (vs : list Z) (i : Z) : Z :=
  Z.of_nat (length (filter (fun v => value_to_index h v <= i) vs)).

(** The fields [record] never writes. *)
Definition same_geometry (h h' : t) : Prop :=
  sub_bucket_half_count_magnitude_ h' = sub_bucket_half_count_magnitude_ h /\
  sub_bucket_half_count_ h' = sub_bucket_half_count_ h /\ sub_bucket_count_ h' = sub_bucket_count_ h /\
  unit_magnitude_ h' = unit_magnitude_ h /\ counts_len_ h' = counts_len_ h.

Lemma record_geometry h v : same_geometry h (record h v).
Proof. unfold record, record_with_count. destruct (_ <? _); by split_and!. Qed.

Lemma same_geometry_index h h' v : same_geometry h h' -> value_to_index h' v = value_to_index h v.
Proof. intros (E1 & E2 & E3 & E4 & E5). unfold value_to_index. by rewrite E1, E2, E3, E4, E5. Qed.

Lemma same_geometry_value h h' i : same_geometry h h' -> index_to_value h' i = index_to_value h i.
Proof. intros (E1 & E2 & E3 & E4 & E5). unfold index_to_value. by rewrite E2, E3, E4. Qed.

(** A freshly initialised or reset histogram. *)
Definition fresh (h : t) : Prop :=
  (forall i, 0 <= i < counts_len_ h -> counts_ h i = 0) /\
  total_count_ h = 0 /\ min_value_ h = UINT64_MAX /\ max_value_ h = 0 /\ total_sum_ h = 0.

(** The counters after recording: one count per sample, in its bucket. *)
Record tallied (h0 : t) (vs : list Z) (h : t) : Prop := {
  ta_geo : same_geometry h0 h;
  ta_counts : forall i, 0 <= i < counts_len_ h0 ->
    counts_ h i = Z.of_nat (length (filter (fun v => value_to_index h0 v = i) vs));
  ta_total : total_count_ h = Z.of_nat (length vs);
  ta_min : min_value_ h = foldl Z.min UINT64_MAX vs;
  ta_max : max_value_ h = foldl Z.max 0 vs }.

Lemma tallied_record h0 vs h v : tallied h0 vs h -> 0 <= value_to_index h0 v < counts_len_ h0 ->
  Z.of_nat (length (vs ++ [v])) < 2 ^ 64 -> tallied h0 (vs ++ [v]) (record h v).
Proof.
  intros [Hg Hc Ht Hmin Hmax] Hi Hn. pose proof Hg as (_ & _ & _ & _ & El).
  assert (Hg' : same_geometry h0 (record h v)).
  { destruct (record_geometry h v) as (F1 & F2 & F3 & F4 & F5). destruct Hg as (E1 & E2 & E3 & E4 & E5).
    split_and!; congruence. }
  rewrite length_app in Hn. cbn [length] in Hn.
  split; [done|..]; unfold record, record_with_count; rewrite (same_geometry_index h0 h) by done;
    rewrite El, (proj2 (Z.ltb_lt _ _)) by lia; cbn [counts_ total_count_ min_value_ max_value_].
  - intros i Hi'. rewrite filter_app, length_app. unfold upd. destruct (Z.eqb_spec i (value_to_index h0 v)) as [->|Hne].
    + rewrite filter_cons_True by done. cbn [filter list_filter length]. rewrite (Hc _ Hi).
      pose proof (length_filter (fun w => value_to_index h0 w = value_to_index h0 v) vs).
      cbn. rewrite u64_small by lia. lia.
    + rewrite filter_cons_False by congruence. rewrite (Hc _ Hi'). cbn. lia.
  - rewrite Ht, length_app. cbn [length]. rewrite u64_small by lia. lia.
  - rewrite foldl_app. cbn. rewrite <- Hmin. destruct (Z.ltb_spec v (min_value_ h)); lia.
  - rewrite foldl_app. cbn. rewrite <- Hmax. destruct (Z.ltb_spec (max_value_ h) v); lia.
Qed.

Lemma tallied_all h0 vs : fresh h0 -> Z.of_nat (length vs) < 2 ^ 64 ->
  (forall v, v ∈ vs -> 0 <= value_to_index h0 v < counts_len_ h0) -> tallied h0 vs (record_all h0 vs).
Proof.
  intros (Hz & Ht & Hmin & Hmax & _). induction vs as [|v vs IH] using rev_ind; intros Hn Hv.
  - by split.
  - unfold record_all in *. rewrite foldl_app. apply tallied_record.
    + apply IH; [rewrite length_app in Hn; lia|]. intros w Hw. apply Hv. apply elem_of_app. by left.
    + apply Hv. apply elem_of_app. right. left.
    + done.
Qed.

Section Ranks.
Context (h0 : t) (hm um : Z) (Hgeo : geometry h0 hm um).

Lemma index_mono v w : 0 <= v <= w -> w < 2 ^ 64 -> value_to_index h0 v <= value_to_index h0 w.
Proof using Hgeo.
  intros Hv Hw. rewrite !(value_to_index_bucket h0 hm um) by (done || lia).
  pose proof (bucket_mono v w hm um (ge_hm_range _ _ _ Hgeo) ltac:(destruct Hgeo; lia) Hv). lia.
Qed.

Lemma samples_upto_step vs i : samples_upto h0 vs i = samples_upto h0 vs (i - 1) +
  Z.of_nat (length (filter (fun v => value_to_index h0 v = i) vs)).
Proof.
  unfold samples_upto. induction vs as [|v vs IH]; [reflexivity|]. rewrite !filter_cons.
  repeat case_decide; cbn [length]; lia.
Qed.

(** In a sorted list the samples up to bucket [i] are a prefix. *)
Lemma rank_threshold srt k v i : StronglySorted Z.le srt -> (forall x, x ∈ srt -> 0 <= x < 2 ^ 64) ->
  srt !! k = Some v -> (Z.of_nat k < samples_upto h0 srt i <-> value_to_index h0 v <= i).
Proof using Hgeo.
  intros Hs. revert k. unfold samples_upto. induction Hs as [|x srt Hs IH Hx]; intros k Hr Hk; [done|].
  assert (Hr' : forall y, y ∈ srt -> 0 <= y < 2 ^ 64) by (intros; apply Hr; by right).
  pose proof (Hr x (list_elem_of_here _ _)) as Hx0. rewrite filter_cons. case_decide as Hd.
  - cbn [length]. destruct k as [|k]; [injection Hk as ->; lia|]. rewrite <- (IH k) by done. lia.
  - assert (Hall : forall y, y ∈ srt -> ~ value_to_index h0 y <= i).
    { intros y Hy. rewrite Forall_forall in Hx. specialize (Hx y Hy).
      pose proof (index_mono x y ltac:(lia) ltac:(apply Hr'; done)). lia. }
    assert (Hnil : filter (fun v => value_to_index h0 v <= i) srt = []).
    { by apply filter_none. }
    rewrite Hnil. cbn [length]. split; [lia|]. intros Hle.
    destruct k as [|k]; [injection Hk as ->; lia|]. cbn in Hk. by destruct (Hall v (list_elem_of_lookup_2 _ _ _ Hk)).
Qed.
End Ranks.

(** A scan over counts whose running totals are [C] stops at the bucket [k]
    at which [C] reaches the target. *)
Section Scan.
Context (h : t) (C : Z -> Z) (HC : forall i, 0 <= i < counts_len_ h -> C i = C (i - 1) + counts_ h i)
  (HCr : forall i, 0 <= C i < 2 ^ 64).

Definition stops (target k : Z) : Prop := forall i, 0 <= i < counts_len_ h -> (target <= C i <-> k <= i).

Lemma running i : 0 <= i < counts_len_ h -> u64 (C (i - 1) + counts_ h i) = C i.
Proof using HC HCr. intros Hi. rewrite <- HC by done. apply u64_small. apply HCr. Qed.

Lemma scan_stops n i target k : stops target k -> 0 <= i <= k -> k < counts_len_ h ->
  i + Z.of_nat n = counts_len_ h -> scan n h i (C (i - 1)) target = index_to_value h k.
Proof using HC HCr.
  intros Hs. revert i. induction n as [|n IH]; intros i Hi Hk Hn; [lia|]. cbn [scan]. rewrite running by lia.
  pose proof (Hs i ltac:(lia)) as Hsi. destruct (Z.leb_spec target (C i)).
  - by replace k with i by lia.
  - rewrite <- (IH (i + 1)) by lia. by replace (i + 1 - 1) with i by lia.
Qed.

(** The flag and value of one percentile once the loop has passed [i - 1]. *)
Definition seen (k i : Z) : option Z := if k <? i then Some (index_to_value h k) else None.

Lemma note_seen target k i : stops target k -> 0 <= i < counts_len_ h ->
  note (seen k i) (C i) target (index_to_value h i) = seen k (i + 1).
Proof.
  intros Hs Hi. pose proof (Hs i Hi). unfold note, seen. destruct (Z.ltb_spec k i), (Z.ltb_spec k (i + 1)),
    (Z.leb_spec target (C i)); try lia; try done. by replace k with i by lia.
Qed.

Lemma summary_stops n i t50 t90 t99 t999 k50 k90 k99 k999 :
  stops t50 k50 -> stops t90 k90 -> stops t99 k99 -> stops t999 k999 ->
  k50 <= k999 -> k90 <= k999 -> k99 <= k999 -> 0 <= i <= k999 -> k999 < counts_len_ h ->
  i + Z.of_nat n = counts_len_ h ->
  summary_loop n h i (C (i - 1)) t50 t90 t99 t999
    {| g50 := seen k50 i; g90 := seen k90 i; g99 := seen k99 i; g999 := seen k999 i |} =
  {| g50 := Some (index_to_value h k50); g90 := Some (index_to_value h k90);
     g99 := Some (index_to_value h k99); g999 := Some (index_to_value h k999) |}.
Proof using HC HCr.
  intros S1 S2 S3 S4 L1 L2 L3. revert i. induction n as [|n IH]; intros i Hi Hk Hn; [lia|].
  cbn [summary_loop g50 g90 g99 g999]. rewrite running by lia. rewrite !note_seen by (done || lia).
  unfold seen at 1. destruct (Z.ltb_spec k999 (i + 1)).
  - unfold seen. by rewrite !(proj2 (Z.ltb_lt _ _)) by lia.
  - rewrite <- (IH (i + 1)) by lia. by replace (i + 1 - 1) with i by lia.
Qed.
End Scan.

(** Recording sorted samples and asking for a rank. *)
Section Recorded.
Context (h0 : t) (hm um : Z) (vs srt : list Z)
  (Hgeo : geometry h0 hm um) (Hfresh : fresh h0) (Hlen : Z.of_nat (length vs) < 2 ^ 64)
  (Htr : forall v, v ∈ vs -> tracked h0 v) (Hperm : srt ≡ₚ vs) (Hsort : StronglySorted Z.le srt).

Lemma recorded_tally : tallied h0 vs (record_all h0 vs).
Proof using All.
  apply tallied_all; [done|done|]. intros v Hv. by destruct (recorded_value h0 hm um v Hgeo (Htr v Hv)).
Qed.

Lemma samples_upto_range i : 0 <= samples_upto h0 vs i < 2 ^ 64.
Proof using Hlen. unfold samples_upto. pose proof (length_filter (fun v => value_to_index h0 v <= i) vs). lia. Qed.

Lemma recorded_running i : 0 <= i < counts_len_ (record_all h0 vs) ->
  samples_upto h0 vs i = samples_upto h0 vs (i - 1) + counts_ (record_all h0 vs) i.
Proof using All.
  destruct recorded_tally as [(_ & _ & _ & _ & El) Hc _ _ _]. rewrite El. intros Hi.
  rewrite (Hc i Hi). apply samples_upto_step.
Qed.

Lemma samples_upto_below : samples_upto h0 vs (0 - 1) = 0.
Proof using All.
  unfold samples_upto. rewrite filter_none; [done|]. intros v Hv.
  destruct (recorded_value h0 hm um v Hgeo (Htr v Hv)). lia.
Qed.

Lemma recorded_stops target v : 1 <= target -> srt !! Z.to_nat (target - 1) = Some v ->
  stops (record_all h0 vs) (samples_upto h0 vs) target (value_to_index h0 v) /\
  0 <= value_to_index h0 v < counts_len_ (record_all h0 vs).
Proof using All.
  intros Ht Hv. destruct recorded_tally as [(_ & _ & _ & _ & El) _ _ _ _].
  assert (Hin : forall x, x ∈ srt -> tracked h0 x) by (intros x Hx; apply Htr; by rewrite <- Hperm).
  split.
  - intros i _. rewrite <- (rank_threshold h0 hm um Hgeo srt (Z.to_nat (target - 1))); [|done| |done].
    + unfold samples_upto. rewrite Hperm. lia.
    + intros x Hx. apply (Hin x Hx).
  - rewrite El. apply list_elem_of_lookup_2 in Hv.
    by destruct (recorded_value h0 hm um v Hgeo (Hin v Hv)).
Qed.

Lemma recorded_index_mono j k v w : srt !! j = Some v -> srt !! k = Some w -> (j <= k)%nat ->
  value_to_index h0 v <= value_to_index h0 w.
Proof using All.
  intros Hj Hk Hjk.
  assert (Hin : forall x, x ∈ srt -> 0 <= x < 2 ^ 64) by (intros x Hx; apply Htr; by rewrite <- Hperm).
  apply (rank_threshold h0 hm um Hgeo srt j v _ Hsort Hin Hj).
  pose proof (proj2 (rank_threshold h0 hm um Hgeo srt k w _ Hsort Hin Hk) (Z.le_refl _)). lia.
Qed.

Lemma recorded_nonempty k v : srt !! k = Some v -> (total_count_ (record_all h0 vs) =? 0) = false.
Proof using All.
  intros Hk. destruct recorded_tally as [_ _ -> _ _]. apply lookup_lt_Some in Hk.
  rewrite <- Hperm. apply Z.eqb_neq. lia.
Qed.
End Recorded.

(** C17: After recording any samples the histogram covers into a fresh one,
    [percentile] returns the bucket floor of the sample whose rank in sorted
    order is the one asked for, and the one-pass [get_percentiles] returns the
    same for its four ranks (none of them above the last), with the exact
    minimum, maximum and number of samples. *)
Theorem percentile_rank h0 hm um vs srt :
  geometry h0 hm um -> fresh h0 -> Z.of_nat (length vs) < 2 ^ 64 ->
  (forall v, v ∈ vs -> tracked h0 v) -> srt ≡ₚ vs -> StronglySorted Z.le srt ->
  let h := record_all h0 vs in
  let at_rank r v := 1 <= r /\ srt !! Z.to_nat (r - 1) = Some v in
  let reported v := index_to_value h0 (value_to_index h0 v) in
  (forall pct v, at_rank (rank_of h pct) v -> percentile h pct = reported v) /\
  (forall v50 v90 v99 v999, at_rank (target h 50 100) v50 -> at_rank (target h 90 100) v90 ->
     at_rank (target h 99 100) v99 -> at_rank (target h 999 1000) v999 ->
     Z.max (target h 50 100) (Z.max (target h 90 100) (target h 99 100)) <= target h 999 1000 ->
     let p := get_percentiles h in
     p50 p = reported v50 /\ p90 p = reported v90 /\ p99 p = reported v99 /\ p999 p = reported v999 /\
     p_min p = foldl Z.min UINT64_MAX vs /\ p_max p = foldl Z.max 0 vs /\
     p_total_count p = Z.of_nat (length vs)).
Proof.
  intros Hg Hf Hl Ht Hp Hs h at_rank reported.
  pose proof (recorded_tally h0 hm um vs srt Hg Hf Hl Ht Hp Hs) as [HG _ Ht' Hmin Hmax].
  pose proof (recorded_running h0 hm um vs srt Hg Hf Hl Ht Hp Hs) as HC. fold h in HG, Ht', Hmin, Hmax, HC.
  pose proof (samples_upto_range h0 vs Hl) as HR.
  pose proof (samples_upto_below h0 hm um vs srt Hg Hf Hl Ht Hp Hs) as H0.
  pose proof (recorded_stops h0 hm um vs srt Hg Hf Hl Ht Hp Hs) as HS. fold h in HS.
  pose proof (recorded_index_mono h0 hm um vs srt Hg Hf Hl Ht Hp Hs) as HM.
  pose proof (recorded_nonempty h0 hm um vs srt Hg Hf Hl Ht Hp Hs) as HN. fold h in HN.
  split.
  - intros pct v [Hr Hv]. unfold percentile. rewrite (HN _ _ Hv).
    destruct (HS _ _ Hr Hv) as [Hst Hk]. rewrite <- H0 at 2.
    rewrite (scan_stops h _ HC HR _ 0 _ _ Hst) by lia. by apply same_geometry_value.
  - intros v50 v90 v99 v999 [R1 V1] [R2 V2] [R3 V3] [R4 V4] Hmx p.
    destruct (HS _ _ R1 V1) as [S1 K1]. destruct (HS _ _ R2 V2) as [S2 K2].
    destruct (HS _ _ R3 V3) as [S3 K3]. destruct (HS _ _ R4 V4) as [S4 K4].
    pose proof (HM _ _ _ _ V1 V4 ltac:(lia)). pose proof (HM _ _ _ _ V2 V4 ltac:(lia)).
    pose proof (HM _ _ _ _ V3 V4 ltac:(lia)).
    pose proof (summary_stops h _ HC HR (Z.to_nat (counts_len_ h)) 0 _ _ _ _ _ _ _ _ S1 S2 S3 S4
      ltac:(lia) ltac:(lia) ltac:(lia) ltac:(lia) ltac:(lia) ltac:(lia)) as HL.
    rewrite H0 in HL. unfold seen in HL. rewrite !(proj2 (Z.ltb_ge _ _)) in HL by lia.
    assert (Ep : p = get_percentiles h) by reflexivity. unfold get_percentiles in Ep.
    rewrite (HN _ _ V1), HL in Ep. rewrite Ep. cbn. rewrite !(same_geometry_value h0 h) by done.
    split_and!; done.
Qed.

Lemma percentile_rank_witness : exists h0, init pow_w log2_w new default_hist_config = Some h0 /\
  percentile (record_all h0 [900; 5; 77]) (F64.of_Z 50) = index_to_value h0 (value_to_index h0 77).
Proof.
  destruct (@init_default pow_w log2_w libm_w new) as (h0 & Hi & Hg & Hl & Hz & Hf). exists h0. split; [exact Hi|].
  assert (Hfr : fresh h0) by (split; [exact Hz|exact Hf]).
  assert (Htr : forall v, v ∈ [900; 5; 77] -> tracked h0 v).
  { intros v Hv. apply default_tracked; [exact Hg|exact Hl|].
    repeat (apply elem_of_cons in Hv as [->|Hv]; [lia|]). exfalso. exact (not_elem_of_nil _ Hv). }
  assert (Hp : [5; 77; 900] ≡ₚ [900; 5; 77]) by (exact (Permutation_app_comm [5; 77] [900])).
  assert (Hs : StronglySorted Z.le [5; 77; 900]) by (repeat constructor; lia).
  assert (Hn : Z.of_nat (length [900; 5; 77]) < 2 ^ 64) by reflexivity.
  destruct (percentile_rank h0 7 0 [900; 5; 77] [5; 77; 900] Hg Hfr Hn Htr Hp Hs) as [H _].
  apply H; clear H.
  destruct (recorded_tally h0 7 0 [900; 5; 77] [5; 77; 900] Hg Hfr Hn Htr Hp Hs) as [_ _ Ht _ _].
  assert (Hr : rank_of (record_all h0 [900; 5; 77]) (F64.of_Z 50) = 2).
  { unfold rank_of. rewrite Ht. vm_compute. reflexivity. }
  rewrite Hr. split; [lia|reflexivity].
Defined.
End HdrHistogram.
