(* ===== verification/Blaster.v ===== *)
(** The deterministic order generator
    (src/loadgen/include/loadgen/order_blaster.hpp): a price walk in doubles,
    an xorshift generator that draws the order type, side, price offset and
    size, a table of live orders to cancel from, and the ring of generated
    messages.  [std::log] and [std::cos] are parameters of the model. *)

From S2P Require Import Prelude Arena Protocol Xorshift.
From Stdlib Require Import SpecFloat.

Record OrderBlasterConfig := {
  initial_mid : Z; tick_size : Z; price_range : Z; volatility : spec_float;
  limit_pct : Z; market_pct : Z; cancel_pct : Z; min_qty : Z; max_qty : Z;
  seed : Z; orders_per_batch : Z }.

Definition default_blaster_config : OrderBlasterConfig :=
  {| initial_mid := 1000000; tick_size := 100; price_range := 5000; volatility := F64.lit 1 10000;
     limit_pct := 60; market_pct := 20; cancel_pct := 20; min_qty := 1; max_qty := 100;
     seed := 12345; orders_per_batch := 64 |}.

(** ** The table of live orders *)
Module BlasterState.

Record t := {
  order_ids : arr Z; order_prices : arr Z; order_sides : arr Side; order_qtys : arr Z;
  order_active : arr bool; active_count : Z; capacity : Z; next_order_id : Z }.

(** A constructed table over the memory the arrays will be given. *)
Definition new (ids prices : arr Z) (sides : arr Side) (qtys : arr Z) (act : arr bool) : t :=
  {| order_ids := ids; order_prices := prices; order_sides := sides; order_qtys := qtys;
     order_active := act; active_count := 0; capacity := 0; next_order_id := 1 |}.

Definition init (arena : HugePageArena.t) (cap : Z) (s : t) : bool * HugePageArena.t * t :=
  let s := {| order_ids := order_ids s; order_prices := order_prices s; order_sides := order_sides s;
              order_qtys := order_qtys s; order_active := order_active s;
              active_count := active_count s; capacity := cap; next_order_id := next_order_id s |} in
  let '(p1, arena) := HugePageArena.allocate arena 4 4 cap in
  let '(p2, arena) := HugePageArena.allocate arena 8 8 cap in
  let '(p3, arena) := HugePageArena.allocate arena 1 1 cap in
  let '(p4, arena) := HugePageArena.allocate arena 4 4 cap in
  let '(p5, arena) := HugePageArena.allocate arena 1 1 cap in
  match p1, p2, p3, p4, p5 with
  | Some _, Some _, Some _, Some _, Some _ =>
      (true, arena,
       {| order_ids := order_ids s; order_prices := order_prices s; order_sides := order_sides s;
          order_qtys := order_qtys s;
          order_active := fun i => if (0 <=? i) && (i <? cap) then false else order_active s i;
          active_count := active_count s; capacity := cap; next_order_id := next_order_id s |})
  | _, _, _, _, _ => (false, arena, s)
  end.

(** The scan of [find_free_slot] with [n] slots left from [i]. *)
Fixpoint free_from (n : nat) (s : t) (i : Z) : Z :=
  match n with
  | O => UINT32_MAX
  | S n => if negb (order_active s i) then i else free_from n s (i + 1)
  end.
Definition find_free_slot (s : t) : Z := free_from (Z.to_nat (capacity s)) s 0.

(** The walk of [find_active_slot] with [n] slots left from offset [i]. *)
Fixpoint active_from (n : nat) (s : t) (start i : Z) : Z :=
  match n with
  | O => UINT32_MAX
  | S n =>
      let idx := u32 (start + i) mod capacity s in
      if order_active s idx then idx else active_from n s start (i + 1)
  end.
Definition find_active_slot (s : t) (rng : Z) : Z :=
  if active_count s =? 0 then UINT32_MAX
  else active_from (Z.to_nat (capacity s)) s (u32 (rng mod capacity s)) 0.

(** The assignments of [generate_limit_order] and [generate_cancel] to the table. *)
Definition take_id (s : t) : Z * t :=
  (next_order_id s,
   {| order_ids := order_ids s; order_prices := order_prices s; order_sides := order_sides s;
      order_qtys := order_qtys s; order_active := order_active s; active_count := active_count s;
      capacity := capacity s; next_order_id := u32 (next_order_id s + 1) |}).

Definition track (s : t) (slot : Z) (o : OrderEntry) : t :=
  {| order_ids := (order_ids s).[slot <- oe_client_order_id o];
     order_prices := (order_prices s).[slot <- oe_price o];
     order_sides := (order_sides s).[slot <- oe_side o];
     order_qtys := (order_qtys s).[slot <- oe_quantity o];
     order_active := (order_active s).[slot <- true];
     active_count := u32 (active_count s + 1); capacity := capacity s;
     next_order_id := next_order_id s |}.

Definition untrack (s : t) (slot : Z) : t :=
  {| order_ids := order_ids s; order_prices := order_prices s; order_sides := order_sides s;
     order_qtys := order_qtys s; order_active := (order_active s).[slot <- false];
     active_count := u32 (active_count s - 1); capacity := capacity s;
     next_order_id := next_order_id s |}.

End BlasterState.

Definition BLAST_RING_SIZE : Z := 65536.

(** The object a ring entry's bytes hold. *)
Inductive payload := P_order (o : OrderEntry) | P_cancel (c : CancelRequest).

Record BlastOrder := { bo_data : payload; bo_size : Z; bo_type : MsgType }.

Module OrderBlaster.
Import BlasterState.

Section Libm.
Context (dlog dcos : spec_float -> spec_float).

Record t := {
  cfg_ : OrderBlasterConfig; state_ : BlasterState.t; ring_ : arr BlastOrder;
  write_pos_ : Z; read_pos_ : Z; mid_price_ : spec_float; rng_ : Z;
  total_generated_ : Z; total_limits_ : Z; total_markets_ : Z; total_cancels_ : Z }.

Definition new (cfg : OrderBlasterConfig) (s : BlasterState.t) (ring : arr BlastOrder) : t :=
  {| cfg_ := cfg; state_ := s; ring_ := ring; write_pos_ := 0; read_pos_ := 0;
     mid_price_ := F64.of_Z 0; rng_ := 0; total_generated_ := 0; total_limits_ := 0;
     total_markets_ := 0; total_cancels_ := 0 |}.

Definition set_state (b : t) (s : BlasterState.t) : t :=
  {| cfg_ := cfg_ b; state_ := s; ring_ := ring_ b; write_pos_ := write_pos_ b;
     read_pos_ := read_pos_ b; mid_price_ := mid_price_ b; rng_ := rng_ b;
     total_generated_ := total_generated_ b; total_limits_ := total_limits_ b;
     total_markets_ := total_markets_ b; total_cancels_ := total_cancels_ b |}.
Definition set_rng (b : t) (r : Z) : t :=
  {| cfg_ := cfg_ b; state_ := state_ b; ring_ := ring_ b; write_pos_ := write_pos_ b;
     read_pos_ := read_pos_ b; mid_price_ := mid_price_ b; rng_ := r;
     total_generated_ := total_generated_ b; total_limits_ := total_limits_ b;
     total_markets_ := total_markets_ b; total_cancels_ := total_cancels_ b |}.
Definition set_mid (b : t) (m : spec_float) : t :=
  {| cfg_ := cfg_ b; state_ := state_ b; ring_ := ring_ b; write_pos_ := write_pos_ b;
     read_pos_ := read_pos_ b; mid_price_ := m; rng_ := rng_ b;
     total_generated_ := total_generated_ b; total_limits_ := total_limits_ b;
     total_markets_ := total_markets_ b; total_cancels_ := total_cancels_ b |}.
Definition count_turn (b : t) : t :=
  {| cfg_ := cfg_ b; state_ := state_ b; ring_ := ring_ b; write_pos_ := write_pos_ b;
     read_pos_ := read_pos_ b; mid_price_ := mid_price_ b; rng_ := rng_ b;
     total_generated_ := u64 (total_generated_ b + 1); total_limits_ := total_limits_ b;
     total_markets_ := total_markets_ b; total_cancels_ := total_cancels_ b |}.

(** Write one entry and bump the counter of its kind. *)
Inductive kind := K_limit | K_market | K_cancel.
Definition push (b : t) (e : BlastOrder) (k : kind) : t :=
  {| cfg_ := cfg_ b; state_ := state_ b;
     ring_ := (ring_ b).[write_pos_ b mod BLAST_RING_SIZE <- e];
     write_pos_ := u64 (write_pos_ b + 1); read_pos_ := read_pos_ b; mid_price_ := mid_price_ b;
     rng_ := rng_ b; total_generated_ := total_generated_ b;
     total_limits_ := match k with K_limit => u64 (total_limits_ b + 1) | _ => total_limits_ b end;
     total_markets_ := match k with K_market => u64 (total_markets_ b + 1) | _ => total_markets_ b end;
     total_cancels_ := match k with K_cancel => u64 (total_cancels_ b + 1) | _ => total_cancels_ b end |}.

Definition init (arena : HugePageArena.t) (cfg : OrderBlasterConfig) (b : t) :
    bool * HugePageArena.t * t :=
  let b := {| cfg_ := cfg; state_ := state_ b; ring_ := ring_ b; write_pos_ := write_pos_ b;
              read_pos_ := read_pos_ b; mid_price_ := mid_price_ b; rng_ := seed cfg;
              total_generated_ := total_generated_ b; total_limits_ := total_limits_ b;
              total_markets_ := total_markets_ b; total_cancels_ := total_cancels_ b |} in
  let '(ok, arena, s) := BlasterState.init arena 4096 (state_ b) in
  let b := set_state b s in
  if negb ok then (false, arena, b) else
  let '(p, arena) := HugePageArena.allocate_raw arena (u64 (128 * BLAST_RING_SIZE)) CACHE_LINE_SIZE in
  match p with
  | None => (false, arena, b)
  | Some _ =>
      (true, arena,
       {| cfg_ := cfg; state_ := s; ring_ := ring_ b; write_pos_ := 0; read_pos_ := 0;
          mid_price_ := F64.of_Z (initial_mid cfg); rng_ := rng_ b;
          total_generated_ := total_generated_ b; total_limits_ := total_limits_ b;
          total_markets_ := total_markets_ b; total_cancels_ := total_cancels_ b |})
  end.

(** ** Draws: the value and the generator state after it *)
Definition next_raw (s : Z) : Z := xorshift 13 7 17 s.

Definition next_uniform (s : Z) : spec_float * Z :=
  let s := next_raw s in
  (F64.div (F64.of_Z (Z.land s 0xFFFFFFFF)) (F64.of_Z 4294967296), s).

Definition next_gaussian (s : Z) : spec_float * Z :=
  let '(u1, s) := next_uniform s in
  let '(u2, s) := next_uniform s in
  let eps := F64.lit 1 10000000000 in
  let u1 := if F64.ltb u1 eps then eps else u1 in
  (F64.mul (F64.sqrt (F64.mul (F64.of_Z (-2)) (dlog u1)))
     (dcos (F64.mul (F64.mul (F64.of_Z 2) (F64.lit 314159265358979 100000000000000)) u2)), s).

Definition draw (b : t) : Z * t := let s := next_raw (rng_ b) in (s, set_rng b s).

(** [min_qty + next_raw() % (max_qty - min_qty + 1)]. *)
Definition draw_qty (b : t) : Z * t :=
  let '(r, b) := draw b in
  let c := cfg_ b in
  (i32 (min_qty c + i32 (r mod u64 (i32 (i32 (max_qty c - min_qty c) + 1)))), b).

(** ** The messages *)

(** The price of a limit order: the mid on the tick grid, an offset of up to
    ten ticks, one tick away from the mid, and never zero or below. *)
Definition limit_price (c : OrderBlasterConfig) (mid_price : spec_float) (side : Side) (r : Z) : Z :=
  let mid := F64.trunc mid_price in
  let mid := i64 (Z.quot mid (tick_size c) * tick_size c) in
  let offset := i64 (i64 (u64 (r mod 20 - 10)) * tick_size c) in
  let price := i64 (mid + offset) in
  let price := if bool_decide (side = BUY) then i64 (price - tick_size c) else i64 (price + tick_size c) in
  if price <=? 0 then tick_size c else price.

Definition new_order (side : Side) (ty : OrderType) (id price qty : Z) : OrderEntry :=
  {| oe_msg_type := ORDER_ENTRY; oe_side := side; oe_order_type := ty; oe_instrument_id := 0;
     oe_client_order_id := id; oe_price := price; oe_quantity := qty |}.

Definition side_of (r : Z) : Side := if Z.land r 1 =? 0 then SELL else BUY.

Definition generate_limit_order (b : t) : t :=
  let slot := find_free_slot (state_ b) in
  if slot =? UINT32_MAX then b else
  let '(r, b) := draw b in
  let side := side_of r in
  let '(r, b) := draw b in
  let price := limit_price (cfg_ b) (mid_price_ b) side r in
  let '(qty, b) := draw_qty b in
  let '(id, s) := take_id (state_ b) in
  let order := new_order side LIMIT id price qty in
  let b := set_state b (track s slot order) in
  push b {| bo_data := P_order order; bo_size := sizeof OrderEntry_layout; bo_type := ORDER_ENTRY |} K_limit.

Definition generate_market_order (b : t) : t :=
  let '(r, b) := draw b in
  let side := side_of r in
  let '(qty, b) := draw_qty b in
  let '(id, s) := take_id (state_ b) in
  let order := new_order side MARKET id 0 qty in
  push (set_state b s)
    {| bo_data := P_order order; bo_size := sizeof OrderEntry_layout; bo_type := ORDER_ENTRY |} K_market.

Definition generate_cancel (b : t) : t :=
  let '(r, b) := draw b in
  let slot := find_active_slot (state_ b) r in
  if slot =? UINT32_MAX then b else
  let cancel := {| cr_msg_type := CANCEL_REQUEST; cr_client_order_id := order_ids (state_ b) slot;
                   cr_exchange_order_id := 0 |} in
  push (set_state b (untrack (state_ b) slot))
    {| bo_data := P_cancel cancel; bo_size := sizeof CancelRequest_layout; bo_type := CANCEL_REQUEST |}
    K_cancel.

(** The price walk at the head of a turn. *)
Definition walk_price (b : t) : t :=
  let c := cfg_ b in
  let '(g, s) := next_gaussian (rng_ b) in
  let noise := F64.mul (F64.mul g (volatility c)) (F64.of_Z (initial_mid c)) in
  let mp := F64.add (mid_price_ b) noise in
  let floor := F64.of_Z (i64 (tick_size c * 10)) in
  set_mid (set_rng b s) (if F64.ltb mp floor then floor else mp).

(** The choice of a turn, and whether it counts as generated. *)
Definition generate_one (b : t) : bool * t :=
  let '(r, b) := draw b in
  let roll := r mod 100 in
  let c := cfg_ b in
  if roll <? limit_pct c then (true, generate_limit_order b)
  else if roll <? u32 (limit_pct c + market_pct c) then (true, generate_market_order b)
  else if 0 <? active_count (state_ b) then (true, generate_cancel b)
  else (false, b).

Fixpoint batch_loop (n : nat) (b : t) (generated : Z) : Z * t :=
  match n with
  | O => (generated, b)
  | S n =>
      let available := u32 (BLAST_RING_SIZE - (write_pos_ b - read_pos_ b)) in
      if available =? 0 then (generated, b) else
      let '(counted, b) := generate_one (walk_price b) in
      batch_loop n (count_turn b) (if counted then u32 (generated + 1) else generated)
  end.

Definition generate_batch (b : t) : Z * t :=
  batch_loop (Z.to_nat (orders_per_batch (cfg_ b))) b 0.

Definition pop (b : t) : option BlastOrder * t :=
  if write_pos_ b <=? read_pos_ b then (None, b)
  else (Some (ring_ b (read_pos_ b mod BLAST_RING_SIZE)),
        {| cfg_ := cfg_ b; state_ := state_ b; ring_ := ring_ b; write_pos_ := write_pos_ b;
           read_pos_ := u64 (read_pos_ b + 1); mid_price_ := mid_price_ b; rng_ := rng_ b;
           total_generated_ := total_generated_ b; total_limits_ := total_limits_ b;
           total_markets_ := total_markets_ b; total_cancels_ := total_cancels_ b |}).

Definition queued (b : t) : Z := u32 (write_pos_ b - read_pos_ b).


(** ** The stream of messages *)

(** What a configuration must say for the generator to make sense. *)
Record config_ok (c : OrderBlasterConfig) : Prop := {
  co_tick : 0 < tick_size c;
  co_qty : 1 <= min_qty c <= max_qty c;
  co_max : max_qty c <= INT32_MAX;
  co_batch : 0 <= orders_per_batch c }.

Definition order_id_of (m : payload) : option Z :=
  match m with P_order o => Some (oe_client_order_id o) | P_cancel _ => None end.
Definition ids (hist : list payload) : list Z := omap order_id_of hist.

(** The fields of a generated order. *)
Definition order_ok (c : OrderBlasterConfig) (o : OrderEntry) : Prop :=
  oe_msg_type o = ORDER_ENTRY /\ (oe_side o = BUY \/ oe_side o = SELL) /\ oe_instrument_id o = 0 /\
  min_qty c <= oe_quantity o <= max_qty c /\
  ((oe_order_type o = LIMIT /\ 0 < oe_price o) \/ (oe_order_type o = MARKET /\ oe_price o = 0)).

(** The abstract promise: orders are numbered 1, 2, ...; every order is well
    formed; every cancel names a limit order sent before it, and no order is
    cancelled twice. *)
Record stream_valid (c : OrderBlasterConfig) (hist : list payload) : Prop := {
  sv_ids : ids hist = seqZ 1 (Z.of_nat (length (ids hist)));
  sv_orders : forall k o, hist !! k = Some (P_order o) -> order_ok c o;
  sv_cancels : forall k x, hist !! k = Some (P_cancel x) ->
    exists j o, (j < k)%nat /\ hist !! j = Some (P_order o) /\ oe_order_type o = LIMIT /\
      oe_client_order_id o = cr_client_order_id x;
  sv_once : forall k j x y, hist !! k = Some (P_cancel x) -> hist !! j = Some (P_cancel y) ->
    cr_client_order_id x = cr_client_order_id y -> k = j }.

Definition sent (hist : list payload) (id : Z) : Prop :=
  exists k o, hist !! k = Some (P_order o) /\ oe_order_type o = LIMIT /\ oe_client_order_id o = id.
Definition cancelled (hist : list payload) (id : Z) : Prop :=
  exists k x, hist !! k = Some (P_cancel x) /\ cr_client_order_id x = id.

(** The number of active slots. *)
Definition active_sum (act : arr bool) : Z := zsum (slice (fun i => Z.b2z (act i)) 4096).

Record table_ok (s : BlasterState.t) (hist : list payload) : Prop := {
  tb_cap : capacity s = 4096;
  tb_next : next_order_id s = 1 + Z.of_nat (length (ids hist));
  tb_live : forall i, 0 <= i < 4096 -> order_active s i = true ->
    sent hist (order_ids s i) /\ ~ cancelled hist (order_ids s i);
  tb_inj : forall i j, 0 <= i < 4096 -> 0 <= j < 4096 -> order_active s i = true ->
    order_active s j = true -> order_ids s i = order_ids s j -> i = j;
  tb_count : active_count s = active_sum (order_active s) }.

Definition framed (e : BlastOrder) : Prop :=
  match bo_data e with
  | P_order _ => bo_type e = ORDER_ENTRY /\ bo_size e = 64
  | P_cancel _ => bo_type e = CANCEL_REQUEST /\ bo_size e = 32
  end.

Record ring_ok (b : t) (hist : list payload) : Prop := {
  rk_write : write_pos_ b = Z.of_nat (length hist);
  rk_read : 0 <= read_pos_ b <= write_pos_ b;
  rk_room : write_pos_ b - read_pos_ b <= BLAST_RING_SIZE;
  rk_data : forall k, read_pos_ b <= k < write_pos_ b ->
    hist !! Z.to_nat k = Some (bo_data (ring_ b (k mod BLAST_RING_SIZE))) /\
    framed (ring_ b (k mod BLAST_RING_SIZE)) }.

Definition blaster_ok (c : OrderBlasterConfig) (b : t) (hist : list payload) : Prop :=
  cfg_ b = c /\ ring_ok b hist /\ table_ok (state_ b) hist /\ stream_valid c hist.

Lemma ids_snoc hist m : ids (hist ++ [m]) = ids hist ++ option_list (order_id_of m).
Proof. unfold ids. by rewrite omap_app. Qed.

Lemma ids_length hist : (length (ids hist) <= length hist)%nat.
Proof. unfold ids. induction hist as [|[o|x] hist IH]; [done|..]; cbn [omap list_omap order_id_of length]; lia. Qed.

Lemma ids_range c hist k o : stream_valid c hist -> hist !! k = Some (P_order o) ->
  1 <= oe_client_order_id o <= Z.of_nat (length (ids hist)).
Proof.
  intros [Hi _ _ _] Hk. assert (Hin : oe_client_order_id o ∈ ids hist).
  { unfold ids. apply list_elem_of_omap. exists (P_order o). split; [by eapply list_elem_of_lookup_2|done]. }
  rewrite Hi in Hin. apply elem_of_seqZ in Hin. lia.
Qed.

Lemma sent_snoc hist m id : sent hist id -> sent (hist ++ [m]) id.
Proof. intros (k & o & Hk & H). exists k, o. split; [by apply lookup_app_l_Some|done]. Qed.

Lemma cancelled_snoc hist m id : cancelled (hist ++ [m]) id <->
  cancelled hist id \/ (exists x, m = P_cancel x /\ cr_client_order_id x = id).
Proof.
  split.
  - intros (k & x & Hk & Hx). apply lookup_snoc_Some in Hk as [[_ Hk]|[_ ->]]; [left; by exists k, x|right; by exists x].
  - intros [(k & x & Hk & Hx)|(x & -> & Hx)].
    + exists k, x. split; [by apply lookup_app_l_Some|done].
    + exists (length hist), x. split; [apply lookup_snoc_Some; by right|done].
Qed.

Lemma stream_order c hist o : stream_valid c hist -> order_ok c o ->
  oe_client_order_id o = 1 + Z.of_nat (length (ids hist)) -> stream_valid c (hist ++ [P_order o]).
Proof.
  intros [Hi Ho Hc H1] Hok Hid. split.
  - rewrite ids_snoc. cbn [order_id_of option_list]. rewrite length_app, Hid. cbn [length].
    rewrite Nat2Z.inj_add, seqZ_app by lia. by rewrite <- Hi.
  - intros k o' Hk. apply lookup_snoc_Some in Hk as [[_ Hk]|[_ [= ->]]]; [by eapply Ho|done].
  - intros k x Hk. apply lookup_snoc_Some in Hk as [[_ Hk]|[_ ?]]; [|done].
    destruct (Hc k x Hk) as (j & o' & Hj & Hl & Hx). exists j, o'. split; [done|]. split; [by apply lookup_app_l_Some|done].
  - intros k j x y Hk Hj. apply lookup_snoc_Some in Hk as [[_ Hk]|[_ ?]]; [|done].
    apply lookup_snoc_Some in Hj as [[_ Hj]|[_ ?]]; [|done]. by eapply H1.
Qed.

Lemma stream_cancel c hist x : stream_valid c hist -> sent hist (cr_client_order_id x) ->
  ~ cancelled hist (cr_client_order_id x) -> stream_valid c (hist ++ [P_cancel x]).
Proof.
  intros [Hi Ho Hc H1] Hs Hn. split.
  - rewrite ids_snoc. cbn [order_id_of option_list]. by rewrite app_nil_r.
  - intros k o' Hk. apply lookup_snoc_Some in Hk as [[_ Hk]|[_ ?]]; [by eapply Ho|done].
  - intros k y Hk. apply lookup_snoc_Some in Hk as [[Hlt Hk]|[-> [= <-]]].
    + destruct (Hc k y Hk) as (j & o' & Hj & Hl & Hx). exists j, o'. split; [done|]. split; [by apply lookup_app_l_Some|done].
    + destruct Hs as (j & o' & Hj & Hl). exists j, o'. split; [by eapply lookup_lt_Some|].
      split; [by apply lookup_app_l_Some|done].
  - intros k j y z Hk Hj E. apply lookup_snoc_Some in Hk as [[_ Hk]|[-> [= <-]]];
      apply lookup_snoc_Some in Hj as [[_ Hj]|[-> [= <-]]].
    + by eapply H1.
    + destruct Hn. by exists k, y.
    + destruct Hn. by exists j, z.
    + done.
Qed.

(** ** The table and the ring under one message *)

Lemma free_from_spec n s i : 0 <= i ->
  let f := free_from n s i in
  f = UINT32_MAX \/ (i <= f < i + Z.of_nat n /\ order_active s f = false).
Proof.
  revert i. induction n as [|n IH]; intros i Hi; [by left|]. cbn [free_from].
  destruct (order_active s i) eqn:E; cbn [negb]; [|right; split; [lia|done]].
  destruct (IH (i + 1) ltac:(lia)) as [?|[? ?]]; [by left|right]. split; [lia|done].
Qed.

Lemma active_from_spec n s start i : 0 < capacity s ->
  let f := active_from n s start i in
  f = UINT32_MAX \/ (0 <= f < capacity s /\ order_active s f = true).
Proof.
  intros Hc. revert i. induction n as [|n IH]; intros i; [by left|]. cbn [active_from].
  destruct (order_active s (u32 (start + i) mod capacity s)) eqn:E; [right|apply IH].
  split; [by apply Z.mod_pos_bound|done].
Qed.

Lemma active_sum_range act : 0 <= active_sum act <= 4096.
Proof.
  unfold active_sum. pose proof (zsum_bounds (slice (fun i => Z.b2z (act i)) 4096) 0 1) as H.
  rewrite length_slice in H. assert (Z.max 0 4096 = 4096) by lia.
  specialize (H ltac:(intros x Hx; apply elem_of_slice in Hx as (i & _ & <-); destruct (act i); cbn; lia)). lia.
Qed.

Lemma active_sum_upd act i v : 0 <= i < 4096 ->
  active_sum (act.[i <- v]) = active_sum act - Z.b2z (act i) + Z.b2z v.
Proof.
  intros Hi. unfold active_sum.
  rewrite <- (slice_upd_sum (fun j => Z.b2z (act j)) i (Z.b2z v) 4096 Hi). f_equal.
  apply slice_ext. intros j _. unfold upd. by destruct (Z.eqb_spec j i).
Qed.

#[local] Opaque active_sum.

(** A new limit order takes a free slot. *)
Lemma table_limit c s hist slot o : stream_valid c hist -> table_ok s hist ->
  Z.of_nat (length hist) < 2 ^ 32 - 2 -> 0 <= slot < 4096 -> order_active s slot = false ->
  oe_order_type o = LIMIT -> oe_client_order_id o = next_order_id s ->
  table_ok (track (take_id s).2 slot o) (hist ++ [P_order o]).
Proof.
  intros Hv [Tc Tn Tl Ti Ta] Hb Hs Hf Hty Hid.
  assert (Hlen : (length (ids hist) <= length hist)%nat) by apply ids_length.
  pose proof (active_sum_range (order_active s)) as Har.
  assert (Hnew : forall i, 0 <= i < 4096 -> order_active s i = true -> order_ids s i <> next_order_id s).
  { intros i Hi Ha E. destruct (Tl i Hi Ha) as [(k & o' & Hk & _ & Eo) _].
    pose proof (ids_range c hist k o' Hv Hk). lia. }
  split; cbn [capacity next_order_id order_ids order_active active_count track take_id snd].
  - done.
  - rewrite ids_snoc, length_app. cbn. rewrite u32_small by lia. lia.
  - intros i Hi. unfold upd. destruct (Z.eqb_spec i slot) as [->|Hne]; intros Ha.
    + split.
      * exists (length hist), o. split; [apply lookup_snoc_Some; by right|done].
      * rewrite cancelled_snoc. intros [(k & x & Hk & Hx)|(x & ? & _)]; [|done].
        destruct (sv_cancels _ _ Hv k x Hk) as (j & o' & _ & Hj & _ & Eo).
        pose proof (ids_range c hist j o' Hv Hj). lia.
    + destruct (Tl i Hi Ha) as [H1 H2]. split; [by apply sent_snoc|].
      rewrite cancelled_snoc. intros [?|(x & ? & _)]; done.
  - intros i j Hi Hj. unfold upd.
    destruct (Z.eqb_spec i slot) as [->|Hi'], (Z.eqb_spec j slot) as [->|Hj']; intros Ha Ha' E.
    + done.
    + destruct (Hnew j Hj Ha'). congruence.
    + destruct (Hnew i Hi Ha). congruence.
    + by apply Ti.
  - pose proof (active_sum_range ((order_active s).[slot <- true])) as H.
    rewrite active_sum_upd, Hf in * by exact Hs. cbn [Z.b2z] in *. rewrite u32_small by lia. lia.
Qed.

(** A market order only takes a number. *)
Lemma table_market s hist o : table_ok s hist -> Z.of_nat (length hist) < 2 ^ 32 - 2 ->
  table_ok (take_id s).2 (hist ++ [P_order o]).
Proof.
  intros [Tc Tn Tl Ti Ta] Hb.
  assert (Hlen : (length (ids hist) <= length hist)%nat) by apply ids_length.
  split; cbn [capacity next_order_id order_ids order_active active_count take_id snd]; try done.
  - rewrite ids_snoc, length_app. cbn. rewrite u32_small by lia. lia.
  - intros i Hi Ha. destruct (Tl i Hi Ha) as [H1 H2]. split; [by apply sent_snoc|].
    rewrite cancelled_snoc. intros [?|(x & ? & _)]; done.
Qed.

(** A cancel frees the slot of its order. *)
Lemma table_cancel s hist slot x : table_ok s hist -> 0 <= slot < 4096 -> order_active s slot = true ->
  cr_client_order_id x = order_ids s slot -> table_ok (untrack s slot) (hist ++ [P_cancel x]).
Proof.
  intros [Tc Tn Tl Ti Ta] Hs Hact Hid. pose proof (active_sum_range (order_active s)) as Har.
  split; cbn [capacity next_order_id order_ids order_active active_count untrack].
  - done.
  - rewrite ids_snoc. cbn [order_id_of option_list]. by rewrite app_nil_r.
  - intros i Hi. unfold upd. destruct (Z.eqb_spec i slot) as [->|Hne]; [done|]. intros Ha.
    destruct (Tl i Hi Ha) as [H1 H2]. split; [by apply sent_snoc|].
    rewrite cancelled_snoc. intros [?|(y & [= <-] & Hy)]; [done|]. apply Hne. apply Ti; congruence.
  - intros i j Hi Hj. unfold upd.
    destruct (Z.eqb_spec i slot), (Z.eqb_spec j slot); try done. by apply Ti.
  - pose proof (active_sum_range ((order_active s).[slot <- false])) as H.
    rewrite active_sum_upd, Hact in * by exact Hs. cbn [Z.b2z] in *. rewrite u32_small by lia. lia.
Qed.

Lemma ring_push b hist e k : ring_ok b hist -> write_pos_ b - read_pos_ b < BLAST_RING_SIZE ->
  Z.of_nat (length hist) < 2 ^ 32 -> framed e -> ring_ok (push b e k) (hist ++ [bo_data e]).
Proof.
  intros [Rw Rr Rm Rd] Hroom Hb He. unfold BLAST_RING_SIZE in *.
  split; cbn [write_pos_ read_pos_ ring_ push]; rewrite ?length_app, u64_small by lia; cbn [length].
  1-3: unfold BLAST_RING_SIZE; lia.
  intros i Hi. unfold BLAST_RING_SIZE in *. unfold upd. destruct (Z.eq_dec i (write_pos_ b)) as [->|Hne].
  - rewrite Z.eqb_refl. split; [|done]. apply lookup_snoc_Some. right. split; [lia|done].
  - assert (i mod 65536 <> write_pos_ b mod 65536).
    { intros E. apply Hne. pose proof (Z.div_mod i 65536 ltac:(lia)). pose proof (Z.div_mod (write_pos_ b) 65536 ltac:(lia)).
      lia. }
    rewrite (proj2 (Z.eqb_neq _ _)) by done. destruct (Rd i ltac:(lia)) as [H1 H2].
    split; [|done]. by apply lookup_app_l_Some.
Qed.

(** ** One turn, a batch, a pop *)

#[local] Opaque next_raw F64.add F64.sub F64.mul F64.div F64.sqrt F64.ltb F64.of_Z F64.trunc F64.lit
  free_from active_from.

Lemma draw_qty_range c b : config_ok c -> cfg_ b = c ->
  min_qty c <= (draw_qty b).1 <= max_qty c.
Proof.
  intros [_ [Hq1 Hq2] Hm _] <-. unfold draw_qty. cbn. set (r := next_raw (rng_ b)).
  set (c := cfg_ b) in *. unfold INT32_MAX in Hm.
  rewrite (i32_small (max_qty c - min_qty c)), (i32_small (max_qty c - min_qty c + 1)), u64_small by lia.
  pose proof (Z.mod_pos_bound r (max_qty c - min_qty c + 1) ltac:(lia)).
  rewrite !i32_small; rewrite ?i32_small; lia.
Qed.

Lemma limit_price_positive c m side r : 0 < tick_size c -> 0 < limit_price c m side r.
Proof. intros Ht. unfold limit_price. cbv zeta. match goal with |- context [?p <=? 0] => destruct (Z.leb_spec p 0) end; lia. Qed.

Lemma side_of_cases r : side_of r = BUY \/ side_of r = SELL.
Proof. unfold side_of. destruct (_ =? _); auto. Qed.

(** What a message generator does to the history: at most one message, the
    consumer's position kept. *)
Definition grows (c : OrderBlasterConfig) (b b' : t) (hist : list payload) : Prop :=
  read_pos_ b' = read_pos_ b /\
  exists m, (length m <= 1)%nat /\ blaster_ok c b' (hist ++ m).

Definition has_room (b : t) (hist : list payload) : Prop :=
  write_pos_ b - read_pos_ b < BLAST_RING_SIZE /\ Z.of_nat (length hist) < 2 ^ 32 - 2.

Lemma grows_refl c b hist : blaster_ok c b hist -> grows c b b hist.
Proof. intros H. split; [done|]. exists []. rewrite app_nil_r. split; [cbn; lia|done]. Qed.

(** Only these fields matter to the invariant. *)
Lemma blaster_ok_same c b b' hist : cfg_ b' = cfg_ b -> state_ b' = state_ b -> ring_ b' = ring_ b ->
  write_pos_ b' = write_pos_ b -> read_pos_ b' = read_pos_ b -> blaster_ok c b hist -> blaster_ok c b' hist.
Proof.
  intros E1 E2 E3 E4 E5 (H1 & [R1 R2 R3 R4] & H3 & H4). unfold blaster_ok. rewrite E1, E2.
  split; [done|]. split; [|done]. split; rewrite ?E3, ?E4, ?E5; done.
Qed.

Lemma generate_limit_grows c b hist : config_ok c -> blaster_ok c b hist -> has_room b hist ->
  grows c b (generate_limit_order b) hist.
Proof.
  intros Hc Hb [Hroom Hlen]. unfold generate_limit_order.
  destruct (Z.eqb_spec (find_free_slot (state_ b)) UINT32_MAX) as [_|Hne]; [by apply grows_refl|].
  destruct Hb as (Hcfg & Hr & Ht & Hv). pose proof (tb_cap _ _ Ht) as Hcap.
  unfold find_free_slot in *. rewrite Hcap in *.
  destruct (free_from_spec (Z.to_nat 4096) (state_ b) 0 ltac:(lia)) as [?|[Hs Hf]]; [done|].
  set (slot := free_from (Z.to_nat 4096) (state_ b) 0) in *. clearbody slot.
  unfold draw. cbn [fst snd]. set (side := side_of (next_raw (rng_ b))).
  set (b2 := set_rng (set_rng b _) _).
  set (price := limit_price _ _ _ _).
  pose proof (draw_qty_range c b2 Hc Hcfg) as Hq. destruct (draw_qty b2) as [qty b3] eqn:Eq.
  assert (Eb3 : exists s, b3 = set_rng b s) by (unfold draw_qty in Eq; cbn in Eq; injection Eq as _ <-; eexists; reflexivity).
  destruct Eb3 as [s ->]. cbn [fst] in Hq. unfold take_id. cbn [state_ set_rng].
  set (o := new_order side LIMIT (next_order_id (state_ b)) price qty).
  assert (Ho : order_ok c o).
  { split_and!; cbn; try done; try lia; [apply side_of_cases|]. left. split; [done|].
    apply limit_price_positive. unfold b2. cbn. rewrite Hcfg. apply Hc. }
  split; [done|]. exists [P_order o]. split; [done|]. split; [done|].
  split; [|split].
  - apply (ring_push _ hist {| bo_data := P_order o; bo_size := _; bo_type := ORDER_ENTRY |} K_limit);
      [|done|lia|done]. destruct Hr. by split.
  - by apply (table_limit c (state_ b) hist slot o).
  - apply stream_order; [done|done|]. cbn. apply Ht.
Qed.

Lemma generate_market_grows c b hist : config_ok c -> blaster_ok c b hist -> has_room b hist ->
  grows c b (generate_market_order b) hist.
Proof.
  intros Hc (Hcfg & Hr & Ht & Hv) [Hroom Hlen]. unfold generate_market_order, draw.
  set (side := side_of (next_raw (rng_ b))). set (b2 := set_rng b _).
  pose proof (draw_qty_range c b2 Hc Hcfg) as Hq. destruct (draw_qty b2) as [qty b3] eqn:Eq.
  assert (Eb3 : exists s, b3 = set_rng b s) by (unfold draw_qty in Eq; cbn in Eq; injection Eq as _ <-; eexists; reflexivity).
  destruct Eb3 as [s ->]. cbn [fst] in Hq. unfold take_id. cbn [state_ set_rng].
  set (o := new_order side MARKET (next_order_id (state_ b)) 0 qty).
  assert (Ho : order_ok c o) by (split_and!; cbn; try done; try lia; [apply side_of_cases|by right]).
  split; [done|]. exists [P_order o]. split; [done|]. split; [done|].
  split; [|split].
  - apply (ring_push _ hist {| bo_data := P_order o; bo_size := _; bo_type := ORDER_ENTRY |} K_market);
      [|done|lia|done]. destruct Hr. by split.
  - by apply (table_market (state_ b) hist o).
  - apply stream_order; [done|done|]. cbn. apply Ht.
Qed.

Lemma generate_cancel_grows c b hist : blaster_ok c b hist -> has_room b hist ->
  grows c b (generate_cancel b) hist.
Proof.
  intros Hb [Hroom Hlen]. unfold generate_cancel, draw. set (r := next_raw (rng_ b)).
  cbn [state_ set_rng]. destruct (Z.eqb_spec (find_active_slot (state_ b) r) UINT32_MAX) as [_|Hne].
  { split; [done|]. exists []. rewrite app_nil_r. split; [cbn; lia|]. revert Hb. by apply blaster_ok_same. }
  destruct Hb as (Hcfg & Hr & Ht & Hv). pose proof (tb_cap _ _ Ht) as Hcap.
  unfold find_active_slot in *. destruct (active_count (state_ b) =? 0); [done|]. 
  pose proof (active_from_spec (Z.to_nat (capacity (state_ b))) (state_ b) (u32 (r mod capacity (state_ b))) 0
    ltac:(lia)) as [?|[Hs Ha]]; [done|].
  set (slot := active_from _ (state_ b) _ 0) in *. clearbody slot. rewrite Hcap in Hs.
  set (x := {| cr_msg_type := CANCEL_REQUEST; cr_client_order_id := order_ids (state_ b) slot;
               cr_exchange_order_id := 0 |}).
  destruct (tb_live _ _ Ht slot Hs Ha) as [Hsent Hnc].
  split; [done|]. exists [P_cancel x]. split; [done|]. split; [done|]. split; [|split].
  - apply (ring_push _ hist {| bo_data := P_cancel x; bo_size := _; bo_type := CANCEL_REQUEST |} K_cancel);
      [|done|lia|done]. destruct Hr. by split.
  - by apply table_cancel.
  - by apply stream_cancel.
Qed.

Lemma walk_price_same b : let b' := walk_price b in
  cfg_ b' = cfg_ b /\ state_ b' = state_ b /\ ring_ b' = ring_ b /\ write_pos_ b' = write_pos_ b /\
  read_pos_ b' = read_pos_ b.
Proof. unfold walk_price. destruct (next_gaussian (rng_ b)) as [g s]. by split_and!. Qed.

Lemma grows_same c b1 b2 b3 b4 hist : read_pos_ b1 = read_pos_ b2 -> cfg_ b4 = cfg_ b3 ->
  state_ b4 = state_ b3 -> ring_ b4 = ring_ b3 -> write_pos_ b4 = write_pos_ b3 ->
  read_pos_ b4 = read_pos_ b3 -> grows c b2 b3 hist -> grows c b1 b4 hist.
Proof.
  intros E E1 E2 E3 E4 E5 [Hr (m & Hm & Hok)]. split; [congruence|]. exists m. split; [done|].
  by apply (blaster_ok_same c b3).
Qed.

Lemma choice_grows c b hist : config_ok c -> blaster_ok c b hist -> has_room b hist ->
  grows c b (generate_one b).2 hist.
Proof.
  intros Hc Hb Hroom. unfold generate_one, draw. set (r := next_raw (rng_ b)). clearbody r.
  assert (Hb2 : blaster_ok c (set_rng b r) hist) by (by apply (blaster_ok_same c b)).
  cbn [fst snd]. apply (grows_same c b (set_rng b r) _ _ hist eq_refl eq_refl eq_refl eq_refl eq_refl eq_refl).
  repeat case_match; cbn [snd]; [by apply generate_limit_grows|by apply generate_market_grows
    |by apply generate_cancel_grows|by apply grows_refl].
Qed.

Lemma generate_one_grows c b hist : config_ok c -> blaster_ok c b hist -> has_room b hist ->
  grows c b (count_turn (generate_one (walk_price b)).2) hist.
Proof.
  intros Hc Hb Hroom. destruct (walk_price_same b) as (E1 & E2 & E3 & E4 & E5).
  revert E1 E2 E3 E4 E5. generalize (walk_price b). intros b1 E1 E2 E3 E4 E5.
  assert (HG : grows c b1 (generate_one b1).2 hist).
  { apply choice_grows; [done|by apply (blaster_ok_same c b)|]. unfold has_room in *. by rewrite E4, E5. }
  revert HG. generalize ((generate_one b1).2). intros b3. by apply grows_same.
Qed.

Lemma batch_grows c n b g hist : config_ok c -> blaster_ok c b hist ->
  Z.of_nat (length hist) + Z.of_nat n < 2 ^ 32 - 1 ->
  let b' := (batch_loop n b g).2 in
  read_pos_ b' = read_pos_ b /\
  exists ms, (length ms <= n)%nat /\ blaster_ok c b' (hist ++ ms).
Proof.
  intros Hc. revert b g hist. induction n as [|n IH]; intros b g hist Hb Hlen.
  { split; [done|]. exists []. rewrite app_nil_r. done. }
  cbn [batch_loop]. pose proof Hb as (_ & [Rw Rr Rm _] & _).
  destruct (Z.eqb_spec (u32 (BLAST_RING_SIZE - (write_pos_ b - read_pos_ b))) 0) as [_|Hne].
  { split; [done|]. exists []. rewrite app_nil_r. split; [cbn; lia|done]. }
  assert (Hroom : has_room b hist).
  { split; [|lia]. destruct (Z.eq_dec (write_pos_ b - read_pos_ b) BLAST_RING_SIZE) as [E|?]; [|lia].
    rewrite E, Z.sub_diag in Hne. done. }
  destruct (generate_one_grows c b hist Hc Hb Hroom) as [Hr (m & Hm & Hok)].
  destruct (generate_one (walk_price b)) as [counted b1]. cbn [snd] in *.
  destruct (IH (count_turn b1) (if counted then u32 (g + 1) else g) (hist ++ m) Hok) as [Hr' (ms & Hms & Hok')].
  { rewrite length_app. lia. }
  split; [congruence|]. exists (m ++ ms). rewrite length_app, app_assoc. split; [lia|done].
Qed.

Lemma pop_ok c b hist : blaster_ok c b hist -> Z.of_nat (length hist) < 2 ^ 32 ->
  let '(e, b') := pop b in
  blaster_ok c b' hist /\ write_pos_ b' = write_pos_ b /\
  match e with
  | Some e => hist !! Z.to_nat (read_pos_ b) = Some (bo_data e) /\ framed e /\ read_pos_ b' = read_pos_ b + 1
  | None => read_pos_ b = write_pos_ b /\ b' = b
  end.
Proof.
  intros (Hcfg & [Rw Rr Rm Rd] & Ht & Hv) Hl. unfold pop. destruct (Z.leb_spec (write_pos_ b) (read_pos_ b)).
  - split; [exact (conj Hcfg (conj (Build_ring_ok _ _ Rw Rr Rm Rd) (conj Ht Hv)))|]. split; [done|]. split; [lia|done].
  - destruct (Rd (read_pos_ b) ltac:(lia)) as [H1 H2]. cbn [read_pos_ write_pos_]. rewrite u64_small by lia.
    split; [|done]. split; [done|]. split; [|done]. split; cbn [read_pos_ write_pos_ ring_]; rewrite ?u64_small by lia;
      try lia. intros k Hk. apply Rd. lia.
Qed.

(** ** Sessions *)

Inductive op := Op_batch | Op_pop.

Definition run_op (b : t) (o : op) : list payload * t :=
  match o with
  | Op_batch => ([], (generate_batch b).2)
  | Op_pop => let '(e, b) := pop b in ((fun e => bo_data e) <$> option_list e, b)
  end.

Fixpoint run (ops : list op) (b : t) : list payload * t :=
  match ops with
  | [] => ([], b)
  | o :: ops => let '(out, b) := run_op b o in let '(outs, b) := run ops b in (out ++ outs, b)
  end.

(** The messages waiting in the ring. *)
Definition queue (b : t) : list payload :=
  (fun k => bo_data (ring_ b (k mod BLAST_RING_SIZE))) <$> seqZ (read_pos_ b) (write_pos_ b - read_pos_ b).

Lemma queue_drop c b hist : blaster_ok c b hist -> queue b = drop (Z.to_nat (read_pos_ b)) hist.
Proof.
  intros (_ & [Rw Rr Rm Rd] & _). apply list_eq. intros i. unfold queue.
  rewrite lookup_drop, list_lookup_fmap. destruct (decide (Z.of_nat i < write_pos_ b - read_pos_ b)).
  - rewrite lookup_seqZ_lt by lia. cbn. destruct (Rd (read_pos_ b + Z.of_nat i) ltac:(lia)) as [Hk _].
    rewrite <- Hk. f_equal. lia.
  - rewrite lookup_seqZ_ge by lia. cbn. symmetry. apply lookup_ge_None. lia.
Qed.

Lemma run_history c ops b hist : config_ok c -> blaster_ok c b hist ->
  Z.of_nat (length hist) + Z.of_nat (length ops) * orders_per_batch c < 2 ^ 32 - 1 ->
  let '(out, b') := run ops b in
  exists ms, blaster_ok c b' (hist ++ ms) /\
    take (Z.to_nat (read_pos_ b')) (hist ++ ms) = take (Z.to_nat (read_pos_ b)) hist ++ out.
Proof.
  intros Hc. pose proof (co_batch c Hc) as Hn. revert b hist. induction ops as [|o ops IH]; intros b hist Hb Hl.
  { exists []. rewrite !app_nil_r. done. }
  cbn [length] in Hl. cbn [run]. destruct o; cbn [run_op].
  - unfold generate_batch. replace (cfg_ b) with c by (symmetry; apply Hb).
    destruct (batch_grows c (Z.to_nat (orders_per_batch c)) b 0 hist Hc Hb ltac:(nia)) as [Hr (ms & Hms & Hok)].
    destruct (batch_loop _ b 0) as [g b1]. cbn [snd] in *.
    specialize (IH b1 (hist ++ ms) Hok). rewrite length_app in IH. specialize (IH ltac:(nia)).
    destruct (run ops b1) as [out b2]. destruct IH as (ms' & Hok' & Ht). exists (ms ++ ms'). rewrite app_assoc.
    split; [done|]. rewrite Ht, Hr. cbn [app]. f_equal. apply take_app_le.
    destruct Hb as (_ & [Rw Rr _ _] & _). lia.
  - pose proof (pop_ok c b hist Hb ltac:(nia)) as Hp. destruct (pop b) as [e b1]. destruct Hp as (Hok & Hw & He).
    specialize (IH b1 hist Hok ltac:(nia)). destruct (run ops b1) as [out b2]. destruct IH as (ms & Hok' & Ht).
    exists ms. split; [done|]. rewrite Ht. destruct e as [e|]; cbn [option_list fmap list_fmap app].
    + destruct He as (Hk & _ & Hr). rewrite Hr. destruct Hb as (_ & [_ Rr _ _] & _).
      replace (Z.to_nat (read_pos_ b + 1)) with (S (Z.to_nat (read_pos_ b))) by lia.
      by rewrite (take_S_r _ _ _ Hk), <- app_assoc.
    + by destruct He as [_ ->].
Qed.

#[local] Transparent active_sum.
Lemma active_sum_none act : (forall i, 0 <= i < 4096 -> act i = false) -> active_sum act = 0.
Proof.
  intros H. unfold active_sum. pose proof (zsum_bounds (slice (fun i => Z.b2z (act i)) 4096) 0 0) as Hb.
  assert (Hz : forall x, x ∈ slice (fun i => Z.b2z (act i)) 4096 -> 0 <= x <= 0); [|specialize (Hb Hz); lia].
  intros x Hx. apply elem_of_slice in Hx as (i & Hi & <-). rewrite H by done. cbn. lia.
Qed.
#[local] Opaque active_sum.

(** A constructed generator, over whatever the arena's memory holds. *)
Definition constructed (b : t) : Prop :=
  active_count (state_ b) = 0 /\ next_order_id (state_ b) = 1.

Lemma stream_nil c : stream_valid c [].
Proof. split; try (intros; done). Qed.

Lemma init_ok arena cfg b0 : constructed b0 ->
  let '(ok, _, b) := init arena cfg b0 in ok = true -> blaster_ok cfg b [].
Proof.
  intros [Ha Hn]. unfold init, BlasterState.init. cbn [state_ set_state].
  do 5 (destruct (HugePageArena.allocate _ _ _ _) as [? ?]).
  repeat match goal with p : option Z |- _ => destruct p as [?|]; [|done] end. cbn [negb].
  destruct (HugePageArena.allocate_raw _ _ _) as [[?|] ?]; [|done]. intros _.
  assert (Hoff : forall i, 0 <= i < 4096 ->
    (if (0 <=? i) && (i <? 4096) then false else order_active (state_ b0) i) = false).
  { intros i Hi. by rewrite (proj2 (Z.leb_le _ _)), (proj2 (Z.ltb_lt _ _)) by lia. }
  split; [done|]. split; [|split; [|apply stream_nil]].
  - split; cbn [write_pos_ read_pos_ ring_ length]; unfold BLAST_RING_SIZE; try lia.
  - split; cbn [state_ capacity next_order_id order_active order_ids active_count].
    + done.
    + by rewrite Hn.
    + intros i Hi. by rewrite Hoff.
    + intros i j Hi _. by rewrite Hoff.
    + by rewrite active_sum_none.
Qed.

(** C13: An initialised order generator, however batches and pops are mixed,
    emits a valid stream (popped messages, then the ones still in the ring):
    orders numbered 1, 2, ... with quantities inside the configured range, limit
    prices positive and market prices zero; every cancel names a limit order
    sent earlier and no order is cancelled twice.  At most 65536 messages wait
    in the ring, and the active count is the number of tracked live orders. *)
Theorem blaster_stream arena cfg b0 ops :
  config_ok cfg -> constructed b0 -> (init arena cfg b0).1.1 = true ->
  Z.of_nat (length ops) * orders_per_batch cfg < 2 ^ 32 - 1 ->
  let '(out, b) := run ops (init arena cfg b0).2 in
  stream_valid cfg (out ++ queue b) /\ Z.of_nat (length (queue b)) <= BLAST_RING_SIZE /\
  active_count (state_ b) = active_sum (order_active (state_ b)).
Proof.
  intros Hc Hb Hi Hl. pose proof (init_ok arena cfg b0 Hb) as Hok.
  destruct (init arena cfg b0) as [[ok ar] b]. cbn [fst snd] in *. specialize (Hok Hi).
  pose proof (run_history cfg ops b [] Hc Hok ltac:(cbn; lia)) as Hr. destruct (run ops b) as [out b'].
  destruct Hr as (ms & Hok' & Ht). cbn [app] in *. rewrite take_nil in Ht. cbn [app] in Ht.
  rewrite (queue_drop cfg b' ms Hok'), <- Ht, take_drop.
  pose proof Hok' as (_ & [Rw Rr Rm _] & Htab & Hv). split; [done|]. split; [|exact (tb_count _ _ Htab)].
  rewrite length_drop. lia.
Qed.

(** ** What the configuration does not control *)

(** Every slot of the live-order table is taken. *)
Definition saturated (b : t) : Prop :=
  capacity (state_ b) = 4096 /\ forall i, 0 <= i < 4096 -> order_active (state_ b) i = true.

#[local] Transparent free_from.
Lemma free_from_full n s i : (forall j, i <= j < i + Z.of_nat n -> order_active s j = true) ->
  free_from n s i = UINT32_MAX.
Proof.
  revert i. induction n as [|n IH]; intros i H; [done|]. cbn [free_from]. rewrite (H i) by lia. cbn [negb].
  apply IH. intros j Hj. apply H. lia.
Qed.

(** The same generator under another price range. *)
Definition with_range (r : Z) (c : OrderBlasterConfig) : OrderBlasterConfig :=
  {| initial_mid := initial_mid c; tick_size := tick_size c; price_range := r; volatility := volatility c;
     limit_pct := limit_pct c; market_pct := market_pct c; cancel_pct := cancel_pct c; min_qty := min_qty c;
     max_qty := max_qty c; seed := seed c; orders_per_batch := orders_per_batch c |}.
Definition rerange (r : Z) (b : t) : t :=
  {| cfg_ := with_range r (cfg_ b); state_ := state_ b; ring_ := ring_ b; write_pos_ := write_pos_ b;
     read_pos_ := read_pos_ b; mid_price_ := mid_price_ b; rng_ := rng_ b;
     total_generated_ := total_generated_ b; total_limits_ := total_limits_ b;
     total_markets_ := total_markets_ b; total_cancels_ := total_cancels_ b |}.

Lemma rerange_price r c m side v : limit_price (with_range r c) m side v = limit_price c m side v.
Proof. unfold limit_price. cbn [tick_size with_range]. reflexivity. Qed.

Lemma rerange_qty r b : draw_qty (rerange r b) = ((draw_qty b).1, rerange r (draw_qty b).2).
Proof. unfold draw_qty, draw. cbn [cfg_ rng_ set_rng rerange with_range min_qty max_qty fst snd]. reflexivity. Qed.

Lemma rerange_limit r b : generate_limit_order (rerange r b) = rerange r (generate_limit_order b).
Proof.
  unfold generate_limit_order. change (state_ (rerange r b)) with (state_ b).
  destruct (find_free_slot (state_ b) =? UINT32_MAX); [reflexivity|]. unfold draw.
  cbn [rng_ rerange set_rng cfg_ mid_price_]. rewrite rerange_price. set (side := side_of _).
  set (price := limit_price _ _ _ _). clearbody side price.
  match goal with |- context [draw_qty (set_rng (set_rng ?x ?v) ?w)] =>
    change (draw_qty (set_rng (set_rng x v) w)) with (draw_qty (rerange r (set_rng (set_rng b v) w))) end.
  rewrite rerange_qty. destruct (draw_qty _) as [q b1]. reflexivity.
Qed.

Lemma rerange_market r b : generate_market_order (rerange r b) = rerange r (generate_market_order b).
Proof.
  unfold generate_market_order, draw. change (rng_ (rerange r b)) with (rng_ b).
  set (v := next_raw (rng_ b)). clearbody v. change (set_rng (rerange r b) v) with (rerange r (set_rng b v)).
  rewrite rerange_qty. destruct (draw_qty (set_rng b v)) as [q b1]. reflexivity.
Qed.

Lemma rerange_cancel r b : generate_cancel (rerange r b) = rerange r (generate_cancel b).
Proof.
  unfold generate_cancel, draw. cbn [rng_ rerange state_ set_rng].
  destruct (find_active_slot (state_ b) (next_raw (rng_ b)) =? UINT32_MAX); reflexivity.
Qed.

Lemma rerange_choice r b : generate_one (rerange r b) = ((generate_one b).1, rerange r (generate_one b).2).
Proof.
  unfold generate_one, draw. change (rng_ (rerange r b)) with (rng_ b). set (v := next_raw (rng_ b)). clearbody v.
  change (set_rng (rerange r b) v) with (rerange r (set_rng b v)). generalize (set_rng b v). intros b1.
  cbn [cfg_ rerange with_range limit_pct market_pct state_]. rewrite rerange_limit, rerange_market, rerange_cancel.
  destruct (v mod 100 <? limit_pct (cfg_ b1)); [reflexivity|].
  destruct (v mod 100 <? u32 (limit_pct (cfg_ b1) + market_pct (cfg_ b1))); [reflexivity|].
  destruct (0 <? active_count (state_ b1)); reflexivity.
Qed.

Lemma rerange_walk r b : walk_price (rerange r b) = rerange r (walk_price b).
Proof. unfold walk_price. cbn [rng_ rerange cfg_]. by destruct (next_gaussian (rng_ b)). Qed.

Lemma rerange_batch r n b g :
  batch_loop n (rerange r b) g = ((batch_loop n b g).1, rerange r (batch_loop n b g).2).
Proof.
  revert b g. induction n as [|n IH]; intros b g; [done|]. cbn [batch_loop].
  change (write_pos_ (rerange r b)) with (write_pos_ b). change (read_pos_ (rerange r b)) with (read_pos_ b).
  destruct (_ =? 0); [done|]. rewrite rerange_walk, rerange_choice. destruct (generate_one (walk_price b)) as [k b1].
  cbn [fst snd]. change (count_turn (rerange r b1)) with (rerange r (count_turn b1)). apply IH.
Qed.

Lemma rerange_run r ops b : run ops (rerange r b) = ((run ops b).1, rerange r (run ops b).2).
Proof.
  revert b. induction ops as [|[] ops IH]; intros b; [done| |]; cbn [run run_op].
  - unfold generate_batch. cbn [cfg_ rerange with_range orders_per_batch]. rewrite rerange_batch. cbn [snd].
    rewrite IH. by destruct (run ops _).
  - unfold pop. cbn [write_pos_ read_pos_ ring_ rerange]. destruct (write_pos_ b <=? read_pos_ b).
    + rewrite IH. by destruct (run ops _).
    + match goal with |- context [run ops ?x] => change x with (rerange r
        {| cfg_ := cfg_ b; state_ := state_ b; ring_ := ring_ b; write_pos_ := write_pos_ b;
           read_pos_ := u64 (read_pos_ b + 1); mid_price_ := mid_price_ b; rng_ := rng_ b;
           total_generated_ := total_generated_ b; total_limits_ := total_limits_ b;
           total_markets_ := total_markets_ b; total_cancels_ := total_cancels_ b |}) at 1 end.
      rewrite IH. by destruct (run ops _).
Qed.

(** The configured price range has no effect: the messages of any session
    are the same whatever it is, although the stress scenarios set it to get a
    very tight or a very wide book. *)
Theorem price_range_ignored arena cfg r b0 ops :
  (run ops (init arena (with_range r cfg) b0).2).1 = (run ops (init arena cfg b0).2).1.
Proof.
  assert (E : (init arena (with_range r cfg) b0).2 = rerange r (init arena cfg b0).2).
  { unfold init. cbn [state_ with_range seed initial_mid].
    destruct (BlasterState.init arena 4096 (state_ b0)) as [[[] ar] s]; [|reflexivity]. cbn [negb].
    by destruct (HugePageArena.allocate_raw ar _ _) as [[?|] ?]. }
  rewrite E, rerange_run. reflexivity.
Qed.

Definition drained_of_limits (b b' : t) : Prop :=
  saturated b' /\ total_limits_ b' = total_limits_ b /\ total_cancels_ b' = total_cancels_ b /\ cfg_ b' = cfg_ b.

Lemma drained_trans b1 b2 b3 : drained_of_limits b1 b2 -> drained_of_limits b2 b3 -> drained_of_limits b1 b3.
Proof. intros (H1 & H2 & H3 & H4) (K1 & K2 & K3 & K4). split; [done|]. split_and!; congruence. Qed.

Lemma saturated_choice b : saturated b -> 100 <= limit_pct (cfg_ b) + market_pct (cfg_ b) < 2 ^ 32 ->
  drained_of_limits b (generate_one b).2.
Proof.
  intros [Hc Ha] Hp. unfold generate_one, draw. set (v := next_raw (rng_ b)). clearbody v.
  cbn [cfg_ set_rng state_]. destruct (v mod 100 <? limit_pct (cfg_ b)).
  - cbn [snd]. unfold generate_limit_order. cbn [state_ set_rng]. unfold find_free_slot. rewrite Hc.
    rewrite free_from_full by (intros j Hj; apply Ha; lia). done.
  - rewrite (u32_small (limit_pct (cfg_ b) + market_pct (cfg_ b))) by lia.
    pose proof (Z.mod_pos_bound v 100 ltac:(lia)). rewrite (proj2 (Z.ltb_lt _ _)) by lia.
    cbn [snd]. unfold generate_market_order, draw_qty, draw. cbn [cfg_ set_rng state_ fst snd take_id]. by split_and!.
Qed.

Lemma saturated_batch n b g : saturated b -> 100 <= limit_pct (cfg_ b) + market_pct (cfg_ b) < 2 ^ 32 ->
  drained_of_limits b (batch_loop n b g).2.
Proof.
  revert b g. induction n as [|n IH]; intros b g Hs Hp; [by split_and!|]. cbn [batch_loop].
  destruct (_ =? 0); [by split_and!|].
  assert (Hw : drained_of_limits b (walk_price b)).
  { unfold walk_price. destruct (next_gaussian (rng_ b)) as [x y]. by split_and!. }
  revert Hw. generalize (walk_price b). intros b1 Hw. pose proof Hw as (Hs1 & _ & _ & Hc1).
  pose proof (saturated_choice b1 Hs1 ltac:(by rewrite Hc1)) as Hch.
  destruct (generate_one b1) as [k b2]. cbn [snd] in Hch.
  assert (H2 : drained_of_limits b (count_turn b2)) by (apply (drained_trans b b1); [done|]; exact Hch).
  apply (drained_trans b (count_turn b2)); [done|]. apply IH; [apply H2|].
  destruct H2 as (_ & _ & _ & ->). done.
Qed.

(** Slots of the live-order table are freed by cancels only, never by
    fills: in a session without cancels (limit and market orders make up all
    the mix), once the 4096 slots are taken not one more limit order or cancel
    is ever emitted, whatever the limit share is; only market orders are. *)
Theorem saturated_stops_limits ops b :
  saturated b -> 100 <= limit_pct (cfg_ b) + market_pct (cfg_ b) < 2 ^ 32 ->
  let b' := (run ops b).2 in
  saturated b' /\ total_limits_ b' = total_limits_ b /\ total_cancels_ b' = total_cancels_ b.
Proof.
  intros Hs Hp b'. assert (drained_of_limits b b'); [|by split_and!; apply H].
  unfold b'. clear b'. revert b Hs Hp. induction ops as [|o ops IH]; intros b Hs Hp; [by split_and!|].
  assert (H1 : drained_of_limits b (run_op b o).2).
  { destruct o; cbn [run_op snd]; [by apply saturated_batch|]. unfold pop. destruct (_ <=? _); by split_and!. }
  cbn [run]. destruct (run_op b o) as [out b1]. cbn [snd] in H1. pose proof H1 as (Hs1 & _ & _ & Hc1).
  specialize (IH b1 Hs1 ltac:(by rewrite Hc1)). destruct (run ops b1) as [outs b2]. cbn [snd] in *.
  by apply (drained_trans b b1).
Qed.
End Libm.

(** A constructed generator over an arena of 512 MiB, and concrete stand-ins
    for the mathematical functions. *)
Definition demo_arena : HugePageArena.t :=
  {| HugePageArena.base_ := 4096; HugePageArena.size_ := 536870912; HugePageArena.offset_ := 0;
     HugePageArena.hugepage_backed_ := true |}.
Definition demo_entry : BlastOrder :=
  {| bo_data := P_cancel {| cr_msg_type := CANCEL_REQUEST; cr_client_order_id := 0; cr_exchange_order_id := 0 |};
     bo_size := 0; bo_type := MSG_OTHER 0 |}.
Definition demo_new : t :=
  new default_blaster_config
    (BlasterState.new (fun _ => 0) (fun _ => 0) (fun _ => BUY) (fun _ => 0) (fun _ => true))
    (fun _ => demo_entry).
Definition demo_full : t :=
  set_state demo_new
    {| order_ids := fun i => i + 1; order_prices := fun _ => 0; order_sides := fun _ => BUY;
       order_qtys := fun _ => 0; order_active := fun _ => true; active_count := 4096;
       capacity := 4096; next_order_id := 4097 |}.

Lemma default_config_ok : config_ok default_blaster_config.
Proof. split; vm_compute; (reflexivity || discriminate || (split; discriminate)). Qed.

Lemma blaster_stream_witness :
  let '(out, b) := run (fun x => x) (fun x => x) [Op_batch; Op_pop; Op_batch]
                     (init demo_arena default_blaster_config demo_new).2 in
  stream_valid default_blaster_config (out ++ queue b) /\ Z.of_nat (length (queue b)) <= BLAST_RING_SIZE /\
  active_count (state_ b) = active_sum (order_active (state_ b)).
Proof.
  apply (blaster_stream (fun x => x) (fun x => x) demo_arena default_blaster_config demo_new [Op_batch; Op_pop; Op_batch]).
  - exact default_config_ok.
  - split; reflexivity.
  - vm_compute. reflexivity.
  - vm_compute. reflexivity.
Defined.

Definition no_cancels : OrderBlasterConfig :=
  {| initial_mid := 1000000; tick_size := 100; price_range := 200; volatility := F64.lit 1 100000;
     limit_pct := 90; market_pct := 10; cancel_pct := 0; min_qty := 1; max_qty := 10;
     seed := 7; orders_per_batch := 4 |}.
Definition demo_full_run : t :=
  {| cfg_ := no_cancels; state_ := state_ demo_full; ring_ := fun _ => demo_entry; write_pos_ := 4096;
     read_pos_ := 4096; mid_price_ := F64.of_Z 1000000; rng_ := 7; total_generated_ := 4096;
     total_limits_ := 4096; total_markets_ := 0; total_cancels_ := 0 |}.

Lemma saturated_stops_limits_witness :
  let b' := (run (fun x => x) (fun x => x) [Op_batch; Op_pop] demo_full_run).2 in
  saturated b' /\ total_limits_ b' = total_limits_ demo_full_run /\ total_cancels_ b' = total_cancels_ demo_full_run.
Proof.
  apply (saturated_stops_limits (fun x => x) (fun x => x) [Op_batch; Op_pop] demo_full_run).
  - split; [reflexivity|intros; reflexivity].
  - vm_compute. split; [discriminate|reflexivity].
Defined.
End OrderBlaster.
