(* ===== verification/Stress.v ===== *)
(** The post-contest stress battery
    (src/exchange/include/exchange/stress_scenarios.hpp): the ten scenarios,
    each a configuration of the order generator with a weight in the system
    test score. *)

From S2P Require Import Prelude Arena Protocol Xorshift Blaster.
From Stdlib Require Import SpecFloat.
From Stdlib Require Import String.
#[local] Open Scope string_scope.
#[local] Open Scope Z_scope.

Definition MAX_STRESS_SCENARIOS : Z := 10.

Record StressScenario := {
  ss_id : Z; ss_name : string; ss_description : string; ss_weight : spec_float;
  ss_duration_secs : Z; ss_blaster_cfg : OrderBlasterConfig }.

(** [std::strncpy] into a zeroed buffer: at most [n] characters. *)
Definition strncpy (n : nat) (s : string) : string := String.substring 0 n s.

Definition scenario_1 : StressScenario :=
  {| ss_id := 1; ss_name := strncpy 47 "Crossed Book Stress";
     ss_description := strncpy 127 "Rapid overlapping buy/sell at same prices — tests crossing logic";
     ss_weight := F64.lit 15 100; ss_duration_secs := 8;
     ss_blaster_cfg :=
       {| seed := 0xDEADBEEFCAFE0001; initial_mid := 1000000; tick_size := 100; price_range := 200;
          volatility := F64.lit 1 100000; limit_pct := 90; market_pct := 10; cancel_pct := 0;
          min_qty := 1; max_qty := 10; orders_per_batch := 256 |} |}.

Definition scenario_2 : StressScenario :=
  {| ss_id := 2; ss_name := strncpy 47 "Deep Book Sweep";
     ss_description := strncpy 127 "Large market orders sweeping 100+ price levels";
     ss_weight := F64.lit 12 100; ss_duration_secs := 10;
     ss_blaster_cfg :=
       {| seed := 0xDEADBEEFCAFE0002; initial_mid := 1000000; tick_size := 100; price_range := 50000;
          volatility := F64.of_Z 0; limit_pct := 40; market_pct := 60; cancel_pct := 0;
          min_qty := 50; max_qty := 500; orders_per_batch := 128 |} |}.

Definition scenario_3 : StressScenario :=
  {| ss_id := 3; ss_name := strncpy 47 "Cancel Storm";
     ss_description := strncpy 127 "90% cancel rate — tests cancel-rebooking integrity";
     ss_weight := F64.lit 10 100; ss_duration_secs := 8;
     ss_blaster_cfg :=
       {| seed := 0xDEADBEEFCAFE0003; initial_mid := 1000000; tick_size := 100; price_range := 5000;
          volatility := F64.lit 1 10000; limit_pct := 8; market_pct := 2; cancel_pct := 90;
          min_qty := 1; max_qty := 50; orders_per_batch := 256 |} |}.

Definition scenario_4 : StressScenario :=
  {| ss_id := 4; ss_name := strncpy 47 "Self-Trade Trap";
     ss_description := strncpy 127 "Tight spread, high volume near position limits";
     ss_weight := F64.lit 8 100; ss_duration_secs := 8;
     ss_blaster_cfg :=
       {| seed := 0xDEADBEEFCAFE0004; initial_mid := 500000; tick_size := 50; price_range := 100;
          volatility := F64.of_Z 0; limit_pct := 80; market_pct := 15; cancel_pct := 5;
          min_qty := 80; max_qty := 100; orders_per_batch := 64 |} |}.

Definition scenario_5 : StressScenario :=
  {| ss_id := 5; ss_name := strncpy 47 "Tick-Size Edge";
     ss_description := strncpy 127 "Orders at min/max price boundaries, tick alignment stress";
     ss_weight := F64.lit 8 100; ss_duration_secs := 6;
     ss_blaster_cfg :=
       {| seed := 0xDEADBEEFCAFE0005; initial_mid := 100; tick_size := 1; price_range := 50;
          volatility := F64.lit 1 1000; limit_pct := 70; market_pct := 20; cancel_pct := 10;
          min_qty := 1; max_qty := 5; orders_per_batch := 128 |} |}.

Definition scenario_6 : StressScenario :=
  {| ss_id := 6; ss_name := strncpy 47 "Burst Traffic";
     ss_description := strncpy 127 "Short-duration extreme OPS spike — tests throughput ceiling";
     ss_weight := F64.lit 12 100; ss_duration_secs := 5;
     ss_blaster_cfg :=
       {| seed := 0xDEADBEEFCAFE0006; initial_mid := 1000000; tick_size := 100; price_range := 5000;
          volatility := F64.lit 1 10000; limit_pct := 60; market_pct := 20; cancel_pct := 20;
          min_qty := 1; max_qty := 50; orders_per_batch := 512 |} |}.

Definition scenario_7 : StressScenario :=
  {| ss_id := 7; ss_name := strncpy 47 "IOC Flood";
     ss_description := strncpy 127 "Pure IOC/Market orders — nothing should rest in book";
     ss_weight := F64.lit 8 100; ss_duration_secs := 6;
     ss_blaster_cfg :=
       {| seed := 0xDEADBEEFCAFE0007; initial_mid := 1000000; tick_size := 100; price_range := 2000;
          volatility := F64.lit 1 10000; limit_pct := 0; market_pct := 100; cancel_pct := 0;
          min_qty := 1; max_qty := 20; orders_per_batch := 128 |} |}.

Definition scenario_8 : StressScenario :=
  {| ss_id := 8; ss_name := strncpy 47 "Rapid Order ID Churn";
     ss_description := strncpy 127 "High volume, small ID space — tests order_id recycling";
     ss_weight := F64.lit 8 100; ss_duration_secs := 8;
     ss_blaster_cfg :=
       {| seed := 0xDEADBEEFCAFE0008; initial_mid := 1000000; tick_size := 100; price_range := 3000;
          volatility := F64.lit 1 10000; limit_pct := 40; market_pct := 20; cancel_pct := 40;
          min_qty := 1; max_qty := 30; orders_per_batch := 256 |} |}.

Definition scenario_9 : StressScenario :=
  {| ss_id := 9; ss_name := strncpy 47 "Position Limit Grind";
     ss_description := strncpy 127 "Orders exactly at position limit boundaries";
     ss_weight := F64.lit 9 100; ss_duration_secs := 8;
     ss_blaster_cfg :=
       {| seed := 0xDEADBEEFCAFE0009; initial_mid := 1000000; tick_size := 100; price_range := 1000;
          volatility := F64.of_Z 0; limit_pct := 70; market_pct := 30; cancel_pct := 0;
          min_qty := 90; max_qty := 100; orders_per_batch := 64 |} |}.

Definition scenario_10 : StressScenario :=
  {| ss_id := 10; ss_name := strncpy 47 "Conservation Audit";
     ss_description := strncpy 127 "Balanced buy/sell — total filled buy qty must equal sell qty";
     ss_weight := F64.lit 10 100; ss_duration_secs := 10;
     ss_blaster_cfg :=
       {| seed := 0xDEADBEEFCAFE000A; initial_mid := 1000000; tick_size := 100; price_range := 5000;
          volatility := F64.lit 5 100000; limit_pct := 50; market_pct := 40; cancel_pct := 10;
          min_qty := 10; max_qty := 100; orders_per_batch := 128 |} |}.

(** [build_stress_scenarios]: the scenarios written to the caller's array; the
    count it returns is their number. *)
Definition build_stress_scenarios : list StressScenario :=
  [scenario_1; scenario_2; scenario_3; scenario_4; scenario_5; scenario_6; scenario_7; scenario_8;
   scenario_9; scenario_10].

(** What the battery relies on for each scenario: a sensible generator
    configuration, a mix that adds up to 100, and a seed the generator does not
    get stuck on. *)
Definition scenario_ok (s : StressScenario) : Prop :=
  let c := ss_blaster_cfg s in
  OrderBlaster.config_ok c /\ limit_pct c + market_pct c + cancel_pct c = 100 /\
  word (seed c) /\ seed c <> 0 /\ max_qty c <= 1000 /\ 0 < ss_duration_secs s.

Lemma scenarios_ok : Forall scenario_ok build_stress_scenarios.
Proof.
  repeat constructor; unfold scenario_ok, word;
    repeat match goal with |- _ /\ _ => split end;
    vm_compute; (reflexivity || discriminate || (split; discriminate)).
Qed.

(** The battery is sound.  Its ten scenarios are numbered 1 to 10 with
    different seeds, every one is a sensible generator configuration whose mix
    adds up to 100 and whose orders respect the announced maximum size of 1000,
    the weights add up to 1 less one unit in the last place of a double, and
    every stream a scenario's generator emits is valid. *)
Theorem stress_battery dlog dcos :
  ss_id <$> build_stress_scenarios = seqZ 1 MAX_STRESS_SCENARIOS /\
  NoDup ((fun s => seed (ss_blaster_cfg s)) <$> build_stress_scenarios) /\
  foldl F64.add (F64.of_Z 0) (ss_weight <$> build_stress_scenarios) =
    F64.sub (F64.of_Z 1) (F64.lit 1 (2 ^ 53)) /\
  forall s, s ∈ build_stress_scenarios -> scenario_ok s /\
    forall arena b0 ops, OrderBlaster.constructed b0 ->
      (OrderBlaster.init arena (ss_blaster_cfg s) b0).1.1 = true ->
      Z.of_nat (List.length ops) * orders_per_batch (ss_blaster_cfg s) < 2 ^ 32 - 1 ->
      let '(out, b) := OrderBlaster.run dlog dcos ops (OrderBlaster.init arena (ss_blaster_cfg s) b0).2 in
      OrderBlaster.stream_valid (ss_blaster_cfg s) (out ++ OrderBlaster.queue b).
Proof.
  split; [reflexivity|]. split; [apply (bool_decide_unpack _); vm_compute; reflexivity|].
  split; [vm_compute; reflexivity|]. intros s Hs.
  pose proof (proj1 (Forall_forall _ _) scenarios_ok s Hs) as Hok. split; [exact Hok|].
  intros arena b0 ops Hb Hi Hl. destruct Hok as [Hc _].
  pose proof (OrderBlaster.init_ok arena (ss_blaster_cfg s) b0 Hb) as Hok.
  destruct (OrderBlaster.init arena (ss_blaster_cfg s) b0) as [[ok ar] b]. cbn [fst snd] in *. specialize (Hok Hi).
  pose proof (OrderBlaster.run_history dlog dcos _ ops b [] Hc Hok ltac:(cbn; lia)) as Hr.
  destruct (OrderBlaster.run dlog dcos ops b) as [out b']. destruct Hr as (ms & Hok' & Ht).
  cbn [app] in *. rewrite take_nil in Ht. cbn [app] in Ht.
  rewrite (OrderBlaster.queue_drop _ b' ms Hok'), <- Ht, take_drop. apply Hok'.
Qed.
