(* ===== verification/Bridge.v ===== *)
(** The host side of the contestant link
    (src/sandbox/include/sandbox/sandbox_bridge.hpp): non-blocking sends with
    their time stamps, the reassembly of responses from received chunks, the
    response and latency rings, and the statistics.  What [send] and [recv] do
    and what the time stamp counter reads are arguments of the operations. *)

From S2P Require Import Prelude Arena Protocol Xorshift Blaster.
From Stdlib Require Import SpecFloat.

Record OrderLatency := {
  ol_order_id : Z; ol_send_tsc : Z; ol_recv_tsc : Z; ol_latency_ns : Z; ol_was_dropped : bool }.

Record BridgeStats := {
  bs_orders_sent : Z; bs_responses_recv : Z; bs_drops : Z; bs_partial_sends : Z;
  bs_recv_errors : Z; bs_total_latency_ns : Z; bs_min_latency_ns : Z; bs_max_latency_ns : Z }.

Definition zero_stats : BridgeStats :=
  {| bs_orders_sent := 0; bs_responses_recv := 0; bs_drops := 0; bs_partial_sends := 0;
     bs_recv_errors := 0; bs_total_latency_ns := 0; bs_min_latency_ns := UINT64_MAX;
     bs_max_latency_ns := 0 |}.

Definition RESPONSE_RING_SIZE : Z := 65536.
Definition LATENCY_RING_SIZE : Z := 65536.

(** The outcome of a non-blocking [send]: bytes accepted, would block, or error. *)
Inductive send_result := Sent (n : Z) | Would_block | Send_error.

Module SandboxBridge.

Definition PENDING_TSC_SIZE : Z := 4096.

Record t := {
  client_fd_ : Z; responses_ : arr ContestantResponse; resp_head_ : Z; resp_tail_ : Z;
  latencies_ : arr OrderLatency; lat_head_ : Z; lat_tail_ : Z;
  pending_tsc_ : arr Z; pending_oid_ : arr Z; stats_ : BridgeStats; tsc_ghz_ : spec_float }.

Definition new (responses : arr ContestantResponse) (latencies : arr OrderLatency) : t :=
  {| client_fd_ := -1; responses_ := responses; resp_head_ := 0; resp_tail_ := 0;
     latencies_ := latencies; lat_head_ := 0; lat_tail_ := 0; pending_tsc_ := fun _ => 0;
     pending_oid_ := fun _ => 0; stats_ := zero_stats; tsc_ghz_ := F64.of_Z 0 |}.

(** The frequency from the counts measured over the calibration window. *)
Definition calibrate_tsc_frequency (tsc_delta ns_delta : Z) : spec_float :=
  if 0 <? ns_delta then F64.div (F64.of_Z tsc_delta) (F64.of_Z ns_delta) else F64.lit 27 10.

Definition init (arena : HugePageArena.t) (tsc_delta ns_delta : Z) (b : t) : bool * HugePageArena.t * t :=
  let '(p1, arena) := HugePageArena.allocate_raw arena (u64 (64 * RESPONSE_RING_SIZE)) CACHE_LINE_SIZE in
  let '(p2, arena) := HugePageArena.allocate_raw arena (u64 (40 * LATENCY_RING_SIZE)) CACHE_LINE_SIZE in
  match p1, p2 with
  | Some _, Some _ =>
      (true, arena,
       {| client_fd_ := client_fd_ b; responses_ := responses_ b; resp_head_ := 0; resp_tail_ := 0;
          latencies_ := latencies_ b; lat_head_ := 0; lat_tail_ := 0; pending_tsc_ := pending_tsc_ b;
          pending_oid_ := pending_oid_ b; stats_ := stats_ b;
          tsc_ghz_ := calibrate_tsc_frequency tsc_delta ns_delta |})
  | _, _ => (false, arena, b)
  end.

Definition set_stats (b : t) (s : BridgeStats) : t :=
  {| client_fd_ := client_fd_ b; responses_ := responses_ b; resp_head_ := resp_head_ b;
     resp_tail_ := resp_tail_ b; latencies_ := latencies_ b; lat_head_ := lat_head_ b;
     lat_tail_ := lat_tail_ b; pending_tsc_ := pending_tsc_ b; pending_oid_ := pending_oid_ b;
     stats_ := s; tsc_ghz_ := tsc_ghz_ b |}.
Definition set_pending (b : t) (tsc oid : arr Z) : t :=
  {| client_fd_ := client_fd_ b; responses_ := responses_ b; resp_head_ := resp_head_ b;
     resp_tail_ := resp_tail_ b; latencies_ := latencies_ b; lat_head_ := lat_head_ b;
     lat_tail_ := lat_tail_ b; pending_tsc_ := tsc; pending_oid_ := oid; stats_ := stats_ b;
     tsc_ghz_ := tsc_ghz_ b |}.

Definition record_latency (b : t) (oid send recv : Z) (dropped : bool) : t :=
  let idx := u32 (lat_tail_ b mod LATENCY_RING_SIZE) in
  {| client_fd_ := client_fd_ b; responses_ := responses_ b; resp_head_ := resp_head_ b;
     resp_tail_ := resp_tail_ b;
     latencies_ := (latencies_ b).[idx <-
       {| ol_order_id := oid; ol_send_tsc := send; ol_recv_tsc := recv;
          ol_latency_ns := if send <? recv then u64 (recv - send) else 0; ol_was_dropped := dropped |}];
     lat_head_ := lat_head_ b; lat_tail_ := u64 (lat_tail_ b + 1); pending_tsc_ := pending_tsc_ b;
     pending_oid_ := pending_oid_ b; stats_ := stats_ b; tsc_ghz_ := tsc_ghz_ b |}.

Definition bump_drops (s : BridgeStats) : BridgeStats :=
  {| bs_orders_sent := bs_orders_sent s; bs_responses_recv := bs_responses_recv s;
     bs_drops := u64 (bs_drops s + 1); bs_partial_sends := bs_partial_sends s;
     bs_recv_errors := bs_recv_errors s; bs_total_latency_ns := bs_total_latency_ns s;
     bs_min_latency_ns := bs_min_latency_ns s; bs_max_latency_ns := bs_max_latency_ns s |}.
Definition bump_errors (s : BridgeStats) : BridgeStats :=
  {| bs_orders_sent := bs_orders_sent s; bs_responses_recv := bs_responses_recv s;
     bs_drops := bs_drops s; bs_partial_sends := bs_partial_sends s;
     bs_recv_errors := u64 (bs_recv_errors s + 1); bs_total_latency_ns := bs_total_latency_ns s;
     bs_min_latency_ns := bs_min_latency_ns s; bs_max_latency_ns := bs_max_latency_ns s |}.
Definition bump_sent (s : BridgeStats) (partial : bool) : BridgeStats :=
  {| bs_orders_sent := u64 (bs_orders_sent s + 1); bs_responses_recv := bs_responses_recv s;
     bs_drops := bs_drops s;
     bs_partial_sends := if partial then u64 (bs_partial_sends s + 1) else bs_partial_sends s;
     bs_recv_errors := bs_recv_errors s; bs_total_latency_ns := bs_total_latency_ns s;
     bs_min_latency_ns := bs_min_latency_ns s; bs_max_latency_ns := bs_max_latency_ns s |}.
Definition bump_recv (s : BridgeStats) : BridgeStats :=
  {| bs_orders_sent := bs_orders_sent s; bs_responses_recv := u64 (bs_responses_recv s + 1);
     bs_drops := bs_drops s; bs_partial_sends := bs_partial_sends s;
     bs_recv_errors := bs_recv_errors s; bs_total_latency_ns := bs_total_latency_ns s;
     bs_min_latency_ns := bs_min_latency_ns s; bs_max_latency_ns := bs_max_latency_ns s |}.

(** The identifier of the message in a generator entry. *)
Definition id_of_entry (e : BlastOrder) : Z :=
  match bo_data e with P_order o => oe_client_order_id o | P_cancel c => cr_client_order_id c end.

Definition send_order (b : t) (e : BlastOrder) (send_tsc : Z) (r : send_result) : bool * t :=
  if client_fd_ b <? 0 then (false, b) else
  match r with
  | Would_block => (false, record_latency (set_stats b (bump_drops (stats_ b))) 0 send_tsc 0 true)
  | Send_error => (false, set_stats b (bump_errors (stats_ b)))
  | Sent n =>
      let b := set_stats b (bump_sent (stats_ b) (u32 n <? bo_size e)) in
      let slot := bs_orders_sent (stats_ b) mod PENDING_TSC_SIZE in
      (true, set_pending b ((pending_tsc_ b).[slot <- send_tsc]) ((pending_oid_ b).[slot <- id_of_entry e]))
  end.

(** The search for the send time: the first of [n] slots from [i] with the id. *)
Fixpoint find_pending (n : nat) (oid : arr Z) (i id : Z) : option Z :=
  match n with
  | O => None
  | S n => if oid i =? id then Some i else find_pending n oid (i + 1) id
  end.

Definition stamped (r : ContestantResponse) (recv_tsc send_tsc : Z) : ContestantResponse :=
  {| rs_order_id := rs_order_id r; rs_response_type := rs_response_type r;
     rs_ack_status := rs_ack_status r; rs_num_fills := rs_num_fills r;
     rs_fill_price := rs_fill_price r; rs_fill_qty := rs_fill_qty r;
     rs_remaining_qty := rs_remaining_qty r; rs_recv_tsc := recv_tsc; rs_send_tsc := send_tsc |}.

Definition store_response (b : t) (r : ContestantResponse) : t :=
  {| client_fd_ := client_fd_ b;
     responses_ := (responses_ b).[u32 (resp_tail_ b mod RESPONSE_RING_SIZE) <- r];
     resp_head_ := resp_head_ b; resp_tail_ := u64 (resp_tail_ b + 1); latencies_ := latencies_ b;
     lat_head_ := lat_head_ b; lat_tail_ := lat_tail_ b; pending_tsc_ := pending_tsc_ b;
     pending_oid_ := pending_oid_ b; stats_ := bump_recv (stats_ b); tsc_ghz_ := tsc_ghz_ b |}.

(** One response of a chunk.  (The conversion of the cycles to nanoseconds is
    computed by the code and not used.) *)
Definition handle_response (recv_tsc : Z) (b : t) (r : ContestantResponse) : t :=
  let '(r, b) :=
    match find_pending (Z.to_nat PENDING_TSC_SIZE) (pending_oid_ b) 0 (rs_order_id r) with
    | Some i => (stamped r recv_tsc (pending_tsc_ b i),
                 set_pending b (pending_tsc_ b) ((pending_oid_ b).[i <- 0]))
    | None => (stamped r recv_tsc (rs_send_tsc r), b)
    end in
  let b := if 0 <? rs_send_tsc r
           then record_latency b (rs_order_id r) (rs_send_tsc r) recv_tsc false else b in
  store_response b r.

(** The whole responses of a chunk; a remainder shorter than one is dropped. *)
Fixpoint frames (n : nat) (bytes : list Z) : list ContestantResponse :=
  match n with
  | O => []
  | S n => of_wire (take 64 bytes) :: frames n (drop 64 bytes)
  end.
Definition parse_chunk (bytes : list Z) : list ContestantResponse := frames (length bytes / 64) bytes.

(** [recv_responses] over the chunks [recv] returns, each with the counter
    read after it; an empty chunk ends the loop. *)
Fixpoint recv_loop (b : t) (chunks : list (Z * list Z)) (count : Z) : Z * t :=
  match chunks with
  | [] => (count, b)
  | (recv_tsc, bytes) :: chunks =>
      if (length bytes =? 0)%nat then (count, b) else
      let rs := parse_chunk bytes in
      recv_loop (foldl (handle_response recv_tsc) b rs) chunks (u32 (count + Z.of_nat (length rs)))
  end.
Definition recv_responses (b : t) (chunks : list (Z * list Z)) : Z * t :=
  if client_fd_ b <? 0 then (0, b) else recv_loop b chunks 0.

Definition pop_response (b : t) : option ContestantResponse * t :=
  if resp_tail_ b <=? resp_head_ b then (None, b) else
  (Some (responses_ b (resp_head_ b mod RESPONSE_RING_SIZE)),
   {| client_fd_ := client_fd_ b; responses_ := responses_ b; resp_head_ := u64 (resp_head_ b + 1);
      resp_tail_ := resp_tail_ b; latencies_ := latencies_ b; lat_head_ := lat_head_ b;
      lat_tail_ := lat_tail_ b; pending_tsc_ := pending_tsc_ b; pending_oid_ := pending_oid_ b;
      stats_ := stats_ b; tsc_ghz_ := tsc_ghz_ b |}).

Definition pop_latency (b : t) : option OrderLatency * t :=
  if lat_tail_ b <=? lat_head_ b then (None, b) else
  (Some (latencies_ b (lat_head_ b mod LATENCY_RING_SIZE)),
   {| client_fd_ := client_fd_ b; responses_ := responses_ b; resp_head_ := resp_head_ b;
      resp_tail_ := resp_tail_ b; latencies_ := latencies_ b; lat_head_ := u64 (lat_head_ b + 1);
      lat_tail_ := lat_tail_ b; pending_tsc_ := pending_tsc_ b; pending_oid_ := pending_oid_ b;
      stats_ := stats_ b; tsc_ghz_ := tsc_ghz_ b |}).

Definition is_connected (b : t) : bool := 0 <=? client_fd_ b.

(** *** The sockets of the link *)

(** The members [socket_path_] and [listen_fd_]; the path is null until [init]. *)
Record Endpoint := { socket_path_ : option (list Z); listen_fd_ : Z }.
Definition new_endpoint : Endpoint := {| socket_path_ := None; listen_fd_ := -1 |}.

(** The system calls on them, as far as somebody else can see them. *)
Inductive link_event :=
| L_unlink (path : list Z) | L_socket (fd : Z) | L_bind (fd : Z) (path : list Z) | L_listen (fd : Z)
| L_accept (fd : Z) | L_setup (fd : Z) | L_control (data : list Z) | L_close (fd : Z).

(** The results of [socket], [bind], [poll] and [accept]. *)
Record ListenAnswers := { lk_socket : Z; lk_bind : Z; lk_poll : Z; lk_accept : Z }.

Definition set_client (b : t) (fd : Z) : t :=
  {| client_fd_ := fd; responses_ := responses_ b; resp_head_ := resp_head_ b; resp_tail_ := resp_tail_ b;
     latencies_ := latencies_ b; lat_head_ := lat_head_ b; lat_tail_ := lat_tail_ b;
     pending_tsc_ := pending_tsc_ b; pending_oid_ := pending_oid_ b; stats_ := stats_ b; tsc_ghz_ := tsc_ghz_ b |}.

(** The address holds 107 characters of the path. *)
Definition listen_and_accept (p : Endpoint) (b : t) (k : ListenAnswers) : list link_event * bool * Endpoint * t :=
  let path := default [] (socket_path_ p) in
  let p := {| socket_path_ := socket_path_ p; listen_fd_ := lk_socket k |} in
  if lk_socket k <? 0 then ([L_unlink path], false, p, b) else
  let ev := [L_unlink path; L_socket (lk_socket k); L_bind (lk_socket k) (take 107 path)] in
  if lk_bind k <? 0 then (ev, false, p, b) else
  let ev := ev ++ [L_listen (lk_socket k)] in
  if lk_poll k <=? 0 then (ev, false, p, b) else
  let b := set_client b (lk_accept k) in
  if lk_accept k <? 0 then (ev, false, p, b) else
  (ev ++ [L_accept (lk_accept k); L_setup (lk_accept k)], true, p, b).

(** [n] is what [send] returns. *)
Definition send_control (b : t) (msg : list Z) (n : Z) : list link_event * bool :=
  if client_fd_ b <? 0 then ([], false) else ([L_control msg], n =? Z.of_nat (length msg)).

Definition shutdown (p : Endpoint) (b : t) : list link_event * Endpoint * t :=
  let ev1 := if 0 <=? client_fd_ b then [L_close (client_fd_ b)] else [] in
  let ev2 := if 0 <=? listen_fd_ p then [L_close (listen_fd_ p)] else [] in
  let ev3 := match socket_path_ p with Some path => [L_unlink path] | None => [] end in
  (ev1 ++ ev2 ++ ev3,
   {| socket_path_ := socket_path_ p; listen_fd_ := if 0 <=? listen_fd_ p then -1 else listen_fd_ p |},
   if 0 <=? client_fd_ b then set_client b (-1) else b).


(** ** The response ring *)

Definition resp_queue (b : t) : list ContestantResponse :=
  (fun k => responses_ b (k mod RESPONSE_RING_SIZE)) <$> seqZ (resp_head_ b) (resp_tail_ b - resp_head_ b).

(** Room for [n] more responses. *)
Definition resp_room (b : t) (n : Z) : Prop :=
  0 <= resp_head_ b <= resp_tail_ b /\ resp_tail_ b - resp_head_ b + n <= RESPONSE_RING_SIZE /\
  resp_tail_ b + n < 2 ^ 64.

Lemma ring_slot_u32 k : u32 (k mod 65536) = k mod 65536.
Proof. apply u32_small. pose proof (Z.mod_pos_bound k 65536). lia. Qed.

Lemma store_queue b r : resp_room b 1 ->
  resp_queue (store_response b r) = resp_queue b ++ [r] /\
  resp_head_ (store_response b r) = resp_head_ b /\ resp_tail_ (store_response b r) = resp_tail_ b + 1.
Proof.
  unfold resp_room, RESPONSE_RING_SIZE. intros (Hh & Hr & Ht). unfold resp_queue, store_response, RESPONSE_RING_SIZE.
  cbn [responses_ resp_head_ resp_tail_]. rewrite u64_small, ring_slot_u32 by lia. split; [|done].
  replace (resp_tail_ b + 1 - resp_head_ b) with (resp_tail_ b - resp_head_ b + 1) by lia.
  rewrite seqZ_app, fmap_app by lia. f_equal.
  - apply list_fmap_ext. intros i k Hk%lookup_seqZ. apply upd_ne. intros E.
    pose proof (Z.div_mod k 65536 ltac:(lia)). pose proof (Z.div_mod (resp_tail_ b) 65536 ltac:(lia)). lia.
  - replace (resp_head_ b + (resp_tail_ b - resp_head_ b)) with (resp_tail_ b) by lia.
    rewrite seqZ_cons by lia. rewrite fmap_cons. by rewrite upd_eq.
Qed.

(** A response as the bridge stores it: the contestant's, time stamps apart. *)
Definition delivered (r r' : ContestantResponse) : Prop := exists tr ts, r' = stamped r tr ts.

Lemma handle_queue recv b r : resp_room b 1 ->
  exists r', delivered r r' /\ resp_queue (handle_response recv b r) = resp_queue b ++ [r'] /\
    resp_head_ (handle_response recv b r) = resp_head_ b /\
    resp_tail_ (handle_response recv b r) = resp_tail_ b + 1.
Proof.
  intros Hr. unfold handle_response.
  destruct (find_pending _ _ 0 (rs_order_id r)) as [i|];
    match goal with |- context [stamped r recv ?s] => exists (stamped r recv s) end; (split; [by eexists _, _|]).
  - destruct (0 <? rs_send_tsc (stamped r recv (pending_tsc_ b i)));
      match goal with |- context [store_response ?x ?y] => destruct (store_queue x y) as (E1 & E2 & E3) end;
      try exact Hr; by rewrite E1, E2, E3.
  - destruct (0 <? rs_send_tsc (stamped r recv (rs_send_tsc r)));
      match goal with |- context [store_response ?x ?y] => destruct (store_queue x y) as (E1 & E2 & E3) end;
      try exact Hr; by rewrite E1, E2, E3.
Qed.

Lemma handle_all recv rs : forall b, resp_room b (Z.of_nat (length rs)) ->
  exists new, Forall2 delivered rs new /\
    resp_queue (foldl (handle_response recv) b rs) = resp_queue b ++ new /\
    resp_head_ (foldl (handle_response recv) b rs) = resp_head_ b /\
    resp_tail_ (foldl (handle_response recv) b rs) = resp_tail_ b + Z.of_nat (length rs).
Proof.
  induction rs as [|r rs IH]; intros b (Hh & Hr & Ht); cbn [foldl length] in *.
  { exists []. rewrite app_nil_r, Z.add_0_r. done. }
  destruct (handle_queue recv b r) as (r' & Hd & E1 & E2 & E3); [unfold resp_room; lia|].
  destruct (IH (handle_response recv b r)) as (new & Hn & F1 & F2 & F3); [unfold resp_room; lia|].
  exists (r' :: new). split; [by constructor|]. rewrite F1, F2, F3, E1, E2, E3, <- app_assoc.
  split; [done|]. split; [done|lia].
Qed.

(** The bytes of whole responses parse as these responses. *)
Lemma parse_whole (rs : list ContestantResponse) : Forall wire_ok rs ->
  parse_chunk (concat (to_wire <$> rs)) = rs /\ length (concat (to_wire <$> rs)) = (64 * length rs)%nat.
Proof.
  intros Hok. assert (H64 : forall r : ContestantResponse, length (to_wire r) = 64%nat).
  { intros r. pose proof (length_to_wire r) as H. change (wire_size ContestantResponse) with 64 in H. lia. }
  assert (Hlen : length (concat (to_wire <$> rs)) = (64 * length rs)%nat).
  { clear Hok. induction rs as [|r rs IH]; [done|]. rewrite fmap_cons. cbn [concat length].
    rewrite length_app, H64, IH. lia. }
  split; [|done]. unfold parse_chunk. rewrite Hlen, Nat.mul_comm, Nat.div_mul by done. clear Hlen.
  induction Hok as [|r rs Hr _ IH]; [done|]. rewrite fmap_cons. cbn [concat length frames].
  rewrite take_app_length', drop_app_length' by (by rewrite H64). rewrite IH. f_equal.
  rewrite <- (app_nil_r (to_wire r)). by apply of_to_wire.
Qed.

Lemma recv_loop_whole cs : forall b n,
  Forall (fun c => Forall wire_ok c.2 /\ c.2 <> []) cs ->
  resp_room b (Z.of_nat (length (concat cs.*2))) -> 0 <= n -> n + Z.of_nat (length (concat cs.*2)) < 2 ^ 32 ->
  let '(count, b') := recv_loop b ((fun c => (c.1, concat (to_wire <$> c.2))) <$> cs) n in
  count = n + Z.of_nat (length (concat cs.*2)) /\
  exists new, Forall2 delivered (concat cs.*2) new /\ resp_queue b' = resp_queue b ++ new.
Proof.
  induction cs as [|[tsc rs] cs IH]; intros b n Hok Hroom Hn0 Hn; cbn [fmap list_fmap recv_loop].
  { split; [cbn; lia|]. exists []. by rewrite app_nil_r. }
  inversion Hok as [|? ? [Hw Hne] Hcs]; subst. cbn [fst snd] in *.
  rewrite fmap_cons in *. cbn [concat snd] in *. rewrite length_app in *.
  destruct (parse_whole rs Hw) as [Hp Hl]. rewrite Hp, Hl.
  destruct (Nat.eqb_spec (64 * length rs) 0) as [E|_]; [by destruct rs|].
  rewrite u32_small by lia. unfold resp_room in *.
  destruct (handle_all tsc rs b) as (new & Hd & E1 & E2 & E3); [unfold resp_room; lia|].
  specialize (IH (foldl (handle_response tsc) b rs) (n + Z.of_nat (length rs)) Hcs).
  rewrite E2, E3 in IH. specialize (IH ltac:(lia) ltac:(lia) ltac:(lia)).
  destruct (recv_loop _ _ _) as [count b']. destruct IH as (-> & new' & Hd' & E'). split; [lia|].
  exists (new ++ new'). split; [by apply Forall2_app|]. by rewrite E', E1, app_assoc.
Qed.

(** C19: As long as every received chunk holds whole responses and the ring has
    room, the bridge delivers exactly the contestant's responses, in order and
    unchanged but for the two time stamps, through any number of chunks, and
    counts them; [pop_response] takes them from the front. *)
Theorem bridge_fifo b cs :
  0 <= client_fd_ b -> Forall (fun c => Forall wire_ok c.2 /\ c.2 <> []) cs ->
  resp_room b (Z.of_nat (length (concat cs.*2))) -> Z.of_nat (length (concat cs.*2)) < 2 ^ 32 ->
  (let '(count, b') := recv_responses b ((fun c => (c.1, concat (to_wire <$> c.2))) <$> cs) in
   count = Z.of_nat (length (concat cs.*2)) /\
   exists new, Forall2 delivered (concat cs.*2) new /\ resp_queue b' = resp_queue b ++ new) /\
  (let '(r, b') := pop_response b in
   match resp_queue b with
   | [] => r = None /\ b' = b
   | r0 :: q => r = Some r0 /\ resp_queue b' = q
   end).
Proof.
  intros Hc Hok Hroom Hn. split.
  - unfold recv_responses. rewrite (proj2 (Z.ltb_ge _ _)) by done.
    by apply (recv_loop_whole cs b 0).
  - destruct Hroom as (Hh & Hr & Ht). unfold pop_response.
    destruct (Z.leb_spec (resp_tail_ b) (resp_head_ b)).
    + unfold resp_queue. by replace (resp_tail_ b - resp_head_ b) with 0 by lia.
    + unfold resp_queue at 1. rewrite (seqZ_cons (resp_head_ b)) by lia. rewrite fmap_cons. split; [done|].
      unfold resp_queue. cbn [responses_ resp_head_ resp_tail_]. rewrite u64_small by lia.
      by replace (Z.pred (resp_tail_ b - resp_head_ b)) with (resp_tail_ b - (resp_head_ b + 1)) by lia.
Qed.

(** ** Latencies *)

Lemma find_pending_none n oid i id : (forall k, i <= k < i + Z.of_nat n -> oid k <> id) ->
  find_pending n oid i id = None.
Proof.
  revert i. induction n as [|n IH]; intros i H; [done|]. cbn [find_pending].
  rewrite (proj2 (Z.eqb_neq _ _)) by (apply H; lia). apply IH. intros k Hk. apply H. lia.
Qed.

Lemma find_pending_only n oid i id s : i <= s < i + Z.of_nat n -> oid s = id ->
  (forall k, i <= k < i + Z.of_nat n -> k <> s -> oid k <> id) -> find_pending n oid i id = Some s.
Proof.
  revert i. induction n as [|n IH]; intros i Hs He Ho; [lia|]. cbn [find_pending].
  destruct (Z.eqb_spec (oid i) id) as [E|E].
  - destruct (decide (i = s)) as [->|Hne]; [done|]. by destruct (Ho i ltac:(lia) Hne).
  - apply IH; [|done|intros k Hk; apply Ho; lia]. destruct (decide (i = s)) as [->|]; [done|lia].
Qed.

(** The latency record written last. *)
Definition last_latency (b : t) : OrderLatency := latencies_ b (u64 (lat_tail_ b - 1) mod LATENCY_RING_SIZE).

Lemma last_recorded b oid send recv dropped : 0 <= lat_tail_ b < 2 ^ 64 - 1 ->
  last_latency (record_latency b oid send recv dropped) =
  {| ol_order_id := oid; ol_send_tsc := send; ol_recv_tsc := recv;
     ol_latency_ns := if send <? recv then u64 (recv - send) else 0; ol_was_dropped := dropped |}.
Proof.
  intros H. unfold last_latency, record_latency, LATENCY_RING_SIZE. cbn [latencies_ lat_tail_].
  rewrite (u64_small (lat_tail_ b + 1)) by lia. replace (lat_tail_ b + 1 - 1) with (lat_tail_ b) by lia.
  rewrite (u64_small (lat_tail_ b)), ring_slot_u32 by lia. by rewrite upd_eq.
Qed.

Lemma last_stored b r : last_latency (store_response b r) = last_latency b.
Proof. reflexivity. Qed.

(** The latency of an order is measured by the host alone.  After an order
    whose identifier no other pending slot holds has been sent, the first
    response with that identifier records the host's own send and receive
    times, whatever time stamps the response carries, and uses up the entry. *)
Theorem latency_measured b e n send_tsc recv_tsc r :
  0 <= client_fd_ b -> 0 <= lat_tail_ b < 2 ^ 64 - 1 -> rs_order_id r = id_of_entry e ->
  0 < send_tsc < recv_tsc -> recv_tsc < 2 ^ 64 ->
  let slot := u64 (bs_orders_sent (stats_ b) + 1) mod PENDING_TSC_SIZE in
  (forall i, 0 <= i < PENDING_TSC_SIZE -> i <> slot -> pending_oid_ b i <> id_of_entry e) ->
  let b' := handle_response recv_tsc (send_order b e send_tsc (Sent n)).2 r in
  last_latency b' =
    {| ol_order_id := id_of_entry e; ol_send_tsc := send_tsc; ol_recv_tsc := recv_tsc;
       ol_latency_ns := recv_tsc - send_tsc; ol_was_dropped := false |} /\
  pending_oid_ b' slot = 0.
Proof.
  intros Hc Hl Hid Hs Hr slot Hu b'. unfold b', send_order. rewrite (proj2 (Z.ltb_ge _ _)) by done. cbn [snd].
  cbn [stats_ set_stats bump_sent bs_orders_sent]. fold slot. unfold handle_response.
  cbn [pending_oid_ set_pending set_stats]. rewrite Hid.
  assert (Hslot : 0 <= slot < PENDING_TSC_SIZE) by (apply Z.mod_pos_bound; reflexivity).
  rewrite (find_pending_only _ _ 0 (id_of_entry e) slot).
  - cbn [pending_tsc_ set_pending set_stats]. rewrite upd_eq. cbn [stamped rs_send_tsc].
    rewrite (proj2 (Z.ltb_lt 0 send_tsc)) by lia. rewrite last_stored, last_recorded by done.
    rewrite (proj2 (Z.ltb_lt send_tsc recv_tsc)), u64_small by lia. cbn [stamped rs_order_id]. rewrite Hid. split; [done|].
    cbn [store_response record_latency pending_oid_ set_pending]. by rewrite upd_eq.
  - unfold PENDING_TSC_SIZE in *. lia.
  - by rewrite upd_eq.
  - intros k Hk Hne. rewrite upd_ne by done. apply Hu; [|done]. unfold PENDING_TSC_SIZE in *. lia.
Qed.

(** A response whose identifier is not pending (a second response to an
    order, or one to no order at all) is timed by the send stamp it carries
    itself: the contestant can make the bridge record any latency it likes,
    and that record is not marked as dropped. *)
Theorem forged_latency b r recv_tsc d :
  0 <= lat_tail_ b < 2 ^ 64 - 1 -> 0 < d < recv_tsc -> recv_tsc < 2 ^ 64 ->
  (forall i, 0 <= i < PENDING_TSC_SIZE -> pending_oid_ b i <> rs_order_id r) ->
  rs_send_tsc r = recv_tsc - d ->
  let l := last_latency (handle_response recv_tsc b r) in
  ol_latency_ns l = d /\ ol_was_dropped l = false.
Proof.
  intros Hl Hd Hr Hn Hs l. unfold l, handle_response. rewrite find_pending_none.
  - cbn [stamped rs_send_tsc]. rewrite Hs, (proj2 (Z.ltb_lt _ _)) by lia.
    rewrite last_stored, last_recorded by done. rewrite (proj2 (Z.ltb_lt _ _)) by lia.
    cbn [ol_latency_ns ol_was_dropped]. rewrite u64_small by lia. split; [lia|done].
  - intros k Hk. apply Hn. unfold PENDING_TSC_SIZE in *. lia.
Qed.

(** ** Concrete links *)

Definition demo_response (id send : Z) : ContestantResponse :=
  {| rs_order_id := id; rs_response_type := FILL; rs_ack_status := ACCEPTED; rs_num_fills := 1;
     rs_fill_price := 100; rs_fill_qty := 3; rs_remaining_qty := 0; rs_recv_tsc := 0; rs_send_tsc := send |}.
Definition demo_link : t :=
  {| client_fd_ := 5; responses_ := fun _ => demo_response 0 0; resp_head_ := 0; resp_tail_ := 0;
     latencies_ := fun _ => {| ol_order_id := 0; ol_send_tsc := 0; ol_recv_tsc := 0; ol_latency_ns := 0;
                               ol_was_dropped := false |};
     lat_head_ := 0; lat_tail_ := 0; pending_tsc_ := fun _ => 0; pending_oid_ := fun _ => 0;
     stats_ := zero_stats; tsc_ghz_ := F64.of_Z 1 |}.

Lemma demo_wire_ok id send : is_u32 id -> is_u64 send -> wire_ok (demo_response id send).
Proof. intros H1 H2. cbn. split_and!; try done; vm_compute; split; congruence. Qed.

Lemma bridge_fifo_witness :
  let cs := [(50, [demo_response 7 0; demo_response 8 0]); (60, [demo_response 9 1])] in
  (let '(count, b') := recv_responses demo_link ((fun c => (c.1, concat (to_wire <$> c.2))) <$> cs) in
   count = 3 /\
   exists new, Forall2 delivered (concat cs.*2) new /\ resp_queue b' = resp_queue demo_link ++ new) /\
  (let '(r, b') := pop_response demo_link in
   match resp_queue demo_link with
   | [] => r = None /\ b' = demo_link
   | r0 :: q => r = Some r0 /\ resp_queue b' = q
   end).
Proof.
  intros cs. apply (bridge_fifo demo_link cs).
  - vm_compute. discriminate.
  - repeat constructor; try discriminate; apply demo_wire_ok; vm_compute; split; congruence.
  - vm_compute. repeat split; discriminate.
  - vm_compute. reflexivity.
Defined.

Lemma latency_measured_witness :
  let b' := handle_response 900 (send_order demo_link
              {| bo_data := P_cancel {| cr_msg_type := CANCEL_REQUEST; cr_client_order_id := 7;
                                        cr_exchange_order_id := 0 |};
                 bo_size := 32; bo_type := CANCEL_REQUEST |} 400 (Sent 32)).2 (demo_response 7 899) in
  ol_latency_ns (last_latency b') = 500.
Proof.
  intros b'. destruct (latency_measured demo_link
    {| bo_data := P_cancel {| cr_msg_type := CANCEL_REQUEST; cr_client_order_id := 7; cr_exchange_order_id := 0 |};
       bo_size := 32; bo_type := CANCEL_REQUEST |} 32 400 900 (demo_response 7 899)) as [H _].
  - vm_compute. discriminate.
  - vm_compute. split; [discriminate|reflexivity].
  - reflexivity.
  - split; reflexivity.
  - reflexivity.
  - intros i _ _. vm_compute. discriminate.
  - unfold b'. rewrite H. reflexivity.
Defined.

Lemma forged_latency_witness :
  ol_latency_ns (last_latency (handle_response 900000 demo_link (demo_response 7 899999))) = 1.
Proof.
  apply (forged_latency demo_link (demo_response 7 899999) 900000 1).
  - vm_compute. split; [discriminate|reflexivity].
  - split; reflexivity.
  - reflexivity.
  - intros i _. vm_compute. discriminate.
  - reflexivity.
Defined.
End SandboxBridge.
