(* ===== verification/Contest.v ===== *)
(** The contest pipeline (src/orchestrator/include/orchestrator/contest_runner.hpp
    and post_contest_validator.hpp): the session loop that generates orders,
    sends them to the contestant and to the reference book and judges the
    contestant's responses, the scores computed from it, and the post-contest
    battery.  The contestant, the sockets and the clocks are the environment:
    every response, send outcome and counter value is possible. *)

From S2P Require Import Prelude Arena Protocol PriceMap OrderBook BookRep BookOps BookMatch BookSpec.
From S2P Require Import Xorshift Histogram Shadow Blaster Stress Bridge.
From Stdlib Require Import SpecFloat.
Import PriceLevelPool OrderPool OrderBook ShadowOrderbook.
#[local] Open Scope Z_scope.

(** ** The session loop *)

(** Feeding one generated entry to the reference book; [ts] is the counter
    value it may stamp a resting order with. *)
Definition feed (s : ShadowOrderbook.t) (e : BlastOrder) (ts : Z) : option ShadowOrderbook.t :=
  match bo_type e, bo_data e with
  | ORDER_ENTRY, P_order o => process_order s o ts
  | CANCEL_REQUEST, P_cancel c => Some (process_cancel s c)
  | _, _ => Some s
  end.

Definition count_ack (r : ValidationResult) : ValidationResult :=
  {| vr_total_orders := vr_total_orders r; vr_total_expected := vr_total_expected r;
     vr_total_actual := vr_total_actual r; vr_correct_fills := vr_correct_fills r;
     vr_wrong_price := vr_wrong_price r; vr_wrong_qty := vr_wrong_qty r;
     vr_missing_fills := vr_missing_fills r; vr_extra_fills := vr_extra_fills r;
     vr_priority_errors := vr_priority_errors r; vr_total_acks := u64 (vr_total_acks r + 1) |}.

(** Judging one popped response. *)
Definition judge_response (s : ShadowOrderbook.t) (r : ContestantResponse) : ShadowOrderbook.t :=
  match rs_response_type r with
  | FILL => validate_fill s (rs_order_id r) (rs_fill_price r) (rs_fill_qty r)
  | ORDER_ACK => with_result s (count_ack (result_ s))
  | _ => s
  end.

(** The messages that frame a session. *)
Definition session_start (duration_secs orders_per_sec : Z) : SessionStart :=
  {| ss_msg_type := SESSION_START; ss_instrument_count := 1;
     ss_match_duration_ms := u32 (duration_secs * 1000); ss_start_timestamp_ns := 0;
     ss_initial_cash := 1000000000; ss_max_position := 10000; ss_max_order_size := 1000;
     ss_max_orders_per_sec := orders_per_sec |}.
Definition session_end (b : SandboxBridge.t) : SessionEnd :=
  {| se_msg_type := SESSION_END; se_total_fills := 0; se_final_pnl := 0; se_total_volume := 0;
     se_final_position := 0; se_total_orders := u32 (bs_orders_sent (SandboxBridge.stats_ b));
     se_total_cancels := 0; se_end_timestamp_ns := 0 |}.

(** A session in progress, with the numbers of orders fed and of fills and
    acknowledgements judged so far. *)
Record session := {
  blaster : OrderBlaster.t; bridge : SandboxBridge.t; shadow : ShadowOrderbook.t;
  n_orders : Z; n_fills : Z; n_acks : Z }.

(** What the reference book has to have room for. *)
Definition has_place (s : ShadowOrderbook.t) (e : BlastOrder) : Prop :=
  match bo_data e with
  | P_order o => oe_order_type o = LIMIT ->
      accepts (book_ s) (is_buy (oe_side o)) (oe_price o) (oe_quantity o)
  | P_cancel _ => True
  end.

Definition is_order (e : BlastOrder) : Z := match bo_data e with P_order _ => 1 | P_cancel _ => 0 end.
Definition is_fill (r : ContestantResponse) : Z := match rs_response_type r with FILL => 1 | _ => 0 end.
Definition is_ack (r : ContestantResponse) : Z := match rs_response_type r with ORDER_ACK => 1 | _ => 0 end.

Section Session.
Context (dlog dcos : spec_float -> spec_float).

(** One iteration of a loop of the session: a batch, one entry sent, a
    receive, one response judged. *)
Inductive step : session -> session -> Prop :=
| st_batch st :
    OrderBlaster.write_pos_ (blaster st) + orders_per_batch (OrderBlaster.cfg_ (blaster st)) < 2 ^ 32 - 1 ->
    step st {| blaster := (OrderBlaster.generate_batch dlog dcos (blaster st)).2; bridge := bridge st;
               shadow := shadow st; n_orders := n_orders st; n_fills := n_fills st; n_acks := n_acks st |}
| st_send st e b' send_tsc outcome ts s' :
    OrderBlaster.pop (blaster st) = (Some e, b') -> has_place (shadow st) e ->
    feed (shadow st) e ts = Some s' ->
    step st {| blaster := b'; bridge := (SandboxBridge.send_order (bridge st) e send_tsc outcome).2;
               shadow := s'; n_orders := n_orders st + is_order e; n_fills := n_fills st;
               n_acks := n_acks st |}
| st_recv st chunks :
    step st {| blaster := blaster st; bridge := (SandboxBridge.recv_responses (bridge st) chunks).2;
               shadow := shadow st; n_orders := n_orders st; n_fills := n_fills st; n_acks := n_acks st |}
| st_judge st r br' :
    SandboxBridge.pop_response (bridge st) = (Some r, br') ->
    step st {| blaster := blaster st; bridge := br'; shadow := judge_response (shadow st) r;
               n_orders := n_orders st; n_fills := n_fills st + is_fill r; n_acks := n_acks st + is_ack r |}.

End Session.

(** ** The reference book during a session *)

(** Every expected fill is live or has been matched, and the totals are the
    numbers of messages seen. *)
Record audit (s : ShadowOrderbook.t) (orders fills acks : Z) : Prop := {
  au_tally : tallied s fills (expected_count_ s);
  au_expected : vr_total_expected (result_ s) = expected_count_ s;
  au_orders : vr_total_orders (result_ s) = orders;
  au_acks : vr_total_acks (result_ s) = acks;
  au_book : exists bids asks, book_ok (book_ s) bids asks }.

Lemma live_snoc a n ef : 0 <= n -> 0 < ef_fill_qty ef ->
  zsum (slice (live_at (a.[n <- ef])) (n + 1)) = zsum (slice (live_at a) n) + 1.
Proof.
  intros Hn Hq. rewrite (slice_ext (live_at (a.[n <- ef])) ((live_at a).[n <- 1]) (n + 1)).
  - rewrite slice_snoc, zsum_app by done. cbn. lia.
  - intros i Hi. unfold live_at, upd. destruct (Z.eqb_spec i n); [|done].
    by rewrite (proj2 (Z.ltb_lt _ _)).
Qed.

Lemma record_fill_audit s orders fills acks o f : 0 < fill_qty f ->
  audit s orders fills acks -> audit (record_fill o s f) orders fills acks.
Proof.
  intros Hq [[Ha Hs Hl Hn Hc Hm] He Ho Hk Hb]. unfold record_fill.
  destruct (Z.ltb_spec (expected_count_ s) SHADOW_MAX_FILLS) as [Hlt|Hge]; [|by split].
  unfold SHADOW_MAX_FILLS in *. unfold matched, live in *.
  pose proof (live_snoc (expected_ s) (expected_count_ s) (expect o f) ltac:(lia) Hq) as Hlv.
  split; [split|..]; unfold matched, live; cbn [result_ expected_ expected_count_ count_expected
    vr_total_actual vr_correct_fills vr_wrong_price vr_wrong_qty vr_extra_fills vr_missing_fills
    vr_total_expected vr_total_orders vr_total_acks book_]; try done; rewrite ?u32_small, ?u64_small by lia;
    unfold SHADOW_MAX_FILLS; lia.
Qed.

Lemma record_fills_audit o fs : forall s orders fills acks, (forall f, f ∈ fs -> 0 < fill_qty f) ->
  audit s orders fills acks -> audit (foldl (record_fill o) s fs) orders fills acks.
Proof.
  induction fs as [|f fs IH]; intros s orders fills acks Hf Ha; [done|]. cbn [foldl].
  apply IH; [intros; apply Hf; by right|]. apply record_fill_audit; [apply Hf; left|done].
Qed.

Lemma record_fills_book o fs : forall s, book_ (foldl (record_fill o) s fs) = book_ s.
Proof.
  induction fs as [|f fs IH]; intros s; [done|]. cbn [foldl]. rewrite IH. unfold record_fill. by case_match.
Qed.

Lemma with_book_audit s orders fills acks b : (exists bids asks, book_ok b bids asks) ->
  audit s orders fills acks -> audit (with_book s b) orders fills acks.
Proof. intros Hb [[Ha Hs Hl Hn Hc Hm] He Ho Hk _]. by split; [split|..]. Qed.

(** An order the book has room for is processed: matched, expected, and rested. *)
Lemma process_order_audit s orders fills acks o ts :
  audit s orders fills acks -> orders < 2 ^ 60 -> 0 <= orders -> 0 < oe_quantity o <= INT32_MAX ->
  known_type (oe_order_type o) = true ->
  (oe_order_type o = LIMIT -> accepts (book_ s) (is_buy (oe_side o)) (oe_price o) (oe_quantity o)) ->
  exists s', process_order s o ts = Some s' /\ audit s' (orders + 1) fills acks.
Proof.
  intros Ha Hn H0 Hq Hty Hacc. pose proof (au_book _ _ _ _ Ha) as (bids & asks & Hok).
  set (own := is_buy (oe_side o)) in *. apply (book_rep _ (negb own)) in Hok. rewrite negb_involutive in Hok.
  destruct (match_book (book_ s) (oe_side o) (limit_of o) (oe_quantity o) 0 64 _ _ Hok ltac:(lia)) as
    (fs & b & L' & Hm & Hr & Hle & Hms & _ & Hlv & _ & _). fold own in Hr, Hlv.
  rewrite negb_involutive in Hlv.
  assert (Hn0 : 0 <= fills_qty fs).
  { apply zsum_nonneg. intros x (f & -> & Hfin)%list_elem_of_fmap. destruct (Hms f Hfin). lia. }
  assert (Hsum : foldl (fun q f => i32 (q + fill_qty f)) 0 fs = fills_qty fs).
  { rewrite filled_sum; [lia|lia| |lia]. intros f Hfin. by destruct (Hms f Hfin). }
  assert (Hbk : exists bids' asks', book_ok b bids' asks').
  { clearbody own. exists (if own then lists own bids asks else L'), (if own then L' else lists own bids asks).
    apply (book_rep b (negb own)). rewrite negb_involutive. by destruct own. }
  assert (Ha1 : audit (foldl (record_fill o) (with_book (with_result s (count_order (result_ s))) b) fs)
                  (orders + 1) fills acks).
  { apply record_fills_audit; [intros f Hfin; by destruct (Hms f Hfin)|]. apply with_book_audit; [done|].
    destruct Ha as [[A1 A2 A3 A4 A5 A6] He Ho Hk Hb0]. split; [by split|..]; cbn; try done.
    rewrite Ho, u64_small; lia. }
  unfold process_order. rewrite Hty. cbn [with_result book_]. rewrite Hm. simpl mbind. cbn iota beta.
  rewrite Hsum, i32_small by (unfold INT32_MAX in *; lia). rewrite record_fills_book. cbn [with_book book_].
  set (s2 := foldl (record_fill o) _ fs) in *. destruct ((0 <? oe_quantity o - fills_qty fs) && bool_decide (oe_order_type o = LIMIT)) eqn:E.
  2:{ exists s2. done. }
  apply andb_true_iff in E as [Hlt%Z.ltb_lt Hlim%bool_decide_eq_true]. specialize (Hacc Hlim).
  apply rep_swap in Hr. rewrite negb_involutive in Hr.
  assert (Hadd : exists r b', add_order b 0 (oe_client_order_id o) (oe_side o) (oe_price o)
      (oe_quantity o - fills_qty fs) ts = Some (r, b') /\ exists bids' asks', book_ok b' bids' asks').
  { destruct (decide (free_top (pool_ b) = 0)) as [Hz|Hz].
    - rewrite add_order_pool_full, store_same by done. by eexists _, _.
    - destruct (rest_spec b o (oe_quantity o - fills_qty fs) ts _ _ Hr) as (x & b3 & L3 & Hadd & Hr3 & _).
      { eapply accepts_levels; [exact Hlv|]. eapply accepts_less; [exact Hacc|lia]. }
      { done. } { lia. }
      fold own in Hr3. clearbody own. exists x, b3. split; [done|].
      exists (if own then L3 else L'), (if own then L' else L3). apply (book_rep b3 own). by destruct own. }
  destruct Hadd as (r & b' & Hadd & Hb'). rewrite Hadd. simpl mbind. cbn iota beta.
  exists (with_book s2 b'). split; [done|]. by apply with_book_audit.
Qed.

Lemma judge_audit s orders fills acks r : audit s orders fills acks -> fills < 2 ^ 60 -> 0 <= acks < 2 ^ 60 ->
  audit (judge_response s r) orders (fills + is_fill r) (acks + is_ack r).
Proof.
  intros Ha Hf Hk. unfold judge_response, is_fill, is_ack.
  destruct (rs_response_type r); rewrite ?Z.add_0_r; try done; destruct Ha as [Ht He Ho Hc Hb].
  - destruct Ht as [T1 T2 T3 T4 T5 T6]. split; [by split|..]; cbn; try done. rewrite Hc, u64_small; lia.
  - pose proof (validate_fill_tallied s fills (expected_count_ s) (rs_order_id r) (rs_fill_price r) (rs_fill_qty r) Ht Hf) as Hv.
    unfold validate_fill in *. destruct (find_expected _ _ _ _); split; try done.
Qed.

(** An entry taken from the generator, and the reference book's room for it. *)
Lemma feed_audit cfg b hist s orders fills acks e b' ts :
  OrderBlaster.config_ok cfg -> OrderBlaster.blaster_ok cfg b hist -> Z.of_nat (length hist) < 2 ^ 32 ->
  OrderBlaster.pop b = (Some e, b') -> has_place s e -> audit s orders fills acks ->
  0 <= orders < 2 ^ 60 ->
  exists s', feed s e ts = Some s' /\ audit s' (orders + is_order e) fills acks.
Proof.
  intros Hcfg Hb Hl Hpop Hp Ha Hn. pose proof (OrderBlaster.pop_ok cfg b hist Hb Hl) as Hpo. rewrite Hpop in Hpo.
  destruct Hpo as (_ & _ & Hk & Hfr & _). unfold feed, has_place, is_order, OrderBlaster.framed in *.
  destruct (bo_data e) as [o|x]; destruct Hfr as [Ety _]; rewrite Ety.
  - destruct Hb as (_ & _ & _ & Hv). destruct (OrderBlaster.sv_orders _ _ Hv _ _ Hk) as (_ & _ & _ & Hq & Hty).
    destruct Hcfg. apply process_order_audit; try done; [lia..|].
    destruct Hty as [[-> _]|[-> _]]; done.
  - exists (process_cancel s x). rewrite Z.add_0_r. done.
Qed.

Section Reach.
Context (dlog dcos : spec_float -> spec_float) (cfg : OrderBlasterConfig).

(** A session just set up: generator, link and reference book initialised. *)
Definition started (st : session) : Prop :=
  exists arena b0 arena' mem s0,
    OrderBlaster.constructed b0 /\ (OrderBlaster.init arena cfg b0).1.1 = true /\
    blaster st = (OrderBlaster.init arena cfg b0).2 /\
    result_ s0 = zero_result /\ book_ s0 = new_book /\ (forall o, remaining_qty (mem o) <= 0) /\
    (ShadowOrderbook.init arena' mem s0).1.1 = true /\
    shadow st = (ShadowOrderbook.init arena' mem s0).2 /\
    n_orders st = 0 /\ n_fills st = 0 /\ n_acks st = 0.

(** A session of fewer than [2^60] messages. *)
Definition within (st : session) : Prop := n_orders st < 2 ^ 60 /\ n_fills st < 2 ^ 60 /\ n_acks st < 2 ^ 60.

Inductive reach : session -> Prop :=
| reach_start st : started st -> reach st
| reach_step st st' : reach st -> within st -> step dlog dcos st st' -> reach st'.

Record session_ok (st : session) (hist : list payload) : Prop := {
  so_blaster : OrderBlaster.blaster_ok cfg (blaster st) hist;
  so_length : Z.of_nat (length hist) < 2 ^ 32 - 1;
  so_audit : audit (shadow st) (n_orders st) (n_fills st) (n_acks st);
  so_counts : 0 <= n_orders st /\ 0 <= n_acks st }.

Lemma shadow_init_audit arena mem s0 : result_ s0 = zero_result -> book_ s0 = new_book ->
  (forall o, remaining_qty (mem o) <= 0) -> (ShadowOrderbook.init arena mem s0).1.1 = true ->
  audit (ShadowOrderbook.init arena mem s0).2 0 0 0.
Proof.
  intros Hr Hb Hm. unfold ShadowOrderbook.init. rewrite Hb.
  destruct (OrderBook.init arena mem new_book) as [[ok ar] b] eqn:Ei.
  destruct ok; cbn [negb]; [|discriminate].
  destruct (HugePageArena.allocate ar 32 32 SHADOW_MAX_FILLS) as [[p|] ar']; [|discriminate]. intros _. cbn [snd].
  assert (Hok : book_ok b [] []).
  { pose proof (init_spec arena mem) as Hi. rewrite Ei in Hi. by apply Hi. }
  split; [split|..]; cbn [result_ expected_count_ book_]; unfold matched, live; cbn [expected_ expected_count_];
    rewrite ?Hr; cbn; try lia; try done; try by eexists _, _.
Qed.

(** The four kinds of step keep a session in order. *)
Lemma batch_session_ok st hist : OrderBlaster.config_ok cfg -> session_ok st hist ->
  Z.of_nat (length hist) + orders_per_batch cfg < 2 ^ 32 - 1 ->
  let b := (OrderBlaster.generate_batch dlog dcos (blaster st)).2 in
  OrderBlaster.read_pos_ b = OrderBlaster.read_pos_ (blaster st) /\
  exists ms, (length ms <= Z.to_nat (orders_per_batch cfg))%nat /\
    session_ok {| blaster := b; bridge := bridge st; shadow := shadow st; n_orders := n_orders st;
                  n_fills := n_fills st; n_acks := n_acks st |} (hist ++ ms).
Proof.
  intros Hcfg [Hb Hl Ha Hc] Hroom. pose proof Hb as (Ec & _). unfold OrderBlaster.generate_batch. rewrite Ec.
  pose proof (OrderBlaster.co_batch cfg Hcfg).
  destruct (OrderBlaster.batch_grows dlog dcos cfg (Z.to_nat (orders_per_batch cfg)) (blaster st) 0 hist Hcfg Hb
    ltac:(lia)) as [Hr (ms & Hms & Hok)].
  split; [done|]. exists ms. split; [done|]. split; [done| |done|done]. rewrite length_app. lia.
Qed.

Lemma send_session_ok st hist e b' ts br : OrderBlaster.config_ok cfg -> session_ok st hist -> n_orders st < 2 ^ 60 ->
  OrderBlaster.pop (blaster st) = (Some e, b') -> has_place (shadow st) e ->
  exists s', feed (shadow st) e ts = Some s' /\
    session_ok {| blaster := b'; bridge := br; shadow := s'; n_orders := n_orders st + is_order e;
                  n_fills := n_fills st; n_acks := n_acks st |} hist /\
    hist !! Z.to_nat (OrderBlaster.read_pos_ (blaster st)) = Some (bo_data e) /\ OrderBlaster.framed e /\
    OrderBlaster.read_pos_ b' = OrderBlaster.read_pos_ (blaster st) + 1 /\
    OrderBlaster.write_pos_ b' = OrderBlaster.write_pos_ (blaster st).
Proof.
  intros Hcfg [Hb Hl Ha [Hc1 Hc2]] Hn Hpop Hp.
  destruct (feed_audit cfg (blaster st) hist (shadow st) _ _ _ e b' ts Hcfg Hb ltac:(lia) Hpop Hp Ha ltac:(lia))
    as (s2 & Hf2 & Ha2).
  pose proof (OrderBlaster.pop_ok cfg (blaster st) hist Hb ltac:(lia)) as Hpo. rewrite Hpop in Hpo.
  destruct Hpo as (Hb' & Hw & Hk & Hfr & Hr). exists s2. split; [done|]. split; [|done].
  split; [done|done|done|]. cbn. unfold is_order. destruct (bo_data e); lia.
Qed.

Lemma judge_session_ok st hist r br : session_ok st hist -> n_fills st < 2 ^ 60 -> n_acks st < 2 ^ 60 ->
  session_ok {| blaster := blaster st; bridge := br; shadow := judge_response (shadow st) r; n_orders := n_orders st;
                n_fills := n_fills st + is_fill r; n_acks := n_acks st + is_ack r |} hist.
Proof.
  intros [Hb Hl Ha [Hc1 Hc2]] Hf Hk. split; [done|done|apply judge_audit; [done..|lia]|].
  cbn. unfold is_ack. destruct (rs_response_type r); lia.
Qed.

Lemma started_session_ok st : started st -> session_ok st [].
Proof.
  intros (arena & b0 & ar' & mem & s0 & H1 & H2 & H3 & H4 & H5 & H6 & H7 & H8 & H9 & H10 & H11). split; [|done| |lia].
  - rewrite H3. pose proof (OrderBlaster.init_ok arena cfg b0 H1) as Hi.
    destruct (OrderBlaster.init arena cfg b0) as [[ok ar] b]. by apply Hi.
  - rewrite H8, H9, H10, H11. by apply shadow_init_audit.
Qed.

Lemma reach_session_ok : OrderBlaster.config_ok cfg -> forall st, reach st -> exists hist, session_ok st hist.
Proof.
  intros Hcfg st Hreach. induction Hreach as [st Hst|st st' Hst [hist Hok] (W1 & W2 & W3) Hstep].
  { exists []. by apply started_session_ok. }
  destruct Hstep as [st Hroom|st e b' tsc out ts s' Hpop Hp Hf|st chunks|st r br' Hpop]; cbn in *.
  - pose proof (so_blaster _ _ Hok) as (Ec & [Ew _ _ _] & _). rewrite Ec, Ew in Hroom.
    destruct (batch_session_ok st hist Hcfg Hok Hroom) as (_ & ms & _ & Hok'). by exists (hist ++ ms).
  - destruct (send_session_ok st hist e b' ts (SandboxBridge.send_order (bridge st) e tsc out).2 Hcfg Hok W1 Hpop Hp)
      as (s2 & Hf2 & Hok' & _). rewrite Hf in Hf2. injection Hf2 as <-. by exists hist.
  - exists hist. by destruct Hok.
  - exists hist. by apply judge_session_ok.
Qed.

(** What the verdict of a session in order says after [finalize]. *)
Lemma audit_accounts s orders fills acks : audit s orders fills acks ->
  let r := result_ (finalize s) in
  vr_total_orders r = orders /\ vr_total_acks r = acks /\ vr_total_actual r = fills /\
  vr_correct_fills r + vr_wrong_price r + vr_wrong_qty r + vr_extra_fills r = vr_total_actual r /\
  vr_correct_fills r + vr_wrong_price r + vr_wrong_qty r + vr_missing_fills r = vr_total_expected r /\
  0 <= vr_correct_fills r <= vr_total_expected r.
Proof.
  intros [[T1 T2 T3 (T4 & T5 & T6 & T7) T8 T9] He Ho Hk Hbk] r.
  assert (Hm : vr_missing_fills r = live s) by (unfold r; by rewrite finalize_missing).
  assert (Hlive : 0 <= live s) by (unfold live; apply live_bounds; lia).
  unfold matched in *. rewrite Hm. unfold r.
  cbn [finalize with_result result_ vr_total_orders vr_total_acks vr_total_actual vr_correct_fills vr_wrong_price
    vr_wrong_qty vr_extra_fills vr_total_expected].
  split; [done|]. split; [done|]. split; [done|]. split; [lia|]. split; [lia|lia].
Qed.

(** C10: In every session in which the reference book has room for each limit
    order when it is fed ([has_place]), which generates fewer than 2^32-1 messages
    and judges fewer than 2^60 fills and acknowledgements: whatever the contestant answers, the
    sockets do and the loops interleave, the reference book stays well formed and
    the verdict accounts for everything: each order is counted once, each acknowledgement
    once, each reported fill once (as correct, wrong in price or quantity, or
    extra), and after [finalize] each expected fill once (as matched or as
    missing), so no more fills are correct than were expected.  The session is
    never stuck on an order the reference book has room for. *)
Theorem session_accounting st :
  OrderBlaster.config_ok cfg -> reach st ->
  let r := result_ (finalize (shadow st)) in
  (exists bids asks, book_ok (book_ (shadow st)) bids asks) /\
  vr_total_orders r = n_orders st /\ vr_total_acks r = n_acks st /\ vr_total_actual r = n_fills st /\
  vr_correct_fills r + vr_wrong_price r + vr_wrong_qty r + vr_extra_fills r = vr_total_actual r /\
  vr_correct_fills r + vr_wrong_price r + vr_wrong_qty r + vr_missing_fills r = vr_total_expected r /\
  0 <= vr_correct_fills r <= vr_total_expected r /\
  (within st -> forall e b' ts, OrderBlaster.pop (blaster st) = (Some e, b') -> has_place (shadow st) e ->
     is_Some (feed (shadow st) e ts)).
Proof.
  intros Hcfg Hr r. destruct (reach_session_ok Hcfg st Hr) as (hist & Hok).
  destruct (audit_accounts _ _ _ _ (so_audit _ _ Hok)) as (H1 & H2 & H3 & H4 & H5 & H6).
  split; [apply Hok|]. do 6 (split; [done|]).
  intros (W1 & _ & _) e b' ts Hpop Hp.
  destruct (send_session_ok st hist e b' ts (bridge st) Hcfg Hok W1 Hpop Hp) as (s2 & -> & _). done.
Qed.
End Reach.

(** ** Scores *)

(** The weights of [MatchConfig]. *)
Record ScoreWeights := {
  correctness_weight : spec_float; throughput_weight : spec_float; latency_weight : spec_float }.
Definition default_weights : ScoreWeights :=
  {| correctness_weight := F64.lit 4 10; throughput_weight := F64.lit 3 10; latency_weight := F64.lit 3 10 |}.

Definition throughput_score (bs : BridgeStats) : spec_float :=
  if 0 <? bs_orders_sent bs
  then F64.div (F64.of_Z (bs_responses_recv bs)) (F64.of_Z (bs_orders_sent bs))
  else F64.of_Z 0.

(** The loop that fills the histogram, over the records waiting in the ring. *)
Fixpoint collect_latencies (n : nat) (b : SandboxBridge.t) (h : HdrHistogram.t) : HdrHistogram.t :=
  match n with
  | O => h
  | S n =>
      match SandboxBridge.pop_latency b with
      | (None, _) => h
      | (Some l, b) =>
          collect_latencies n b
            (if negb (ol_was_dropped l) && (0 <? ol_latency_ns l)
             then HdrHistogram.record h (ol_latency_ns l) else h)
      end
  end.

Section Score.
Context (dpow : spec_float -> spec_float -> spec_float) (dlog2 dlog10 : spec_float -> spec_float).

Definition latency_percentiles (b : SandboxBridge.t) : option HdrHistogram.Percentiles :=
  h ← HdrHistogram.init dpow dlog2 HdrHistogram.new default_hist_config;
  Some (HdrHistogram.get_percentiles
    (collect_latencies (Z.to_nat (SandboxBridge.lat_tail_ b - SandboxBridge.lat_head_ b)) b h)).

(** 1 up to a microsecond, 0 from a hundred, linear in the logarithm between. *)
Definition latency_score (p99_ns : Z) : spec_float :=
  let p99_us := F64.div (F64.of_Z p99_ns) (F64.of_Z 1000) in
  if SFleb p99_us (F64.of_Z 1) then F64.of_Z 1
  else if SFleb (F64.of_Z 100) p99_us then F64.of_Z 0
  else F64.sub (F64.of_Z 1) (F64.div (dlog10 p99_us) (F64.of_Z 2)).

Definition match_score (w : ScoreWeights) (vr : ValidationResult) (b : SandboxBridge.t) : option spec_float :=
  p ← latency_percentiles b;
  Some (F64.add (F64.add (F64.mul (correctness_weight w) (shadow_score vr))
                         (F64.mul (throughput_weight w) (throughput_score (SandboxBridge.stats_ b))))
                (F64.mul (latency_weight w) (latency_score (HdrHistogram.p99 p)))).
End Score.

(** ** The post-contest battery *)

Record ScenarioResult := {
  sr_scenario_id : Z; sr_name : String.string; sr_passed : bool; sr_correctness : spec_float;
  sr_weighted_score : spec_float; sr_orders_sent : Z; sr_responses_recv : Z; sr_correct_fills : Z;
  sr_wrong_fills : Z; sr_missing_fills : Z; sr_extra_fills : Z; sr_priority_errors : Z }.

(** The result of a scenario that could not be run. *)
Definition unrun_scenario (sc : StressScenario) : ScenarioResult :=
  {| sr_scenario_id := ss_id sc; sr_name := strncpy 47 (ss_name sc); sr_passed := false;
     sr_correctness := F64.of_Z 0; sr_weighted_score := F64.of_Z 0; sr_orders_sent := 0;
     sr_responses_recv := 0; sr_correct_fills := 0; sr_wrong_fills := 0; sr_missing_fills := 0;
     sr_extra_fills := 0; sr_priority_errors := 0 |}.

(** The result of a scenario after its session, [None] when the set-up failed. *)
Definition scenario_result (sc : StressScenario) (st : option session) : ScenarioResult :=
  match st with
  | None => unrun_scenario sc
  | Some st =>
      let vr := result_ (finalize (shadow st)) in
      let bs := SandboxBridge.stats_ (bridge st) in
      let c := shadow_score vr in
      {| sr_scenario_id := ss_id sc; sr_name := strncpy 47 (ss_name sc);
         sr_passed := SFleb (F64.lit 8 10) c; sr_correctness := c;
         sr_weighted_score := F64.mul c (ss_weight sc); sr_orders_sent := bs_orders_sent bs;
         sr_responses_recv := bs_responses_recv bs; sr_correct_fills := vr_correct_fills vr;
         sr_wrong_fills := u64 (vr_wrong_price vr + vr_wrong_qty vr);
         sr_missing_fills := vr_missing_fills vr; sr_extra_fills := vr_extra_fills vr;
         sr_priority_errors := vr_priority_errors vr |}
  end.

Record SystemTestResult := {
  st_contestant_id : String.string; st_scenarios_passed : Z; st_scenarios_total : Z; st_system_score : spec_float;
  st_original_score : spec_float; st_final_score : spec_float; st_scenarios : list ScenarioResult }.

(** [run_system_tests]; [sessions] gives the session each scenario ends in. *)
Definition run_system_tests (contestant_id : String.string) (original_score : spec_float)
    (sessions : StressScenario -> option session) : SystemTestResult :=
  let rs := (fun sc => scenario_result sc (sessions sc)) <$> build_stress_scenarios in
  let passed := foldl (fun n sr => if sr_passed sr then u32 (n + 1) else n) 0 rs in
  let weighted_sum := foldl (fun w sr => F64.add w (sr_weighted_score sr)) (F64.of_Z 0) rs in
  let blended := F64.add (F64.mul (F64.lit 6 10) original_score) (F64.mul (F64.lit 4 10) weighted_sum) in
  {| st_contestant_id := strncpy 63 contestant_id; st_scenarios_passed := passed;
     st_scenarios_total := Z.of_nat (length build_stress_scenarios); st_system_score := weighted_sum;
     st_original_score := original_score;
     st_final_score := if F64.ltb blended original_score then blended else original_score;
     st_scenarios := rs |}.

Lemma SFcompare_refl x : SFeqb x x = true \/ x = S754_nan.
Proof.
  destruct x as [s|s| |s m e]; [left; by destruct s|left; by destruct s|by right|left].
  unfold SFeqb, SFcompare. rewrite Z.compare_refl. change (Pos.compare_cont Eq m m) with (Pos.compare m m).
  rewrite Pos.compare_refl. by destruct s.
Qed.

Lemma passed_count rs : forall n, 0 <= n -> n + Z.of_nat (length rs) < 2 ^ 32 ->
  foldl (fun n sr => if sr_passed sr then u32 (n + 1) else n) n rs =
  n + Z.of_nat (length (filter (fun sr => sr_passed sr = true) rs)).
Proof.
  induction rs as [|r rs IH]; intros n H0 Hn; cbn [foldl length] in *; [cbn; lia|].
  rewrite filter_cons. destruct (sr_passed r); cbn [decide]; [rewrite u32_small by lia|].
  - rewrite IH by lia. case_decide; [|done]. cbn [length]. lia.
  - rewrite IH by lia. case_decide; done.
Qed.

(** The post-contest battery runs the ten stress scenarios once each,
    counts those with a correctness of at least 0.8, and its blended final
    score is never above the score of the live contest. *)
Theorem system_tests_only_lower id original sessions :
  original <> S754_nan ->
  let r := run_system_tests id original sessions in
  SFleb (st_final_score r) original = true /\
  sr_scenario_id <$> st_scenarios r = seqZ 1 10 /\ st_scenarios_total r = 10 /\
  st_scenarios_passed r = Z.of_nat (length (filter (fun sr => sr_passed sr = true) (st_scenarios r))) /\
  (forall sr, sr ∈ st_scenarios r -> sr_passed sr = true -> SFleb (F64.lit 8 10) (sr_correctness sr) = true).
Proof.
  intros Hn r. split; [|split; [|split; [done|split]]].
  - unfold r, run_system_tests. cbn [st_final_score]. match goal with |- context [F64.ltb ?b original] => set (x := b) end.
    destruct (F64.ltb x original) eqn:E.
    + unfold F64.ltb, SFltb in E. unfold SFleb. destruct (SFcompare x original) as [[]|]; done.
    + destruct (SFcompare_refl original) as [H|H]; [|done]. unfold SFeqb in H. unfold SFleb.
      destruct (SFcompare original original) as [[]|]; done.
  - unfold r, run_system_tests. cbn [st_scenarios]. rewrite <- list_fmap_compose.
    assert (E : forall sc, (sr_scenario_id ∘ (fun sc => scenario_result sc (sessions sc))) sc = ss_id sc).
    { intros sc. cbn. by destruct (sessions sc). }
    rewrite (list_fmap_ext _ ss_id _ (fun _ x _ => E x)). reflexivity.
  - unfold r, run_system_tests. cbn [st_scenarios_passed st_scenarios]. by apply (passed_count _ 0).
  - intros sr Hin. unfold r, run_system_tests in Hin. cbn [st_scenarios] in Hin.
    apply list_elem_of_fmap in Hin as (sc & -> & _). unfold scenario_result. by destruct (sessions sc).
Qed.

(** ** What the score rewards *)

Lemma silent_percentiles dpow dlog2 `{!HdrHistogram.LibmSpec dpow dlog2} b :
  SandboxBridge.lat_tail_ b <= SandboxBridge.lat_head_ b ->
  latency_percentiles dpow dlog2 b = Some HdrHistogram.no_percentiles.
Proof.
  intros Hl. unfold latency_percentiles.
  destruct (HdrHistogram.init_default dpow dlog2 HdrHistogram.new) as (h & Hi & _ & _ & _ & Ht & _).
  rewrite Hi. simpl mbind. replace (Z.to_nat _) with 0%nat by lia. cbn [collect_latencies].
  unfold HdrHistogram.get_percentiles. by rewrite Ht.
Qed.

(** Statistics and verdicts of three contestants over 100 orders with 50
    expected fills: a perfect one, one that only repeats acknowledgements, and
    one that never answers. *)
Definition link_with (orders responses : Z) : SandboxBridge.t :=
  SandboxBridge.set_stats SandboxBridge.demo_link
    {| bs_orders_sent := orders; bs_responses_recv := responses; bs_drops := 0; bs_partial_sends := 0;
       bs_recv_errors := 0; bs_total_latency_ns := 0; bs_min_latency_ns := UINT64_MAX; bs_max_latency_ns := 0 |}.
Definition verdict_with (correct missing : Z) : ValidationResult :=
  {| vr_total_orders := 100; vr_total_expected := 50; vr_total_actual := correct; vr_correct_fills := correct;
     vr_wrong_price := 0; vr_wrong_qty := 0; vr_missing_fills := missing; vr_extra_fills := 0;
     vr_priority_errors := 0; vr_total_acks := 0 |}.

(** The score can reward noise.  A link with no latency record gets the
    full latency mark (a contestant that never answers included), and since the
    throughput mark is the number of responses per order, a contestant that
    answers every order with four acknowledgements and none of the expected
    fills scores more than one that is right on everything. *)
Theorem score_rewards_noise dpow dlog2 dlog10 `{!HdrHistogram.LibmSpec dpow dlog2} :
  (forall b, SandboxBridge.lat_tail_ b <= SandboxBridge.lat_head_ b ->
     exists p, latency_percentiles dpow dlog2 b = Some p /\
       latency_score dlog10 (HdrHistogram.p99 p) = F64.of_Z 1) /\
  exists right noise,
    match_score dpow dlog2 dlog10 default_weights (verdict_with 50 0) (link_with 100 100) = Some right /\
    match_score dpow dlog2 dlog10 default_weights (verdict_with 0 50) (link_with 100 400) = Some noise /\
    F64.ltb right noise = true.
Proof.
  split.
  - intros b Hb. exists HdrHistogram.no_percentiles. split; [by apply silent_percentiles|].
    vm_compute. reflexivity.
  - unfold match_score. rewrite !(silent_percentiles dpow dlog2) by apply Z.le_refl. cbn [mbind option_bind].
    eexists _, _. split; [reflexivity|]. split; [reflexivity|]. vm_compute. reflexivity.
Qed.

Lemma score_rewards_noise_witness :
  exists p, latency_percentiles HdrHistogram.pow_w HdrHistogram.log2_w (link_with 100 0) = Some p /\
    latency_score (fun x => x) (HdrHistogram.p99 p) = F64.of_Z 1.
Proof.
  destruct (@score_rewards_noise HdrHistogram.pow_w HdrHistogram.log2_w (fun x => x) HdrHistogram.libm_w) as [H _].
  apply H. vm_compute. discriminate.
Defined.

Lemma system_tests_only_lower_witness :
  SFleb (st_final_score (run_system_tests String.EmptyString (F64.lit 7 10) (fun _ => None))) (F64.lit 7 10) = true.
Proof.
  destruct (system_tests_only_lower String.EmptyString (F64.lit 7 10) (fun _ => None)) as [H _];
    [vm_compute; discriminate|exact H].
Defined.
