(* ===== verification/SimpleBook.v ===== *)
(** The example contestant engine (src/sdk/examples/example_mm.cpp): a limit
    order book on two sorted arrays.  It is shown to be the price-time priority
    book of [BookOps]: its fills and its books are those of [match_flat] and
    [insert_flat].  Responses handed to the sender are returned as a list. *)

From S2P Require Import Prelude Arena Protocol PriceMap OrderBook BookRep BookOps BookMatch.

Record RestingOrder := {
  ro_order_id : Z; ro_price : Z; ro_quantity : Z; ro_side : Side; ro_sequence : Z }.

Module SimpleOrderbook.

Definition MAX_ORDERS : Z := 8192.

Record t := {
  bids_ : arr RestingOrder; asks_ : arr RestingOrder; bid_count_ : Z; ask_count_ : Z;
  seq_ : Z; total_fills_ : Z }.

Definition zero_resting : RestingOrder :=
  {| ro_order_id := 0; ro_price := 0; ro_quantity := 0; ro_side := BUY; ro_sequence := 0 |}.

Definition new : t :=
  {| bids_ := fun _ => zero_resting; asks_ := fun _ => zero_resting; bid_count_ := 0; ask_count_ := 0;
     seq_ := 0; total_fills_ := 0 |}.

Definition on_session_start (b : t) : t :=
  {| bids_ := bids_ b; asks_ := asks_ b; bid_count_ := 0; ask_count_ := 0; seq_ := 0;
     total_fills_ := total_fills_ b |}.

(** One side of the book: the array and its count. *)
Definition side_arr (b : t) (bid : bool) : arr RestingOrder := if bid then bids_ b else asks_ b.
Definition side_count (b : t) (bid : bool) : Z := if bid then bid_count_ b else ask_count_ b.
Definition set_side (b : t) (bid : bool) (a : arr RestingOrder) (n : Z) : t :=
  if bid
  then {| bids_ := a; asks_ := asks_ b; bid_count_ := n; ask_count_ := ask_count_ b; seq_ := seq_ b;
          total_fills_ := total_fills_ b |}
  else {| bids_ := bids_ b; asks_ := a; bid_count_ := bid_count_ b; ask_count_ := n; seq_ := seq_ b;
          total_fills_ := total_fills_ b |}.

(** [memmove] of the elements behind [idx] one place down, and of those from
    [pos] one place up, [n] being the count. *)
Definition shift_down (a : arr RestingOrder) (idx n : Z) : arr RestingOrder :=
  fun j => if (idx <=? j) && (j <? n - 1) then a (j + 1) else a j.
Definition shift_up (a : arr RestingOrder) (pos n : Z) : arr RestingOrder :=
  fun j => if (pos <? j) && (j <=? n) then a (j - 1) else a j.

(** [remove_bid] and [remove_ask]. *)
Definition remove (b : t) (bid : bool) (idx : Z) : t :=
  let a := side_arr b bid in
  let n := side_count b bid in
  set_side b bid (if idx <? u32 (n - 1) then shift_down a idx n else a) (u32 (n - 1)).

(** The scan for the insertion point, [n] elements left from [i]. *)
Fixpoint find_pos (n : nat) (a : arr RestingOrder) (bid : bool) (i count price seq : Z) : Z :=
  match n with
  | O => count
  | S n =>
      if (if bid then ro_price (a i) <? price else price <? ro_price (a i)) then i
      else if (price =? ro_price (a i)) && (seq <? ro_sequence (a i)) then i
      else find_pos n a bid (i + 1) count price seq
  end.

Definition insert_resting (b : t) (id price qty : Z) (side : Side) : t :=
  let bid := bool_decide (side = BUY) in
  let a := side_arr b bid in
  let n := side_count b bid in
  if MAX_ORDERS <=? n then b else
  let pos := find_pos (Z.to_nat n) a bid 0 n price (seq_ b) in
  let a := if pos <? n then shift_up a pos n else a in
  let a := a.[pos <- {| ro_order_id := id; ro_price := price; ro_quantity := qty; ro_side := side;
                        ro_sequence := seq_ b |}] in
  let b := set_side b bid a (u32 (n + 1)) in
  {| bids_ := bids_ b; asks_ := asks_ b; bid_count_ := bid_count_ b; ask_count_ := ask_count_ b;
     seq_ := u32 (seq_ b + 1); total_fills_ := total_fills_ b |}.

(** The zero-initialised responses with the fields the engine sets. *)
Definition fill_response (id price qty remaining : Z) : ContestantResponse :=
  {| rs_order_id := id; rs_response_type := FILL; rs_ack_status := ACCEPTED; rs_num_fills := 1;
     rs_fill_price := price; rs_fill_qty := qty; rs_remaining_qty := remaining; rs_recv_tsc := 0;
     rs_send_tsc := 0 |}.

Definition ack_response (id : Z) (ty : MsgType) (st : AckStatus) (remaining : Z) : ContestantResponse :=
  {| rs_order_id := id; rs_response_type := ty; rs_ack_status := st; rs_num_fills := 0;
     rs_fill_price := 0; rs_fill_qty := 0; rs_remaining_qty := remaining; rs_recv_tsc := 0;
     rs_send_tsc := 0 |}.

Definition set_quantity (r : RestingOrder) (q : Z) : RestingOrder :=
  {| ro_order_id := ro_order_id r; ro_price := ro_price r; ro_quantity := q; ro_side := ro_side r;
     ro_sequence := ro_sequence r |}.

(** The body of a matching loop: trade with the first order of the contra side. *)
Definition trade (b : t) (contra : bool) (id remaining : Z) : ContestantResponse * Z * t :=
  let best := side_arr b contra 0 in
  let q := Z.min remaining (ro_quantity best) in
  let resp := fill_response id (ro_price best) q (i32 (remaining - q)) in
  let left := i32 (ro_quantity best - q) in
  let b := set_side b contra ((side_arr b contra).[0 <- set_quantity best left]) (side_count b contra) in
  let b := {| bids_ := bids_ b; asks_ := asks_ b; bid_count_ := bid_count_ b; ask_count_ := ask_count_ b;
              seq_ := seq_ b; total_fills_ := u64 (total_fills_ b + 1) |} in
  (resp, i32 (remaining - q), if left <=? 0 then remove b contra 0 else b).

(** The matching loops: [ok] is the price condition of a limit order. *)
Fixpoint match_orders (fuel : nat) (b : t) (contra : bool) (ok : Z -> bool) (id remaining : Z) :
    option (list ContestantResponse * Z * t) :=
  match fuel with
  | O => None
  | S fuel =>
      if (0 <? remaining) && (0 <? side_count b contra) && ok (ro_price (side_arr b contra 0)) then
        let '(resp, remaining, b) := trade b contra id remaining in
        '(rs, remaining, b) ← match_orders fuel b contra ok id remaining;
        Some (resp :: rs, remaining, b)
      else Some ([], remaining, b)
  end.

Definition FUEL : nat := S (Z.to_nat MAX_ORDERS).

Definition process_limit_order (b : t) (o : OrderEntry) : option (list ContestantResponse * t) :=
  let id := oe_client_order_id o in
  '(fills, remaining, b) ←
    (if bool_decide (oe_side o = BUY)
     then match_orders FUEL b false (fun p => p <=? oe_price o) id (oe_quantity o)
     else match_orders FUEL b true (fun p => oe_price o <=? p) id (oe_quantity o));
  let b := if 0 <? remaining then insert_resting b id (oe_price o) remaining (oe_side o) else b in
  Some (fills ++ [ack_response id ORDER_ACK ACCEPTED remaining], b).

Definition process_market_order (b : t) (o : OrderEntry) : option (list ContestantResponse * t) :=
  let id := oe_client_order_id o in
  '(fills, remaining, b) ←
    match_orders FUEL b (negb (bool_decide (oe_side o = BUY))) (fun _ => true) id (oe_quantity o);
  let st := if remaining <? oe_quantity o then ACCEPTED else REJECTED_PRICE in
  Some (fills ++ [ack_response id ORDER_ACK st remaining], b).

Definition on_order (b : t) (o : OrderEntry) : option (list ContestantResponse * t) :=
  if bool_decide (oe_order_type o = MARKET) then process_market_order b o else process_limit_order b o.

(** The first of [n] elements from [i] with the identifier. *)
Fixpoint find_id (n : nat) (a : arr RestingOrder) (i id : Z) : option Z :=
  match n with
  | O => None
  | S n => if ro_order_id (a i) =? id then Some i else find_id n a (i + 1) id
  end.

Definition on_cancel (b : t) (c : CancelRequest) : list ContestantResponse * t :=
  let id := cr_client_order_id c in
  match find_id (Z.to_nat (bid_count_ b)) (bids_ b) 0 id with
  | Some i => ([ack_response id CANCEL_ACK CANCELLED (ro_quantity (bids_ b i))], remove b true i)
  | None =>
      match find_id (Z.to_nat (ask_count_ b)) (asks_ b) 0 id with
      | Some i => ([ack_response id CANCEL_ACK CANCELLED (ro_quantity (asks_ b i))], remove b false i)
      | None => ([ack_response id CANCEL_ACK REJECTED_UNKNOWN 0], b)
      end
  end.


(** ** Arrays as lists *)

Lemma lookup_slice (a : arr RestingOrder) n i :
  slice a n !! i = if Z.of_nat i <? n then Some (a (Z.of_nat i)) else None.
Proof.
  unfold slice. rewrite list_lookup_fmap. destruct (Z.ltb_spec (Z.of_nat i) n).
  - rewrite lookup_seqZ_lt by lia. by rewrite Z.add_0_l.
  - by rewrite lookup_seqZ_ge by lia.
Qed.

Lemma slice_shift_down a idx n : 0 <= idx < n ->
  slice (if idx <? n - 1 then shift_down a idx n else a) (n - 1) = delete (Z.to_nat idx) (slice a n).
Proof.
  intros Hi. apply list_eq. intros j. rewrite lookup_slice. destruct (decide (Z.of_nat j < idx)) as [Hj|Hj].
  - rewrite list_lookup_delete_lt by lia. rewrite lookup_slice, !(proj2 (Z.ltb_lt (Z.of_nat j) _)) by lia.
    destruct (idx <? n - 1); [|done]. unfold shift_down. by rewrite (proj2 (Z.leb_gt _ _)) by lia.
  - rewrite list_lookup_delete_ge by lia. rewrite lookup_slice.
    replace (Z.of_nat (S j)) with (Z.of_nat j + 1) by lia.
    destruct (Z.ltb_spec (Z.of_nat j) (n - 1)), (Z.ltb_spec (Z.of_nat j + 1) n); try lia; [|done].
    rewrite (proj2 (Z.ltb_lt idx (n - 1))) by lia. unfold shift_down.
    by rewrite (proj2 (Z.leb_le _ _)), (proj2 (Z.ltb_lt _ _)) by lia.
Qed.

Lemma slice_shift_up a pos n r : 0 <= pos <= n ->
  slice ((if pos <? n then shift_up a pos n else a).[pos <- r]) (n + 1) =
  take (Z.to_nat pos) (slice a n) ++ r :: drop (Z.to_nat pos) (slice a n).
Proof.
  intros Hp. assert (Hl : length (take (Z.to_nat pos) (slice a n)) = Z.to_nat pos).
  { rewrite length_take. pose proof (length_slice a n). lia. }
  apply list_eq. intros j. rewrite lookup_slice. destruct (Z.lt_trichotomy (Z.of_nat j) pos) as [Hj|[Hj|Hj]].
  - rewrite lookup_app_l by lia. rewrite lookup_take_lt by lia.
    rewrite lookup_slice, !(proj2 (Z.ltb_lt (Z.of_nat j) _)) by lia. rewrite upd_ne by lia.
    destruct (Z.ltb_spec pos n); [|done]. unfold shift_up. by rewrite (proj2 (Z.ltb_ge pos _)) by lia.
  - rewrite list_lookup_middle by lia. rewrite (proj2 (Z.ltb_lt _ _)) by lia. by rewrite Hj, upd_eq.
  - rewrite lookup_app_r by lia. rewrite Hl, lookup_cons_ne_0, lookup_drop by lia.
    replace (Z.to_nat pos + Init.Nat.pred (j - Z.to_nat pos))%nat with (j - 1)%nat by lia. rewrite lookup_slice.
    replace (Z.of_nat (j - 1)) with (Z.of_nat j - 1) by lia.
    destruct (Z.ltb_spec (Z.of_nat j) (n + 1)), (Z.ltb_spec (Z.of_nat j - 1) n); try lia; [|done].
    rewrite upd_ne by lia. rewrite (proj2 (Z.ltb_lt pos n)) by lia. unfold shift_up.
    by rewrite (proj2 (Z.ltb_lt _ _)), (proj2 (Z.leb_le _ _)) by lia.
Qed.

(** ** The abstract book *)

Definition abs (r : RestingOrder) : entry := (ro_order_id r, ro_price r, ro_quantity r).
Definition view (b : t) (bid : bool) : list RestingOrder := slice (side_arr b bid) (side_count b bid).
Definition book (b : t) (bid : bool) : list entry := abs <$> view b bid.

(** Best price first. *)
Definition ranked (bid : bool) (F : list entry) : Prop :=
  StronglySorted (fun x y => key bid (e_price x) <= key bid (e_price y)) F.

Record side_ok (b : t) (bid : bool) : Prop := {
  so_count : 0 <= side_count b bid <= MAX_ORDERS;
  so_qty : forall r, r ∈ view b bid -> 0 < ro_quantity r <= INT32_MAX;
  so_seq : forall r, r ∈ view b bid -> ro_sequence r < seq_ b;
  so_ranked : ranked bid (book b bid) }.

Definition book_ok (b : t) : Prop := side_ok b true /\ side_ok b false /\ 0 <= seq_ b.

Lemma length_view b bid : 0 <= side_count b bid -> Z.of_nat (length (view b bid)) = side_count b bid.
Proof. intros H. unfold view. rewrite length_slice. lia. Qed.

(** Finding the place of a new order. *)
Lemma find_pos_spec n a bid i count price seq : count = i + Z.of_nat n -> 0 <= i ->
  (forall j, i <= j < count -> ro_sequence (a j) < seq) ->
  let better j := key bid price <? key bid (ro_price (a j)) in
  let pos := find_pos n a bid i count price seq in
  i <= pos <= count /\ (forall j, i <= j < pos -> better j = false) /\ (pos < count -> better pos = true).
Proof.
  revert i. induction n as [|n IH]; intros i Hc Hi Hs better pos; subst pos; cbn [find_pos].
  { split; [lia|]. split; intros; lia. }
  assert (Eb : (if bid then ro_price (a i) <? price else price <? ro_price (a i)) = better i).
  { unfold better, key. destruct bid; [|done]. apply eq_iff_eq_true. rewrite !Z.ltb_lt. lia. }
  rewrite Eb. destruct (better i) eqn:E; [split; [lia|]; split; [intros; lia|done]|].
  rewrite (proj2 (Z.ltb_ge seq _)), andb_false_r by (specialize (Hs i ltac:(lia)); lia).
  destruct (IH (i + 1) ltac:(lia) ltac:(lia) ltac:(intros; apply Hs; lia)) as (H1 & H2 & H3).
  split; [lia|]. split; [|done]. intros j Hj. destruct (decide (j = i)) as [->|]; [done|]. apply H2. lia.
Qed.

Lemma insert_flat_at bid e F k : (k <= length F)%nat ->
  (forall j x, (j < k)%nat -> F !! j = Some x -> (key bid (e_price e) <? key bid (e_price x)) = false) ->
  (forall x, F !! k = Some x -> (key bid (e_price e) <? key bid (e_price x)) = true) ->
  insert_flat bid e F = take k F ++ e :: drop k F.
Proof.
  revert k. induction F as [|x F IH]; intros k Hk H1 H2.
  { cbn in Hk. by replace k with 0%nat by lia. }
  destruct k as [|k]; cbn [insert_flat take drop app].
  - by rewrite (H2 x).
  - rewrite (H1 0%nat x) by (lia || done). f_equal. apply IH; [cbn in Hk; lia| |done].
    intros j y Hj. apply (H1 (S j)). lia.
Qed.

Lemma side_arr_set b bid a n : side_arr (set_side b bid a n) bid = a /\ side_count (set_side b bid a n) bid = n /\
  side_arr (set_side b bid a n) (negb bid) = side_arr b (negb bid) /\
  side_count (set_side b bid a n) (negb bid) = side_count b (negb bid) /\
  seq_ (set_side b bid a n) = seq_ b.
Proof. by destruct bid. Qed.

(** Removing an order. *)
Lemma remove_view b bid idx : 0 <= idx < side_count b bid -> side_count b bid <= MAX_ORDERS ->
  view (remove b bid idx) bid = delete (Z.to_nat idx) (view b bid) /\
  view (remove b bid idx) (negb bid) = view b (negb bid) /\
  side_count (remove b bid idx) bid = side_count b bid - 1 /\
  side_count (remove b bid idx) (negb bid) = side_count b (negb bid) /\ seq_ (remove b bid idx) = seq_ b.
Proof.
  unfold MAX_ORDERS. intros Hi Hm. unfold view, remove. rewrite u32_small by lia.
  match goal with |- context [set_side b bid ?a ?n] => destruct (side_arr_set b bid a n) as (E1 & E2 & E3 & E4 & E5) end.
  rewrite E1, E2, E3, E4, E5. split_and!; try done. by apply slice_shift_down.
Qed.

Lemma elem_of_delete {A} (l : list A) i x : x ∈ delete i l -> x ∈ l.
Proof.
  revert i. induction l as [|y l IH]; intros [|i] H; cbn in *; [done|done|by right|].
  apply elem_of_cons in H as [->|H]; [left|right; by eapply IH].
Qed.

Lemma ranked_delete bid F i : ranked bid F -> ranked bid (delete i F).
Proof.
  intros H. revert i. induction H as [|x F Hs IH Hx]; intros [|i]; cbn; try constructor; [done|apply IH|].
  rewrite Forall_forall in *. intros y Hy. apply Hx. by eapply elem_of_delete.
Qed.

Lemma book_delete b b' bid i : view b' bid = delete i (view b bid) -> book b' bid = delete i (book b bid).
Proof.
  intros E. unfold book. rewrite E. clear E. generalize (view b bid). intros l. revert i.
  induction l as [|x l IH]; intros [|i]; [done..|]. cbn. by rewrite <- IH.
Qed.

Lemma remove_ok b bid idx : book_ok b -> 0 <= idx < side_count b bid ->
  book_ok (remove b bid idx) /\ book (remove b bid idx) bid = delete (Z.to_nat idx) (book b bid) /\
  book (remove b bid idx) (negb bid) = book b (negb bid) /\
  side_count (remove b bid idx) bid = side_count b bid - 1 /\ seq_ (remove b bid idx) = seq_ b.
Proof.
  intros (H1 & H2 & H3) Hi. assert (Hb : side_ok b bid /\ side_ok b (negb bid)) by (by destruct bid).
  destruct Hb as [[C1 C2 C3 C4] [D1 D2 D3 D4]].
  destruct (remove_view b bid idx Hi ltac:(lia)) as (E1 & E2 & E3 & E4 & E5).
  pose proof (book_delete _ _ _ _ E1) as Eb.
  assert (Eo : book (remove b bid idx) (negb bid) = book b (negb bid)) by (unfold book; by rewrite E2).
  assert (K1 : side_ok (remove b bid idx) bid).
  { split; rewrite ?E3, ?E1, ?E5, ?Eb; [lia| | |by apply ranked_delete].
    - intros r Hr. apply C2. by eapply elem_of_delete.
    - intros r Hr. apply C3. by eapply elem_of_delete. }
  assert (K2 : side_ok (remove b bid idx) (negb bid)) by (split; rewrite ?E4, ?E2, ?E5, ?Eo; done).
  split; [|done]. unfold book_ok. rewrite E5. by destruct bid.
Qed.

(** Resting an order. *)
Lemma ranked_insert bid e F : ranked bid F -> ranked bid (insert_flat bid e F).
Proof.
  intros H. induction H as [|x F Hs IH Hx]; cbn [insert_flat]; [by repeat constructor|].
  destruct (Z.ltb_spec (key bid (e_price e)) (key bid (e_price x))).
  - constructor; [by constructor|]. constructor; [lia|]. eapply Forall_impl; [exact Hx|]. cbn. lia.
  - constructor; [done|]. apply Forall_forall. intros y Hy.
    assert (y = e \/ y ∈ F) as [->|Hin].
    { clear -Hy. induction F as [|z F IH]; cbn [insert_flat] in Hy.
      - left. by apply list_elem_of_singleton.
      - destruct (_ <? _); apply elem_of_cons in Hy as [->|Hy]; [by left|by right|right; left|].
        destruct (IH Hy) as [?|?]; [by left|by right; right]. }
    + lia.
    + rewrite Forall_forall in Hx. by apply Hx.
Qed.

Lemma insert_ok b id price qty side : let bid := bool_decide (side = BUY) in
  book_ok b -> 0 < qty <= INT32_MAX -> seq_ b < 2 ^ 32 - 1 -> side_count b bid < MAX_ORDERS ->
  let b' := insert_resting b id price qty side in
  book_ok b' /\ book b' bid = insert_flat bid (id, price, qty) (book b bid) /\
  book b' (negb bid) = book b (negb bid).
Proof.
  intros bid (H1 & H2 & H3) Hq Hsq Hn b'.
  assert (Hb : side_ok b bid /\ side_ok b (negb bid)) by (by destruct bid).
  destruct Hb as [[C1 C2 C3 C4] [D1 D2 D3 D4]]. unfold MAX_ORDERS in *.
  set (a := side_arr b bid) in *. set (n := side_count b bid) in *.
  set (pos := find_pos (Z.to_nat n) a bid 0 n price (seq_ b)).
  set (r := {| ro_order_id := id; ro_price := price; ro_quantity := qty; ro_side := side; ro_sequence := seq_ b |}).
  destruct (find_pos_spec (Z.to_nat n) a bid 0 n price (seq_ b)) as (P1 & P2 & P3); [lia|lia| |].
  { intros j Hj. apply C3. apply elem_of_slice. by exists j. }
  fold pos in P1, P2, P3.
  assert (Eb' : exists b1, b' = {| bids_ := bids_ b1; asks_ := asks_ b1; bid_count_ := bid_count_ b1;
      ask_count_ := ask_count_ b1; seq_ := u32 (seq_ b + 1); total_fills_ := total_fills_ b1 |} /\
      b1 = set_side b bid ((if pos <? n then shift_up a pos n else a).[pos <- r]) (n + 1)).
  { eexists. split; [|reflexivity]. unfold b', insert_resting. fold bid a n. unfold MAX_ORDERS.
    rewrite (proj2 (Z.leb_gt _ _)) by lia. fold pos r. rewrite u32_small by lia. by destruct bid. }
  destruct Eb' as (b1 & Eb' & E1). clearbody b'. rewrite (u32_small (seq_ b + 1)) in Eb' by lia.
  assert (Ev : view b' bid = take (Z.to_nat pos) (view b bid) ++ r :: drop (Z.to_nat pos) (view b bid) /\
               view b' (negb bid) = view b (negb bid) /\ side_count b' bid = n + 1 /\
               side_count b' (negb bid) = side_count b (negb bid) /\ seq_ b' = seq_ b + 1).
  { subst b' b1. unfold view at 2. fold a n. rewrite <- slice_shift_up by lia. clearbody bid.
    destruct bid; by split_and!. }
  clear Eb' E1 b1. destruct Ev as (E1 & E2 & E3 & E4 & E5).
  assert (Elen : length (book b bid) = Z.to_nat n).
  { unfold book. rewrite length_fmap. pose proof (length_view b bid ltac:(lia)). fold n in H. lia. }
  assert (Ebk : book b' bid = insert_flat bid (id, price, qty) (book b bid)).
  { assert (El : forall j x, book b bid !! j = Some x -> e_price x = ro_price (a (Z.of_nat j)) /\ Z.of_nat j < n).
    { intros j x Hj. unfold book, view in Hj. rewrite list_lookup_fmap, lookup_slice in Hj. fold a n in Hj.
      destruct (Z.ltb_spec (Z.of_nat j) n); [|done]. by injection Hj as <-. }
    rewrite (insert_flat_at bid _ _ (Z.to_nat pos)).
    - unfold book. rewrite E1, fmap_app, fmap_cons, fmap_take, fmap_drop. done.
    - lia.
    - intros j x Hj Hx. destruct (El j x Hx) as [Ep Hjn]. rewrite Ep. apply P2. lia.
    - intros x Hx. destruct (El _ x Hx) as [Ep Hjn]. rewrite Ep. replace (Z.of_nat (Z.to_nat pos)) with pos in * by lia.
      by apply P3. }
  assert (Hin : forall x, x ∈ view b' bid -> x = r \/ x ∈ view b bid).
  { intros x. rewrite E1, elem_of_app, elem_of_cons. rewrite <- (take_drop (Z.to_nat pos) (view b bid)) at 3.
    rewrite elem_of_app. tauto. }
  assert (K1 : side_ok b' bid).
  { split; rewrite ?E3, ?E5, ?Ebk; [unfold MAX_ORDERS; lia| | |by apply ranked_insert].
    - intros x [->|Hx]%Hin; [done|by apply C2].
    - intros x [->|Hx]%Hin; [cbn; lia|]. specialize (C3 x Hx). lia. }
  assert (Eo : book b' (negb bid) = book b (negb bid)) by (unfold book; by rewrite E2).
  assert (K2 : side_ok b' (negb bid)).
  { split; rewrite ?E4, ?E2, ?E5, ?Eo; try done. intros x Hx. specialize (D3 x Hx). lia. }
  split; [|done]. unfold book_ok. rewrite E5. clearbody bid. destruct bid; (split; [done|split; [done|lia]]).
Qed.

(** ** Matching *)

Lemma view_cons b bid x l : view b bid = x :: l -> 0 < side_count b bid /\ side_arr b bid 0 = x.
Proof.
  intros E. assert (H : slice (side_arr b bid) (side_count b bid) !! 0%nat = Some x) by (unfold view in E; by rewrite E).
  rewrite lookup_slice in H. destruct (Z.ltb_spec (Z.of_nat 0) (side_count b bid)); [|done]. by injection H.
Qed.

(** Replacing the first order. *)
Lemma view_set_first b bid x l r n : view b bid = x :: l -> n = side_count b bid ->
  slice ((side_arr b bid).[0 <- r]) n = r :: l.
Proof.
  intros E ->. apply list_eq. intros [|j]; rewrite lookup_slice.
  - destruct (view_cons _ _ _ _ E) as [H _]. rewrite (proj2 (Z.ltb_lt _ _)) by lia. cbn. by rewrite upd_eq.
  - assert (H : view b bid !! S j = l !! j) by (by rewrite E). unfold view in H. rewrite lookup_slice in H.
    change ((r :: l) !! S j) with (l !! j). rewrite <- H. destruct (_ <? _); [|done]. by rewrite upd_ne by lia.
Qed.

(** What a trade does to the book it trades with. *)
Definition after_trade (rem : Z) (x : RestingOrder) (l : list RestingOrder) : list RestingOrder :=
  if ro_quantity x <=? rem then l else set_quantity x (ro_quantity x - rem) :: l.

Lemma trade_views b contra id rem x l : side_count b contra <= MAX_ORDERS -> 0 < rem <= INT32_MAX ->
  0 < ro_quantity x <= INT32_MAX -> view b contra = x :: l ->
  let '(resp, rem', b') := trade b contra id rem in
  let q := Z.min rem (ro_quantity x) in
  resp = fill_response id (ro_price x) q (rem - q) /\ rem' = rem - q /\
  view b' contra = after_trade rem x l /\ view b' (negb contra) = view b (negb contra) /\
  0 <= side_count b' contra <= side_count b contra /\
  side_count b' (negb contra) = side_count b (negb contra) /\ seq_ b' = seq_ b.
Proof.
  unfold INT32_MAX. intros Hm Hr Hx Hv. destruct (view_cons _ _ _ _ Hv) as [Hn Ha]. unfold trade. rewrite Ha.
  set (q := Z.min rem (ro_quantity x)). rewrite !i32_small by lia.
  set (y := set_quantity x (ro_quantity x - q)). set (n := side_count b contra) in *.
  set (b1 := set_side b contra _ n).
  set (b2 := {| bids_ := bids_ b1; asks_ := asks_ b1; bid_count_ := bid_count_ b1; ask_count_ := ask_count_ b1;
                seq_ := seq_ b1; total_fills_ := u64 (total_fills_ b1 + 1) |}).
  assert (V : view b2 contra = y :: l /\ view b2 (negb contra) = view b (negb contra) /\
              side_count b2 contra = n /\ side_count b2 (negb contra) = side_count b (negb contra) /\ seq_ b2 = seq_ b).
  { assert (E : view b2 contra = slice ((side_arr b contra).[0 <- y]) n) by (unfold b2, b1; by destruct contra).
    rewrite E, (view_set_first b contra x l y n Hv) by done. unfold b2, b1. by destruct contra. }
  clearbody b2. destruct V as (V1 & V2 & V3 & V4 & V5).
  split; [done|]. split; [done|]. unfold after_trade. destruct (Z.leb_spec (ro_quantity x - q) 0) as [Hz|Hz].
  - destruct (remove_view b2 contra 0 ltac:(lia) ltac:(lia)) as (R1 & R2 & R3 & R4 & R5).
    rewrite R1, R2, R3, R4, R5, V1, V2, V3, V4, V5. rewrite (proj2 (Z.leb_le _ _)) by lia.
    split; [done|]. split; [done|]. split; [lia|done].
  - rewrite V1, V2, V3, V4, V5. rewrite (proj2 (Z.leb_gt _ _)) by lia. unfold y.
    replace (ro_quantity x - q) with (ro_quantity x - rem) by lia. split; [done|]. split; [done|]. split; [lia|done].
Qed.

Lemma side_ok_same b b' bid : view b' bid = view b bid -> side_count b' bid = side_count b bid -> seq_ b' = seq_ b ->
  side_ok b bid -> side_ok b' bid.
Proof. intros E1 E2 E3 [H1 H2 H3 H4]. split; unfold book; rewrite ?E1, ?E2, ?E3; done. Qed.

Lemma trade_ok b contra id rem x l : book_ok b -> 0 < rem <= INT32_MAX -> view b contra = x :: l ->
  let '(_, _, b') := trade b contra id rem in book_ok b'.
Proof.
  intros (H1 & H2 & H3) Hr Hv. assert (Hb : side_ok b contra /\ side_ok b (negb contra)) by (by destruct contra).
  destruct Hb as [[C1 C2 C3 C4] D]. pose proof (C2 x ltac:(rewrite Hv; left)) as Hx.
  pose proof (trade_views b contra id rem x l ltac:(lia) Hr Hx Hv) as HT.
  destruct (trade b contra id rem) as [[resp rem'] b']. destruct HT as (_ & _ & E1 & E2 & E3 & E4 & E5).
  assert (Hin : forall r, r ∈ view b' contra -> 0 < ro_quantity r <= INT32_MAX /\ ro_sequence r < seq_ b).
  { intros r Hr'. rewrite E1 in Hr'. unfold after_trade in Hr'. destruct (Z.leb_spec (ro_quantity x) rem).
    - split; [apply C2|apply C3]; rewrite Hv; by right.
    - apply elem_of_cons in Hr' as [->|Hr']; [|split; [apply C2|apply C3]; rewrite Hv; by right].
      cbn. specialize (C3 x ltac:(rewrite Hv; left)). lia. }
  assert (Hrk : ranked contra (book b' contra)).
  { unfold book in *. rewrite E1. rewrite Hv in C4. unfold after_trade. inversion C4 as [|? ? Hs Hf]; subst.
    destruct (_ <=? _); [done|]. by constructor. }
  assert (K : side_ok b' contra).
  { split; [lia| |rewrite E5|done]; intros r Hr'; by apply Hin. }
  pose proof (side_ok_same b b' (negb contra) E2 E4 E5 D). unfold book_ok. rewrite E5. by destruct contra.
Qed.

(** The fill responses of a list of fills, with what is left after each. *)
Fixpoint fill_responses (id rem : Z) (ms : list OrderBook.MatchResult) : list ContestantResponse :=
  match ms with
  | [] => []
  | m :: ms => fill_response id (OrderBook.fill_price m) (OrderBook.fill_qty m) (rem - OrderBook.fill_qty m) ::
               fill_responses id (rem - OrderBook.fill_qty m) ms
  end.

Lemma match_orders_spec contra ok id : forall l fuel b rem,
  book_ok b -> 0 <= rem <= INT32_MAX -> view b contra = l -> (length l < fuel)%nat ->
  exists ms rem' b', match_orders fuel b contra ok id rem = Some (fill_responses id rem ms, rem', b') /\
    match_flat ok 0 rem (length l) (abs <$> l) = (ms, book b' contra) /\ rem' = rem - fills_qty ms /\
    0 <= rem' <= rem /\ view b' (negb contra) = view b (negb contra) /\ seq_ b' = seq_ b /\
    side_count b' (negb contra) = side_count b (negb contra) /\ book_ok b'.
Proof.
  induction l as [|x l IH]; intros fuel b rem Hok Hrem Hv Hf; (destruct fuel as [|fuel]; [cbn in Hf; lia|]); cbn [match_orders].
  - assert (Hc : side_count b contra <= 0).
    { destruct Hok as (H1 & H2 & _). assert (Hs : side_ok b contra) by (by destruct contra).
      pose proof (length_view b contra (proj1 (so_count _ _ Hs))). rewrite Hv in H. cbn in H. lia. }
    rewrite (proj2 (Z.ltb_ge 0 (side_count b contra))), andb_false_r by done.
    exists [], rem, b. unfold book, fills_qty. rewrite Hv. cbn. split_and!; try done; lia.
  - destruct (view_cons _ _ _ _ Hv) as [Hn Ha]. rewrite Ha, (proj2 (Z.ltb_lt 0 (side_count b contra))), andb_true_r by done.
    rewrite fmap_cons. cbn [length match_flat abs].
    destruct ((0 <? rem) && ok (ro_price x)) eqn:E.
    2:{ exists [], rem, b. unfold book, fills_qty. rewrite Hv. cbn. split_and!; try done; lia. }
    apply andb_true_iff in E as [Hr0%Z.ltb_lt Hp].
    destruct Hok as (H1 & H2 & H3). assert (Hs : side_ok b contra) by (by destruct contra).
    pose proof (so_qty _ _ Hs x ltac:(rewrite Hv; left)) as Hx. pose proof (so_count _ _ Hs) as Hcnt.
    pose proof (trade_views b contra id rem x l ltac:(lia) ltac:(lia) Hx Hv) as HT.
    pose proof (trade_ok b contra id rem x l (conj H1 (conj H2 H3)) ltac:(lia) Hv) as Hok1.
    destruct (trade b contra id rem) as [[resp rem1] b1].
    destruct HT as (-> & -> & E1 & E2 & _ & E4 & E5). set (q := Z.min rem (ro_quantity x)) in *.
    unfold after_trade in E1. destruct (Z.leb_spec (ro_quantity x) rem) as [Hle|Hgt].
    + destruct (IH fuel b1 (rem - q) Hok1 ltac:(lia) E1 ltac:(cbn in Hf; lia)) as
        (ms & rem' & b' & M1 & M2 & M3 & M4 & M5 & M6 & M7 & M8).
      rewrite M1, M2. cbn [mbind option_bind].
      exists ({| OrderBook.maker_idx := ro_order_id x; OrderBook.taker_contestant_id := 0; OrderBook.fill_price := ro_price x; OrderBook.fill_qty := q |} :: ms), rem', b'. split; [reflexivity|]. split; [reflexivity|].
      unfold fills_qty in *. rewrite fmap_cons. cbn [zsum OrderBook.fill_qty]. split_and!; try lia; try congruence; done.
    + assert (Eq : q = rem) by lia. rewrite Eq in *. rewrite Z.sub_diag.
      assert (M1 : match_orders fuel b1 contra ok id 0 = Some ([], 0, b1)).
      { destruct fuel as [|fuel]; [cbn in Hf; lia|]. done. }
      rewrite M1. cbn [mbind option_bind].
      exists [{| OrderBook.maker_idx := ro_order_id x; OrderBook.taker_contestant_id := 0; OrderBook.fill_price := ro_price x; OrderBook.fill_qty := rem |}], 0, b1. cbn [fill_responses OrderBook.fill_price OrderBook.fill_qty].
      rewrite Z.sub_diag. split; [reflexivity|]. unfold book. rewrite E1. split; [reflexivity|].
      unfold fills_qty. cbn. split_and!; try lia; try congruence; done.
Qed.

(** ** The engine's handlers *)

Lemma match_orders_full contra ok id b rem : book_ok b -> 0 <= rem <= INT32_MAX ->
  exists ms b', match_orders FUEL b contra ok id rem = Some (fill_responses id rem ms, rem - fills_qty ms, b') /\
    match_flat ok 0 rem (length (book b contra)) (book b contra) = (ms, book b' contra) /\
    0 <= fills_qty ms <= rem /\ book b' (negb contra) = book b (negb contra) /\ seq_ b' = seq_ b /\
    side_count b' (negb contra) = side_count b (negb contra) /\ book_ok b'.
Proof.
  intros Hok Hr. pose proof Hok as (H1 & H2 & _). assert (Hs : side_ok b contra) by (by destruct contra).
  pose proof (so_count _ _ Hs) as Hc. pose proof (length_view b contra ltac:(lia)) as Hl.
  destruct (match_orders_spec contra ok id (view b contra) FUEL b rem Hok Hr eq_refl) as
    (ms & rem' & b' & M1 & M2 & -> & M4 & M5 & M6 & M7 & M8).
  { unfold FUEL, MAX_ORDERS in *. lia. }
  exists ms, b'. unfold book at 1 2 4 5. rewrite length_fmap, M5. split_and!; try done; lia.
Qed.

(** The prices an order trades at. *)
Definition terms (o : OrderEntry) : Z -> bool :=
  if bool_decide (oe_order_type o = MARKET) then fun _ => true else acceptable (oe_side o) (oe_price o).

(** C25: The example contestant is a price-time priority book.  On a well-formed
    book an order gets one fill response per step of the walk along the contra
    priority list, with the resting price, the quantity and what is left, and
    then one acknowledgement; the contra side becomes what the walk leaves, and
    the rest of a limit order goes behind the orders of its price unless the
    side holds 8192 orders.  The book stays sorted by price and well formed. *)
Theorem example_price_time b o :
  book_ok b -> 0 < oe_quantity o <= INT32_MAX -> oe_side o = BUY \/ oe_side o = SELL ->
  seq_ b < 2 ^ 32 - 1 ->
  let bid := bool_decide (oe_side o = BUY) in
  let market := bool_decide (oe_order_type o = MARKET) in
  let id := oe_client_order_id o in
  exists ms b',
    let left := oe_quantity o - fills_qty ms in
    let status := if market && (fills_qty ms =? 0) then REJECTED_PRICE else ACCEPTED in
    on_order b o = Some (fill_responses id (oe_quantity o) ms ++ [ack_response id ORDER_ACK status left], b') /\
    match_flat (terms o) 0 (oe_quantity o) (length (book b (negb bid))) (book b (negb bid)) =
      (ms, book b' (negb bid)) /\
    book b' bid =
      (if negb market && (0 <? left) && (side_count b bid <? MAX_ORDERS)
       then insert_flat bid (id, oe_price o, left) (book b bid) else book b bid) /\
    book_ok b'.
Proof.
  intros Hok Hq Hside Hseq bid market id. unfold on_order, terms. fold market.
  destruct (match_orders_full (negb bid) (if market then fun _ => true else acceptable (oe_side o) (oe_price o)) id b
    (oe_quantity o) Hok ltac:(lia)) as (ms & b1 & M1 & M2 & M3 & M4 & M5 & M6 & M7).
  rewrite negb_involutive in M4, M6. destruct market.
  - exists ms, b1. unfold process_market_order. fold bid id. rewrite M1. cbn [mbind option_bind].
    split; [|by split_and!]. do 4 f_equal. destruct (Z.eqb_spec (fills_qty ms) 0); cbn [andb];
      [rewrite (proj2 (Z.ltb_ge _ _)) by lia|rewrite (proj2 (Z.ltb_lt _ _)) by lia]; done.
  - cbn [andb negb]. set (left := oe_quantity o - fills_qty ms) in *.
    set (b' := if 0 <? left then insert_resting b1 id (oe_price o) left (oe_side o) else b1).
    exists ms, b'. fold left.
    assert (E : process_limit_order b o = Some (fill_responses id (oe_quantity o) ms ++
      [ack_response id ORDER_ACK ACCEPTED left], b')).
    { unfold process_limit_order. fold bid id. destruct bid eqn:Eb; subst bid.
      - apply bool_decide_eq_true in Eb. rewrite Eb in M1. cbn [negb] in M1. unfold acceptable in M1.
        rewrite M1. reflexivity.
      - apply bool_decide_eq_false in Eb. destruct Hside as [?|Es]; [done|]. rewrite Es in M1.
        cbn [negb] in M1. unfold acceptable in M1. rewrite M1. reflexivity. }
    split; [exact E|]. destruct (Z.ltb_spec 0 left) as [Hl|Hl]; cbn [andb].
    + destruct (Z.ltb_spec (side_count b bid) MAX_ORDERS) as [Hc|Hc].
      * destruct (insert_ok b1 id (oe_price o) left (oe_side o) M7 ltac:(lia) ltac:(lia) ltac:(fold bid; lia))
          as (I1 & I2 & I3). fold bid in I2, I3. unfold b'. rewrite I2, I3, M4. by split_and!.
      * assert (Eb' : b' = b1).
        { unfold b', insert_resting. fold bid. by rewrite (proj2 (Z.leb_le _ _)) by lia. }
        rewrite Eb'. by split_and!.
    + unfold b'. by split_and!.
Qed.

(** The first entry with an identifier, and the list without it. *)
Fixpoint take_id (id : Z) (F : list entry) : option (entry * list entry) :=
  match F with
  | [] => None
  | e :: F =>
      if e_oid e =? id then Some (e, F)
      else match take_id id F with Some (x, F) => Some (x, e :: F) | None => None end
  end.

Lemma find_id_spec n a i id :
  match find_id n a i id with
  | Some k => i <= k < i + Z.of_nat n /\ exists e F,
      take_id id (abs <$> (a <$> seqZ i (Z.of_nat n))) = Some (e, F) /\ e = abs (a k) /\
      F = delete (Z.to_nat (k - i)) (abs <$> (a <$> seqZ i (Z.of_nat n)))
  | None => take_id id (abs <$> (a <$> seqZ i (Z.of_nat n))) = None
  end.
Proof.
  revert i. induction n as [|n IH]; intros i; [done|]. rewrite (seqZ_cons i) by lia. rewrite !fmap_cons.
  replace (Z.pred (Z.of_nat (S n))) with (Z.of_nat n) by lia. change (Z.succ i) with (i + 1).
  cbn [find_id take_id]. change (e_oid (abs (a i))) with (ro_order_id (a i)).
  destruct (Z.eqb_spec (ro_order_id (a i)) id) as [E|E].
  - split; [lia|]. eexists _, _. split; [reflexivity|]. by rewrite Z.sub_diag.
  - specialize (IH (i + 1)). destruct (find_id n a (i + 1) id) as [k|].
    + destruct IH as (Hk & e & F & Ht & He & HF). split; [lia|]. rewrite Ht. eexists _, _. split; [reflexivity|].
      split; [done|]. replace (Z.to_nat (k - i)) with (S (Z.to_nat (k - (i + 1)))) by lia. cbn. by rewrite HF.
    + by rewrite IH.
Qed.

Lemma find_id_side b bid id : side_ok b bid ->
  match find_id (Z.to_nat (side_count b bid)) (side_arr b bid) 0 id with
  | Some k => 0 <= k < side_count b bid /\
      take_id id (book b bid) = Some (abs (side_arr b bid k), delete (Z.to_nat k) (book b bid))
  | None => take_id id (book b bid) = None
  end.
Proof.
  intros Hs. pose proof (so_count _ _ Hs). pose proof (find_id_spec (Z.to_nat (side_count b bid)) (side_arr b bid) 0 id) as H1.
  rewrite Z2Nat.id in H1 by lia. change (abs <$> (side_arr b bid <$> seqZ 0 (side_count b bid))) with (book b bid) in H1.
  destruct (find_id _ _ _ _) as [k|]; [|done]. destruct H1 as (Hk & e & F & Ht & -> & ->).
  rewrite Z.sub_0_r in Ht. split; [lia|done].
Qed.

(** A cancel of the example contestant takes the first order with the
    identifier off the book, bids before asks, and answers with its remaining
    quantity; an unknown identifier is answered as such and changes nothing.
    The book stays sorted and well formed. *)
Theorem example_cancel b c :
  book_ok b ->
  let id := cr_client_order_id c in
  let '(rs, b') := on_cancel b c in
  book_ok b' /\
  match take_id id (book b true), take_id id (book b false) with
  | Some (e, F), _ => rs = [ack_response id CANCEL_ACK CANCELLED (e_qty e)] /\
      book b' true = F /\ book b' false = book b false
  | None, Some (e, F) => rs = [ack_response id CANCEL_ACK CANCELLED (e_qty e)] /\
      book b' false = F /\ book b' true = book b true
  | None, None => rs = [ack_response id CANCEL_ACK REJECTED_UNKNOWN 0] /\ b' = b
  end.
Proof.
  intros Hok id. pose proof Hok as (H1 & H2 & _). unfold on_cancel. fold id.
  pose proof (find_id_side b true id H1) as F1. pose proof (find_id_side b false id H2) as F2.
  cbn [side_count side_arr] in F1, F2. destruct (find_id _ (bids_ b) 0 id) as [k|].
  - destruct F1 as [Hk ->]. destruct (remove_ok b true k Hok Hk) as (R1 & R2 & R3 & _).
    split; [done|]. split; [done|]. split; [exact R2|exact R3].
  - rewrite F1. destruct (find_id _ (asks_ b) 0 id) as [k|].
    + destruct F2 as [Hk ->]. destruct (remove_ok b false k Hok Hk) as (R1 & R2 & R3 & _).
      split; [done|]. split; [done|]. split; [exact R2|exact R3].
    + rewrite F2. done.
Qed.

(** ** Concrete books *)

Lemma new_ok : book_ok new.
Proof.
  split; [|split; [|done]]; (split; [vm_compute; split; discriminate|intros r Hr; by apply elem_of_nil in Hr..|constructor]).
Qed.

Definition demo_limit (sd : Side) (id price qty : Z) : OrderEntry :=
  {| oe_msg_type := ORDER_ENTRY; oe_side := sd; oe_order_type := LIMIT; oe_instrument_id := 0;
     oe_client_order_id := id; oe_price := price; oe_quantity := qty |}.

Lemma example_price_time_witness : exists ms b',
  on_order new (demo_limit SELL 4 100 5) = Some (fill_responses 4 5 ms ++ [ack_response 4 ORDER_ACK ACCEPTED (5 - fills_qty ms)], b') /\
  book_ok b'.
Proof.
  destruct (example_price_time new (demo_limit SELL 4 100 5) new_ok) as (ms & b' & H1 & _ & _ & H4).
  - vm_compute. split; [reflexivity|discriminate].
  - right. reflexivity.
  - vm_compute. reflexivity.
  - exists ms, b'. split; [exact H1|exact H4].
Defined.

Lemma example_cancel_witness :
  let '(rs, b') := on_cancel new {| cr_msg_type := CANCEL_REQUEST; cr_client_order_id := 4; cr_exchange_order_id := 0 |} in
  book_ok b' /\ rs = [ack_response 4 CANCEL_ACK REJECTED_UNKNOWN 0] /\ b' = new.
Proof.
  exact (example_cancel new {| cr_msg_type := CANCEL_REQUEST; cr_client_order_id := 4; cr_exchange_order_id := 0 |} new_ok).
Defined.

(** A run: two offers rest, a buyer takes the cheaper first and part of the other. *)
Definition demo_session : option (list (Z * Z) * list entry) :=
  '(_, b) ← on_order new (demo_limit SELL 1 101 5);
  '(_, b) ← on_order b (demo_limit SELL 2 100 5);
  '(rs, b) ← on_order b (demo_limit BUY 3 101 7);
  Some (map (fun r => (rs_fill_price r, rs_fill_qty r)) rs, book b false).

Example demo_run : demo_session = Some ([(100, 5); (101, 2); (0, 0)], [(1, 101, 3)]).
Proof. vm_compute. reflexivity. Qed.
End SimpleOrderbook.
