(* ===== verification/Client.v ===== *)
(** The contestant's side of the link (src/sdk/include/sdk/gateway_client.hpp):
    the batching response sender and the loop that reassembles messages from
    the byte stream and hands them to the contestant's strategy.  The strategy
    is an interface, as in src/sdk/include/sdk/strategy_sdk.hpp. *)

From S2P Require Import Prelude Arena Protocol PriceMap OrderBook BookRep BookOps BookMatch SimpleBook.

(** What the loop calls; the responses handed to the sender are returned. *)
Class IStrategy (S : Type) := {
  on_session_start : S -> SessionStart -> S;
  on_order : S -> OrderEntry -> S * list ContestantResponse;
  on_cancel : S -> CancelRequest -> S * list ContestantResponse;
  on_session_end : S -> SessionEnd -> S }.

Module GatewayClient.

Definition BATCH_SIZE : Z := 64.
Definition BUF_SIZE : Z := 65536.

Section Client.
Context {S : Type} `{!IStrategy S}.

(** The strategy, the sender's batch and the batches it has sent, and the
    counters of the loop. *)
Record t := {
  strategy : S; batch_ : list ContestantResponse; sent : list (list ContestantResponse);
  orders_processed : Z; cancels_processed : Z }.

Definition flush (c : t) : t :=
  if (length (batch_ c) =? 0)%nat then c
  else {| strategy := strategy c; batch_ := []; sent := sent c ++ [batch_ c];
          orders_processed := orders_processed c; cancels_processed := cancels_processed c |}.

Definition send (c : t) (r : ContestantResponse) : t :=
  let c := {| strategy := strategy c; batch_ := batch_ c ++ [r]; sent := sent c;
              orders_processed := orders_processed c; cancels_processed := cancels_processed c |} in
  if BATCH_SIZE <=? Z.of_nat (length (batch_ c)) then flush c else c.

Definition set_strategy (c : t) (s : S) : t :=
  {| strategy := s; batch_ := batch_ c; sent := sent c; orders_processed := orders_processed c;
     cancels_processed := cancels_processed c |}.
Definition count_order (c : t) : t :=
  {| strategy := strategy c; batch_ := batch_ c; sent := sent c;
     orders_processed := u64 (orders_processed c + 1); cancels_processed := cancels_processed c |}.
Definition count_cancel (c : t) : t :=
  {| strategy := strategy c; batch_ := batch_ c; sent := sent c;
     orders_processed := orders_processed c; cancels_processed := u64 (cancels_processed c + 1) |}.

(** A complete message: its type and its bytes. *)
Definition frame : Type := MsgType * list Z.

(** The switch of the loop, for every type but [SESSION_END]. *)
Definition handle (c : t) (f : frame) : t :=
  match f.1 with
  | SESSION_START => set_strategy c (on_session_start (strategy c) (of_wire f.2))
  | ORDER_ENTRY =>
      let '(s, rs) := on_order (strategy c) (of_wire f.2) in
      count_order (foldl send (set_strategy c s) rs)
  | CANCEL_REQUEST =>
      let '(s, rs) := on_cancel (strategy c) (of_wire f.2) in
      count_cancel (foldl send (set_strategy c s) rs)
  | _ => c
  end.

(** The complete message at the front of the buffer, and what follows it. *)
Definition next_frame (buf : list Z) : option (frame * list Z) :=
  match buf with
  | [] => None
  | _ =>
      let type := peek_msg_type buf in
      let msize := msg_size type in
      if (msize =? 0) || (Z.of_nat (length buf) <? msize) then None
      else Some ((type, take (Z.to_nat msize) buf), drop (Z.to_nat msize) buf)
  end.

(** The inner loop: the client, the unprocessed bytes, and whether the session
    has ended.  Every message has at least one byte. *)
Fixpoint process (fuel : nat) (c : t) (buf : list Z) : t * list Z * bool :=
  match fuel with
  | O => (c, buf, false)
  | Datatypes.S fuel =>
      match next_frame buf with
      | None => (c, buf, false)
      | Some (f, rest) =>
          match f.1 with
          | SESSION_END => (let c := flush c in set_strategy c (on_session_end (strategy c) (of_wire f.2)), rest, true)
          | _ => process fuel (handle c f) rest
          end
      end
  end.

(** [run]: [stream] is what the host has yet to deliver and [sizes] what the
    kernel is ready to hand over at each call of [recv], which also stops at the
    free space of the buffer; nothing received (an error, the end of the stream
    or a full buffer) ends the loop. *)
Fixpoint run (c : t) (buf : list Z) (sizes : list nat) (stream : list Z) : t :=
  match sizes with
  | [] => flush c
  | n :: sizes =>
      let k := Nat.min n (Z.to_nat (BUF_SIZE - Z.of_nat (length buf))) in
      match take k stream with
      | [] => flush c
      | chunk =>
          let '(c, rest, ended) := process (length (buf ++ chunk)) c (buf ++ chunk) in
          if ended then c else run (flush c) rest sizes (drop k stream)
      end
  end.

(** ** The messages of a byte stream *)

Fixpoint parse (fuel : nat) (buf : list Z) : list frame * list Z :=
  match fuel with
  | O => ([], buf)
  | Datatypes.S fuel =>
      match next_frame buf with
      | None => ([], buf)
      | Some (f, rest) => let '(fs, r) := parse fuel rest in (f :: fs, r)
      end
  end.
Definition messages (bytes : list Z) : list frame := (parse (length bytes) bytes).1.

(** No byte of unknown type stands where a message should start. *)
Definition known (bytes : list Z) : bool :=
  match (parse (length bytes) bytes).2 with
  | [] => true
  | r => negb (msg_size (peek_msg_type r) =? 0)
  end.

(** What is observable of a client: the strategy's state, every response in
    order, and the counters. *)
Definition obs (c : t) : S * list ContestantResponse * Z * Z :=
  (strategy c, concat (sent c) ++ batch_ c, orders_processed c, cancels_processed c).

(** One message after the other, up to the end of the session. *)
Fixpoint serve (o : S * list ContestantResponse * Z * Z) (fs : list frame) : S * list ContestantResponse * Z * Z :=
  match fs with
  | [] => o
  | f :: fs =>
      let '(s, rs, n, m) := o in
      match f.1 with
      | SESSION_START => serve (on_session_start s (of_wire f.2), rs, n, m) fs
      | ORDER_ENTRY =>
          let '(s, new) := on_order s (of_wire f.2) in serve (s, rs ++ new, u64 (n + 1), m) fs
      | CANCEL_REQUEST =>
          let '(s, new) := on_cancel s (of_wire f.2) in serve (s, rs ++ new, n, u64 (m + 1)) fs
      | SESSION_END => (on_session_end s (of_wire f.2), rs, n, m)
      | _ => serve (s, rs, n, m) fs
      end
  end.

Lemma obs_flush c : obs (flush c) = obs c /\ batch_ (flush c) = [].
Proof.
  unfold flush. destruct (batch_ c) as [|r l] eqn:E; cbn; [by rewrite E|]. split; [|done].
  unfold obs. cbn. rewrite concat_app, E. cbn. by rewrite !app_nil_r.
Qed.

Lemma obs_send c r : obs (send c r) =
  (strategy c, (concat (sent c) ++ batch_ c) ++ [r], orders_processed c, cancels_processed c).
Proof.
  unfold send. destruct (_ <=? _); [rewrite (proj1 (obs_flush _))|]; unfold obs; cbn; by rewrite <- app_assoc.
Qed.

Lemma obs_sends rs : forall c, obs (foldl send c rs) =
  (strategy c, (concat (sent c) ++ batch_ c) ++ rs, orders_processed c, cancels_processed c).
Proof.
  induction rs as [|r rs IH]; intros c; cbn [foldl]; [unfold obs; by rewrite app_nil_r|].
  rewrite IH. pose proof (obs_send c r) as E. unfold obs in E. injection E as E1 E2 E3 E4.
  rewrite E1, E2, E3, E4, <- app_assoc. done.
Qed.

(** ** Framing *)

Lemma next_frame_shorter buf f rest : next_frame buf = Some (f, rest) -> (length rest < length buf)%nat.
Proof.
  unfold next_frame. destruct buf as [|x buf]; [done|]. set (l := x :: buf).
  destruct (_ || _) eqn:E; [done|]. intros [= _ <-]. apply orb_false_iff in E as [E1%Z.eqb_neq E2%Z.ltb_ge].
  rewrite length_drop. assert (0 <= msg_size (peek_msg_type l)) by (destruct (peek_msg_type l); vm_compute; discriminate).
  assert (length l = Datatypes.S (length buf)) by done. lia.
Qed.

(** More bytes behind a complete message do not change it. *)
Lemma next_frame_app buf f rest more : next_frame buf = Some (f, rest) ->
  next_frame (buf ++ more) = Some (f, rest ++ more).
Proof.
  unfold next_frame. destruct buf as [|x buf]; [done|]. cbn [app]. change (x :: buf ++ more) with ((x :: buf) ++ more).
  set (l := x :: buf). change (peek_msg_type (l ++ more)) with (peek_msg_type l).
  set (n := msg_size (peek_msg_type l)). destruct ((n =? 0) || _) eqn:E; [done|]. intros [= <- <-].
  apply orb_false_iff in E as [E1 E2%Z.ltb_ge]. rewrite E1, length_app, (proj2 (Z.ltb_ge _ _)) by lia. cbn [orb].
  rewrite take_app_le, drop_app_le by lia. done.
Qed.

Lemma parse_fuel n : forall m buf, (length buf <= n)%nat -> (length buf <= m)%nat -> parse n buf = parse m buf.
Proof.
  induction n as [|n IH]; intros m buf Hn Hm.
  { destruct buf; [|cbn in Hn; lia]. by destruct m. }
  destruct m as [|m]; [destruct buf; [done|cbn in Hm; lia]|]. cbn [parse].
  destruct (next_frame buf) as [[f rest]|] eqn:E; [|done]. apply next_frame_shorter in E.
  by rewrite (IH m rest) by lia.
Qed.

(** The stream's messages do not depend on where it is cut. *)
Lemma parse_app a : forall more, parse (length (a ++ more)) (a ++ more) =
  let '(fs, r) := parse (length a) a in
  let '(fs', r') := parse (length (r ++ more)) (r ++ more) in (fs ++ fs', r').
Proof.
  induction a as [a IH] using (induction_ltof1 _ (@length Z)). unfold ltof in IH. intros more.
  destruct a as [|x a]; [cbn; by destruct (parse (length more) more)|]. set (l := x :: a) in *.
  assert (El : parse (length l) l = match next_frame l with
    | None => ([], l) | Some (f, rest) => let '(fs, r) := parse (length rest) rest in (f :: fs, r) end).
  { cbn [length parse l]. fold l. destruct (next_frame l) as [[f rest]|] eqn:E; [|done]. apply next_frame_shorter in E.
    by rewrite (parse_fuel (length a) (length rest) rest) by (cbn in E; lia). }
  rewrite El. destruct (next_frame l) as [[f rest]|] eqn:E; [|by destruct (parse (length (l ++ more)) (l ++ more))].
  pose proof (next_frame_shorter _ _ _ E) as Hs. pose proof (next_frame_app _ _ _ more E) as Ea.
  specialize (IH rest Hs more). destruct (parse (length rest) rest) as [fs r].
  replace (parse (length (l ++ more)) (l ++ more)) with
    (let '(fs1, r1) := parse (length (rest ++ more)) (rest ++ more) in (f :: fs1, r1)).
  - rewrite IH. by destruct (parse (length (r ++ more)) (r ++ more)).
  - symmetry. cbn [length app l parse]. change (x :: a ++ more) with (l ++ more). rewrite Ea.
    rewrite (parse_fuel (length (a ++ more)) (length (rest ++ more)) (rest ++ more)); [done| |done].
    rewrite !length_app. cbn in Hs. lia.
Qed.

(** ** The loop *)

(** The sender's array of 64 never overflows, and no empty batch is sent. *)
Definition sender_ok (c : t) : Prop :=
  (length (batch_ c) < 64)%nat /\ Forall (fun l => 0 < length l <= 64)%nat (sent c).

Lemma flush_ok c : (length (batch_ c) <= 64)%nat -> Forall (fun l => 0 < length l <= 64)%nat (sent c) ->
  sender_ok (flush c).
Proof.
  intros Hb Hs. unfold flush. destruct (Nat.eqb_spec (length (batch_ c)) 0) as [E|E].
  - split; [lia|done].
  - split; cbn; [lia|]. apply Forall_app. split; [done|]. constructor; [lia|done].
Qed.

Lemma send_ok c r : sender_ok c -> sender_ok (send c r).
Proof.
  intros [Hb Hs]. unfold send, BATCH_SIZE. cbn [batch_]. rewrite length_app. cbn [length].
  destruct (Z.leb_spec 64 (Z.of_nat (length (batch_ c) + 1))).
  - apply flush_ok; cbn [batch_ sent]; [rewrite length_app; cbn; lia|done].
  - split; cbn [batch_ sent]; [rewrite length_app; cbn; lia|done].
Qed.

Lemma sends_ok rs : forall c, sender_ok c -> sender_ok (foldl send c rs).
Proof. induction rs as [|r rs IH]; intros c H; [done|]. apply IH. by apply send_ok. Qed.

Lemma handle_ok c f : sender_ok c -> sender_ok (handle c f).
Proof.
  intros H. unfold handle. destruct (f.1); try done.
  - destruct (on_order _ _) as [s rs]. apply (sends_ok rs (set_strategy c s)) in H. exact H.
  - destruct (on_cancel _ _) as [s rs]. apply (sends_ok rs (set_strategy c s)) in H. exact H.
Qed.

Lemma handle_serve c f fs : f.1 <> SESSION_END -> serve (obs c) (f :: fs) = serve (obs (handle c f)) fs.
Proof.
  intros Hne. unfold obs at 1. cbn [serve]. unfold handle. destruct (f.1); try done.
  - destruct (on_order _ _) as [s rs]. unfold obs.
    pose proof (obs_sends rs (set_strategy c s)) as E. unfold obs in E. injection E as E1 E2 E3 E4.
    cbn [count_order strategy batch_ sent orders_processed cancels_processed]. rewrite E1, E2, E3, E4. done.
  - destruct (on_cancel _ _) as [s rs]. unfold obs.
    pose proof (obs_sends rs (set_strategy c s)) as E. unfold obs in E. injection E as E1 E2 E3 E4.
    cbn [count_cancel strategy batch_ sent orders_processed cancels_processed]. rewrite E1, E2, E3, E4. done.
Qed.

Lemma process_serve fuel : forall c buf, sender_ok c -> (length buf <= fuel)%nat ->
  let '(fs, r) := parse (length buf) buf in
  let '(c', rest, ended) := process fuel c buf in
  sender_ok c' /\
  (if ended : bool then batch_ c' = [] /\ forall fs', serve (obs c) (fs ++ fs') = obs c'
   else rest = r /\ forall fs', serve (obs c) (fs ++ fs') = serve (obs c') fs').
Proof.
  induction fuel as [|fuel IH]; intros c buf Hc Hf.
  { destruct buf; [|cbn in Hf; lia]. done. }
  rewrite (parse_fuel (length buf) (Datatypes.S fuel) buf) by lia. cbn [parse process].
  destruct (next_frame buf) as [[f rest]|] eqn:E; [|done]. apply next_frame_shorter in E.
  rewrite (parse_fuel fuel (length rest) rest) by lia.
  destruct (decide (f.1 = SESSION_END)) as [Hend|Hne].
  - rewrite Hend. destruct (parse (length rest) rest) as [fs r]. destruct Hc as [Hb Hs].
    pose proof (flush_ok c ltac:(lia) Hs) as Hfl. destruct (obs_flush c) as [Eo Eb].
    split; [exact Hfl|]. split; [exact Eb|]. intros fs'. cbn [app]. rewrite <- Eo. unfold obs at 1. cbn [serve].
    rewrite Hend. reflexivity.
  - pose proof (IH (handle c f) rest (handle_ok c f Hc) ltac:(lia)) as H.
    destruct (parse (length rest) rest) as [fs r].
    replace (match f.1 with SESSION_END => _ | _ => process fuel (handle c f) rest end)
      with (process fuel (handle c f) rest) by (destruct (f.1); done).
    destruct (process fuel (handle c f) rest) as [[c' rest'] ended]. destruct H as [H1 H2]. split; [done|].
    destruct ended.
    + destruct H2 as [H2 H3]. split; [done|]. intros fs'. cbn [app]. rewrite handle_serve by done. apply H3.
    + destruct H2 as [H2 H3]. split; [done|]. intros fs'. cbn [app]. rewrite handle_serve by done. apply H3.
Qed.

Lemma parse_rest a : let '(_, r) := parse (length a) a in parse (length r) r = ([], r).
Proof.
  pose proof (parse_app a []) as H. rewrite app_nil_r in H. destruct (parse (length a) a) as [fs r].
  rewrite app_nil_r in H. destruct (parse (length r) r) as [fs' r']. injection H as H1 H2. subst r'.
  f_equal. apply (f_equal length) in H1. rewrite length_app in H1. destruct fs'; [done|cbn in H1; lia].
Qed.

Lemma msg_size_small type : 0 <= msg_size type <= 256.
Proof. destruct type; vm_compute; by split. Qed.

Lemma known_app a more : known (a ++ more) = known ((parse (length a) a).2 ++ more).
Proof.
  unfold known. rewrite parse_app. destruct (parse (length a) a) as [fs r]. cbn [snd].
  by destruct (parse (length (r ++ more)) (r ++ more)).
Qed.

(** An incomplete message of a known type leaves room in the buffer. *)
Lemma buffer_room buf stream : parse (length buf) buf = ([], buf) -> known (buf ++ stream) = true ->
  (length buf < 256)%nat.
Proof.
  intros Hb Hk. destruct buf as [|x buf]; [cbn; lia|]. set (l := x :: buf) in *.
  assert (Hn : next_frame l = None).
  { cbn [length l parse] in Hb. fold l in Hb. destruct (next_frame l) as [[f rest]|]; [|done].
    destruct (parse (length buf) rest). discriminate Hb. }
  assert (Hm : msg_size (peek_msg_type l) <> 0).
  { intros E. revert Hk. unfold known. cbn [length l app parse]. unfold next_frame.
    change (peek_msg_type (x :: buf ++ stream)) with (peek_msg_type l). rewrite E. cbn [Z.eqb orb snd].
    change (peek_msg_type (x :: buf ++ stream)) with (peek_msg_type l). rewrite E. done. }
  revert Hn. unfold next_frame. change (x :: buf) with l. cbn [l]. fold l. apply Z.eqb_neq in Hm. rewrite Hm. cbn [orb].
  destruct (Z.ltb_spec (Z.of_nat (length l)) (msg_size (peek_msg_type l))); [|done].
  intros _. pose proof (msg_size_small (peek_msg_type l)). lia.
Qed.

Lemma run_serve sizes : forall c buf stream, sender_ok c -> parse (length buf) buf = ([], buf) ->
  known (buf ++ stream) = true -> Forall (fun n => 0 < n)%nat sizes -> (length stream <= length sizes)%nat ->
  let c' := run c buf sizes stream in
  obs c' = serve (obs c) (messages (buf ++ stream)) /\ batch_ c' = [] /\ sender_ok c'.
Proof.
  assert (Hstop : forall c buf, sender_ok c -> parse (length buf) buf = ([], buf) ->
    obs (flush c) = serve (obs c) (messages (buf ++ [])) /\ batch_ (flush c) = [] /\ sender_ok (flush c)).
  { intros c buf [Hb Hs] Hbuf. unfold messages. rewrite app_nil_r, Hbuf. cbn [fst serve].
    destruct (obs_flush c) as [E1 E2]. split; [done|]. split; [done|]. apply flush_ok; [lia|done]. }
  induction sizes as [|n sizes IH]; intros c buf stream Hc Hbuf Hk Hn Hlen; cbn [run].
  { destruct stream; [by apply Hstop|cbn in Hlen; lia]. }
  inversion Hn as [|? ? Hn0 Hns]; subst. pose proof (buffer_room _ _ Hbuf Hk) as Hroom.
  set (k := Nat.min n (Z.to_nat (BUF_SIZE - Z.of_nat (length buf)))).
  assert (Hkpos : (0 < k)%nat) by (unfold k, BUF_SIZE; lia). clearbody k.
  destruct (take k stream) as [|x ch] eqn:Et.
  { destruct stream; [by apply Hstop|]. destruct k; [lia|done]. }
  assert (El : (0 < length (take k stream))%nat) by (rewrite Et; cbn; lia).
  rewrite <- Et. rewrite <- (take_drop k stream) in Hk. rewrite <- (take_drop k stream) at 3.
  set (got := take k stream) in *. rewrite app_assoc in Hk |- *. rewrite known_app in Hk.
  pose proof (process_serve (length (buf ++ got)) c (buf ++ got) Hc ltac:(lia)) as HP.
  pose proof (parse_rest (buf ++ got)) as Hr. unfold messages. rewrite parse_app.
  assert (Hlen' : (length (drop k stream) <= length sizes)%nat).
  { unfold got in El. rewrite length_take in El. rewrite length_drop. cbn in Hlen. lia. }
  destruct (parse (length (buf ++ got)) (buf ++ got)) as [fs r].
  destruct (process (length (buf ++ got)) c (buf ++ got)) as [[c1 rest] ended]. destruct HP as [Hok HP].
  cbn [snd] in Hk. generalize dependent (drop k stream). intros later Hk Hlen'.
  destruct ended; destruct HP as [HP1 HP].
  - destruct (parse (length (r ++ later)) (r ++ later)) as [fs' r']. cbn [fst]. rewrite HP. done.
  - subst rest. destruct Hok as [Hb Hs]. pose proof (flush_ok c1 ltac:(lia) Hs) as Hfl.
    specialize (IH (flush c1) r later Hfl Hr Hk Hns Hlen'). unfold messages in IH.
    destruct (parse (length (r ++ later)) (r ++ later)) as [fs' r']. cbn [fst] in IH |- *. rewrite HP.
    rewrite (proj1 (obs_flush c1)) in IH. exact IH.
Qed.

(** C26: The client is insensitive to how the stream is cut.  However the kernel
    splits the bytes of the host into received chunks, messages across chunk
    boundaries included, the 64 KiB buffer never fills, the strategy is handed
    exactly the complete messages of the whole stream, in order and up to the end
    of the session; every response it gives is sent, in order, in batches of 1 to
    64, none is left behind, and the counters count the messages.  The one
    assumption on the bytes is that no message is of an unknown type. *)
Theorem client_chunking c sizes stream :
  sender_ok c -> known stream = true ->
  Forall (fun n => 0 < n)%nat sizes -> (length stream <= length sizes)%nat ->
  let c' := run c [] sizes stream in
  obs c' = serve (obs c) (messages stream) /\ batch_ c' = [] /\
  Forall (fun l => 0 < length l <= 64)%nat (sent c').
Proof.
  intros Hc Hk Hn Hlen. destruct (run_serve sizes c [] stream Hc eq_refl Hk Hn Hlen) as (H1 & H2 & H3).
  split; [exact H1|]. split; [exact H2|]. apply H3.
Qed.

End Client.

(** The example engine behind the interface.  On a well-formed book an order
    always has a result (its matching loop has fuel for every resting order), so
    the default for [None] is never taken there. *)
#[export] Instance example_strategy : IStrategy SimpleOrderbook.t := {
  on_session_start b _ := SimpleOrderbook.on_session_start b;
  on_order b o := match SimpleOrderbook.on_order b o with Some (rs, b') => (b', rs) | None => (b, []) end;
  on_cancel b c := let '(rs, b') := SimpleOrderbook.on_cancel b c in (b', rs);
  on_session_end b _ := b }.

Definition demo_client : t :=
  {| strategy := SimpleOrderbook.new; batch_ := []; sent := []; orders_processed := 0; cancels_processed := 0 |}.

(** Two orders that trade, a cancel of an unknown order and the end of the session. *)
Definition demo_stream : list Z :=
  to_wire (SimpleOrderbook.demo_limit SELL 1 100 5) ++ to_wire (SimpleOrderbook.demo_limit BUY 2 101 3) ++
  to_wire {| cr_msg_type := CANCEL_REQUEST; cr_client_order_id := 9; cr_exchange_order_id := 0 |} ++
  to_wire {| se_msg_type := SESSION_END; se_total_fills := 0; se_final_pnl := 0; se_total_volume := 0;
             se_final_position := 0; se_total_orders := 0; se_total_cancels := 0; se_end_timestamp_ns := 0 |}.

Lemma client_chunking_witness :
  let sizes := repeat 7%nat (length demo_stream) in
  known demo_stream = true /\
  obs (run demo_client [] sizes demo_stream) = serve (obs demo_client) (messages demo_stream) /\
  batch_ (run demo_client [] sizes demo_stream) = [].
Proof.
  intros sizes. split; [vm_compute; reflexivity|].
  destruct (client_chunking demo_client sizes demo_stream) as (H1 & H2 & _).
  - split; [cbn; lia|constructor].
  - vm_compute; reflexivity.
  - apply List.Forall_forall. intros n Hn. apply repeat_spec in Hn. lia.
  - unfold sizes. rewrite repeat_length. lia.
  - split; [exact H1|exact H2].
Defined.

Example demo_client_run :
  let c := run demo_client [] (repeat 7%nat (length demo_stream)) demo_stream in
  map (map (fun r => (rs_order_id r, rs_fill_qty r, rs_remaining_qty r))) (sent c) =
    [[(1, 0, 5)]; [(2, 3, 0); (2, 0, 0)]; [(9, 0, 0)]] /\
  orders_processed c = 2 /\ cancels_processed c = 1.
Proof. vm_compute. repeat split. Qed.
End GatewayClient.
