(* ===== verification/Text.v ===== *)
(** C strings and formatted output, as the publishers use them: [snprintf] with
    decimal integers, strings and fixed-point doubles.  A C string is the list
    of its bytes without the terminator. *)

From S2P Require Import Prelude Xorshift.
From Stdlib Require Import SpecFloat.
From Stdlib Require String Ascii.
Import String.StringSyntax.

(** The bytes of a literal. *)
Definition bytes (s : String.string) : list Z :=
  (fun c => Z.of_N (Ascii.N_of_ascii c)) <$> String.list_ascii_of_string s.
Arguments bytes s%_string_scope.

Definition CR : Z := 13.
Definition LF : Z := 10.
Definition QUOTE : Z := 34.

(** The C string at the start of a memory block. *)
Fixpoint c_string (l : list Z) : list Z :=
  match l with [] => [] | c :: l => if c =? 0 then [] else c :: c_string l end.

(** ** Decimal integers ([%lu] and [%d] of values that are not negative) *)

Fixpoint rdigits (fuel : nat) (n : Z) : list Z :=
  match fuel with
  | O => []
  | S fuel => (48 + n mod 10) :: (if n / 10 =? 0 then [] else rdigits fuel (n / 10))
  end.
Definition dec (n : Z) : list Z := rev (rdigits (S (Z.to_nat (Z.log2 n))) n).

(** ** Fixed-point doubles ([%.<d>f]): rounding to nearest, ties to even, of the
    exact value.  The sign of a NaN, which [spec_float] does not have, is not
    printed. *)

Fixpoint rpad (d : nat) (n : Z) : list Z :=
  match d with
  | O => []
  | S d => (48 + n mod 10) :: rpad d (n / 10)
  end.

Definition round_div (a b : Z) : Z :=
  let q := a / b in
  let r := a mod b in
  if (2 * r <? b) || ((2 * r =? b) && Z.even q) then q else q + 1.

Definition sign (s : bool) : list Z := if s then [45] else [].

Definition fixed (d : nat) (x : spec_float) : list Z :=
  let show s n := sign s ++ dec (n / 10 ^ Z.of_nat d) ++ [46] ++ rev (rpad d n) in
  match x with
  | S754_zero s => show s 0
  | S754_infinity s => sign s ++ bytes "inf"
  | S754_nan => bytes "nan"
  | S754_finite s m e =>
      let n := Z.pos m * 10 ^ Z.of_nat d in
      show s (if 0 <=? e then n * 2 ^ e else round_div n (2 ^ (- e)))
  end.

(** [snprintf] into [size] bytes: what is in the buffer before the terminator,
    and the result, the length of the whole text. *)
Definition snprintf (size : Z) (text : list Z) : list Z * Z :=
  (take (Z.to_nat (size - 1)) text, Z.of_nat (length text)).

Lemma snprintf_fits size text : Z.of_nat (length text) < size ->
  snprintf size text = (text, Z.of_nat (length text)).
Proof. intros H. unfold snprintf. by rewrite take_ge by lia. Qed.

(** ** Reading decimals back *)

Definition digit (c : Z) : bool := (48 <=? c) && (c <=? 57).
Definition undec (l : list Z) : Z := foldl (fun a c => 10 * a + (c - 48)) 0 l.

Lemma digit_mod n : digit (48 + n mod 10) = true.
Proof. unfold digit. pose proof (Z.mod_pos_bound n 10). bool_cases; lia. Qed.

Lemma rdigits_digits fuel : forall n, Forall (fun c => digit c = true) (rdigits fuel n).
Proof.
  induction fuel as [|fuel IH]; intros n; cbn [rdigits]; [constructor|]. constructor; [apply digit_mod|].
  destruct (_ =? _); [constructor|apply IH].
Qed.

Lemma rpad_digits d : forall n, Forall (fun c => digit c = true) (rpad d n).
Proof. induction d as [|d IH]; intros n; cbn [rpad]; [constructor|]. constructor; [apply digit_mod|apply IH]. Qed.

Lemma Forall_rev_imp {A} (P : A -> Prop) (l : list A) : Forall P l -> Forall P (rev l).
Proof. rewrite !List.Forall_forall. intros H x Hx. apply H. by apply in_rev. Qed.

Lemma dec_digits n : Forall (fun c => digit c = true) (dec n).
Proof. apply Forall_rev_imp, rdigits_digits. Qed.

Lemma undec_rev r : undec (rev r) = foldr (fun c a => 10 * a + (c - 48)) 0 r.
Proof. unfold undec. induction r as [|c r IH]; [done|]. cbn [rev foldr]. rewrite foldl_app, IH. done. Qed.

Lemma rdigits_value fuel : forall n, 0 <= n < 2 ^ Z.of_nat fuel ->
  (0 < fuel)%nat -> foldr (fun c a => 10 * a + (c - 48)) 0 (rdigits fuel n) = n.
Proof.
  induction fuel as [|fuel IH]; intros n Hn Hf; [lia|]. cbn [rdigits foldr].
  pose proof (Z.div_mod n 10 ltac:(lia)). destruct (Z.eqb_spec (n / 10) 0) as [E|E]; cbn [foldr]; [lia|].
  rewrite Nat2Z.inj_succ, Z.pow_succ_r in Hn by lia.
  assert (0 <= n / 10 < 2 ^ Z.of_nat fuel).
  { split; [apply Z.div_pos; lia|]. apply Z.div_lt_upper_bound; lia. }
  destruct fuel as [|fuel]; [cbn in *; lia|]. rewrite IH by lia. lia.
Qed.

Lemma undec_dec n : 0 <= n -> undec (dec n) = n.
Proof.
  intros Hn. unfold dec. rewrite undec_rev, rdigits_value; [done| |lia]. split; [done|].
  rewrite Nat2Z.inj_succ, Z2Nat.id by apply Z.log2_nonneg.
  destruct (Z.eq_dec n 0) as [->|]; [done|]. apply Z.log2_spec. lia.
Qed.

Lemma dec_nonempty n : dec n <> [].
Proof. unfold dec. cbn [rdigits rev]. intros E. apply app_eq_nil in E as [_ E]. done. Qed.

Lemma rdigits_length fuel : forall n, (length (rdigits fuel n) <= fuel)%nat.
Proof. induction fuel as [|fuel IH]; intros n; cbn [rdigits length]; [lia|]. specialize (IH (n / 10)). destruct (_ =? 0); cbn [length]; lia. Qed.

Lemma dec_length n k : 0 <= n < 2 ^ k -> 0 < k -> Z.of_nat (length (dec n)) <= k.
Proof.
  intros Hn Hk. unfold dec. rewrite length_rev. pose proof (rdigits_length (S (Z.to_nat (Z.log2 n))) n).
  assert (Z.log2 n < k); [|pose proof (Z.log2_nonneg n); lia].
  destruct (Z.eq_dec n 0) as [->|]; [done|]. apply Z.log2_lt_pow2; lia.
Qed.

(** The characters numbers are printed with. *)
Definition numeric (c : Z) : bool := digit c || (c =? 45) || (c =? 46) || ((97 <=? c) && (c <=? 122)).

Lemma dec_numeric n : Forall (fun c => numeric c = true) (dec n).
Proof. eapply Forall_impl; [apply dec_digits|]. intros c H. unfold numeric. by rewrite H. Qed.

Lemma sign_numeric s : Forall (fun c => numeric c = true) (sign s).
Proof. by destruct s; repeat constructor. Qed.

Lemma fixed_numeric d x : Forall (fun c => numeric c = true) (fixed d x).
Proof.
  assert (H : forall s n, Forall (fun c => numeric c = true)
    (sign s ++ dec (n / 10 ^ Z.of_nat d) ++ [46] ++ rev (rpad d n))).
  { intros s n. rewrite !Forall_app. split; [apply sign_numeric|]. split; [apply dec_numeric|].
    split; [by repeat constructor|]. apply Forall_rev_imp. eapply Forall_impl; [apply rpad_digits|].
    intros c Hc. unfold numeric. by rewrite Hc. }
  destruct x as [s|s| |s m e]; cbn [fixed]; [apply H| |by repeat constructor|apply H].
  apply Forall_app. split; [apply sign_numeric|by repeat constructor].
Qed.

(** Every printed character is a byte. *)
Lemma bytes_range s : Forall (fun c => 0 <= c < 256) (bytes s).
Proof.
  apply Forall_fmap, List.Forall_forall. intros c _. cbn. pose proof (Ascii.N_ascii_bounded c). lia.
Qed.

Lemma numeric_range l : Forall (fun c => numeric c = true) l -> Forall (fun c => 0 <= c < 256) l.
Proof.
  intros H. eapply Forall_impl; [exact H|]. intros c Hc. unfold numeric, digit in Hc.
  rewrite !orb_true_iff, !andb_true_iff, !Z.leb_le, !Z.eqb_eq in Hc. lia.
Qed.

(** The number [d] digits print is the rounded value. *)
Example fixed_examples :
  fixed 2 (F64.lit 1 8) = bytes "0.12" /\ fixed 1 (F64.of_Z (-1234)) = bytes "-1234.0" /\
  fixed 4 (F64.lit 1999999 1000000) = bytes "2.0000" /\ dec 18446744073709551615 = bytes "18446744073709551615".
Proof. vm_compute. repeat split. Qed.
