(* ===== verification/Crc.v ===== *)
(** The checksum of the Kafka publisher (crc32 of
    src/pipeline/include/pipeline/metrics_publisher.hpp): the table-free loop,
    its reading as a polynomial remainder, and what it detects. *)

From S2P Require Import Prelude.
From Stdlib Require Import Btauto.

Definition POLY : Z := 3988292384.

(** The body of the bit loop, the body of the byte loop, and the function. *)
Definition crc_round (crc : Z) : Z :=
  Z.lxor (Z.shiftr crc 1) (Z.land POLY (u32 (- Z.land crc 1))).
Definition crc_byte (crc b : Z) : Z := Nat.iter 8 crc_round (Z.lxor crc b).
Definition crc32 (data : list Z) : Z := Z.lxor (foldl crc_byte 4294967295 data) 4294967295.

Example crc32_check_value :
  crc32 [49; 50; 51; 52; 53; 54; 55; 56; 57] = 3421780262.
Proof. vm_compute. reflexivity. Qed.

(** ** 32-bit words *)

Definition w32ok (x : Z) : Prop := 0 <= x < 2 ^ 32.

Lemma lxor_w32 x y : w32ok x -> w32ok y -> w32ok (Z.lxor x y).
Proof. apply lxor_bound. lia. Qed.

(** ** One round *)

Lemma crc_round_cases c : crc_round c = Z.lxor (Z.shiftr c 1) (if Z.odd c then POLY else 0).
Proof.
  unfold crc_round. change 1 with (2 ^ 1 - 1) at 2. rewrite land_mask by lia.
  change (2 ^ 1) with 2. rewrite Zmod_odd. by destruct (Z.odd c).
Qed.

Lemma shiftr_w32 c k : 0 <= k -> w32ok c -> w32ok (Z.shiftr c k).
Proof.
  intros Hk [H0 H1]. rewrite Z.shiftr_div_pow2 by done. split; [apply Z.div_pos; lia|].
  apply Z.le_lt_trans with c; [|done]. apply Z.div_le_upper_bound; [lia|].
  pose proof (Z.pow_pos_nonneg 2 k). nia.
Qed.

Lemma crc_round_w32 c : w32ok c -> w32ok (crc_round c).
Proof.
  intros Hc. rewrite crc_round_cases. apply lxor_w32; [by apply shiftr_w32|]. by destruct (Z.odd c).
Qed.

(** A round forgets nothing: the lowest bit is in the highest of the result. *)
Lemma crc_round_inj a b : w32ok a -> w32ok b -> crc_round a = crc_round b -> a = b.
Proof.
  intros Ha Hb E. rewrite !crc_round_cases in E.
  assert (Ho : Z.odd a = Z.odd b).
  { pose proof (f_equal (fun x => Z.testbit x 31) E) as E31. cbn beta in E31.
    rewrite !Z.lxor_spec, !Z.shiftr_spec in E31 by lia. change (31 + 1) with 32 in E31.
    rewrite (bits_above a 32 32), (bits_above b 32 32) in E31 by (done || lia).
    by destruct (Z.odd a), (Z.odd b). }
  rewrite Ho in E. apply (f_equal (fun x => Z.lxor x (if Z.odd b then POLY else 0))) in E.
  rewrite !Z.lxor_assoc, Z.lxor_nilpotent, !Z.lxor_0_r, <- !Z.div2_spec in E.
  rewrite (Z.div2_odd a), (Z.div2_odd b), E, Ho. done.
Qed.

Lemma iter_round n c : w32ok c -> w32ok (Nat.iter n crc_round c).
Proof. intros Hc. induction n as [|n IH]; [done|]. by apply crc_round_w32. Qed.

Lemma iter_round_inj n a b : w32ok a -> w32ok b -> Nat.iter n crc_round a = Nat.iter n crc_round b -> a = b.
Proof.
  intros Ha Hb. induction n as [|n IH]; [done|]. cbn. intros E. apply IH. by apply crc_round_inj; [apply iter_round..|].
Qed.

Definition is_byte (b : Z) : Prop := 0 <= b < 256.

Lemma byte_w32 b : is_byte b -> w32ok b.
Proof. unfold is_byte, w32ok. lia. Qed.

Lemma crc_byte_w32 c b : w32ok c -> is_byte b -> w32ok (crc_byte c b).
Proof. intros Hc Hb. apply iter_round, lxor_w32; [done|by apply byte_w32]. Qed.

Lemma crc_bytes_w32 data : forall c, w32ok c -> Forall is_byte data -> w32ok (foldl crc_byte c data).
Proof.
  induction data as [|b data IH]; intros c Hc H; [done|]. inversion H; subst. apply IH; [by apply crc_byte_w32|done].
Qed.

Lemma crc32_w32 data : Forall is_byte data -> w32ok (crc32 data).
Proof. intros H. apply lxor_w32; [by apply crc_bytes_w32|done]. Qed.

Lemma lxor_cancel_r x y z : Z.lxor x z = Z.lxor y z -> x = y.
Proof.
  intros E. apply (f_equal (fun v => Z.lxor v z)) in E. by rewrite !Z.lxor_assoc, Z.lxor_nilpotent, !Z.lxor_0_r in E.
Qed.

Lemma crc_byte_inj a b x y : w32ok a -> w32ok b -> is_byte x -> is_byte y ->
  crc_byte a x = crc_byte b y -> Z.lxor a x = Z.lxor b y.
Proof.
  intros Ha Hb Hx Hy. unfold crc_byte. generalize 8%nat. intros n E.
  apply iter_round_inj in E; [done|apply lxor_w32; [done|by apply byte_w32]..].
Qed.

Lemma crc_bytes_inj data : forall a b, w32ok a -> w32ok b -> Forall is_byte data ->
  foldl crc_byte a data = foldl crc_byte b data -> a = b.
Proof.
  induction data as [|x data IH]; intros a b Ha Hb H E; [done|]. inversion H as [|? ? Hx Hd]; subst. cbn [foldl] in E.
  apply IH in E; [|by apply crc_byte_w32..|done].
  apply crc_byte_inj in E; [|done..]. exact (lxor_cancel_r _ _ _ E).
Qed.

(** The checksum detects a corrupted byte.  Two messages that differ in
    exactly one byte, wherever it is and whatever the difference, have different
    checksums. *)
Theorem crc32_detects_byte pre post x y :
  Forall is_byte (pre ++ post) -> is_byte x -> is_byte y -> x <> y ->
  crc32 (pre ++ x :: post) <> crc32 (pre ++ y :: post).
Proof.
  intros [Hpre Hpost]%Forall_app Hx Hy Hne E. apply Hne. unfold crc32 in E. apply lxor_cancel_r in E.
  rewrite !foldl_app in E. cbn [foldl] in E. set (c := foldl crc_byte 4294967295 pre) in *.
  assert (Hc : w32ok c) by (by apply crc_bytes_w32).
  apply crc_bytes_inj in E; [|by apply crc_byte_w32..|done].
  apply crc_byte_inj in E; [|done..]. rewrite !(Z.lxor_comm c) in E. exact (lxor_cancel_r _ _ _ E).
Qed.

Lemma crc32_detects_byte_witness : crc32 ([1; 2] ++ 3 :: [4]) <> crc32 ([1; 2] ++ 7 :: [4]).
Proof.
  apply crc32_detects_byte; [|split; [lia|reflexivity]..|discriminate]. repeat constructor; discriminate.
Defined.

(** ** The checksum as a polynomial remainder

    Polynomials over the field of two elements are numbers, bit [i] being the
    coefficient of the [i]-th power; addition is [Z.lxor].  [GEN] is the generator
    of IEEE 802.3. *)

Definition GEN : Z := 4374732215.

(** The bits of the message in the order of transmission, lowest bit first. *)
Definition byte_bits (n : nat) (b : Z) : list bool := (fun i => Z.testbit b i) <$> seqZ 0 (Z.of_nat n).
Definition message_bits (data : list Z) : list bool := concat (byte_bits 8 <$> data).

Definition bit (k : Z) (b : bool) : Z := if b then k else 0.
Definition poly (bits : list bool) : Z := foldl (fun a b => Z.lxor (2 * a) (bit 1 b)) 0 bits.

(** The product with [GEN], by shifting and adding. *)
Definition times_gen (q : list bool) : Z := foldl (fun a t => Z.lxor (2 * a) (bit GEN t)) 0 q.

(** One step of long division. *)
Definition divide_bit (r : Z) (b : bool) : Z :=
  Z.lxor (u32 (2 * r)) (bit (GEN - 2 ^ 32) (xorb (Z.testbit r 31) b)).

(** The 32 bits in reverse. *)
Definition reflect (r : Z) : Z := poly ((fun i => Z.testbit r i) <$> seqZ 0 32).

(** The dividend: the initial register in front of the message, and 32 zeros. *)
Definition dividend (bits : list bool) : Z :=
  Z.lxor (Z.shiftl 4294967295 (Z.of_nat (length bits))) (Z.shiftl (poly bits) 32).

Lemma double x : 2 * x = Z.shiftl x 1.
Proof. by rewrite Z.shiftl_mul_pow2, Z.mul_comm. Qed.

Lemma double_lxor x y : 2 * Z.lxor x y = Z.lxor (2 * x) (2 * y).
Proof. by rewrite !double, Z.shiftl_lxor. Qed.

Lemma dividend_snoc bits b : dividend (bits ++ [b]) = Z.lxor (2 * dividend bits) (bit (2 ^ 32) b).
Proof.
  unfold dividend, poly. rewrite length_app, foldl_app. cbn [foldl length].
  rewrite Z.shiftl_lxor, double_lxor, !double, Z.shiftl_shiftl, Z.shiftl_shiftl, Z.shiftl_shiftl by lia.
  rewrite <- Z.lxor_assoc. replace (Z.of_nat (length bits + 1)) with (Z.of_nat (length bits) + 1) by lia.
  replace (32 + 1) with (1 + 32) by lia. f_equal. by destruct b.
Qed.

Lemma u32_double r : w32ok r -> u32 (2 * r) = Z.lxor (2 * r) (bit (2 ^ 32) (Z.testbit r 31)).
Proof.
  intros Hr. unfold u32. change 4294967296 with (2 ^ 32). apply Z.bits_inj'. intros i Hi.
  rewrite Z.lxor_spec, double. destruct (Z.lt_ge_cases i 32).
  - rewrite Z.mod_pow2_bits_low by done. replace (Z.testbit (bit (2 ^ 32) (Z.testbit r 31)) i) with false.
    { by rewrite xorb_false_r. }
    destruct (Z.testbit r 31); cbn [bit]; [|by rewrite Z.bits_0]. rewrite Z.pow2_bits_eqb by lia. by destruct (Z.eqb_spec 32 i); [lia|].
  - rewrite Z.mod_pow2_bits_high by lia. rewrite Z.shiftl_spec by lia. destruct (Z.eq_dec i 32) as [->|Hne].
    + change (32 - 1) with 31. destruct (Z.testbit r 31); done.
    + rewrite (bits_above r 32 (i - 1)) by (done || lia). destruct (Z.testbit r 31); cbn [bit]; [|by rewrite Z.bits_0].
      rewrite Z.pow2_bits_eqb by lia. by destruct (Z.eqb_spec 32 i); [lia|].
Qed.

Lemma divide_bit_step r b : w32ok r ->
  Z.lxor (2 * r) (bit (2 ^ 32) b) = Z.lxor (bit GEN (xorb (Z.testbit r 31) b)) (divide_bit r b).
Proof.
  intros Hr. unfold divide_bit. rewrite u32_double by done. generalize (2 * r). intros x.
  change GEN with (Z.lxor (2 ^ 32) (GEN - 2 ^ 32)) at 1.
  destruct (Z.testbit r 31), b; cbn [xorb bit]; rewrite ?Z.lxor_0_r, ?Z.lxor_0_l; try done.
  - rewrite (Z.lxor_comm (2 ^ 32) (GEN - 2 ^ 32)), (Z.lxor_comm (Z.lxor x _)), !Z.lxor_assoc.
    rewrite <- (Z.lxor_assoc (2 ^ 32)). apply Z.bits_inj'. intros i Hi. rewrite !Z.lxor_spec. btauto.
  - apply Z.bits_inj'. intros i Hi. rewrite !Z.lxor_spec. btauto.
Qed.

Lemma divide_bit_w32 r b : w32ok (divide_bit r b).
Proof.
  unfold divide_bit. apply lxor_w32; [apply u32_range|]. by destruct (xorb _ _).
Qed.

(** Long division: the dividend is a multiple of the generator plus the register. *)
Lemma divide bits : let r := foldl divide_bit 4294967295 bits in
  w32ok r /\ exists q, dividend bits = Z.lxor (times_gen q) r.
Proof.
  induction bits as [|b bits [Hr [q IH]]] using rev_ind; [by split; [|exists []]|].
  rewrite foldl_app. cbn [foldl]. split; [apply divide_bit_w32|].
  set (r := foldl divide_bit 4294967295 bits) in *. exists (q ++ [xorb (Z.testbit r 31) b]).
  rewrite dividend_snoc, IH, double_lxor, Z.lxor_assoc, divide_bit_step by done.
  unfold times_gen. rewrite foldl_app. cbn [foldl]. by rewrite Z.lxor_assoc.
Qed.

(** ** The reflected register *)

Lemma bit1_testbit b i : Z.testbit (bit 1 b) i = b && (i =? 0).
Proof.
  destruct b; cbn [bit andb]; [|apply Z.bits_0].
  change 1 with (2 ^ 0). rewrite Z.pow2_bits_eqb by lia. apply Z.eqb_sym.
Qed.

Lemma poly_reverses n r i : 0 <= i ->
  Z.testbit (poly ((fun j => Z.testbit r j) <$> seqZ 0 (Z.of_nat n))) i =
  (i <? Z.of_nat n) && Z.testbit r (Z.of_nat n - 1 - i).
Proof.
  revert i. induction n as [|n IH]; intros i Hi; [by rewrite (proj2 (Z.ltb_ge i _)), Z.bits_0 by lia|].
  rewrite seqZ_S, fmap_app. replace (Z.of_nat (S n)) with (Z.of_nat n + 1) by lia. unfold poly. rewrite foldl_app.
  fold (poly ((fun j => Z.testbit r j) <$> seqZ 0 (Z.of_nat n))).
  cbn [foldl fmap list_fmap]. rewrite Z.lxor_spec, bit1_testbit, double, Z.shiftl_spec by done.
  destruct (Z.eqb_spec i 0) as [->|Hne].
  - rewrite Z.testbit_neg_r by lia. rewrite (proj2 (Z.ltb_lt _ _)) by lia. cbn [andb xorb]. rewrite andb_true_r.
    f_equal. lia.
  - rewrite IH, andb_false_r, xorb_false_r by lia. f_equal; [|f_equal; lia].
    destruct (Z.ltb_spec (i - 1) (Z.of_nat n)), (Z.ltb_spec i (Z.of_nat n + 1)); lia || done.
Qed.

Lemma reflect_bit r i : 0 <= i -> Z.testbit (reflect r) i = (i <? 32) && Z.testbit r (31 - i).
Proof. intros Hi. apply (poly_reverses 32 r i Hi). Qed.

Lemma poly_reflected i : 0 <= i < 32 -> Z.testbit POLY i = Z.testbit (GEN - 2 ^ 32) (31 - i).
Proof.
  intros Hi. assert (H : Forall (fun i => Z.testbit POLY i = Z.testbit (GEN - 2 ^ 32) (31 - i)) (seqZ 0 32))
    by (vm_compute; repeat constructor).
  apply (proj1 (Forall_forall _ _) H), elem_of_seqZ. lia.
Qed.

(** One round with a message bit in the lowest bit of the register. *)
Definition crc_bit (c : Z) (b : bool) : Z := crc_round (Z.lxor c (bit 1 b)).

Lemma crc_bit_reflect r b : w32ok r -> crc_bit (reflect r) b = reflect (divide_bit r b).
Proof.
  intros Hr. unfold crc_bit. rewrite crc_round_cases.
  assert (Ho : Z.odd (Z.lxor (reflect r) (bit 1 b)) = xorb (Z.testbit r 31) b).
  { rewrite <- Z.bit0_odd, Z.lxor_spec, reflect_bit, bit1_testbit by lia. cbn. by rewrite andb_true_r. }
  rewrite Ho. apply Z.bits_inj'. intros i Hi.
  rewrite Z.lxor_spec, Z.shiftr_spec, Z.lxor_spec, !reflect_bit, bit1_testbit by lia.
  rewrite (proj2 (Z.eqb_neq (i + 1) 0)), andb_false_r, xorb_false_r by lia.
  destruct (Z.ltb_spec i 32) as [H|H]; cbn [andb].
  - unfold divide_bit. rewrite Z.lxor_spec. unfold u32. change 4294967296 with (2 ^ 32).
    rewrite Z.mod_pow2_bits_low, double, Z.shiftl_spec by lia. replace (31 - (i + 1)) with (31 - i - 1) by lia.
    f_equal.
    + destruct (Z.ltb_spec (i + 1) 32); [done|]. rewrite Z.testbit_neg_r by lia. done.
    + destruct (xorb (Z.testbit r 31) b); cbn [bit]; [by apply poly_reflected|by rewrite !Z.bits_0].
  - rewrite (proj2 (Z.ltb_ge (i + 1) 32)) by lia. cbn [andb xorb].
    destruct (xorb (Z.testbit r 31) b); [|apply Z.bits_0]. apply (bits_above POLY 32); [done|lia].
Qed.

(** Xoring a whole byte first is feeding its bits one by one. *)
Lemma crc_round_feed x e : crc_round (Z.lxor x e) = Z.lxor (crc_bit x (Z.odd e)) (Z.shiftr e 1).
Proof.
  assert (Hb : forall y, Z.odd (Z.lxor x y) = xorb (Z.odd x) (Z.odd y)) by (intros; by rewrite <- !Z.bit0_odd, Z.lxor_spec).
  unfold crc_bit. rewrite !crc_round_cases, !Hb, !Z.shiftr_lxor.
  replace (Z.odd (bit 1 (Z.odd e))) with (Z.odd e) by (by destruct (Z.odd e)).
  replace (Z.shiftr (bit 1 (Z.odd e)) 1) with 0 by (by destruct (Z.odd e)). rewrite Z.lxor_0_r.
  apply Z.bits_inj'. intros i Hi. rewrite !Z.lxor_spec. btauto.
Qed.

Lemma iter_feed n c d : Nat.iter n crc_round (Z.lxor c d) =
  Z.lxor (foldl crc_bit c (byte_bits n d)) (Z.shiftr d (Z.of_nat n)).
Proof.
  unfold byte_bits. induction n as [|n IH]; [by rewrite Z.shiftr_0_r|]. change (Nat.iter (S n) crc_round (Z.lxor c d)) with (crc_round (Nat.iter n crc_round (Z.lxor c d))). rewrite IH.
  rewrite crc_round_feed, Z.shiftr_shiftr by lia.
  rewrite seqZ_S, fmap_app, foldl_app. replace (Z.of_nat (S n)) with (Z.of_nat n + 1) by lia. cbn [fmap list_fmap foldl].
  by rewrite <- Z.bit0_odd, Z.shiftr_spec, Z.add_0_l by lia.
Qed.

Lemma crc_byte_bits c b : is_byte b -> crc_byte c b = foldl crc_bit c (byte_bits 8 b).
Proof.
  intros Hb. unfold crc_byte. rewrite iter_feed, Z.shiftr_div_pow2, Z.div_small, Z.lxor_0_r; [done| |lia]. exact Hb.
Qed.

Lemma reflect_bits bits : forall r, w32ok r ->
  foldl crc_bit (reflect r) bits = reflect (foldl divide_bit r bits).
Proof.
  induction bits as [|b bits IH]; intros r Hr; [done|]. cbn [foldl]. rewrite crc_bit_reflect by done.
  apply IH, divide_bit_w32.
Qed.

Lemma crc_bytes_bits data : forall c, Forall is_byte data ->
  foldl crc_byte c data = foldl crc_bit c (message_bits data).
Proof.
  induction data as [|b data IH]; intros c H; [done|]. inversion H; subst.
  unfold message_bits. cbn [foldl fmap list_fmap concat]. rewrite foldl_app, crc_byte_bits by done. by apply IH.
Qed.

(** C28: The bit loop computes the checksum of IEEE 802.3, by its definition.  Of
    the message as a polynomial, lowest bit of each byte first, with the initial
    ones in front and 32 zeros behind, take the remainder of the division by the
    generator (a multiple of the generator plus a polynomial of degree below 32);
    the function returns that remainder reversed and complemented. *)
Theorem crc32_remainder data : Forall is_byte data ->
  exists q r, dividend (message_bits data) = Z.lxor (times_gen q) r /\ 0 <= r < 2 ^ 32 /\
    crc32 data = Z.lxor (reflect r) 4294967295.
Proof.
  intros H. destruct (divide (message_bits data)) as [Hr [q Hq]].
  exists q, (foldl divide_bit 4294967295 (message_bits data)). split; [exact Hq|]. split; [exact Hr|].
  unfold crc32. rewrite crc_bytes_bits by done. change 4294967295 with (reflect 4294967295) at 1.
  by rewrite reflect_bits.
Qed.

Lemma crc32_remainder_witness : exists q r,
  dividend (message_bits [0; 255]) = Z.lxor (times_gen q) r /\ 0 <= r < 2 ^ 32 /\
  crc32 [0; 255] = Z.lxor (reflect r) 4294967295.
Proof. apply crc32_remainder. repeat constructor; discriminate. Defined.
