(* ===== verification/Metrics.v ===== *)
(** The metrics publishers (src/pipeline/include/pipeline/metrics_publisher.hpp):
    lines for QuestDB, commands for Redis, produce requests for Kafka.  The
    theorems read the bytes back with parsers of the three formats.  A call
    takes the result of [send(2)] as an argument and gives what was sent. *)

From S2P Require Import Prelude Xorshift Text Crc.
From Stdlib Require Import SpecFloat.
From Stdlib Require String Ascii.
Import String.StringSyntax.

(** What a call does with its socket: nothing (it returns [false]), send the
    bytes and return a flag, or send more than the text in the buffer: the
    terminator and, in general, memory behind the buffer. *)
Inductive outcome :=
| Unsent
| Sent (data : list Z) (ok : bool)
| Overread.

(** [send] of the first [n] bytes of a buffer that holds [buf] and returns [ret]. *)
Definition send_first (buf : list Z) (n ret : Z) : outcome :=
  if n <=? Z.of_nat (length buf) then Sent (take (Z.to_nat n) buf) (ret =? n) else Overread.

Lemma send_first_all buf ret :
  send_first buf (Z.of_nat (length buf)) ret = Sent buf (ret =? Z.of_nat (length buf)).
Proof. unfold send_first. by rewrite Z.leb_refl, Nat2Z.id, take_ge by done. Qed.

(** A text printed into a buffer and sent with the length [snprintf] returned. *)
Lemma send_text size text data ret : 0 < size -> text = data ->
  (let '(buf, n) := snprintf size text in send_first buf n ret) =
  if Z.of_nat (length data) <? size then Sent data (ret =? Z.of_nat (length data)) else Overread.
Proof.
  intros Hs ->. destruct (Z.ltb_spec (Z.of_nat (length data)) size) as [H|H].
  - rewrite snprintf_fits by done. apply send_first_all.
  - unfold snprintf, send_first. rewrite length_take, (proj2 (Z.leb_gt _ _)) by lia. done.
Qed.

(** ** QuestDB *)
Module QuestDBPublisher.

Record t := { fd_ : Z; total_published_ : Z }.

Definition count (p : t) : t := {| fd_ := fd_ p; total_published_ := u64 (total_published_ p + 1) |}.

(** The text of the format string with its arguments. *)
Definition latency_text (benchmark_id contestant_id : list Z) (timestamp_ns : Z) (tps : spec_float)
    (p50_ns p90_ns p99_ns p999_ns max_ns total_samples drops : Z) : list Z :=
  bytes "benchmark_metrics," ++ bytes "benchmark_id=" ++ benchmark_id ++ bytes ",contestant_id=" ++ contestant_id ++
  bytes " tps=" ++ fixed 1 tps ++ bytes ",p50_ns=" ++ dec p50_ns ++ bytes "i,p90_ns=" ++ dec p90_ns ++
  bytes "i,p99_ns=" ++ dec p99_ns ++ bytes "i,p999_ns=" ++ dec p999_ns ++ bytes "i,max_ns=" ++ dec max_ns ++
  bytes "i,total_samples=" ++ dec total_samples ++ bytes "i,drops=" ++ dec drops ++ bytes "i " ++
  dec timestamp_ns ++ [LF].

Definition publish_latency (p : t) (benchmark_id contestant_id : list Z) (timestamp_ns : Z) (tps : spec_float)
    (p50_ns p90_ns p99_ns p999_ns max_ns total_samples drops ret : Z) : outcome * t :=
  if fd_ p <? 0 then (Unsent, p) else
  let '(line, len) := snprintf 1024 (latency_text benchmark_id contestant_id timestamp_ns tps
    p50_ns p90_ns p99_ns p999_ns max_ns total_samples drops) in
  if (len <=? 0) || (1024 <=? len) then (Unsent, p) else
  (send_first line len ret, if ret =? len then count p else p).

Definition leaderboard_text (contestant_id : list Z) (score tps : spec_float) (p99_ns drops : Z) : list Z :=
  bytes "leaderboard," ++ bytes "contestant_id=" ++ contestant_id ++ bytes " score=" ++ fixed 2 score ++
  bytes ",tps=" ++ fixed 1 tps ++ bytes ",p99_ns=" ++ dec p99_ns ++ bytes "i,drops=" ++ dec drops ++ bytes "i" ++ [LF].

Definition publish_leaderboard (p : t) (contestant_id : list Z) (score tps : spec_float)
    (p99_ns drops ret : Z) : outcome :=
  if fd_ p <? 0 then Unsent else
  let '(line, len) := snprintf 512 (leaderboard_text contestant_id score tps p99_ns drops) in
  if len <=? 0 then Unsent else send_first line len ret.

(** *** Reading a line *)

Fixpoint split_on (c : Z) (l : list Z) : list (list Z) :=
  match l with
  | [] => [[]]
  | x :: l =>
      if x =? c then [] :: split_on c l
      else match split_on c l with [] => [[x]] | h :: tl => (x :: h) :: tl end
  end.

Inductive value := IntV (n : Z) | TextV (s : list Z).
#[export] Instance value_eq_dec : EqDecision value.
Proof. solve_decision. Defined.

(** Digits followed by [i] are an integer. *)
Definition read_value (v : list Z) : value :=
  match rev v with
  | 105 :: (_ :: _) as ds => if forallb digit ds then IntV (undec (rev ds)) else TextV v
  | _ => TextV v
  end.

Definition read_pair (kv : list Z) : option (list Z * list Z) :=
  match split_on 61 kv with [k; v] => Some (k, v) | _ => None end.

Record line := {
  measurement : list Z; tags : list (list Z * list Z); fields : list (list Z * value);
  timestamp : option Z }.

(** [measurement,tag=v,... field=v,... [timestamp]\n]. *)
Definition read_line (l : list Z) : option line :=
  match rev l with
  | 10 :: l =>
      '(head, fs, ts) ← match split_on 32 (rev l) with
                        | [h; fs; ts] => Some (h, fs, Some (undec ts))
                        | [h; fs] => Some (h, fs, None)
                        | _ => None
                        end;
      match split_on 44 head with
      | m :: tgs =>
          tgs ← mapM read_pair tgs;
          fs ← mapM read_pair (split_on 44 fs);
          Some {| measurement := m; tags := tgs; fields := prod_map id read_value <$> fs; timestamp := ts |}
      | [] => None
      end
  | _ => None
  end.

(** *** Writing one *)

Fixpoint join (c : Z) (ls : list (list Z)) : list Z :=
  match ls with
  | [] => []
  | [l] => l
  | l :: ls => l ++ [c] ++ join c ls
  end.

Definition write_value (v : value) : list Z :=
  match v with IntV n => dec n ++ bytes "i" | TextV s => s end.
Definition write_pair (kv : list Z * list Z) : list Z := kv.1 ++ bytes "=" ++ kv.2.
Definition write_line (l : line) : list Z :=
  join 44 (measurement l :: (write_pair <$> tags l)) ++ bytes " " ++
  join 44 ((fun kv => write_pair (kv.1, write_value kv.2)) <$> fields l) ++
  match timestamp l with Some n => bytes " " ++ dec n | None => [] end ++ [LF].

(** Text without the separators of the format. *)
Definition clean (l : list Z) : bool :=
  forallb (fun c => negb ((c =? 32) || (c =? 44) || (c =? 61) || (c =? 10))) l.

Definition clean_value (v : value) : bool :=
  match v with IntV n => 0 <=? n | TextV s => clean s && bool_decide (read_value s = TextV s) end.
Definition clean_line (l : line) : bool :=
  clean (measurement l) && forallb (fun kv => clean kv.1 && clean kv.2) (tags l) &&
  forallb (fun kv => clean kv.1 && clean_value kv.2) (fields l) &&
  negb (bool_decide (fields l = [])) && match timestamp l with Some n => 0 <=? n | None => true end.

Definition free (c : Z) (l : list Z) : Prop := Forall (fun x => x <> c) l.

Lemma split_free c l : free c l -> split_on c l = [l].
Proof.
  induction 1 as [|x l Hx Hl IH]; [done|]. cbn [split_on]. apply Z.eqb_neq in Hx. by rewrite Hx, IH.
Qed.

Lemma split_cons c l r : free c l -> split_on c (l ++ c :: r) = l :: split_on c r.
Proof.
  induction 1 as [|x l Hx Hl IH]; cbn [app split_on]; [by rewrite Z.eqb_refl|].
  apply Z.eqb_neq in Hx. by rewrite Hx, IH.
Qed.

Lemma split_join c ls : ls <> [] -> Forall (free c) ls -> split_on c (join c ls) = ls.
Proof.
  intros Hne H. induction H as [|l ls Hl Hls IH]; [done|]. destruct ls as [|l' ls]; [by apply split_free|].
  change (join c (l :: l' :: ls)) with (l ++ c :: join c (l' :: ls)). rewrite split_cons by done. by rewrite IH.
Qed.

Lemma join_free c d ls : c <> d -> Forall (free c) ls -> free c (join d ls).
Proof.
  intros Hcd H. induction H as [|l ls Hl Hls IH]; [constructor|]. destruct ls as [|l' ls]; [done|].
  change (join d (l :: l' :: ls)) with (l ++ d :: join d (l' :: ls)).
  apply Forall_app. split; [done|]. constructor; [done|exact IH].
Qed.

Lemma clean_free l c : clean l = true -> c ∈ [32; 44; 61; 10] -> free c l.
Proof.
  intros H Hc. apply List.Forall_forall. intros x Hx ->. unfold clean in H. rewrite forallb_forall in H.
  specialize (H _ Hx). rewrite !elem_of_cons, elem_of_nil in Hc.
  destruct Hc as [->|[->|[->|[->|[]]]]]; discriminate H.
Qed.

Lemma numeric_free l c : Forall (fun x => numeric x = true) l -> c ∈ [32; 44; 61; 10] -> free c l.
Proof.
  intros H Hc. eapply Forall_impl; [exact H|]. intros x Hx ->. rewrite !elem_of_cons, elem_of_nil in Hc.
  destruct Hc as [->|[->|[->|[->|[]]]]]; discriminate Hx.
Qed.

Lemma write_value_free v c : clean_value v = true -> c ∈ [32; 44; 61; 10] -> free c (write_value v).
Proof.
  destruct v as [n|s]; cbn [clean_value write_value]; intros H Hc.
  - apply Forall_app. split; [by apply numeric_free; [apply dec_numeric|]|]. by apply numeric_free; [repeat constructor|].
  - apply andb_true_iff in H as [H _]. by apply clean_free.
Qed.

Lemma read_write_value v : clean_value v = true -> read_value (write_value v) = v.
Proof.
  destruct v as [n|s]; cbn [clean_value write_value]; intros H.
  - unfold read_value. change (bytes "i") with [105]. rewrite rev_app_distr. cbn [rev app].
    pose proof (dec_nonempty n) as Hne. pose proof (dec_digits n) as Hd. apply Z.leb_le in H.
    apply Forall_rev_imp in Hd. destruct (rev (dec n)) as [|d ds] eqn:E.
    { apply (f_equal (@rev Z)) in E. rewrite rev_involutive in E. done. }
    rewrite (proj2 (forallb_forall digit (d :: ds)) (proj1 (List.Forall_forall _ _) Hd)), <- E, rev_involutive, undec_dec by done. done.
  - apply andb_true_iff in H as [_ H]. by apply bool_decide_eq_true in H.
Qed.

Lemma read_write_pair k v : free 61 k -> free 61 v -> read_pair (write_pair (k, v)) = Some (k, v).
Proof.
  intros Hk Hv. unfold read_pair, write_pair. cbn [fst snd]. change (bytes "=") with [61]. cbn [app].
  by rewrite split_cons, split_free by done.
Qed.

Lemma write_pair_free c k v : c <> 61 -> free c k -> free c v -> free c (write_pair (k, v)).
Proof. intros Hc Hk Hv. apply Forall_app. split; [done|]. constructor; [done|exact Hv]. Qed.

Lemma mapM_pairs {A} (f : A -> list Z * list Z) (l : list A) :
  Forall (fun x => free 61 (f x).1 /\ free 61 (f x).2) l ->
  mapM read_pair ((fun x => write_pair (f x)) <$> l) = Some (f <$> l).
Proof.
  intros H. apply mapM_Some, Forall2_fmap_2, Forall_Forall2_diag. eapply Forall_impl; [exact H|].
  intros x [H1 H2]. cbn beta. destruct (f x) as [k v]. by apply read_write_pair.
Qed.

Ltac sep := rewrite !elem_of_cons; tauto.

Lemma write_tag_free c k v : c ∈ [32; 44; 10] -> clean k && clean v = true -> free c (write_pair (k, v)).
Proof.
  intros Hc [Hk Hv]%andb_true_iff. rewrite !elem_of_cons in Hc. rewrite elem_of_nil in Hc.
  apply write_pair_free; [lia|apply clean_free; [done|sep]..].
Qed.

Lemma write_field_free c k v : c ∈ [32; 44; 10] -> clean k && clean_value v = true ->
  free c (write_pair (k, write_value v)).
Proof.
  intros Hc [Hk Hv]%andb_true_iff. rewrite !elem_of_cons in Hc. rewrite elem_of_nil in Hc.
  apply write_pair_free; [lia|apply clean_free; [done|sep]|apply write_value_free; [done|sep]].
Qed.

Lemma forallb_Forall {A} (f : A -> bool) (P : A -> Prop) (l : list A) :
  (forall x, f x = true -> P x) -> forallb f l = true -> Forall P l.
Proof. intros HP H. apply List.Forall_forall. intros x Hx. apply HP. by apply (proj1 (forallb_forall f l) H). Qed.

Lemma split_sections head body (ts : option Z) : free 32 head -> free 32 body ->
  split_on 32 (head ++ bytes " " ++ body ++ match ts with Some n => bytes " " ++ dec n | None => [] end) =
  head :: body :: match ts with Some n => [dec n] | None => [] end.
Proof.
  intros Hh Hb. change (bytes " " ++ body ++ ?l) with (32 :: (body ++ l)). rewrite split_cons by done.
  destruct ts as [n|].
  - change (bytes " " ++ dec n) with (32 :: dec n). rewrite split_cons by done.
    rewrite (split_free 32 (dec n)); [done|]. apply numeric_free; [apply dec_numeric|sep].
  - by rewrite app_nil_r, split_free.
Qed.

(** What is written with separator-free parts is read back. *)
Lemma read_write_line l : clean_line l = true -> read_line (write_line l) = Some l.
Proof.
  destruct l as [m tgs fs ts]. unfold clean_line. cbn [measurement tags fields timestamp].
  intros [[[[Hm Ht]%andb_true_iff Hf]%andb_true_iff Hne]%andb_true_iff Hts]%andb_true_iff.
  apply negb_true_iff, bool_decide_eq_false in Hne.
  unfold read_line, write_line. cbn [measurement tags fields timestamp].
  set (head := join 44 (m :: (write_pair <$> tgs))).
  set (body := join 44 ((fun kv => write_pair (kv.1, write_value kv.2)) <$> fs)).
  set (tail := match ts with Some n => bytes " " ++ dec n | None => [] end).
  rewrite !app_assoc, rev_app_distr. cbn [rev app LF]. rewrite rev_involutive, <- !app_assoc.
  assert (Hhead : forall c, c ∈ [32; 44; 10] -> Forall (free c) (m :: (write_pair <$> tgs))).
  { intros c Hc. constructor; [apply clean_free; [done|rewrite !elem_of_cons in *; tauto]|].
    apply Forall_fmap. revert Ht. apply forallb_Forall. intros [k v] H. by apply write_tag_free. }
  assert (Hbody : forall c, c ∈ [32; 44; 10] ->
    Forall (free c) ((fun kv => write_pair (kv.1, write_value kv.2)) <$> fs)).
  { intros c Hc. apply Forall_fmap. revert Hf. apply forallb_Forall. intros [k v] H. by apply write_field_free. }
  unfold tail. rewrite split_sections by (apply join_free; [done|first [apply Hhead|apply Hbody]; sep]).
  assert (Eh : split_on 44 head = m :: (write_pair <$> tgs)) by (apply split_join; [done|apply Hhead; sep]).
  assert (Eb : split_on 44 body = (fun kv => write_pair (kv.1, write_value kv.2)) <$> fs).
  { apply split_join; [|apply Hbody; sep]. by destruct fs. }
  assert (Et : mapM read_pair (write_pair <$> tgs) = Some tgs).
  { rewrite <- (list_fmap_id tgs) at 2. apply (mapM_pairs id). revert Ht. apply forallb_Forall.
    intros [k v] [H1 H2]%andb_true_iff. split; apply clean_free; [done|sep|done|sep]. }
  assert (Ef : mapM read_pair ((fun kv => write_pair (kv.1, write_value kv.2)) <$> fs) =
    Some ((fun kv => (kv.1, write_value kv.2)) <$> fs)).
  { apply (mapM_pairs (fun kv => (kv.1, write_value kv.2))). revert Hf. apply forallb_Forall.
    intros [k v] [H1 H2]%andb_true_iff. split; [apply clean_free; [done|sep]|apply write_value_free; [done|sep]]. }
  assert (Ev : prod_map id read_value <$> ((fun kv => (kv.1, write_value kv.2)) <$> fs) = fs).
  { rewrite <- list_fmap_compose. rewrite <- (list_fmap_id fs) at 2. apply list_fmap_ext. intros i [k v] Hi.
    cbn. f_equal. apply read_write_value. apply list_elem_of_lookup_2, list_elem_of_In in Hi.
    apply (proj1 (forallb_forall _ _) Hf), andb_true_iff in Hi as [_ Hi]. exact Hi. }
  destruct ts as [n|]; cbn [mbind option_bind]; rewrite Eh, Et; cbn [mbind option_bind]; rewrite Eb, Ef;
    cbn [mbind option_bind]; rewrite Ev; [|done]. apply Z.leb_le in Hts. by rewrite undec_dec.
Qed.

Lemma numeric_clean l : Forall (fun x => numeric x = true) l -> clean l = true.
Proof.
  intros H. unfold clean. apply forallb_forall. intros x Hx. apply (proj1 (List.Forall_forall _ _) H) in Hx.
  apply negb_true_iff. unfold numeric, digit in Hx. rewrite !orb_true_iff, !andb_true_iff, !Z.leb_le, !Z.eqb_eq in Hx.
  rewrite !orb_false_iff, !Z.eqb_neq. lia.
Qed.

Lemma read_value_text s c r : rev s = c :: r -> c <> 105 -> read_value s = TextV s.
Proof.
  intros E Hc. unfold read_value. rewrite E. destruct c as [|c|c]; try done.
  repeat (destruct c as [c|c|]; try done).
Qed.

(** A double is printed as text that does not read as an integer. *)
Lemma clean_fixed d x : (0 < d)%nat -> clean_value (TextV (fixed d x)) = true.
Proof.
  intros Hd. cbn [clean_value]. rewrite (numeric_clean _ (fixed_numeric d x)). cbn [andb].
  apply bool_decide_eq_true. destruct d as [|d]; [lia|].
  assert (H : forall s n, read_value (sign s ++ dec (n / 10 ^ Z.of_nat (S d)) ++ [46] ++ rev (rpad (S d) n)) =
    TextV (sign s ++ dec (n / 10 ^ Z.of_nat (S d)) ++ [46] ++ rev (rpad (S d) n))).
  { intros s n. eapply (read_value_text _ (48 + n mod 10)).
    - rewrite !rev_app_distr, rev_involutive. cbn [rpad app]. reflexivity.
    - pose proof (Z.mod_pos_bound n 10). lia. }
  destruct x as [s|s| |s m e]; cbn [fixed]; [apply H| |done|apply H]. by destruct s.
Qed.

Definition latency_line (benchmark_id contestant_id : list Z) (timestamp_ns : Z) (tps : spec_float)
    (p50_ns p90_ns p99_ns p999_ns max_ns total_samples drops : Z) : line :=
  {| measurement := bytes "benchmark_metrics";
     tags := [(bytes "benchmark_id", benchmark_id); (bytes "contestant_id", contestant_id)];
     fields := [(bytes "tps", TextV (fixed 1 tps)); (bytes "p50_ns", IntV p50_ns); (bytes "p90_ns", IntV p90_ns);
                (bytes "p99_ns", IntV p99_ns); (bytes "p999_ns", IntV p999_ns); (bytes "max_ns", IntV max_ns);
                (bytes "total_samples", IntV total_samples); (bytes "drops", IntV drops)];
     timestamp := Some timestamp_ns |}.

Definition leaderboard_line (contestant_id : list Z) (score tps : spec_float) (p99_ns drops : Z) : line :=
  {| measurement := bytes "leaderboard"; tags := [(bytes "contestant_id", contestant_id)];
     fields := [(bytes "score", TextV (fixed 2 score)); (bytes "tps", TextV (fixed 1 tps));
                (bytes "p99_ns", IntV p99_ns); (bytes "drops", IntV drops)];
     timestamp := None |}.

Lemma latency_text_line bid cid ts tps p50 p90 p99 p999 mx n d :
  latency_text bid cid ts tps p50 p90 p99 p999 mx n d = write_line (latency_line bid cid ts tps p50 p90 p99 p999 mx n d).
Proof.
  unfold latency_text, write_line, latency_line, write_pair.
  cbn [measurement tags fields timestamp fmap list_fmap fst snd write_value]. unfold join.
  repeat (rewrite <- app_assoc || cbn [app]). reflexivity.
Qed.

Lemma leaderboard_text_line cid score tps p99 d :
  leaderboard_text cid score tps p99 d = write_line (leaderboard_line cid score tps p99 d).
Proof.
  unfold leaderboard_text, write_line, leaderboard_line, write_pair.
  cbn [measurement tags fields timestamp fmap list_fmap fst snd write_value]. unfold join.
  repeat (rewrite <- app_assoc || cbn [app]). reflexivity.
Qed.

(** QuestDB gets the snapshot that was measured.  For identifiers without
    the separators of the line protocol, the line of a latency snapshot and the
    line of a leaderboard update are read back as the measurement, tags, fields
    and time stamp they were written from; a snapshot that does not fit its
    buffer is not sent, and one is counted exactly when it was sent whole.  (The
    leaderboard line is sent without the check.) *)
Theorem ilp_lines p bid cid ts score tps p50 p90 p99 p999 mx n d ret :
  0 <= fd_ p -> clean bid = true -> clean cid = true -> Forall (fun x => 0 <= x) [ts; p50; p90; p99; p999; mx; n; d] ->
  let l := latency_line bid cid ts tps p50 p90 p99 p999 mx n d in
  let b := leaderboard_line cid score tps p99 d in
  let len l := Z.of_nat (length (write_line l)) in
  publish_latency p bid cid ts tps p50 p90 p99 p999 mx n d ret =
    (if len l <? 1024 then (Sent (write_line l) (ret =? len l), if ret =? len l then count p else p) else (Unsent, p)) /\
  publish_leaderboard p cid score tps p99 d ret =
    (if len b <? 512 then Sent (write_line b) (ret =? len b) else Overread) /\
  read_line (write_line l) = Some l /\ read_line (write_line b) = Some b.
Proof.
  intros Hfd Hb Hc Hn l b len. repeat (apply Forall_cons in Hn as [?%Z.leb_le Hn]).
  split; [|split; [|split; apply read_write_line]].
  - unfold publish_latency. rewrite (proj2 (Z.ltb_ge _ _)), latency_text_line by lia. fold l.
    assert (0 < len l) by (unfold len, write_line; cbn [measurement l latency_line]; rewrite !length_app; cbn; lia).
    unfold len in *. generalize dependent (write_line l). intros text Hpos.
    unfold snprintf. rewrite (proj2 (Z.leb_gt _ _)) by lia. cbn [orb].
    destruct (Z.ltb_spec (Z.of_nat (length text)) 1024); [|by rewrite (proj2 (Z.leb_le _ _)) by lia].
    rewrite (proj2 (Z.leb_gt _ _)), take_ge, send_first_all by lia. done.
  - unfold publish_leaderboard. rewrite (proj2 (Z.ltb_ge _ _)), leaderboard_text_line by lia. fold b.
    assert (0 < len b) by (unfold len, write_line; cbn [measurement b leaderboard_line]; rewrite !length_app; cbn; lia).
    unfold len in *. generalize dependent (write_line b). intros text Hpos.
    rewrite <- (send_text 512 text text ret) by (lia || done). unfold snprintf. by rewrite (proj2 (Z.leb_gt _ _)) by lia.
  - unfold clean_line, l, latency_line. cbn [measurement tags fields timestamp forallb fst snd].
    rewrite Hb, Hc, clean_fixed by lia. unfold clean_value. repeat match goal with H : (0 <=? _) = true |- _ => rewrite H; clear H end. reflexivity.
  - unfold clean_line, b, leaderboard_line. cbn [measurement tags fields timestamp forallb fst snd].
    rewrite Hc, !clean_fixed by lia. unfold clean_value. repeat match goal with H : (0 <=? _) = true |- _ => rewrite H; clear H end. reflexivity.
Qed.

Lemma ilp_lines_witness :
  let p := {| fd_ := 3; total_published_ := 0 |} in
  let b := leaderboard_line (bytes "bob") (F64.of_Z 2) (F64.of_Z 7) 9 0 in
  publish_leaderboard p (bytes "bob") (F64.of_Z 2) (F64.of_Z 7) 9 0 0 = Sent (write_line b) false /\
  read_line (write_line b) = Some b.
Proof.
  destruct (ilp_lines {| fd_ := 3; total_published_ := 0 |} (bytes "b1") (bytes "bob") 5 (F64.of_Z 2) (F64.of_Z 7)
    1 2 9 4 5 6 0 0 ltac:(vm_compute; discriminate) eq_refl eq_refl) as (_ & H2 & _ & H4).
  - repeat constructor; discriminate.
  - split; [exact H2|exact H4].
Defined.

End QuestDBPublisher.

(** ** Redis *)
Module RedisPublisher.

Record t := { fd_ : Z }.

Definition crlf : list Z := [CR; LF].

Definition zadd_leaderboard (p : t) (contestant_id : list Z) (score : spec_float) (ret : Z) : outcome :=
  if fd_ p <? 0 then Unsent else
  let '(score_str, score_len) := snprintf 32 (fixed 2 score) in
  let id_len := Z.of_nat (length contestant_id) in
  let '(cmd, cmd_len) := snprintf 512
    (bytes "*4" ++ crlf ++ bytes "$4" ++ crlf ++ bytes "ZADD" ++ crlf ++ bytes "$11" ++ crlf ++
     bytes "leaderboard" ++ crlf ++ bytes "$" ++ dec score_len ++ crlf ++ score_str ++ crlf ++
     bytes "$" ++ dec id_len ++ crlf ++ contestant_id ++ crlf) in
  send_first cmd cmd_len ret.

Definition hset (p : t) (key field value : list Z) (ret : Z) : outcome :=
  if fd_ p <? 0 then Unsent else
  let len (s : list Z) := Z.of_nat (length s) in
  let '(cmd, cmd_len) := snprintf 1024
    (bytes "*4" ++ crlf ++ bytes "$4" ++ crlf ++ bytes "HSET" ++ crlf ++ bytes "$" ++ dec (len key) ++ crlf ++ key ++
     crlf ++ bytes "$" ++ dec (len field) ++ crlf ++ field ++ crlf ++ bytes "$" ++ dec (len value) ++ crlf ++ value ++
     crlf) in
  send_first cmd cmd_len ret.

(** *** Reading a command: an array of length-prefixed strings *)

Fixpoint read_num (acc : Z) (l : list Z) : option (Z * list Z) :=
  match l with
  | 13 :: 10 :: l => Some (acc, l)
  | c :: l => if digit c then read_num (10 * acc + (c - 48)) l else None
  | [] => None
  end.

Definition read_bulk (l : list Z) : option (list Z * list Z) :=
  match l with
  | 36 :: l =>
      '(n, l) ← read_num 0 l;
      let n := Z.to_nat n in
      if bool_decide (take 2 (drop n l) = crlf) then Some (take n l, drop (n + 2) l) else None
  | _ => None
  end.

Fixpoint read_bulks (n : nat) (l : list Z) : option (list (list Z) * list Z) :=
  match n with
  | O => Some ([], l)
  | S n => '(s, l) ← read_bulk l; '(ss, l) ← read_bulks n l; Some (s :: ss, l)
  end.

Definition read_command (l : list Z) : option (list (list Z) * list Z) :=
  match l with
  | 42 :: l => '(n, l) ← read_num 0 l; read_bulks (Z.to_nat n) l
  | _ => None
  end.

(** *** Writing one *)

Definition bulk (s : list Z) : list Z := bytes "$" ++ dec (Z.of_nat (length s)) ++ crlf ++ s ++ crlf.
Definition command (args : list (list Z)) : list Z :=
  bytes "*" ++ dec (Z.of_nat (length args)) ++ crlf ++ concat (bulk <$> args).

Lemma read_num_digits ds : forall acc tl, Forall (fun c => digit c = true) ds ->
  read_num acc (ds ++ crlf ++ tl) = Some (foldl (fun a c => 10 * a + (c - 48)) acc ds, tl).
Proof.
  induction ds as [|c ds IH]; intros acc tl Hd; [done|]. inversion Hd as [|? ? Hc Hds]; subst.
  cbn [app foldl]. rewrite <- (IH _ _ Hds). cbn [read_num]. rewrite Hc.
  assert (c <> 13) by (intros ->; discriminate Hc). destruct c as [|c|c]; [done| |done].
  repeat (destruct c as [c|c|]; try done).
Qed.

Lemma read_num_dec n tl : 0 <= n -> read_num 0 (dec n ++ crlf ++ tl) = Some (n, tl).
Proof.
  intros Hn. rewrite read_num_digits by apply dec_digits. f_equal. f_equal. exact (undec_dec n Hn).
Qed.

Lemma read_bulk_bulk s tl : read_bulk (bulk s ++ tl) = Some (s, tl).
Proof.
  unfold bulk. change (bytes "$") with [36]. cbn [app read_bulk]. rewrite <- !app_assoc, read_num_dec by lia.
  cbn [mbind option_bind]. rewrite Nat2Z.id, drop_app_length, take_app_length. cbn [app crlf take].
  rewrite bool_decide_eq_true_2 by done. rewrite (drop_app_add s). done.
Qed.

Lemma read_bulks_concat ss : forall tl, read_bulks (length ss) (concat (bulk <$> ss) ++ tl) = Some (ss, tl).
Proof.
  induction ss as [|s ss IH]; intros tl; [done|]. cbn [length read_bulks fmap list_fmap concat].
  rewrite <- app_assoc, read_bulk_bulk. cbn [mbind option_bind]. by rewrite IH.
Qed.

Lemma read_command_command args tl : read_command (command args ++ tl) = Some (args, tl).
Proof.
  unfold command. change (bytes "*") with [42]. cbn [app read_command].
  rewrite <- !app_assoc, read_num_dec by lia. cbn [mbind option_bind].
  by rewrite Nat2Z.id, read_bulks_concat.
Qed.

Lemma command4 a b c d : command [a; b; c; d] =
  let len s := dec (Z.of_nat (length s)) in
  bytes "*4" ++ crlf ++ bytes "$" ++ len a ++ crlf ++ a ++ crlf ++ bytes "$" ++ len b ++ crlf ++ b ++ crlf ++
  bytes "$" ++ len c ++ crlf ++ c ++ crlf ++ bytes "$" ++ len d ++ crlf ++ d ++ crlf.
Proof. unfold command, bulk. cbn [fmap list_fmap concat]. by rewrite app_nil_r, <- !app_assoc. Qed.

(** Redis gets the command that was meant.  As long as the text fits the
    buffer, the bytes handed to the socket by the leaderboard update and by the
    field update are read by a command parser as exactly the four strings of the
    command, whatever bytes (line breaks included) the identifier, key, field and
    value hold, and the result is that of [send]; a longer text is sent with the
    length it would have had, past what the buffer holds. *)
Theorem resp_commands p contestant_id score key field value ret :
  0 <= fd_ p -> Z.of_nat (length (fixed 2 score)) < 32 ->
  let zadd := [bytes "ZADD"; bytes "leaderboard"; fixed 2 score; contestant_id] in
  let hset_ := [bytes "HSET"; key; field; value] in
  let sends size data := if Z.of_nat (length data) <? size then Sent data (ret =? Z.of_nat (length data)) else Overread in
  zadd_leaderboard p contestant_id score ret = sends 512 (command zadd) /\
  hset p key field value ret = sends 1024 (command hset_) /\
  (forall tl, read_command (command zadd ++ tl) = Some (zadd, tl)) /\
  (forall tl, read_command (command hset_ ++ tl) = Some (hset_, tl)).
Proof.
  intros Hfd Hs zadd hset_ sends. split; [|split; [|split; intros; apply read_command_command]].
  - unfold zadd_leaderboard. rewrite (proj2 (Z.ltb_ge _ _)), snprintf_fits by lia. apply send_text; [lia|].
    unfold zadd. rewrite command4. reflexivity.
  - unfold hset. rewrite (proj2 (Z.ltb_ge _ _)) by lia. apply send_text; [lia|].
    unfold hset_. rewrite command4. reflexivity.
Qed.

Lemma resp_commands_witness :
  let id := bytes "bob" ++ crlf in
  let zadd := [bytes "ZADD"; bytes "leaderboard"; bytes "0.50"; id] in
  zadd_leaderboard {| fd_ := 3 |} id (F64.lit 1 2) 53 = Sent (command zadd) true /\
  read_command (command zadd ++ []) = Some (zadd, []).
Proof.
  destruct (resp_commands {| fd_ := 3 |} (bytes "bob" ++ crlf) (F64.lit 1 2) [] [] [] 53
    ltac:(vm_compute; discriminate) ltac:(vm_compute; reflexivity)) as (H1 & _ & H3 & _).
  split; [exact H1|exact (H3 [])].
Defined.

End RedisPublisher.

(** ** Kafka *)
Module RedpandaPublisher.

Record t := { fd_ : Z; correlation_id_ : Z; total_published_ : Z }.

Definition byte_at (v k : Z) : Z := Z.land (Z.shiftr v k) 255.

(** The lambdas that append to the buffer. *)
Definition put_i32 (v : Z) (buf : list Z) : list Z :=
  buf ++ [byte_at v 24; byte_at v 16; byte_at v 8; byte_at v 0].
Definition put_i16 (v : Z) (buf : list Z) : list Z := buf ++ [byte_at v 8; byte_at v 0].
Definition put_i64 (v : Z) (buf : list Z) : list Z :=
  buf ++ ((fun i => byte_at v (i * 8)) <$> [7; 6; 5; 4; 3; 2; 1; 0]).
Definition put_i8 (v : Z) (buf : list Z) : list Z := buf ++ [u8 v].
Definition put_str (s : list Z) (len : Z) (buf : list Z) : list Z := put_i16 len buf ++ take (Z.to_nat len) s.
Definition put_bytes (s : list Z) (len : Z) (buf : list Z) : list Z := put_i32 len buf ++ take (Z.to_nat len) s.

Definition topic : list Z := bytes "iicpc.results".
Definition client : list Z := bytes "iicpc-engine".

Definition json_text (contestant_id : list Z) (score tps : spec_float) (p99_ns drops ts : Z) : list Z :=
  let q := [QUOTE] in
  bytes "{" ++ q ++ bytes "contestant" ++ q ++ bytes ":" ++ q ++ contestant_id ++ q ++ bytes "," ++ q ++ bytes "score" ++
  q ++ bytes ":" ++ fixed 4 score ++ bytes "," ++ q ++ bytes "tps" ++ q ++ bytes ":" ++ fixed 1 tps ++ bytes "," ++
  q ++ bytes "p99_ns" ++ q ++ bytes ":" ++ dec p99_ns ++ bytes "," ++ q ++ bytes "drops" ++ q ++ bytes ":" ++ dec drops ++
  bytes "," ++ q ++ bytes "ts" ++ q ++ bytes ":" ++ dec ts ++ bytes "}".

(** The request, from the size calculation to the checksum written over its
    placeholder. *)
Definition produce_request (correlation_id : Z) (json : list Z) (json_len : Z) : list Z :=
  let topic_len := Z.of_nat (length topic) in
  let client_len := Z.of_nat (length client) in
  let msg_size := 4 + 1 + 1 + 4 + 4 + json_len in
  let msgset_size := 8 + 4 + msg_size in
  let body_size := 2 + 2 + 4 + (2 + client_len) + 2 + 4 + 4 + (2 + topic_len) + 4 + 4 + 4 + msgset_size in
  let buf := put_i32 body_size [] in
  let buf := put_i16 0 buf in
  let buf := put_i16 0 buf in
  let buf := put_i32 correlation_id buf in
  let buf := put_str client client_len buf in
  let buf := put_i16 1 buf in
  let buf := put_i32 5000 buf in
  let buf := put_i32 1 buf in
  let buf := put_str topic topic_len buf in
  let buf := put_i32 1 buf in
  let buf := put_i32 0 buf in
  let buf := put_i32 msgset_size buf in
  let buf := put_i64 0 buf in
  let buf := put_i32 msg_size buf in
  let crc_pos := length buf in
  let buf := put_i32 0 buf in
  let buf := put_i8 0 buf in
  let buf := put_i8 0 buf in
  let buf := put_i32 (-1) buf in
  let buf := put_bytes json json_len buf in
  let crc := crc32 (drop (crc_pos + 4) buf) in
  <[(crc_pos + 3)%nat := byte_at crc 0]> (<[(crc_pos + 2)%nat := byte_at crc 8]>
    (<[(crc_pos + 1)%nat := byte_at crc 16]> (<[crc_pos := byte_at crc 24]> buf))).

Definition publish_result (p : t) (contestant_id : list Z) (score tps : spec_float)
    (p99_ns drops now_ms ret : Z) : outcome * t :=
  if fd_ p <? 0 then (Unsent, p) else
  let '(json, json_len) := snprintf 512 (json_text contestant_id score tps p99_ns drops now_ms) in
  if (json_len <=? 0) || (512 <=? json_len) then (Unsent, p) else
  let correlation_id := u32 (correlation_id_ p + 1) in
  let buf := produce_request correlation_id json json_len in
  let sent := ret =? Z.of_nat (length buf) in
  (Sent buf sent,
   {| fd_ := fd_ p; correlation_id_ := correlation_id;
      total_published_ := if sent then u64 (total_published_ p + 1) else total_published_ p |}).

(** *** Reading a request *)

Definition be (l : list Z) : Z := foldl (fun a b => 256 * a + b) 0 l.

Definition read (n : nat) (l : list Z) : option (Z * list Z) :=
  if (length l <? n)%nat then None else Some (be (take n l), drop n l).
Definition read_string (l : list Z) : option (list Z * list Z) :=
  '(n, l) ← read 2 l;
  if (length l <? Z.to_nat n)%nat then None else Some (take (Z.to_nat n) l, drop (Z.to_nat n) l).
(** A field that must have one value. *)
Definition expect (n : nat) (v : Z) (l : list Z) : option (list Z) :=
  '(x, l) ← read n l; if x =? v then Some l else None.
(** A size that must be that of everything behind it. *)
Definition expect_rest (l : list Z) : option (list Z) :=
  '(x, l) ← read 4 l; if x =? Z.of_nat (length l) then Some l else None.

Record request := {
  rq_correlation : Z; rq_client : list Z; rq_acks : Z; rq_timeout : Z; rq_topic : list Z;
  rq_partition : Z; rq_offset : Z; rq_value : list Z }.

(** A produce request (version 0) for one message of one partition: envelope,
    topic, message set, message with a valid checksum, no key, and the value. *)
Definition read_request (l : list Z) : option request :=
  l ← expect_rest l; l ← expect 2 0 l; l ← expect 2 0 l;
  '(corr, l) ← read 4 l; '(cl, l) ← read_string l; '(acks, l) ← read 2 l; '(timeout, l) ← read 4 l;
  l ← expect 4 1 l; '(tp, l) ← read_string l; l ← expect 4 1 l; '(part, l) ← read 4 l;
  l ← expect_rest l; '(offset, l) ← read 8 l; l ← expect_rest l;
  '(crc, l) ← read 4 l;
  if negb (crc =? crc32 l) then None else
  l ← expect 1 0 l; l ← expect 1 0 l; l ← expect 4 4294967295 l; l ← expect_rest l;
  Some {| rq_correlation := corr; rq_client := cl; rq_acks := acks; rq_timeout := timeout; rq_topic := tp;
          rq_partition := part; rq_offset := offset; rq_value := l |}.

Lemma byte_at_mod v k : 0 <= k -> byte_at v k = (v / 2 ^ k) mod 256.
Proof. intros Hk. unfold byte_at. rewrite Z.shiftr_div_pow2 by done. apply (land_mask _ 8). lia. Qed.

Lemma be_i32 v : be [byte_at v 24; byte_at v 16; byte_at v 8; byte_at v 0] = u32 v.
Proof.
  unfold be. cbn [foldl]. rewrite !byte_at_mod by lia. unfold u32.
  change (2 ^ 24) with 16777216. change (2 ^ 16) with 65536. change (2 ^ 8) with 256. change (2 ^ 0) with 1.
  Z.div_mod_to_equations. lia.
Qed.

Lemma be_i16 v : be [byte_at v 8; byte_at v 0] = v mod 65536.
Proof.
  unfold be. cbn [foldl]. rewrite !byte_at_mod by lia.
  change (2 ^ 8) with 256. change (2 ^ 0) with 1. Z.div_mod_to_equations. lia.
Qed.

(** The big-endian words the lambdas append. *)
Definition w32 (v : Z) : list Z := [byte_at v 24; byte_at v 16; byte_at v 8; byte_at v 0].
Definition w16 (v : Z) : list Z := [byte_at v 8; byte_at v 0].

Lemma read_w32 v l : read 4 (w32 v ++ l) = Some (u32 v, l).
Proof. unfold read. cbn [w32 app length]. cbn. by rewrite <- be_i32. Qed.

Lemma read_w16 v l : read 2 (w16 v ++ l) = Some (v mod 65536, l).
Proof. unfold read. cbn. by rewrite <- be_i16. Qed.

Lemma expect_w32 v l : 0 <= v < 2 ^ 32 -> expect 4 v (w32 v ++ l) = Some l.
Proof. intros Hv. unfold expect. rewrite read_w32. cbn [mbind option_bind]. by rewrite u32_small, Z.eqb_refl by lia. Qed.

Lemma expect_w16 v l : 0 <= v < 65536 -> expect 2 v (w16 v ++ l) = Some l.
Proof. intros Hv. unfold expect. rewrite read_w16. cbn [mbind option_bind]. by rewrite Z.mod_small, Z.eqb_refl. Qed.

Lemma expect_rest_w32 v l : v = Z.of_nat (length l) -> v < 2 ^ 32 -> expect_rest (w32 v ++ l) = Some l.
Proof.
  intros E Hv. unfold expect_rest. rewrite read_w32. cbn [mbind option_bind].
  by rewrite u32_small, E, Z.eqb_refl by lia.
Qed.

Lemma read_string_w16 s l : Z.of_nat (length s) < 65536 ->
  read_string (w16 (Z.of_nat (length s)) ++ s ++ l) = Some (s, l).
Proof.
  intros Hs. unfold read_string. rewrite read_w16. cbn [mbind option_bind]. rewrite Z.mod_small, Nat2Z.id by lia.
  rewrite length_app, (proj2 (Nat.ltb_ge _ _)) by lia. by rewrite take_app_length, drop_app_length.
Qed.

(** Four bytes written over a placeholder. *)
Lemma patch4 (pre post : list Z) a b c d a' b' c' d' :
  <[(length pre + 3)%nat := d']> (<[(length pre + 2)%nat := c']> (<[(length pre + 1)%nat := b']>
    (<[length pre := a']> (pre ++ [a; b; c; d] ++ post)))) = pre ++ [a'; b'; c'; d'] ++ post.
Proof.
  rewrite <- (Nat.add_0_r (length pre)) at 4. rewrite !insert_app_r. done.
Qed.

Definition message (json : list Z) : list Z :=
  [u8 0; u8 0] ++ w32 (-1) ++ w32 (Z.of_nat (length json)) ++ json.
Definition envelope (corr msg_size : Z) : list Z :=
  w16 0 ++ w16 0 ++ w32 corr ++ (w16 (Z.of_nat (length client)) ++ client) ++ w16 1 ++ w32 5000 ++ w32 1 ++
  (w16 (Z.of_nat (length topic)) ++ topic) ++ w32 1 ++ w32 0 ++ w32 (12 + msg_size) ++
  ((fun i => byte_at 0 (i * 8)) <$> [7; 6; 5; 4; 3; 2; 1; 0]) ++ w32 msg_size.

Lemma produce_request_layout corr json : let n := Z.of_nat (length json) in
  produce_request corr json n =
  w32 (85 + n) ++ envelope corr (14 + n) ++ w32 (crc32 (message json)) ++ message json.
Proof.
  intros n. unfold produce_request. cbn zeta.
  match goal with |- context [put_i8 0 (put_i32 0 ?buf)] => set (pre := buf) end.
  assert (Ep : pre = w32 (85 + n) ++ envelope corr (14 + n)).
  { unfold pre, put_str, put_i32, put_i16, put_i64, envelope. change (Z.of_nat (length client)) with 12.
    change (Z.of_nat (length topic)) with 13. rewrite !take_ge by (vm_compute; lia).
    replace (2 + 2 + 4 + (2 + 12) + 2 + 4 + 4 + (2 + 13) + 4 + 4 + 4 + (8 + 4 + (4 + 1 + 1 + 4 + 4 + n))) with (85 + n) by lia.
    replace (8 + 4 + (4 + 1 + 1 + 4 + 4 + n)) with (12 + (14 + n)) by lia.
    replace (4 + 1 + 1 + 4 + 4 + n) with (14 + n) by lia. rewrite <- !app_assoc. reflexivity. }
  clearbody pre.
  assert (Em : put_bytes json n (put_i32 (-1) (put_i8 0 (put_i8 0 (put_i32 0 pre)))) = pre ++ w32 0 ++ message json).
  { unfold put_bytes, put_i32, put_i8, message. rewrite take_ge, <- !app_assoc by lia. reflexivity. }
  rewrite Em, drop_app_add. change (drop 4 (w32 0 ++ message json)) with (message json).
  unfold w32 at 1. rewrite patch4, Ep, <- app_assoc. reflexivity.
Qed.

Lemma byte_at_byte v k : 0 <= k -> is_byte (byte_at v k).
Proof. intros Hk. rewrite byte_at_mod by done. apply Z.mod_pos_bound. lia. Qed.

Lemma message_bytes json : Forall is_byte json -> Forall is_byte (message json).
Proof.
  intros H. unfold message, w32. repeat (apply Forall_app; split); [|repeat (constructor; [by apply byte_at_byte|])..|done];
    repeat constructor; discriminate.
Qed.

Lemma length_message json : Z.of_nat (length (message json)) = 10 + Z.of_nat (length json).
Proof. unfold message. rewrite !length_app. cbn [length w32]. lia. Qed.

Ltac next := cbn [mbind option_bind].

(** The parser accepts the layout and finds its parts. *)
Lemma read_request_layout corr json : let n := Z.of_nat (length json) in
  n < 512 -> 0 <= corr < 2 ^ 32 -> Forall is_byte json ->
  read_request (w32 (85 + n) ++ envelope corr (14 + n) ++ w32 (crc32 (message json)) ++ message json) =
  Some {| rq_correlation := corr; rq_client := client; rq_acks := 1; rq_timeout := 5000; rq_topic := topic;
          rq_partition := 0; rq_offset := 0; rq_value := json |}.
Proof.
  intros n Hn Hc Hj. pose proof (crc32_w32 _ (message_bytes _ Hj)) as Hcrc.
  pose proof (length_message json) as Hm. fold n in Hm.
  assert (Hlen : Z.of_nat (length (w32 (crc32 (message json)) ++ message json)) = 14 + n)
    by (rewrite length_app; cbn [length w32]; lia).
  rewrite length_app in Hlen. cbn [length w32] in Hlen. unfold read_request, envelope. rewrite <- !app_assoc.
  rewrite expect_rest_w32; cycle 1.
  { rewrite !length_app, length_fmap. cbn [length w32 w16].
    change (length client) with 12%nat. change (length topic) with 13%nat. lia. }
  { lia. }
  do 2 (next; rewrite expect_w16 by lia). next. rewrite read_w32, (u32_small corr) by lia.
  next. rewrite read_string_w16 by (vm_compute; done). next. rewrite read_w16. next. rewrite read_w32. next.
  rewrite expect_w32 by lia. next. rewrite read_string_w16 by (vm_compute; done). next. rewrite expect_w32 by lia.
  next. rewrite read_w32. next. rewrite expect_rest_w32; cycle 1.
  { rewrite !length_app, length_fmap. cbn [length w32]. lia. }
  { lia. }
  next. change (read 8 (((fun i => byte_at 0 (i * 8)) <$> [7; 6; 5; 4; 3; 2; 1; 0]) ++ ?l)) with (Some (0, l)).
  next. rewrite expect_rest_w32 by (rewrite ?length_app; cbn [length w32]; lia).
  next. rewrite read_w32, (u32_small (crc32 _)) by exact Hcrc. next. rewrite Z.eqb_refl. cbn [negb].
  unfold message. change (expect 1 0 ([u8 0; u8 0] ++ ?l)) with (Some ([u8 0] ++ l)).
  next. change (expect 1 0 ([u8 0] ++ ?l)) with (Some l).
  next. change (expect 4 4294967295 (w32 (-1) ++ ?l)) with (Some l).
  next. rewrite expect_rest_w32 by lia. reflexivity.
Qed.

Lemma json_bytes id score tps p99 drops ts : Forall is_byte id -> Forall is_byte (json_text id score tps p99 drops ts).
Proof.
  intros Hid. assert (Hq : Forall is_byte [QUOTE]) by (constructor; [by vm_compute|constructor]).
  assert (Hd : forall n, Forall is_byte (dec n)) by (intros; apply numeric_range, dec_numeric).
  assert (Hf : forall d x, Forall is_byte (fixed d x)) by (intros; apply numeric_range, fixed_numeric).
  unfold json_text. cbn zeta.
  repeat first [exact Hid|exact Hq|apply bytes_range|apply Hd|apply Hf|apply Forall_app; split].
Qed.

(** C27: The broker gets a valid produce request.  For a result whose text fits,
    the bytes handed to the socket fit the request buffer and are accepted by a
    parser of the protocol that checks every size against the bytes that follow
    it and the checksum against the message; it finds the next correlation
    number, client, topic and partition, and the text of the result as the value.
    The result is counted exactly when the whole request was sent; one whose text
    does not fit changes nothing. *)
Theorem kafka_roundtrip p id score tps p99 drops ts ret :
  0 <= fd_ p -> Forall is_byte id ->
  let json := json_text id score tps p99 drops ts in
  let corr := u32 (correlation_id_ p + 1) in
  if Z.of_nat (length json) <? 512 then
    exists data, publish_result p id score tps p99 drops ts ret =
      (Sent data (ret =? Z.of_nat (length data)),
       {| fd_ := fd_ p; correlation_id_ := corr;
          total_published_ := if ret =? Z.of_nat (length data) then u64 (total_published_ p + 1) else total_published_ p |}) /\
      Z.of_nat (length data) <= 2048 /\
      read_request data =
        Some {| rq_correlation := corr; rq_client := client; rq_acks := 1; rq_timeout := 5000; rq_topic := topic;
                rq_partition := 0; rq_offset := 0; rq_value := json |}
  else publish_result p id score tps p99 drops ts ret = (Unsent, p).
Proof.
  intros Hfd Hid json corr. pose proof (json_bytes id score tps p99 drops ts Hid) as Hj. fold json in Hj.
  assert (Hpos : 0 < Z.of_nat (length json)) by (unfold json, json_text; cbn zeta; rewrite !length_app; cbn; lia).
  unfold publish_result. fold json. rewrite (proj2 (Z.ltb_ge (fd_ p) 0)) by lia. clearbody json.
  unfold snprintf. rewrite (proj2 (Z.leb_gt _ _)) by lia. cbn [orb].
  destruct (Z.ltb_spec (Z.of_nat (length json)) 512) as [H|H].
  - rewrite (proj2 (Z.leb_gt _ _)), take_ge by lia. fold corr.
    exists (produce_request corr json (Z.of_nat (length json))). split; [reflexivity|].
    rewrite produce_request_layout. split; [|by apply read_request_layout; [|apply u32_range|]].
    unfold envelope. rewrite !length_app, length_fmap. pose proof (length_message json). cbn [length w32 w16].
    change (length client) with 12%nat. change (length topic) with 13%nat. lia.
  - by rewrite (proj2 (Z.leb_le _ _)) by lia.
Qed.

Definition demo_publisher : t := {| fd_ := 5; correlation_id_ := 4294967295; total_published_ := 0 |}.

Lemma kafka_roundtrip_witness :
  let json := json_text (bytes "alice") (F64.lit 1 2) (F64.of_Z 1000) 1200 0 1715250000 in
  exists data, publish_result demo_publisher (bytes "alice") (F64.lit 1 2) (F64.of_Z 1000) 1200 0 1715250000 178 =
    (Sent data (178 =? Z.of_nat (length data)),
     {| fd_ := 5; correlation_id_ := 0;
        total_published_ := if 178 =? Z.of_nat (length data) then 1 else 0 |}) /\
    Z.of_nat (length data) <= 2048 /\
    read_request data =
      Some {| rq_correlation := 0; rq_client := client; rq_acks := 1; rq_timeout := 5000; rq_topic := topic;
              rq_partition := 0; rq_offset := 0; rq_value := json |}.
Proof.
  exact (kafka_roundtrip demo_publisher (bytes "alice") (F64.lit 1 2) (F64.of_Z 1000) 1200 0 1715250000 178
    ltac:(vm_compute; discriminate) (bytes_range _)).
Defined.

End RedpandaPublisher.
