(* ===== verification/Fleet.v ===== *)
(** The bots of the load generator: the struct of arrays of
    src/loadgen/include/loadgen/bot_fleet.hpp and the message templates of
    src/loadgen/include/loadgen/payload_gen.hpp, which are written into the arena
    once and patched in place for every send; and the exchanges that answer them
    (src/server/src/mt_exchange.cpp, dummy_exchange.cpp and the exchange of
    src/loadgen/include/loadgen/ultra_engine.hpp).

    The arena's block is a byte memory indexed by addresses. *)

From S2P Require Import Prelude Arena Protocol.

(** ** Messages *)

Record BenchmarkMessage := {
  bm_magic : Z; bm_bot_id : Z; bm_seq_num : Z; bm_tsc : Z; bm_body_len : Z }.
Definition BenchmarkMessage_layout : list member := [UInt 4; UInt 4; UInt 4; UInt 8; UInt 2].
Definition MSG_MAGIC : Z := 1229538128.

Record AckMessage := { ak_magic : Z; ak_bot_id : Z; ak_seq_num : Z; ak_tsc : Z }.
Definition AckMessage_layout : list member := [UInt 4; UInt 4; UInt 4; UInt 8].
Definition ACK_MAGIC : Z := 1094929152.

#[refine, global] Instance BenchmarkMessage_wire : WireMsg BenchmarkMessage := {
  wire_layout := BenchmarkMessage_layout;
  wire_values m := [bm_magic m; bm_bot_id m; bm_seq_num m; bm_tsc m; bm_body_len m];
  wire_build l := {| bm_magic := nthz l 0; bm_bot_id := nthz l 1; bm_seq_num := nthz l 2;
                     bm_tsc := nthz l 3; bm_body_len := nthz l 4 |};
  wire_ok m := is_u32 (bm_magic m) /\ is_u32 (bm_bot_id m) /\ is_u32 (bm_seq_num m) /\
    is_u64 (bm_tsc m) /\ 0 <= bm_body_len m < 65536 }.
Proof. all: wire_laws. Defined.

#[refine, global] Instance AckMessage_wire : WireMsg AckMessage := {
  wire_layout := AckMessage_layout;
  wire_values m := [ak_magic m; ak_bot_id m; ak_seq_num m; ak_tsc m];
  wire_build l := {| ak_magic := nthz l 0; ak_bot_id := nthz l 1; ak_seq_num := nthz l 2;
                     ak_tsc := nthz l 3 |};
  wire_ok m := is_u32 (ak_magic m) /\ is_u32 (ak_bot_id m) /\ is_u32 (ak_seq_num m) /\ is_u64 (ak_tsc m) }.
Proof. all: wire_laws. Defined.

(** ** The fleet *)

Inductive BotState := IDLE | SENDING | WAITING | RECEIVED.
#[export] Instance BotState_eq_dec : EqDecision BotState.
Proof. solve_decision. Defined.

Module BotFleet.

(** [payloads] holds addresses. *)
Record t := {
  count : Z; bot_ids : arr Z; sequence_nums : arr Z; states : arr BotState; send_tsc : arr Z;
  recv_tsc : arr Z; socket_fds : arr Z; payloads : arr Z; payload_lens : arr Z }.

(** The eight arrays, each on its own cache lines. *)
Definition requests (n : Z) : list (Z * Z) :=
  [(u64 (4 * n), CACHE_LINE_SIZE); (u64 (8 * n), CACHE_LINE_SIZE); (u64 (1 * n), CACHE_LINE_SIZE);
   (u64 (8 * n), CACHE_LINE_SIZE); (u64 (8 * n), CACHE_LINE_SIZE); (u64 (4 * n), CACHE_LINE_SIZE);
   (u64 (8 * n), CACHE_LINE_SIZE); (u64 (2 * n), CACHE_LINE_SIZE)].

(** [None] is the result [false]. *)
Definition init (arena : HugePageArena.t) (num_bots : Z) : option t * HugePageArena.t :=
  let '(ptrs, arena) := HugePageArena.allocate_all arena (requests num_bots) in
  if HugePageArena.all_some ptrs then
    (Some {| count := num_bots; bot_ids := fun i => u32 i; sequence_nums := fun _ => 0; states := fun _ => IDLE;
             send_tsc := fun _ => 0; recv_tsc := fun _ => 0; socket_fds := fun _ => -1; payloads := fun _ => 0;
             payload_lens := fun _ => 0 |}, arena)
  else (None, arena).

Definition set_payload (f : t) (i addr len : Z) : t :=
  {| count := count f; bot_ids := bot_ids f; sequence_nums := sequence_nums f; states := states f;
     send_tsc := send_tsc f; recv_tsc := recv_tsc f; socket_fds := socket_fds f;
     payloads := (payloads f).[i <- addr]; payload_lens := (payload_lens f).[i <- len] |}.

End BotFleet.

(** ** Payload templates *)

Definition write_bytes (mem : arr Z) (addr : Z) (bs : list Z) : arr Z :=
  fun a => if (addr <=? a) && (a <? addr + Z.of_nat (length bs)) then nth (Z.to_nat (a - addr)) bs 0 else mem a.
Definition read_bytes (mem : arr Z) (addr n : Z) : list Z := mem <$> seqZ addr n.

Definition BODY_SIZE : Z := 42.
Definition MSG_SIZE : Z := wire_size BenchmarkMessage + BODY_SIZE.

Definition payload (bot_id seq tsc i : Z) : list Z :=
  to_wire {| bm_magic := MSG_MAGIC; bm_bot_id := bot_id; bm_seq_num := seq; bm_tsc := tsc; bm_body_len := BODY_SIZE |} ++
  replicate (Z.to_nat BODY_SIZE) (Z.land i 255).

(** The loop of [generate_payloads], [n] bots left from [i]. *)
Fixpoint generate_loop (n : nat) (i : Z) (arena : HugePageArena.t) (fleet : BotFleet.t) (mem : arr Z) :
    bool * HugePageArena.t * BotFleet.t * arr Z :=
  match n with
  | O => (true, arena, fleet, mem)
  | S n =>
      match HugePageArena.allocate arena 1 1 MSG_SIZE with
      | (None, arena) => (false, arena, fleet, mem)
      | (Some buf, arena) =>
          let mem := write_bytes mem buf (payload (BotFleet.bot_ids fleet i) 0 0 i) in
          generate_loop n (i + 1) arena (BotFleet.set_payload fleet i buf MSG_SIZE) mem
      end
  end.
Definition generate_payloads (arena : HugePageArena.t) (fleet : BotFleet.t) (mem : arr Z) :
    bool * HugePageArena.t * BotFleet.t * arr Z :=
  generate_loop (Z.to_nat (BotFleet.count fleet)) 0 arena fleet mem.

(** Two stores at fixed offsets. *)
Definition patch_payload (mem : arr Z) (addr seq_num tsc : Z) : arr Z :=
  write_bytes (write_bytes mem (addr + 8) (le_bytes 4 seq_num)) (addr + 12) (le_bytes 8 tsc).

(** ** Memory *)

Lemma read_bytes_ext m1 m2 addr n : (forall a, addr <= a < addr + n -> m1 a = m2 a) ->
  read_bytes m1 addr n = read_bytes m2 addr n.
Proof.
  intros H. apply list_fmap_ext. intros i x Hi. apply lookup_seqZ in Hi. apply H. lia.
Qed.

Lemma read_write_same mem addr bs : read_bytes (write_bytes mem addr bs) addr (Z.of_nat (length bs)) = bs.
Proof.
  unfold read_bytes. apply list_eq. intros i. rewrite list_lookup_fmap.
  destruct (decide (i < length bs)%nat) as [Hi|Hi].
  - rewrite lookup_seqZ_lt by lia. cbn. unfold write_bytes.
    rewrite (proj2 (Z.leb_le _ _)), (proj2 (Z.ltb_lt _ _)) by lia. cbn [andb].
    replace (Z.to_nat (addr + Z.of_nat i - addr)) with i by lia. symmetry.
    destruct (nth_lookup_or_length bs i 0) as [E|]; [exact E|lia].
  - rewrite lookup_seqZ_ge by lia. symmetry. apply lookup_ge_None. lia.
Qed.

Lemma read_write_disjoint mem addr bs q n :
  q + n <= addr \/ addr + Z.of_nat (length bs) <= q ->
  read_bytes (write_bytes mem addr bs) q n = read_bytes mem q n.
Proof.
  intros H. apply read_bytes_ext. intros a Ha. unfold write_bytes.
  destruct (Z.leb_spec addr a), (Z.ltb_spec a (addr + Z.of_nat (length bs))); cbn [andb]; lia || done.
Qed.

Lemma read_bytes_app mem addr n m : 0 <= n -> 0 <= m ->
  read_bytes mem addr (n + m) = read_bytes mem addr n ++ read_bytes mem (addr + n) m.
Proof. intros Hn Hm. unfold read_bytes. by rewrite seqZ_app, fmap_app by lia. Qed.

(** ** Templates stay well formed *)

Lemma length_payload b s t i : Z.of_nat (length (payload b s t i)) = 64.
Proof. unfold payload. rewrite length_app, Nat2Z.inj_add, length_to_wire, length_replicate. reflexivity. Qed.

(** Every bot's 64 bytes are its own message, with the given sequence numbers
    and time stamps, and no two messages share a byte. *)
Record templates (mem : arr Z) (f : BotFleet.t) (seq tsc : arr Z) : Prop := {
  tp_bytes : forall i, 0 <= i < BotFleet.count f ->
    read_bytes mem (BotFleet.payloads f i) MSG_SIZE = payload (BotFleet.bot_ids f i) (seq i) (tsc i) i;
  tp_lens : forall i, 0 <= i < BotFleet.count f -> BotFleet.payload_lens f i = MSG_SIZE;
  tp_disjoint : forall i j, 0 <= i < BotFleet.count f -> 0 <= j < BotFleet.count f -> i <> j ->
    HugePageArena.disjoint2 (BotFleet.payloads f i, MSG_SIZE) (BotFleet.payloads f j, MSG_SIZE) }.

(** What the loop has established for the bots below [i]. *)
Record generated (i : Z) (a : HugePageArena.t) (f : BotFleet.t) (mem : arr Z) : Prop := {
  gn_arena : HugePageArena.ok a;
  gn_bytes : forall j, 0 <= j < i ->
    read_bytes mem (BotFleet.payloads f j) MSG_SIZE = payload (BotFleet.bot_ids f j) 0 0 j;
  gn_lens : forall j, 0 <= j < i -> BotFleet.payload_lens f j = MSG_SIZE;
  gn_below : forall j, 0 <= j < i ->
    BotFleet.payloads f j + MSG_SIZE <= HugePageArena.base_ a + HugePageArena.offset_ a;
  gn_order : forall j k, 0 <= j < k -> k < i -> BotFleet.payloads f j + MSG_SIZE <= BotFleet.payloads f k }.

Lemma sane_msg : HugePageArena.sane (64, 64).
Proof. split; [cbn; lia|]. exists 6. split; [lia|done]. Qed.

Lemma generate_step i a f mem buf a' : 0 <= i -> generated i a f mem ->
  HugePageArena.allocate a 1 1 MSG_SIZE = (Some buf, a') ->
  generated (i + 1) a' (BotFleet.set_payload f i buf MSG_SIZE)
    (write_bytes mem buf (payload (BotFleet.bot_ids f i) 0 0 i)).
Proof.
  intros Hi [Ha Hb Hl Hlt Ho] E.
  destruct (HugePageArena.allocate_raw_spec a (64, 64) (Some buf) a' Ha sane_msg E) as (Ha' & Eb & _ & Hp1 & Hp2 & _).
  cbn [fst snd] in *. change MSG_SIZE with 64 in *. pose proof (length_payload (BotFleet.bot_ids f i) 0 0 i) as Hlen.
  split; cbn [BotFleet.set_payload BotFleet.payloads BotFleet.payload_lens BotFleet.bot_ids];
    change MSG_SIZE with 64; [done|..].
  - intros j Hj. destruct (Z.eq_dec j i) as [->|Hne].
    + rewrite upd_eq, <- Hlen. apply read_write_same.
    + rewrite upd_ne by done. rewrite read_write_disjoint; [apply Hb; lia|]. left. specialize (Hlt j ltac:(lia)). lia.
  - intros j Hj. upd_cases; [done|]. apply Hl. lia.
  - intros j Hj. upd_cases; [lia|]. specialize (Hlt j ltac:(lia)). lia.
  - intros j k Hj Hk. rewrite (upd_ne _ i j) by lia. upd_cases; [specialize (Hlt j ltac:(lia)); lia|]. apply Ho; lia.
Qed.

Lemma generate_loop_ok n : forall i a f mem a' f' mem', 0 <= i -> generated i a f mem ->
  generate_loop n i a f mem = (true, a', f', mem') ->
  generated (i + Z.of_nat n) a' f' mem' /\ BotFleet.count f' = BotFleet.count f /\ BotFleet.bot_ids f' = BotFleet.bot_ids f.
Proof.
  induction n as [|n IH]; intros i a f mem a' f' mem' Hi Hg E; cbn [generate_loop] in E.
  { injection E as <- <- <-. by rewrite Z.add_0_r. }
  destruct (HugePageArena.allocate a 1 1 MSG_SIZE) as [[buf|] a1] eqn:Ea; [|discriminate].
  apply IH in E as (E1 & E2 & E3); [|lia|by apply generate_step with a]. rewrite Nat2Z.inj_succ, <- Z.add_1_l, Z.add_assoc.
  split; [exact E1|]. split; [exact E2|exact E3].
Qed.

Lemma generate_templates a f mem a' f' mem' : HugePageArena.ok a -> 0 <= BotFleet.count f ->
  generate_payloads a f mem = (true, a', f', mem') ->
  templates mem' f' (fun _ => 0) (fun _ => 0) /\ HugePageArena.ok a' /\
  BotFleet.count f' = BotFleet.count f /\ BotFleet.bot_ids f' = BotFleet.bot_ids f.
Proof.
  intros Ha Hc E. unfold generate_payloads in E. apply generate_loop_ok in E as (Hg & E1 & E2); [|done|].
  - rewrite Z.add_0_l, Z2Nat.id in Hg by done. destruct Hg as [G1 G2 G3 G4 G5].
    split; [|done]. split; rewrite E1; [done|done|]. intros i j Hi Hj Hne. unfold HugePageArena.disjoint2. cbn [fst snd].
    destruct (Z.lt_ge_cases i j); [left; apply G5; lia|right; apply G5; lia].
  - split; [done|intros; lia..].
Qed.

(** The loop touches nothing of the fleet but addresses and lengths. *)
Lemma generate_loop_same n : forall i a f mem a' f' mem', generate_loop n i a f mem = (true, a', f', mem') ->
  BotFleet.sequence_nums f' = BotFleet.sequence_nums f /\ BotFleet.send_tsc f' = BotFleet.send_tsc f.
Proof.
  induction n as [|n IH]; intros i a f mem a' f' mem' E; cbn [generate_loop] in E; [by injection E as _ <- _|].
  destruct (HugePageArena.allocate a 1 1 MSG_SIZE) as [[buf|] a1]; [|discriminate]. by apply IH in E.
Qed.
Lemma generate_same a f mem a' f' mem' : generate_payloads a f mem = (true, a', f', mem') ->
  BotFleet.sequence_nums f' = BotFleet.sequence_nums f /\ BotFleet.send_tsc f' = BotFleet.send_tsc f.
Proof. apply generate_loop_same. Qed.

Lemma length_le_bytes_Z w x : Z.of_nat (length (le_bytes w x)) = Z.of_nat w.
Proof. by rewrite length_le_bytes. Qed.

(** The stores hit the two fields of the message and nothing else of it. *)
Lemma patch_message mem addr b s t i s' t' :
  read_bytes mem addr MSG_SIZE = payload b s t i ->
  read_bytes (patch_payload mem addr s' t') addr MSG_SIZE = payload b s' t' i.
Proof.
  change MSG_SIZE with (8 + (4 + (8 + 44))). rewrite !read_bytes_app by lia. intros E.
  assert (Ep : forall s t, payload b s t i = (le_bytes 4 MSG_MAGIC ++ le_bytes 4 b) ++ le_bytes 4 s ++ le_bytes 8 t ++
    (le_bytes 2 BODY_SIZE ++ replicate (Z.to_nat BODY_SIZE) (Z.land i 255))).
  { intros. unfold payload, to_wire. cbn [encode wire_layout wire_values BenchmarkMessage_wire BenchmarkMessage_layout
      bm_magic bm_bot_id bm_seq_num bm_tsc bm_body_len]. rewrite app_nil_r, <- !app_assoc. done. }
  rewrite Ep in E |- *. unfold patch_payload. replace (addr + 8 + 4) with (addr + 12) in * by lia.
  assert (Hl : forall m q n, 0 <= n -> length (read_bytes m q n) = Z.to_nat n)
    by (intros; unfold read_bytes; by rewrite length_fmap, length_seqZ).
  apply app_inj_1 in E as [E1 E]; [|by rewrite Hl, length_app, !length_le_bytes by lia].
  apply app_inj_1 in E as [_ E]; [|by rewrite Hl, length_le_bytes by lia].
  apply app_inj_1 in E as [_ E]; [|by rewrite Hl, length_le_bytes by lia].
  f_equal; [|f_equal; [|f_equal]].
  - by rewrite !read_write_disjoint by (rewrite length_le_bytes_Z; lia).
  - rewrite read_write_disjoint by (rewrite ?length_le_bytes_Z; lia). apply (read_write_same _ _ (le_bytes 4 s')).
  - apply (read_write_same _ _ (le_bytes 8 t')).
  - by rewrite !read_write_disjoint by (rewrite length_le_bytes_Z; lia).
Qed.

Lemma patch_templates mem f seq tsc i s t : templates mem f seq tsc -> 0 <= i < BotFleet.count f ->
  templates (patch_payload mem (BotFleet.payloads f i) s t) f (seq.[i <- s]) (tsc.[i <- t]).
Proof.
  intros [Hb Hl Hd] Hi. split; [|done|done]. intros j Hj. destruct (Z.eq_dec j i) as [->|Hne].
  - rewrite !upd_eq. eapply patch_message. by apply Hb.
  - rewrite !upd_ne by done. rewrite <- Hb by done. unfold patch_payload. change MSG_SIZE with 64.
    destruct (Hd i j Hi Hj ltac:(congruence)) as [H|H]; cbn [fst snd] in H; change MSG_SIZE with 64 in H;
      by rewrite !read_write_disjoint by (rewrite length_le_bytes_Z; lia).
Qed.

(** ** Enough room *)

(** With room for every message after alignment, the loop does not fail. *)
Definition room (a : HugePageArena.t) (n : Z) : Prop :=
  align_up (HugePageArena.offset_ a) 64 + MSG_SIZE * n <= HugePageArena.size_ a.

Lemma align_up_aligned x : 0 <= x < 2 ^ 62 -> (64 | x) -> align_up x 64 = x.
Proof.
  intros Hx [q ->]. change 64 with (2 ^ 6). rewrite align_up_eq by lia. change (2 ^ 6) with 64.
  replace (q * 64 + 64 - 1) with (q * 64 + 63) by lia. rewrite Z.div_add_l by lia. change (63 / 64) with 0. lia.
Qed.

Lemma allocate_room a n : HugePageArena.ok a -> 0 < n -> room a n ->
  exists buf a', HugePageArena.allocate a 1 1 MSG_SIZE = (Some buf, a') /\ HugePageArena.ok a' /\ room a' (n - 1).
Proof.
  intros Ha Hn Hr. pose proof (HugePageArena.ok_offset _ Ha) as Ho. pose proof (HugePageArena.ok_size _ Ha) as Hs.
  destruct (align_up_spec (HugePageArena.offset_ a) 6) as [Hd Hb]; [lia..|]. change (2 ^ 6) with 64 in *.
  unfold room in *. change MSG_SIZE with 64 in *.
  destruct (HugePageArena.allocate a 1 1 64) as [p a'] eqn:E.
  destruct (HugePageArena.allocate_raw_spec a (64, 64) p a' Ha sane_msg E) as (Ha' & _ & Es & _).
  unfold HugePageArena.allocate, HugePageArena.allocate_raw in E. change (u64 (1 * 64)) with 64 in E. cbn [Z.ltb] in E.
  change (if 1 <? CACHE_LINE_SIZE then CACHE_LINE_SIZE else 1) with 64 in E.
  change (if 64 <? CACHE_LINE_SIZE then CACHE_LINE_SIZE else 64) with 64 in E.
  rewrite u64_small in E by lia. destruct (Z.ltb_spec (HugePageArena.size_ a) (align_up (HugePageArena.offset_ a) 64 + 64));
    [lia|]. injection E as <- <-. eexists _, _. split; [done|]. split; [done|]. cbn [HugePageArena.offset_ HugePageArena.size_].
  rewrite align_up_aligned; [lia|lia|]. apply Z.divide_add_r; [done|by exists 1].
Qed.

Lemma generate_loop_room n : forall i a f mem, HugePageArena.ok a -> room a (Z.of_nat n) ->
  exists a' f' mem', generate_loop n i a f mem = (true, a', f', mem').
Proof.
  induction n as [|n IH]; intros i a f mem Ha Hr; cbn [generate_loop]; [by eexists _, _, _|].
  destruct (allocate_room a (Z.of_nat (S n)) Ha ltac:(lia) Hr) as (buf & a1 & -> & Ha1 & Hr1).
  apply IH; [done|]. by replace (Z.of_nat n) with (Z.of_nat (S n) - 1) by lia.
Qed.

(** ** Sends *)

(** A run of sends patches [(bot, sequence number, time stamp)]. *)
Definition patch_all (f : BotFleet.t) (mem : arr Z) (ps : list (Z * Z * Z)) : arr Z :=
  foldl (fun mem p => patch_payload mem (BotFleet.payloads f p.1.1) p.1.2 p.2) mem ps.
(** The latest number and stamp of a bot. *)
Definition last_patch (i : Z) (ps : list (Z * Z * Z)) : Z * Z :=
  foldl (fun acc p => if p.1.1 =? i then (p.1.2, p.2) else acc) (0, 0) ps.

Lemma patch_all_templates f mem ps seq tsc : templates mem f seq tsc ->
  Forall (fun p => 0 <= p.1.1 < BotFleet.count f) ps ->
  templates (patch_all f mem ps) f (foldl (fun a p => a.[p.1.1 <- p.1.2]) seq ps)
    (foldl (fun a p => a.[p.1.1 <- p.2]) tsc ps).
Proof.
  intros H Hps. revert mem seq tsc H. induction Hps as [|[[i s] t] ps Hi Hps IH]; intros mem seq tsc H; [done|].
  apply IH. by apply patch_templates.
Qed.

Lemma last_patch_arr i ps : forall seq tsc : arr Z,
  (foldl (fun a p => a.[p.1.1 <- p.1.2]) seq ps i, foldl (fun a p => a.[p.1.1 <- p.2]) tsc ps i) =
  foldl (fun acc p => if p.1.1 =? i then (p.1.2, p.2) else acc) (seq i, tsc i) ps.
Proof.
  induction ps as [|[[j s] t] ps IH]; intros seq tsc; cbn [foldl fst snd]; [done|]. rewrite IH.
  destruct (Z.eqb_spec j i) as [->|Hne]; [by rewrite !upd_eq|by rewrite !upd_ne by congruence].
Qed.

Lemma last_patch_ok i ps : Forall (fun p => is_u32 p.1.2 /\ is_u64 p.2) ps ->
  is_u32 (last_patch i ps).1 /\ is_u64 (last_patch i ps).2.
Proof.
  unfold last_patch. assert (H0 : is_u32 (0, 0).1 /\ is_u64 (0, 0).2) by (unfold is_u32, is_u64; cbn; lia).
  revert H0. generalize (0, 0). intros acc Hacc H. revert acc Hacc.
  induction H as [|[[j s] t] ps Hp Hps IH]; intros acc Hacc; [done|]. cbn [foldl fst snd]. apply IH. by destruct (j =? i).
Qed.

Lemma init_fleet a n f a' : HugePageArena.ok a -> 0 <= n < 2 ^ 32 -> BotFleet.init a n = (Some f, a') ->
  HugePageArena.ok a' /\ BotFleet.count f = n /\ forall i, 0 <= i < n -> BotFleet.bot_ids f i = i.
Proof.
  intros Ha Hn. unfold BotFleet.init. destruct (HugePageArena.allocate_all a (BotFleet.requests n)) as [ps a1] eqn:E.
  intros H. assert (Ha1 : HugePageArena.ok a1).
  { eapply HugePageArena.allocate_all_laid_out; [exact Ha| |exact E]. unfold BotFleet.requests.
    repeat (apply Forall_cons; split); [..|by apply Forall_nil].
    all: split; [cbn [fst]; rewrite u64_small by lia; lia|]; exists 6; split; [lia|done]. }
  destruct (HugePageArena.all_some ps); [|discriminate]. injection H as <- <-. split; [done|]. split; [done|].
  intros i Hi. cbn. apply u32_small. lia.
Qed.

(** C22: Every bot sends its own message.  A fleet set up in an arena with room
    for its messages gets one template per bot; after any run of sends, in any
    order and with repetitions, the bytes at each bot's address read as a message
    with the platform's magic, the bot's own number, the sequence number and time
    stamp of that bot's latest send, and a body of 42 bytes: no send disturbs
    another bot's message. *)
Theorem fleet_templates a n f0 a1 mem ps :
  HugePageArena.ok a -> 0 <= n < 2 ^ 32 -> BotFleet.init a n = (Some f0, a1) -> room a1 n ->
  Forall (fun p => 0 <= p.1.1 < n /\ is_u32 p.1.2 /\ is_u64 p.2) ps ->
  exists a2 f mem2, generate_payloads a1 f0 mem = (true, a2, f, mem2) /\
  forall i, 0 <= i < n ->
    of_wire (read_bytes (patch_all f mem2 ps) (BotFleet.payloads f i) MSG_SIZE) =
      {| bm_magic := MSG_MAGIC; bm_bot_id := i; bm_seq_num := (last_patch i ps).1; bm_tsc := (last_patch i ps).2;
         bm_body_len := BODY_SIZE |} /\
    BotFleet.payload_lens f i = MSG_SIZE.
Proof.
  intros Ha Hn Hi Hr Hps. destruct (init_fleet a n f0 a1 Ha Hn Hi) as (Ha1 & Hc & Hids).
  destruct (generate_loop_room (Z.to_nat n) 0 a1 f0 mem Ha1) as (a2 & f & mem2 & E); [by rewrite Z2Nat.id by lia|].
  assert (Eg : generate_payloads a1 f0 mem = (true, a2, f, mem2)) by (unfold generate_payloads; by rewrite Hc).
  exists a2, f, mem2. split; [exact Eg|]. apply generate_templates in Eg as (Ht & _ & E1 & E2); [|done|lia].
  assert (Hps' : Forall (fun p => is_u32 p.1.2 /\ is_u64 p.2) ps) by (eapply Forall_impl; [exact Hps|]; tauto).
  pose proof (patch_all_templates f mem2 ps _ _ Ht ltac:(eapply Forall_impl; [exact Hps|]; cbn beta; intros; rewrite E1, Hc; tauto))
    as [Hb Hl _].
  intros i Hin. rewrite Hb, Hl, E2, Hids by lia. split; [|done].
  pose proof (last_patch_arr i ps (fun _ => 0) (fun _ => 0)) as Hlast. cbv beta in Hlast.
  fold (last_patch i ps) in Hlast.
  destruct (last_patch_ok i ps Hps') as [H1 H2]. rewrite <- Hlast in H1, H2 |- *. cbn [fst snd] in *.
  apply of_to_wire. unfold wire_ok. cbn. unfold is_u32, is_u64, MSG_MAGIC, BODY_SIZE in *. lia.
Qed.

Definition demo_arena (used : Z) : HugePageArena.t :=
  {| HugePageArena.base_ := 4096; HugePageArena.size_ := 2097152; HugePageArena.offset_ := used;
     HugePageArena.hugepage_backed_ := true |}.

Lemma demo_fleet_init : exists f0, BotFleet.init (demo_arena 0) 3 = (Some f0, demo_arena 454).
Proof.
  unfold BotFleet.init. replace (HugePageArena.allocate_all (demo_arena 0) (BotFleet.requests 3)) with
    (Some <$> [4096; 4160; 4224; 4288; 4352; 4416; 4480; 4544], demo_arena 454) by (vm_compute; reflexivity).
  by eexists.
Qed.

Lemma demo_arena_ok used : 0 <= used <= 2097152 -> HugePageArena.ok (demo_arena used).
Proof. intros H. split; cbn; lia. Qed.

Lemma fleet_templates_witness : exists f0 a2 f mem2,
  BotFleet.init (demo_arena 0) 3 = (Some f0, demo_arena 454) /\
  generate_payloads (demo_arena 454) f0 (fun _ => 0) = (true, a2, f, mem2) /\
  of_wire (read_bytes (patch_all f mem2 [(1, 7, 100); (0, 8, 110); (1, 9, 120)]) (BotFleet.payloads f 1) MSG_SIZE) =
    {| bm_magic := MSG_MAGIC; bm_bot_id := 1; bm_seq_num := 9; bm_tsc := 120; bm_body_len := BODY_SIZE |}.
Proof.
  destruct demo_fleet_init as [f0 E]. exists f0.
  destruct (fleet_templates (demo_arena 0) 3 f0 (demo_arena 454) (fun _ => 0) [(1, 7, 100); (0, 8, 110); (1, 9, 120)])
    as (a2 & f & mem2 & H1 & H2); [apply demo_arena_ok; lia|lia|exact E|vm_compute; discriminate|..].
  - unfold is_u32, is_u64. repeat (apply Forall_cons; split; [cbn; lia|]). by apply Forall_nil.
  - exists a2, f, mem2. split; [done|]. split; [done|]. apply (H2 1). lia.
Defined.

(** ** The exchanges *)

Definition ack_of (m : BenchmarkMessage) : AckMessage :=
  {| ak_magic := ACK_MAGIC; ak_bot_id := bm_bot_id m; ak_seq_num := bm_seq_num m; ak_tsc := bm_tsc m |}.

(** The loop over the bytes of one [recv]: the acknowledgements sent.  A word
    that is not the magic is skipped byte by byte; a message is skipped with its
    body.  Every turn moves forward, so the length of the chunk is enough fuel. *)
Fixpoint answer_loop (fuel : nat) (buf : list Z) : list AckMessage :=
  match fuel with
  | O => []
  | S fuel =>
      if Z.of_nat (length buf) <? wire_size BenchmarkMessage then []
      else
        let msg : BenchmarkMessage := of_wire buf in
        if negb (bm_magic msg =? MSG_MAGIC) then answer_loop fuel (drop 1 buf)
        else ack_of msg :: answer_loop fuel (drop (Z.to_nat (wire_size BenchmarkMessage + bm_body_len msg)) buf)
  end.
Definition answer (chunk : list Z) : list AckMessage := answer_loop (length chunk) chunk.

(** [connection_worker]: the chunks of [recv], each answered at once; the
    acknowledgements and the number of messages. *)
Fixpoint connection_worker (chunks : list (list Z)) (local_msgs : Z) : list AckMessage * Z :=
  match chunks with
  | [] | [] :: _ => ([], local_msgs)
  | chunk :: chunks =>
      let acks := answer chunk in
      let '(rest, n) := connection_worker chunks (u64 (local_msgs + Z.of_nat (length acks))) in
      (acks ++ rest, n)
  end.

(** [UltraExchange::process_client] of the low-latency engine's test server: the
    same loop with two counters, the messages of this call and those of the server. *)
Fixpoint process_client (chunks : list (list Z)) (count total_processed : Z) : list AckMessage * Z * Z :=
  match chunks with
  | [] | [] :: _ => ([], count, total_processed)
  | chunk :: chunks =>
      let acks := answer chunk in
      let k := Z.of_nat (length acks) in
      let '(rest, n, m) := process_client chunks (u64 (count + k)) (u64 (total_processed + k)) in
      (acks ++ rest, n, m)
  end.

Lemma process_client_worker chunks : forall count total,
  process_client chunks count total =
    ((connection_worker chunks count).1, (connection_worker chunks count).2, (connection_worker chunks total).2).
Proof.
  induction chunks as [|[|x chunk] chunks IH]; intros count total; [done..|].
  cbn [process_client connection_worker]. rewrite IH.
  destruct (connection_worker chunks (u64 (count + _))) as [r1 n1]. by destruct (connection_worker chunks (u64 (total + _))) as [r2 n2].
Qed.

Definition valid_message (m : BenchmarkMessage * list Z) : Prop :=
  wire_ok m.1 /\ bm_magic m.1 = MSG_MAGIC /\ Z.of_nat (length m.2) = bm_body_len m.1.
Definition message_bytes (m : BenchmarkMessage * list Z) : list Z := to_wire m.1 ++ m.2.

Lemma answer_loop_messages ms : forall fuel, Forall valid_message ms ->
  (length (concat (message_bytes <$> ms)) <= fuel)%nat ->
  answer_loop fuel (concat (message_bytes <$> ms)) = (ack_of ∘ fst) <$> ms.
Proof.
  induction ms as [|[m body] ms IH]; intros fuel H Hf; [by destruct fuel|].
  inversion H as [|? ? (Hok & Hm & Hb) Hms]; subst. cbn [fst snd] in *.
  cbn [fmap list_fmap concat] in *. unfold message_bytes at 1 in Hf. unfold message_bytes at 1. cbn [fst snd] in *.
  pose proof (length_to_wire m) as Hl. change (wire_size BenchmarkMessage) with 22 in Hl.
  rewrite !length_app in Hf. destruct fuel as [|fuel]; [lia|]. cbn [answer_loop].
  change (wire_size BenchmarkMessage) with 22. rewrite !length_app, (proj2 (Z.ltb_ge _ _)) by lia.
  rewrite <- app_assoc, of_to_wire by done. rewrite Hm, Z.eqb_refl. cbn [negb]. f_equal.
  destruct Hok as (_ & _ & _ & _ & Hbl). rewrite app_assoc.
  replace (Z.to_nat (22 + bm_body_len m)) with (length (to_wire m ++ body)) by (rewrite length_app; lia).
  rewrite drop_app_length. apply IH; [done|]. lia.
Qed.

Lemma connection_worker_messages (chunks : list (list (BenchmarkMessage * list Z))) : forall n,
  Forall (Forall valid_message) chunks -> Forall (fun c => c <> []) chunks -> 0 <= n ->
  n + Z.of_nat (length (concat chunks)) < 2 ^ 64 ->
  connection_worker ((fun c => concat (message_bytes <$> c)) <$> chunks) n =
    ((ack_of ∘ fst) <$> concat chunks, n + Z.of_nat (length (concat chunks))).
Proof.
  induction chunks as [|c chunks IH]; intros n Hv Hne Hn0 Hn; [by rewrite Z.add_0_r|].
  inversion Hv as [|? ? Hc Hcs]; inversion Hne as [|? ? Hne0 Hnes]; subst.
  cbn [fmap list_fmap connection_worker concat]. cbn [concat] in Hn. rewrite length_app in *.
  destruct (concat (message_bytes <$> c)) as [|x l] eqn:E.
  { destruct c as [|[m body] c]; [done|]. cbn [fmap list_fmap concat] in E. unfold message_bytes in E at 1.
    apply (f_equal length) in E. pose proof (length_to_wire m) as Hl. change (wire_size BenchmarkMessage) with 22 in Hl.
    cbn [fst snd] in E. rewrite !length_app in E. cbn [length] in E. lia. }
  rewrite <- E. unfold answer. rewrite answer_loop_messages by done. rewrite length_fmap, u64_small by lia.
  change (fmap (fun c0 => concat (message_bytes <$> c0)) chunks) with ((fun c0 => concat (message_bytes <$> c0)) <$> chunks).
  rewrite IH by (done || lia). f_equal; [by rewrite fmap_app|lia].
Qed.

(** An exchange answers what it is sent.  A connection whose chunks each hold
    whole messages (with bodies of any announced length, whatever bytes they
    hold) is answered with exactly one acknowledgement per message, in order, each
    carrying the bot, sequence number and time stamp of its message, and counted;
    the low-latency server answers the same and keeps both its counters; and each
    acknowledgement's twenty bytes read back as itself. *)
Theorem exchange_echo (chunks : list (list (BenchmarkMessage * list Z))) n :
  Forall (Forall valid_message) chunks -> Forall (fun c => c <> []) chunks -> 0 <= n ->
  n + Z.of_nat (length (concat chunks)) < 2 ^ 64 ->
  let received := (fun c => concat (message_bytes <$> c)) <$> chunks in
  let acks := (ack_of ∘ fst) <$> concat chunks in
  let k := Z.of_nat (length (concat chunks)) in
  connection_worker received n = (acks, n + k) /\ process_client received 0 n = (acks, k, n + k) /\
  Forall (fun a => of_wire (to_wire a) = a) acks.
Proof.
  intros Hv Hne Hn0 Hn received acks k.
  split; [by apply connection_worker_messages|]. split.
  - unfold received. rewrite process_client_worker, !connection_worker_messages by (done || lia). done.
  - apply Forall_fmap, Forall_concat. eapply Forall_impl; [exact Hv|]. intros c Hc.
    eapply Forall_impl; [exact Hc|]. intros [m body] ((H1 & H2 & H3 & H4 & _) & _). cbn [fst] in *.
    unfold compose. cbn [fst]. rewrite <- (app_nil_r (to_wire _)). apply of_to_wire. unfold wire_ok. cbn.
    split; [unfold is_u32, ACK_MAGIC; lia|done].
Qed.

Definition demo_message (b s t : Z) : BenchmarkMessage * list Z :=
  ({| bm_magic := MSG_MAGIC; bm_bot_id := b; bm_seq_num := s; bm_tsc := t; bm_body_len := BODY_SIZE |},
   replicate (Z.to_nat BODY_SIZE) b).

Lemma exchange_echo_witness :
  let chunks := [[demo_message 1 7 100; demo_message 2 8 110]; [demo_message 1 9 120]] in
  connection_worker ((fun c => concat (message_bytes <$> c)) <$> chunks) 0 =
    ((ack_of ∘ fst) <$> concat chunks, 3).
Proof.
  intros chunks. apply (exchange_echo chunks 0); [|repeat constructor; discriminate|lia|cbn; lia].
  repeat constructor; vm_compute; congruence.
Defined.

(** A chunk that ends inside a header loses the message: the exchange does not
    keep the cut bytes for the next chunk. *)
Example split_header_lost :
  let bytes := message_bytes (demo_message 1 7 100) in
  (connection_worker [take 20 bytes; drop 20 bytes] 0).1 = [] /\
  (connection_worker [bytes] 0).1 = [ack_of (demo_message 1 7 100).1].
Proof. vm_compute. split; reflexivity. Qed.
