(* ===== verification/Shm.v ===== *)
(** The shared-memory load generator and exchange
    (src/loadgen/include/loadgen/shm_engine.hpp): two bounded channels between
    two threads, and the fleet's bots going from idle to waiting and back.

    [Fifo] is what the engine and the exchange rely on in a channel; [ShmChannel]
    implements it.  The two threads are a step relation whose steps are whole
    channel operations: each channel has one producer and one consumer, and that
    such operations can be taken as one step is what [RingBuffer] shows for the
    same protocol at the level of single accesses. *)

From S2P Require Import Prelude Arena Protocol RingBuffer Fleet.

(** A channel holding [l] after [n] pushes. *)
Class Fifo (C T : Type) := {
  fifo_push : C -> T -> bool * C;
  fifo_pop : C -> option T * C;
  fifo_capacity : Z;
  fifo_holds : C -> Z -> list T -> Prop;
  fifo_bound : forall c n l, fifo_holds c n l -> Z.of_nat (length l) <= fifo_capacity;
  fifo_push_spec : forall c n l x, fifo_holds c n l -> n + 1 < 2 ^ 64 ->
    if Z.of_nat (length l) <? fifo_capacity
    then exists c', fifo_push c x = (true, c') /\ fifo_holds c' (n + 1) (l ++ [x])
    else fifo_push c x = (false, c);
  fifo_pop_spec : forall c n l, fifo_holds c n l -> n < 2 ^ 64 ->
    match l with
    | [] => fifo_pop c = (None, c)
    | x :: l => exists c', fifo_pop c = (Some x, c') /\ fifo_holds c' n l
    end }.

Module ShmChannel.
Section Channel.
Context {T : Type} (Capacity : Z).

Record t := { buffer_ : arr T; write_pos_ : Z; read_pos_ : Z }.

Definition MASK : Z := Capacity - 1.

Definition init (buffer : arr T) : t := {| buffer_ := buffer; write_pos_ := 0; read_pos_ := 0 |}.

Definition try_push (c : t) (item : T) : bool * t :=
  let w := write_pos_ c in
  let r := read_pos_ c in
  if Capacity <=? u64 (w - r) then (false, c)
  else (true, {| buffer_ := (buffer_ c).[Z.land w MASK <- item]; write_pos_ := u64 (w + 1); read_pos_ := r |}).

Definition try_pop (c : t) : option T * t :=
  let r := read_pos_ c in
  let w := write_pos_ c in
  if w <=? r then (None, c)
  else (Some (buffer_ c (Z.land r MASK)), {| buffer_ := buffer_ c; write_pos_ := w; read_pos_ := u64 (r + 1) |}).

Definition size (c : t) : Z := u64 (write_pos_ c - read_pos_ c).

Record holds (c : t) (n : Z) (l : list T) : Prop := {
  hd_write : write_pos_ c = n;
  hd_read : read_pos_ c = n - Z.of_nat (length l);
  hd_nonneg : 0 <= read_pos_ c;
  hd_bound : Z.of_nat (length l) <= Capacity;
  hd_data : forall k x, l !! k = Some x -> buffer_ c ((read_pos_ c + Z.of_nat k) mod Capacity) = x }.

Context (k : Z) (Hk : 0 <= k <= 32) (HC : Capacity = 2 ^ k).

Lemma cap_pos : 0 < Capacity <= 4294967296.
Proof.
  rewrite HC. split; [apply Z.pow_pos_nonneg; lia|]. change 4294967296 with (2 ^ 32). apply Z.pow_le_mono_r; lia.
Qed.

Lemma mask_mod i : Z.land i MASK = i mod Capacity.
Proof. unfold MASK. rewrite HC. by rewrite land_mask by lia. Qed.

Lemma init_holds buffer : holds (init buffer) 0 [].
Proof. pose proof cap_pos. split; cbn; try lia. done. Qed.

Lemma try_push_holds c n l x : holds c n l -> n + 1 < 2 ^ 64 ->
  if Z.of_nat (length l) <? Capacity
  then exists c', try_push c x = (true, c') /\ holds c' (n + 1) (l ++ [x])
  else try_push c x = (false, c).
Proof.
  intros [Hw Hr H0 Hb Hd] Hn. pose proof cap_pos as Hc. unfold try_push.
  rewrite Hw, Hr, u64_small by lia. replace (n - (n - Z.of_nat (length l))) with (Z.of_nat (length l)) by lia.
  destruct (Z.ltb_spec (Z.of_nat (length l)) Capacity) as [Hl|Hl]; [|by rewrite (proj2 (Z.leb_le _ _)) by lia].
  rewrite (proj2 (Z.leb_gt _ _)) by lia. eexists. split; [reflexivity|]. rewrite mask_mod, u64_small by lia.
  split; cbn [write_pos_ read_pos_ buffer_]; rewrite ?length_app; cbn [length]; try lia.
  intros j y Hy. rewrite Hr in Hd. destruct (decide (j < length l)%nat) as [Hj|Hj].
  - rewrite lookup_app_l in Hy by done. rewrite upd_ne; [by apply Hd|]. intros E.
    apply (SPSCRingBuffer.slot_inj Capacity k Hk HC) in E; lia.
  - rewrite lookup_app_r in Hy by lia. destruct (j - length l)%nat eqn:Ej; [|done]. injection Hy as <-.
    replace (n - Z.of_nat (length l) + Z.of_nat j) with n by lia. apply upd_eq.
Qed.

Lemma try_pop_holds c n l : holds c n l -> n < 2 ^ 64 ->
  match l with
  | [] => try_pop c = (None, c)
  | x :: l => exists c', try_pop c = (Some x, c') /\ holds c' n l
  end.
Proof.
  intros [Hw Hr H0 Hb Hd] Hn. unfold try_pop. rewrite Hw. destruct l as [|x l]; cbn [length] in *.
  { by rewrite (proj2 (Z.leb_le _ _)) by lia. }
  rewrite (proj2 (Z.leb_gt _ _)) by lia. eexists. rewrite mask_mod. split.
  { do 2 f_equal. rewrite <- (Z.add_0_r (read_pos_ c)). by apply (Hd O). }
  rewrite u64_small by lia. split; cbn [write_pos_ read_pos_ buffer_]; try lia.
  intros j y Hy. replace (read_pos_ c + 1 + Z.of_nat j) with (read_pos_ c + Z.of_nat (S j)) by lia. by apply Hd.
Qed.

End Channel.
End ShmChannel.

(** A channel of [2^k] slots. *)
#[refine] Instance ShmChannel_fifo (T : Type) (k : Z) (Hk : 0 <= k <= 32) : Fifo (@ShmChannel.t T) T := {
  fifo_push := ShmChannel.try_push (2 ^ k);
  fifo_pop := ShmChannel.try_pop (2 ^ k);
  fifo_capacity := 2 ^ k;
  fifo_holds := ShmChannel.holds (2 ^ k) }.
Proof.
  - intros c n l [? ? ? ? ?]. done.
  - intros c n l x. by apply ShmChannel.try_push_holds with k.
  - intros c n l. by apply ShmChannel.try_pop_holds with k.
Defined.

(** ** Messages *)

Record ShmRequest := { rq_bot_id : Z; rq_seq_num : Z; rq_send_tsc : Z; rq_valid : Z }.
Record ShmResponse := { rp_bot_id : Z; rp_seq_num : Z; rp_send_tsc : Z; rp_valid : Z }.

Definition TELEMETRY_CAPACITY : Z := 1048576.

Module ShmSystem.
Section System.
Context {RC SC : Type} {FR : Fifo RC ShmRequest} {FS : Fifo SC ShmResponse}.

(** The engine's counters with the fleet, the channels and the telemetry ring;
    the response the exchange holds while it spins on a full channel and its
    counter; and the history: what was sent, and the samples taken. *)
Record conf := {
  fleet : BotFleet.t; total_sends_ : Z; total_recvs_ : Z; next_seq_ : Z;
  req_chan : RC; resp_chan : SC; telemetry : @SPSCRingBuffer.t LatencySample;
  holding : option ShmResponse; total_processed_ : Z;
  sent : list (Z * Z * Z); samples : list LatencySample }.

(** *** The engine *)

Definition mark_sent (f : BotFleet.t) (i seq tsc : Z) : BotFleet.t :=
  {| BotFleet.count := BotFleet.count f; BotFleet.bot_ids := BotFleet.bot_ids f;
     BotFleet.sequence_nums := (BotFleet.sequence_nums f).[i <- seq]; BotFleet.states := (BotFleet.states f).[i <- WAITING];
     BotFleet.send_tsc := (BotFleet.send_tsc f).[i <- tsc]; BotFleet.recv_tsc := BotFleet.recv_tsc f;
     BotFleet.socket_fds := BotFleet.socket_fds f; BotFleet.payloads := BotFleet.payloads f;
     BotFleet.payload_lens := BotFleet.payload_lens f |}.

(** The body of the send loop for bot [i]. *)
Definition send_one (c : conf) (i tsc_now : Z) : conf :=
  if bool_decide (BotFleet.states (fleet c) i <> IDLE) then c else
  let seq := next_seq_ c in
  let req := {| rq_bot_id := BotFleet.bot_ids (fleet c) i; rq_seq_num := seq; rq_send_tsc := tsc_now; rq_valid := 1 |} in
  let '(ok, chan) := fifo_push (req_chan c) req in
  {| fleet := if ok then mark_sent (fleet c) i seq tsc_now else fleet c;
     total_sends_ := if ok then u64 (total_sends_ c + 1) else total_sends_ c;
     total_recvs_ := total_recvs_ c; next_seq_ := u32 (seq + 1); req_chan := chan; resp_chan := resp_chan c;
     telemetry := telemetry c; holding := holding c; total_processed_ := total_processed_ c;
     sent := if ok then sent c ++ [(BotFleet.bot_ids (fleet c) i, seq, tsc_now)] else sent c; samples := samples c |}.

Definition mark_received (f : BotFleet.t) (i tsc : Z) : BotFleet.t :=
  {| BotFleet.count := BotFleet.count f; BotFleet.bot_ids := BotFleet.bot_ids f;
     BotFleet.sequence_nums := BotFleet.sequence_nums f; BotFleet.states := (BotFleet.states f).[i <- IDLE];
     BotFleet.send_tsc := BotFleet.send_tsc f; BotFleet.recv_tsc := (BotFleet.recv_tsc f).[i <- tsc];
     BotFleet.socket_fds := BotFleet.socket_fds f; BotFleet.payloads := BotFleet.payloads f;
     BotFleet.payload_lens := BotFleet.payload_lens f |}.

Definition sample_of (r : ShmResponse) (recv : Z) : LatencySample :=
  {| send_tsc := rp_send_tsc r; recv_tsc := recv; bot_id := u32 (rp_bot_id r); seq_num := rp_seq_num r |}.

(** The body of the receive loop: whether a response was there. *)
Definition recv_one (c : conf) (recv_tsc : Z) : bool * conf :=
  match fifo_pop (resp_chan c) with
  | (None, chan) => (false, c)
  | (Some resp, chan) =>
      let known := rp_bot_id resp <? BotFleet.count (fleet c) in
      let sample := sample_of resp recv_tsc in
      (true,
       {| fleet := if known then mark_received (fleet c) (rp_bot_id resp) recv_tsc else fleet c;
          total_sends_ := total_sends_ c; total_recvs_ := u64 (total_recvs_ c + 1); next_seq_ := next_seq_ c;
          req_chan := req_chan c; resp_chan := chan;
          telemetry := if known then (SPSCRingBuffer.try_push TELEMETRY_CAPACITY (telemetry c) sample).2 else telemetry c;
          holding := holding c; total_processed_ := total_processed_ c; sent := sent c;
          samples := if known then samples c ++ [sample] else samples c |})
  end.

(** [send_requests]: the bots from [i], [n] left; [tsc i] is the clock at bot [i]. *)
Fixpoint send_requests (n : nat) (i : Z) (c : conf) (tsc : Z -> Z) : conf :=
  match n with
  | O => c
  | S n => send_requests n (i + 1) (send_one c i (tsc i)) tsc
  end.

(** [recv_responses]: until the channel is empty; the number received. *)
Fixpoint recv_responses (fuel : nat) (c : conf) (tsc : nat -> Z) : option (Z * conf) :=
  match fuel with
  | O => None
  | S fuel =>
      match recv_one c (tsc O) with
      | (false, c) => Some (0, c)
      | (true, c) => '(n, c) ← recv_responses fuel c (fun k => tsc (S k)); Some (n + 1, c)
      end
  end.

Definition run_batch (fuel : nat) (c : conf) (tsc : Z -> Z) (tsc_recv : nat -> Z) : option (Z * conf) :=
  recv_responses fuel (send_requests (Z.to_nat (BotFleet.count (fleet c))) 0 c tsc) tsc_recv.

(** [run_batch_tight]: a send and a receive attempt per bot, then a drain. *)
Fixpoint tight_loop (n : nat) (i : Z) (c : conf) (tsc tsc_recv : Z -> Z) (recvs : Z) : Z * conf :=
  match n with
  | O => (recvs, c)
  | S n =>
      let '(got, c) := recv_one (send_one c i (tsc i)) (tsc_recv i) in
      tight_loop n (i + 1) c tsc tsc_recv (if got : bool then recvs + 1 else recvs)
  end.
Definition run_batch_tight (fuel : nat) (c : conf) (tsc tsc_recv : Z -> Z) (tsc_drain : nat -> Z) : option (Z * conf) :=
  let '(m, c) := tight_loop (Z.to_nat (BotFleet.count (fleet c))) 0 c tsc tsc_recv 0 in
  '(n, c) ← recv_responses fuel c tsc_drain; Some (m + n, c).

(** *** The exchange *)

Definition echo (r : ShmRequest) : ShmResponse :=
  {| rp_bot_id := rq_bot_id r; rp_seq_num := rq_seq_num r; rp_send_tsc := rq_send_tsc r; rp_valid := 1 |}.

Definition with_exchange (c : conf) (req : RC) (resp : SC) (h : option ShmResponse) (n : Z) : conf :=
  {| fleet := fleet c; total_sends_ := total_sends_ c; total_recvs_ := total_recvs_ c; next_seq_ := next_seq_ c;
     req_chan := req; resp_chan := resp; telemetry := telemetry c; holding := h; total_processed_ := n;
     sent := sent c; samples := samples c |}.

(** The two halves of a turn of [process_batch]: take a request, and one
    attempt to push the response (repeated until it succeeds). *)
Definition take_request (c : conf) : bool * conf :=
  match fifo_pop (req_chan c) with
  | (None, chan) => (false, c)
  | (Some req, chan) => (true, with_exchange c chan (resp_chan c) (Some (echo req)) (total_processed_ c))
  end.
Definition push_response (c : conf) (resp : ShmResponse) : bool * conf :=
  let '(ok, chan) := fifo_push (resp_chan c) resp in
  if ok then (true, with_exchange c (req_chan c) chan None (u64 (total_processed_ c + 1))) else (false, c).

(** [process_batch] with nothing else running: a full response channel would
    be waited on for ever ([None]). *)
Fixpoint process_batch (fuel : nat) (c : conf) : option (Z * conf) :=
  match fuel with
  | O => None
  | S fuel =>
      match take_request c with
      | (false, c) => Some (0, c)
      | (true, c) =>
          resp ← holding c;
          match push_response c resp with
          | (false, _) => None
          | (true, c) => '(n, c) ← process_batch fuel c; Some (n + 1, c)
          end
      end
  end.

(** *** The threads *)

Inductive step : conf -> conf -> Prop :=
| s_send c i tsc : 0 <= i < BotFleet.count (fleet c) -> 0 <= tsc < 2 ^ 64 -> step c (send_one c i tsc)
| s_recv c tsc : step c (recv_one c tsc).2
| s_take c : holding c = None -> step c (take_request c).2
| s_push c resp : holding c = Some resp -> step c (push_response c resp).2
| s_consume c : step c
    {| fleet := fleet c; total_sends_ := total_sends_ c; total_recvs_ := total_recvs_ c; next_seq_ := next_seq_ c;
       req_chan := req_chan c; resp_chan := resp_chan c; telemetry := (SPSCRingBuffer.try_pop TELEMETRY_CAPACITY (telemetry c)).2;
       holding := holding c; total_processed_ := total_processed_ c; sent := sent c; samples := samples c |}.

Definition start (f : BotFleet.t) (req : RC) (resp : SC) (ring : @SPSCRingBuffer.t LatencySample) : conf :=
  {| fleet := f; total_sends_ := 0; total_recvs_ := 0; next_seq_ := 0; req_chan := req; resp_chan := resp;
     telemetry := ring; holding := None; total_processed_ := 0; sent := []; samples := [] |}.

Inductive reach (c0 : conf) : conf -> Prop :=
| reach_refl : reach c0 c0
| reach_step c c' : reach c0 c -> step c c' -> reach c0 c'.

(** ** Invariant *)

Definition of_request (r : ShmRequest) : Z * Z * Z := (rq_bot_id r, rq_seq_num r, rq_send_tsc r).
Definition of_response (r : ShmResponse) : Z * Z * Z := (rp_bot_id r, rp_seq_num r, rp_send_tsc r).
Definition of_sample (s : LatencySample) : Z * Z * Z := (bot_id s, seq_num s, send_tsc s).

Definition opt {A} (o : option A) : list A := match o with Some x => [x] | None => [] end.

(** What is between a bot's send and its sample, given the channels' contents. *)
Definition flight (c : conf) (reqs : list ShmRequest) (resps : list ShmResponse) : list (Z * Z * Z) :=
  (of_request <$> reqs) ++ (of_response <$> opt (holding c)) ++ (of_response <$> resps).

(** The fleet's view of what is in flight: one message per waiting bot. *)
Record bots_ok (n : Z) (f : BotFleet.t) (F : list (Z * Z * Z)) : Prop := {
  bo_count : BotFleet.count f = n;
  bo_ids : forall i, 0 <= i < n -> BotFleet.bot_ids f i = i;
  bo_nodup : NoDup (fst ∘ fst <$> F);
  bo_flight : forall b s t, (b, s, t) ∈ F ->
    0 <= b < n /\ BotFleet.states f b = WAITING /\ BotFleet.sequence_nums f b = s /\ BotFleet.send_tsc f b = t;
  bo_idle : forall i, 0 <= i < n -> i ∉ (fst ∘ fst <$> F) -> BotFleet.states f i = IDLE }.

Record inv (n : Z) (c : conf) (reqs : list ShmRequest) (resps : list ShmResponse) (nq : Z) : Prop := {
  iv_bots : bots_ok n (fleet c) (flight c reqs resps);
  iv_reqs : fifo_holds (req_chan c) (Z.of_nat (length (sent c))) reqs;
  iv_resps : fifo_holds (resp_chan c) nq resps;
  iv_pushes : nq + Z.of_nat (length reqs) + Z.of_nat (length (opt (holding c))) = Z.of_nat (length (sent c));
  iv_history : sent c ≡ₚ (of_sample <$> samples c) ++ flight c reqs resps;
  iv_seqs : (fun x => x.1.2) <$> sent c = u32 <$> seqZ 0 (Z.of_nat (length (sent c)));
  iv_next : next_seq_ c = u32 (Z.of_nat (length (sent c)));
  iv_sends : total_sends_ c = u64 (Z.of_nat (length (sent c)));
  iv_recvs : total_recvs_ c = u64 (Z.of_nat (length (samples c))) }.

Lemma bots_ok_perm n f F F' : F ≡ₚ F' -> bots_ok n f F -> bots_ok n f F'.
Proof.
  intros HF [H1 H2 H3 H4 H5]. split; [done|done|by rewrite <- HF|intros b s t Hin; apply H4; by rewrite HF|].
  intros i Hi Hin. apply H5; [done|]. by rewrite HF.
Qed.

Lemma in_flight_bot (F : list (Z * Z * Z)) i : i ∈ (fst ∘ fst <$> F) -> exists s t, (i, s, t) ∈ F.
Proof. intros H. apply list_elem_of_fmap in H as ([[b s] t] & -> & H). by exists s, t. Qed.

Lemma bots_ok_send n f F i s t : bots_ok n f F -> 0 <= i < n -> BotFleet.states f i = IDLE ->
  bots_ok n (mark_sent f i s t) ((i, s, t) :: F).
Proof.
  intros [H1 H2 H3 H4 H5] Hi Hs.
  assert (Hni : i ∉ (fst ∘ fst <$> F)).
  { intros (s' & t' & Hin)%in_flight_bot. apply H4 in Hin as (_ & Hw & _). by rewrite Hs in Hw. }
  split; [done|done|by apply NoDup_cons|..].
  - intros b s' t' [E|Hin]%elem_of_cons; cbn.
    + injection E as -> -> ->. by rewrite !upd_eq.
    + destruct (H4 _ _ _ Hin) as (Hb & Hw & Hsq & Ht). rewrite !upd_ne; [done|..];
        intros ->; apply Hni, list_elem_of_fmap; by exists (i, s', t').
  - intros j Hj Hn. cbn in *. apply not_elem_of_cons in Hn as [Hne Hn]. rewrite upd_ne by done. by apply H5.
Qed.

Lemma bots_ok_recv n f F b s t tsc : bots_ok n f ((b, s, t) :: F) -> bots_ok n (mark_received f b tsc) F.
Proof.
  intros [H1 H2 H3 H4 H5]. apply NoDup_cons in H3 as [Hb H3]. cbn in Hb. split; [done|done|done|..].
  - intros b' s' t' Hin. destruct (H4 b' s' t') as (Hb' & Hw & Hsq & Ht); [by right|]. cbn. rewrite upd_ne; [done|].
    intros ->. apply Hb, list_elem_of_fmap. by exists (b, s', t').
  - intros j Hj Hn. cbn. upd_cases; [done|]. apply H5; [done|]. apply not_elem_of_cons. done.
Qed.

Lemma bots_ok_length n f F : 0 <= n -> bots_ok n f F -> Z.of_nat (length F) <= n.
Proof.
  intros Hn [_ _ H3 H4 _]. rewrite <- (length_fmap (fst ∘ fst) F). apply nodup_bounded_length; [done|done|].
  intros b (s & t & Hin)%in_flight_bot. by apply H4 in Hin as [? _].
Qed.

(** ** The threads keep the invariant *)

Context (n : Z) (Hn : 0 <= n < 2 ^ 32) (HR : n <= fifo_capacity (C := RC)) (HS : n <= fifo_capacity (C := SC)).

Lemma flight_length c reqs resps : Z.of_nat (length (flight c reqs resps)) =
  Z.of_nat (length reqs) + Z.of_nat (length (opt (holding c))) + Z.of_nat (length resps).
Proof. unfold flight. rewrite !length_app, !length_fmap. lia. Qed.

(** The push of an idle bot's request always finds room. *)
Lemma send_succeeds c reqs resps nq i tsc : inv n c reqs resps nq -> 0 <= i < n ->
  BotFleet.states (fleet c) i = IDLE -> Z.of_nat (length (sent c)) + 1 < 2 ^ 64 ->
  exists chan, let req := {| rq_bot_id := i; rq_seq_num := next_seq_ c; rq_send_tsc := tsc; rq_valid := 1 |} in
    fifo_push (req_chan c) req = (true, chan) /\
    fifo_holds chan (Z.of_nat (length (sent c)) + 1) (reqs ++ [req]).
Proof.
  intros Hinv Hi Hs Hb. pose proof (bots_ok_send n _ _ i 0 0 (iv_bots _ _ _ _ _ Hinv) Hi Hs) as Hb1.
  apply bots_ok_length in Hb1; [|lia]. cbn [length] in Hb1. pose proof (flight_length c reqs resps) as Hl.
  set (req := {| rq_bot_id := i; rq_seq_num := next_seq_ c; rq_send_tsc := tsc; rq_valid := 1 |}).
  pose proof (fifo_push_spec _ _ _ req (iv_reqs _ _ _ _ _ Hinv) Hb) as Hp.
  rewrite (proj2 (Z.ltb_lt _ _)) in Hp by lia. exact Hp.
Qed.

Lemma seqs_snoc (l : list (Z * Z * Z)) b t : (fun x => x.1.2) <$> l = u32 <$> seqZ 0 (Z.of_nat (length l)) ->
  (fun x => x.1.2) <$> (l ++ [(b, u32 (Z.of_nat (length l)), t)]) =
  u32 <$> seqZ 0 (Z.of_nat (length (l ++ [(b, u32 (Z.of_nat (length l)), t)]))).
Proof.
  intros H. rewrite length_app, Nat.add_1_r, seqZ_S, !fmap_app, H. done.
Qed.

Lemma send_one_inv c reqs resps nq i tsc : inv n c reqs resps nq -> 0 <= i < n ->
  Z.of_nat (length (sent c)) + 1 < 2 ^ 64 -> exists reqs', inv n (send_one c i tsc) reqs' resps nq.
Proof.
  intros Hinv Hi Hb. unfold send_one. case_bool_decide as Hs; [by exists reqs|].
  destruct (send_succeeds c reqs resps nq i tsc Hinv Hi Hs Hb) as (chan & Hp & Hh). destruct Hinv as [I1 I2 I3 I4 I5 I6 I7 I8 I9].
  rewrite (bo_ids _ _ _ I1) by done. rewrite Hp.
  set (req := {| rq_bot_id := i; rq_seq_num := next_seq_ c; rq_send_tsc := tsc; rq_valid := 1 |}) in *.
  exists (reqs ++ [req]).
  assert (HF : forall c', holding c' = holding c -> (i, next_seq_ c, tsc) :: flight c reqs resps ≡ₚ flight c' (reqs ++ [req]) resps).
  { intros c' Hc. unfold flight. rewrite Hc, fmap_app, <- app_assoc. cbn [app fmap list_fmap]. apply Permutation_middle. }
  split; cbn [fleet sent holding req_chan resp_chan samples next_seq_ total_sends_ total_recvs_].
  - eapply bots_ok_perm; [by apply HF|]. by apply bots_ok_send.
  - rewrite length_app. cbn [length]. by replace (Z.of_nat (length (sent c) + 1)) with (Z.of_nat (length (sent c)) + 1) by lia.
  - done.
  - rewrite !length_app. cbn [length]. lia.
  - rewrite <- HF by done. rewrite I5 at 1. rewrite <- app_assoc. by rewrite <- Permutation_cons_append.
  - rewrite I7. by apply seqs_snoc.
  - rewrite I7, length_app. unfold u32. cbn [length]. rewrite Zplus_mod_idemp_l. f_equal. lia.
  - rewrite I8, length_app. unfold u64. cbn [length]. rewrite Zplus_mod_idemp_l. f_equal. lia.
  - done.
Qed.

Lemma recv_one_inv c reqs resps nq tsc : inv n c reqs resps nq -> Z.of_nat (length (sent c)) < 2 ^ 64 ->
  match resps with
  | [] => recv_one c tsc = (false, c)
  | r :: resps' => exists c', recv_one c tsc = (true, c') /\ inv n c' reqs resps' nq /\ sent c' = sent c /\
      holding c' = holding c /\ req_chan c' = req_chan c /\ samples c' = samples c ++ [sample_of r tsc]
  end.
Proof.
  intros [I1 I2 I3 I4 I5 I6 I7 I8 I9] Hb. unfold recv_one.
  pose proof (fifo_pop_spec _ _ _ I3 ltac:(lia)) as Hp. destruct resps as [|r resps]; [by rewrite Hp|].
  destruct Hp as (chan & -> & Hh). eexists. split; [reflexivity|].
  assert (HF : of_response r :: flight c reqs resps ≡ₚ flight c reqs (r :: resps)).
  { unfold flight. cbn [fmap list_fmap]. rewrite !app_assoc. apply Permutation_middle. }
  pose proof (bots_ok_perm _ _ _ _ (symmetry HF) I1) as I1'.
  destruct (bo_flight _ _ _ I1' (rp_bot_id r) (rp_seq_num r) (rp_send_tsc r)) as (Hr & _); [by left|].
  rewrite (bo_count _ _ _ I1), (proj2 (Z.ltb_lt _ _)) by lia.
  assert (Es : of_sample (sample_of r tsc) = of_response r).
  { unfold of_sample, sample_of. cbn [bot_id seq_num send_tsc]. by rewrite u32_small by lia. }
  split; [|done]. split; cbn [fleet sent holding req_chan resp_chan samples next_seq_ total_sends_ total_recvs_]; try done.
  - eapply bots_ok_recv. exact I1'.
  - rewrite fmap_app, <- app_assoc. cbn [fmap list_fmap app]. rewrite Es. etransitivity; [exact I5|].
    apply Permutation_app_head. symmetry. exact HF.
  - rewrite I9, length_app. unfold u64. cbn [length]. rewrite Zplus_mod_idemp_l. f_equal. lia.
Qed.

Lemma take_request_inv c reqs resps nq : inv n c reqs resps nq -> holding c = None -> Z.of_nat (length (sent c)) < 2 ^ 64 ->
  match reqs with
  | [] => take_request c = (false, c)
  | r :: reqs' => exists c', take_request c = (true, c') /\ inv n c' reqs' resps nq /\ sent c' = sent c /\
      holding c' = Some (echo r) /\ samples c' = samples c
  end.
Proof.
  intros [I1 I2 I3 I4 I5 I6 I7 I8 I9] Hh Hb. unfold take_request.
  pose proof (fifo_pop_spec _ _ _ I2 Hb) as Hp. destruct reqs as [|r reqs]; [by rewrite Hp|].
  destruct Hp as (chan & -> & Hc). eexists. split; [reflexivity|]. split; [|done].
  assert (HF : forall c', holding c' = Some (echo r) -> flight c' reqs resps ≡ₚ flight c (r :: reqs) resps).
  { intros c' E. unfold flight. rewrite E, Hh. cbn [fmap list_fmap opt app]. by rewrite <- Permutation_middle. }
  rewrite Hh in I4. cbn [opt length] in I4.
  split; cbn [with_exchange fleet sent holding req_chan resp_chan samples next_seq_ total_sends_ total_recvs_ opt length];
    try done; [eapply bots_ok_perm; [symmetry; by apply HF|done]|lia|by rewrite HF].
Qed.

(** The push of the response always finds room: the exchange never spins. *)
Lemma push_response_inv c reqs resps nq r : inv n c reqs resps nq -> holding c = Some r ->
  Z.of_nat (length (sent c)) < 2 ^ 64 ->
  exists c', push_response c r = (true, c') /\ inv n c' reqs (resps ++ [r]) (nq + 1) /\ sent c' = sent c /\
    holding c' = None /\ samples c' = samples c.
Proof.
  intros [I1 I2 I3 I4 I5 I6 I7 I8 I9] Hh Hb. unfold push_response.
  pose proof (bots_ok_length n _ _ ltac:(lia) I1) as Hl. rewrite flight_length, Hh in Hl. rewrite Hh in I4.
  cbn [opt length] in Hl, I4.
  pose proof (fifo_push_spec _ _ _ r I3 ltac:(lia)) as Hp. rewrite (proj2 (Z.ltb_lt _ _)) in Hp by lia.
  destruct Hp as (chan & -> & Hc). eexists. split; [reflexivity|]. split; [|done].
  assert (HF : forall c', holding c' = None -> flight c' reqs (resps ++ [r]) ≡ₚ flight c reqs resps).
  { intros c' E. unfold flight. rewrite E, Hh, fmap_app. cbn [fmap list_fmap opt app].
    apply Permutation_app_head. by rewrite <- Permutation_cons_append. }
  split; cbn [with_exchange fleet sent holding req_chan resp_chan samples next_seq_ total_sends_ total_recvs_ opt length];
    try done; [eapply bots_ok_perm; [symmetry; by apply HF|done]|lia|by rewrite HF].
Qed.

Lemma step_sent c c' : step c c' -> (length (sent c) <= length (sent c'))%nat.
Proof.
  destruct 1 as [c i tsc ? ?|c tsc|c ?|c r ?|c]; cbn; [| | | |lia].
  - unfold send_one. case_bool_decide; [lia|]. destruct (fifo_push _ _) as [[] ?]; cbn; rewrite ?length_app; lia.
  - unfold recv_one. destruct (fifo_pop _) as [[] ?]; cbn; lia.
  - unfold take_request. destruct (fifo_pop _) as [[] ?]; cbn; lia.
  - unfold push_response. destruct (fifo_push _ _) as [[] ?]; cbn; lia.
Qed.

Lemma step_inv c c' reqs resps nq : inv n c reqs resps nq -> step c c' -> Z.of_nat (length (sent c')) + 1 < 2 ^ 64 ->
  exists reqs' resps' nq', inv n c' reqs' resps' nq'.
Proof.
  intros Hinv Hs Hb. pose proof (step_sent _ _ Hs). destruct Hs as [c i tsc Hi Ht|c tsc|c Hh|c r Hh|c].
  - rewrite (bo_count _ _ _ (iv_bots _ _ _ _ _ Hinv)) in Hi.
    destruct (send_one_inv c reqs resps nq i tsc Hinv Hi ltac:(lia)) as [reqs' H']. by exists reqs', resps, nq.
  - pose proof (recv_one_inv c reqs resps nq tsc Hinv ltac:(lia)) as H'. destruct resps as [|r resps].
    + rewrite H'. by exists reqs, [], nq.
    + destruct H' as (c' & -> & H' & _). by exists reqs, resps, nq.
  - pose proof (take_request_inv c reqs resps nq Hinv Hh ltac:(lia)) as H'. destruct reqs as [|r reqs].
    + rewrite H'. by exists [], resps, nq.
    + destruct H' as (c' & -> & H' & _). by exists reqs, resps, nq.
  - destruct (push_response_inv c reqs resps nq r Hinv Hh ltac:(lia)) as (c' & -> & H' & _).
    by exists reqs, (resps ++ [r]), (nq + 1).
  - exists reqs, resps, nq. by destruct Hinv; split.
Qed.

(** A fresh fleet and empty channels. *)
Definition fresh (f : BotFleet.t) (req : RC) (resp : SC) : Prop :=
  BotFleet.count f = n /\ (forall i, 0 <= i < n -> BotFleet.bot_ids f i = i /\ BotFleet.states f i = IDLE) /\
  fifo_holds req 0 [] /\ fifo_holds resp 0 [].

Lemma start_inv f req resp ring : fresh f req resp -> inv n (start f req resp ring) [] [] 0.
Proof.
  intros (Hc & Hi & Hr & Hs). split; try done. split; [done|intros; by apply Hi|constructor|..].
  - intros b s t Hin. by apply not_elem_of_nil in Hin.
  - intros i Hin _. by apply Hi.
Qed.

Lemma reach_inv f req resp ring c : fresh f req resp -> reach (start f req resp ring) c ->
  Z.of_nat (length (sent c)) + 1 < 2 ^ 64 -> exists reqs resps nq, inv n c reqs resps nq.
Proof.
  intros Hf. induction 1 as [|c c' Hr IH Hs]; intros Hb; [by eexists _, _, _; apply start_inv|].
  pose proof (step_sent _ _ Hs). destruct IH as (reqs & resps & nq & Hinv); [lia|]. by eapply step_inv.
Qed.

(** *** The batches are runs of steps *)

Lemma send_one_count c i tsc : BotFleet.count (fleet (send_one c i tsc)) = BotFleet.count (fleet c).
Proof. unfold send_one. case_bool_decide; [done|]. by destruct (fifo_push _ _) as [[] ?]. Qed.

Lemma recv_one_count c tsc : BotFleet.count (fleet (recv_one c tsc).2) = BotFleet.count (fleet c).
Proof. unfold recv_one. destruct (fifo_pop _) as [[r|] ?]; [|done]. cbn. by destruct (_ <? _). Qed.

Lemma send_requests_reach c0 m : forall i c tsc, reach c0 c -> 0 <= i -> i + Z.of_nat m <= BotFleet.count (fleet c) ->
  (forall j, 0 <= tsc j < 2 ^ 64) -> reach c0 (send_requests m i c tsc).
Proof.
  induction m as [|m IH]; intros i c tsc Hr Hi Hm Ht; [done|]. cbn [send_requests].
  apply IH; [|lia|rewrite send_one_count; lia|done]. eapply reach_step; [done|]. apply s_send; [lia|done].
Qed.

Lemma recv_responses_reach c0 fuel : forall c tsc k c', reach c0 c -> recv_responses fuel c tsc = Some (k, c') -> reach c0 c'.
Proof.
  induction fuel as [|fuel IH]; intros c tsc k c' Hr E; cbn [recv_responses] in E; [done|].
  pose proof (s_recv c (tsc O)) as Hs. destruct (recv_one c (tsc O)) as [[] c1].
  - destruct (recv_responses fuel c1 (fun k => tsc (S k))) as [[m c2]|] eqn:E1; [|done]. injection E as _ <-.
    eapply IH; [|exact E1]. by eapply reach_step.
  - injection E as _ <-. by eapply reach_step.
Qed.

Lemma tight_loop_reach c0 m : forall i c tsc tsc' k, reach c0 c -> 0 <= i -> i + Z.of_nat m <= BotFleet.count (fleet c) ->
  (forall j, 0 <= tsc j < 2 ^ 64) -> reach c0 (tight_loop m i c tsc tsc' k).2.
Proof.
  induction m as [|m IH]; intros i c tsc tsc' k Hr Hi Hm Ht; [done|]. cbn [tight_loop].
  pose proof (s_recv (send_one c i (tsc i)) (tsc' i)) as Hs. pose proof (recv_one_count (send_one c i (tsc i)) (tsc' i)) as Hc.
  destruct (recv_one _ _) as [got c1]. cbn [snd] in Hs, Hc. rewrite send_one_count in Hc.
  apply IH; [|lia|lia|done]. eapply reach_step; [|exact Hs]. eapply reach_step; [done|]. apply s_send; [lia|done].
Qed.

Lemma run_batch_reach c0 fuel c tsc tsc' k c' : reach c0 c -> 0 <= BotFleet.count (fleet c) ->
  (forall j, 0 <= tsc j < 2 ^ 64) -> run_batch fuel c tsc tsc' = Some (k, c') -> reach c0 c'.
Proof.
  intros Hr Hc Ht E. eapply recv_responses_reach; [|exact E]. apply send_requests_reach; [done|lia|lia|done].
Qed.

Lemma run_batch_tight_reach c0 fuel c tsc tsc' tsc'' k c' : reach c0 c -> 0 <= BotFleet.count (fleet c) ->
  (forall j, 0 <= tsc j < 2 ^ 64) -> run_batch_tight fuel c tsc tsc' tsc'' = Some (k, c') -> reach c0 c'.
Proof.
  intros Hr Hc Ht E. unfold run_batch_tight in E.
  pose proof (tight_loop_reach c0 (Z.to_nat (BotFleet.count (fleet c))) 0 c tsc tsc' 0 Hr ltac:(lia) ltac:(lia) Ht) as H.
  destruct (tight_loop _ _ _ _ _ _) as [m c1]. destruct (recv_responses fuel c1 tsc'') as [[j c2]|] eqn:E1; [|done].
  injection E as _ <-. by eapply recv_responses_reach.
Qed.

(** *** Draining *)

Lemma process_batch_drains reqs : forall fuel c resps nq, inv n c reqs resps nq -> holding c = None ->
  Z.of_nat (length (sent c)) < 2 ^ 64 -> (length reqs < fuel)%nat ->
  exists c' nq', process_batch fuel c = Some (Z.of_nat (length reqs), c') /\
    inv n c' [] (resps ++ (echo <$> reqs)) nq' /\ holding c' = None /\ sent c' = sent c /\ samples c' = samples c.
Proof.
  induction reqs as [|r reqs IH]; intros fuel c resps nq Hinv Hh Hb Hf; (destruct fuel as [|fuel]; [lia|]); cbn [process_batch].
  - rewrite (take_request_inv c [] resps nq Hinv Hh Hb). exists c, nq. by rewrite app_nil_r.
  - destruct (take_request_inv c (r :: reqs) resps nq Hinv Hh Hb) as (c1 & -> & H1 & S1 & Hh1 & Hs1).
    rewrite Hh1. cbn [mbind option_bind].
    destruct (push_response_inv c1 reqs resps nq _ H1 Hh1 ltac:(by rewrite S1)) as (c2 & -> & H2 & S2 & Hh2 & Hs2).
    cbn [length] in Hf. destruct (IH fuel c2 (resps ++ [echo r]) (nq + 1) H2 Hh2) as (c3 & nq' & E & H3 & Hh3 & S3 & Hs3);
      [by rewrite S2, S1|lia|].
    rewrite E. cbn [mbind option_bind]. exists c3, nq'. split; [do 2 f_equal; cbn [length]; lia|].
    rewrite <- app_assoc in H3. split; [exact H3|]. split; [done|]. split; congruence.
Qed.

Lemma recv_responses_drains resps : forall fuel c nq tsc, inv n c [] resps nq -> holding c = None ->
  Z.of_nat (length (sent c)) < 2 ^ 64 -> (length resps < fuel)%nat ->
  exists c', recv_responses fuel c tsc = Some (Z.of_nat (length resps), c') /\ inv n c' [] [] nq /\ holding c' = None /\
    sent c' = sent c /\ of_sample <$> samples c' = (of_sample <$> samples c) ++ (of_response <$> resps).
Proof.
  induction resps as [|r resps IH]; intros fuel c nq tsc Hinv Hh Hb Hf; (destruct fuel as [|fuel]; [lia|]); cbn [recv_responses].
  - rewrite (recv_one_inv c [] [] nq _ Hinv Hb). exists c. by rewrite app_nil_r.
  - destruct (recv_one_inv c [] (r :: resps) nq (tsc O) Hinv Hb) as (c1 & -> & H1 & S1 & Hh1 & _ & Hs1).
    cbn [length] in Hf. destruct (IH fuel c1 nq (fun k => tsc (S k)) H1) as (c2 & E & H2 & Hh2 & S2 & Hs2);
      [congruence|by rewrite S1|lia|].
    rewrite E. cbn [mbind option_bind]. exists c2. split; [do 2 f_equal; cbn [length]; lia|]. split; [done|]. split; [done|].
    split; [congruence|]. rewrite Hs2, Hs1, fmap_app, <- app_assoc. cbn [fmap list_fmap app]. do 2 f_equal.
    unfold of_sample, sample_of, of_response. cbn. rewrite u32_small; [done|].
    destruct (bo_flight _ _ _ (iv_bots _ _ _ _ _ Hinv) (rp_bot_id r) (rp_seq_num r) (rp_send_tsc r)) as (Hr & _); [|lia].
    unfold flight. rewrite Hh. cbn. by left.
Qed.

(** C20: One request per bot, one sample per request, for a fleet of at most as
    many bots as each of the two channels has slots.  Whatever the interleaving
    of the engine's sends and receives, the exchange and the telemetry consumer,
    the requests sent are exactly those answered by a sample (with the bot,
    sequence number and send time of its request) and those in flight; a bot is
    waiting when it has exactly one request in flight, with the number and time
    the fleet records, and idle when it has none; requests are numbered
    consecutively; the counters count requests and samples; and neither an idle
    bot's request nor the exchange's response ever finds its channel full.  Both
    kinds of batch stay among these configurations.  (With more bots than slots
    numbers are skipped, [full_channel_skips_number].) *)
Theorem shm_session f req resp ring c :
  fresh f req resp -> reach (start f req resp ring) c -> Z.of_nat (length (sent c)) + 1 < 2 ^ 64 ->
  exists F, sent c ≡ₚ (of_sample <$> samples c) ++ F /\ NoDup (fst ∘ fst <$> F) /\
    (forall i, 0 <= i < n ->
      (BotFleet.states (fleet c) i = WAITING /\
       (i, BotFleet.sequence_nums (fleet c) i, BotFleet.send_tsc (fleet c) i) ∈ F) \/
      (BotFleet.states (fleet c) i = IDLE /\ i ∉ (fst ∘ fst <$> F))) /\
    (fun x => x.1.2) <$> sent c = u32 <$> seqZ 0 (Z.of_nat (length (sent c))) /\
    total_sends_ c = Z.of_nat (length (sent c)) /\ total_recvs_ c = Z.of_nat (length (samples c)) /\
    (forall i tsc, 0 <= i < n -> BotFleet.states (fleet c) i = IDLE ->
      sent (send_one c i tsc) = sent c ++ [(i, next_seq_ c, tsc)]) /\
    (forall r, holding c = Some r -> (push_response c r).1 = true) /\
    (forall fuel tsc tsc' tsc'' k c', (forall j, 0 <= tsc j < 2 ^ 64) ->
      run_batch fuel c tsc tsc' = Some (k, c') \/ run_batch_tight fuel c tsc tsc'' tsc' = Some (k, c') ->
      reach (start f req resp ring) c').
Proof.
  intros Hf Hr Hb. destruct (reach_inv f req resp ring c Hf Hr Hb) as (reqs & resps & nq & Hinv).
  pose proof Hinv as [I1 I2 I3 I4 I5 I6 I7 I8 I9]. exists (flight c reqs resps).
  split; [done|]. split; [apply I1|]. split.
  { intros i Hi. destruct (decide (i ∈ (fst ∘ fst <$> flight c reqs resps))) as [Hin|Hin].
    - left. destruct (in_flight_bot _ _ Hin) as (s & t & H). destruct (bo_flight _ _ _ I1 _ _ _ H) as (_ & Hw & -> & ->). done.
    - right. split; [|done]. by apply (bo_idle _ _ _ I1). }
  assert (Hlen : (length (samples c) <= length (sent c))%nat) by (apply Permutation_length in I5; rewrite length_app, length_fmap in I5; lia).
  split; [done|]. split; [rewrite I8; apply u64_small; lia|]. split; [rewrite I9; apply u64_small; lia|]. split.
  - intros i tsc Hi Hs. destruct (send_succeeds c reqs resps nq i tsc Hinv Hi Hs Hb) as (chan & Hp & _).
    unfold send_one. rewrite bool_decide_eq_false_2 by (rewrite Hs; intros Hne; by apply Hne). rewrite (bo_ids _ _ _ I1), Hp by done. done.
  - split; [intros r Hh; by destruct (push_response_inv c reqs resps nq r Hinv Hh ltac:(lia)) as (c' & -> & _)|].
    intros fuel tsc tsc' tsc'' k c' Ht [E|E]; [eapply run_batch_reach|eapply run_batch_tight_reach]; try done;
      rewrite (bo_count _ _ _ I1); lia.
Qed.

(** Letting the exchange finish empties the request channel; what is then in the
    response channel is all that is in flight. *)
Lemma exchange_rests f req resp ring c :
  fresh f req resp -> reach (start f req resp ring) c -> Z.of_nat (length (sent c)) + 1 < 2 ^ 64 ->
  let c0 := match holding c with Some r => (push_response c r).2 | None => c end in
  exists k c1 resps nq, process_batch (S (Z.to_nat n)) c0 = Some (k, c1) /\ inv n c1 [] resps nq /\ holding c1 = None /\
    sent c1 = sent c /\ Z.of_nat (length resps) <= n.
Proof.
  intros Hf Hr Hb c0. destruct (reach_inv f req resp ring c Hf Hr Hb) as (reqs & resps & nq & Hinv).
  assert (H0 : exists resps0 nq0, inv n c0 reqs resps0 nq0 /\ holding c0 = None /\ sent c0 = sent c).
  { unfold c0. destruct (holding c) as [r|] eqn:Hh; [|by exists resps, nq].
    destruct (push_response_inv c reqs resps nq r Hinv Hh ltac:(lia)) as (c' & -> & H1 & H2 & H3 & _).
    by exists (resps ++ [r]), (nq + 1). }
  destruct H0 as (resps0 & nq0 & Hinv0 & Hh0 & S0). clearbody c0. clear Hinv.
  pose proof (bots_ok_length n _ _ ltac:(lia) (iv_bots _ _ _ _ _ Hinv0)) as Hl.
  rewrite flight_length, Hh0 in Hl. cbn [opt length] in Hl.
  destruct (process_batch_drains reqs (S (Z.to_nat n)) c0 resps0 nq0 Hinv0 Hh0) as (c1 & nq1 & E1 & Hinv1 & Hh1 & S1 & _);
    [rewrite S0; lia|lia|].
  exists (Z.of_nat (length reqs)), c1, (resps0 ++ (echo <$> reqs)), nq1. rewrite length_app, length_fmap.
  split; [done|]. split; [done|]. split; [done|]. split; [congruence|lia].
Qed.

(** Every request is answered.  From any configuration the threads can reach,
    letting the exchange finish its turn and drain its channel and the engine
    drain the responses ends: both loops return within one turn per bot and one
    more, every bot is idle, and every request ever sent has its sample. *)
Theorem shm_quiesces f req resp ring c tsc :
  fresh f req resp -> reach (start f req resp ring) c -> Z.of_nat (length (sent c)) + 1 < 2 ^ 64 ->
  let c0 := match holding c with Some r => (push_response c r).2 | None => c end in
  let fuel := S (Z.to_nat n) in
  exists k1 c1 k2 c2, process_batch fuel c0 = Some (k1, c1) /\ recv_responses fuel c1 tsc = Some (k2, c2) /\
    sent c2 = sent c /\ sent c2 ≡ₚ (of_sample <$> samples c2) /\
    forall i, 0 <= i < n -> BotFleet.states (fleet c2) i = IDLE.
Proof.
  intros Hf Hr Hb c0 fuel. destruct (exchange_rests f req resp ring c Hf Hr Hb) as (k1&c1&resps&nq1&E1&Hinv1&Hh1&S1&Hl).
  destruct (recv_responses_drains resps fuel c1 nq1 tsc Hinv1 Hh1) as (c2 & E2 & Hinv2 & Hh2 & S2 & _);
    [rewrite S1; lia|unfold fuel; lia|].
  exists k1, c1, (Z.of_nat (length resps)), c2.
  assert (EF : flight c2 [] [] = []) by (unfold flight; by rewrite Hh2).
  destruct Hinv2 as [J1 _ _ _ J5 _ _ _ _]. rewrite EF in J1, J5. rewrite app_nil_r in J5.
  split; [done|]. split; [done|]. split; [congruence|]. split; [done|].
  intros i Hi. apply (bo_idle _ _ _ J1); [done|]. apply not_elem_of_nil.
Qed.

End System.

(** *** A session of two bots over channels of four slots *)

Definition demo_fleet : BotFleet.t :=
  {| BotFleet.count := 2; BotFleet.bot_ids := fun i => u32 i; BotFleet.sequence_nums := fun _ => 0;
     BotFleet.states := fun _ => IDLE; BotFleet.send_tsc := fun _ => 0; BotFleet.recv_tsc := fun _ => 0;
     BotFleet.socket_fds := fun _ => -1; BotFleet.payloads := fun _ => 0; BotFleet.payload_lens := fun _ => 0 |}.

Definition demo_fifo (T : Type) : Fifo (@ShmChannel.t T) T := ShmChannel_fifo T 2 ltac:(lia).
#[local] Existing Instance demo_fifo.

Lemma demo_room (T : Type) : 2 <= fifo_capacity (C := @ShmChannel.t T) (T := T).
Proof. vm_compute. discriminate. Qed.

Definition zero_request : ShmRequest := {| rq_bot_id := 0; rq_seq_num := 0; rq_send_tsc := 0; rq_valid := 0 |}.
Definition zero_response : ShmResponse := {| rp_bot_id := 0; rp_seq_num := 0; rp_send_tsc := 0; rp_valid := 0 |}.
Definition zero_sample : LatencySample := {| send_tsc := 0; recv_tsc := 0; bot_id := 0; seq_num := 0 |}.

Definition demo_start : conf :=
  start demo_fleet (ShmChannel.init (fun _ => zero_request)) (ShmChannel.init (fun _ => zero_response))
    (SPSCRingBuffer.create TELEMETRY_CAPACITY 24 zero_sample).

Lemma demo_fresh : fresh 2 demo_fleet (ShmChannel.init (fun _ => zero_request)) (ShmChannel.init (fun _ => zero_response)).
Proof.
  split; [done|]. split; [intros i Hi; split; [apply u32_small; lia|done]|].
  split; by apply (ShmChannel.init_holds _ 2).
Qed.

(** Bot 1 has sent, the exchange holds its response, bot 0 has sent. *)
Definition demo_mid : conf := send_one (take_request (send_one demo_start 1 100)).2 0 110.

Lemma demo_mid_reach : reach demo_start demo_mid.
Proof.
  unfold demo_mid. eapply reach_step; [|apply s_send; [vm_compute; split; (congruence || reflexivity)|lia]].
  eapply reach_step; [|by apply s_take]. eapply reach_step; [|apply s_send; [cbn; lia|lia]]. apply reach_refl.
Qed.

(** Five bots over channels of four slots: the fifth request finds the channel
    full and its number is lost; sent again after the exchange has taken one, it
    carries the next number, so that the numbers of the requests sent have a gap. *)
Lemma full_channel_skips_number :
  let c := foldl (fun c i => send_one c i 100) demo_start [0; 1; 2; 3; 4] in
  let c' := send_one (take_request c).2 4 110 in
  ((fun x => x.1.2) <$> sent c = [0; 1; 2; 3] /\ next_seq_ c = 5) /\ (fun x => x.1.2) <$> sent c' = [0; 1; 2; 3; 5].
Proof. vm_compute. done. Qed.

Lemma shm_session_witness : exists F,
  sent demo_mid ≡ₚ (of_sample <$> samples demo_mid) ++ F /\ NoDup (fst ∘ fst <$> F) /\
  total_sends_ demo_mid = 2 /\ (forall r, holding demo_mid = Some r -> (push_response demo_mid r).1 = true).
Proof.
  destruct (shm_session 2 ltac:(lia) (demo_room _) (demo_room _) demo_fleet _ _ _ demo_mid demo_fresh demo_mid_reach ltac:(vm_compute; reflexivity)) as (F & H1 & H2 & _ & _ & H5 & _ & _ & H8 & _).
  exists F. split; [exact H1|]. split; [exact H2|]. split; [exact H5|exact H8].
Defined.

Lemma shm_quiesces_witness : exists k1 c1 k2 c2,
  process_batch 3 (push_response demo_mid {| rp_bot_id := 1; rp_seq_num := 0; rp_send_tsc := 100; rp_valid := 1 |}).2 = Some (k1, c1) /\
  recv_responses 3 c1 (fun k => 200 + Z.of_nat k) = Some (k2, c2) /\ sent c2 ≡ₚ (of_sample <$> samples c2).
Proof.
  destruct (shm_quiesces 2 ltac:(lia) (demo_room _) (demo_room _) demo_fleet _ _ _ demo_mid (fun k => 200 + Z.of_nat k) demo_fresh demo_mid_reach ltac:(vm_compute; reflexivity))
    as (k1 & c1 & k2 & c2 & H1 & H2 & _ & H4 & _).
  exists k1, c1, k2, c2. split; [exact H1|]. split; [exact H2|exact H4].
Defined.

(** The counters of a round of two batches. *)
Example demo_round :
  (process_batch 3 (send_requests 2 0 demo_start (fun i => 100 + i)) ≫= fun '(k, c) =>
   run_batch 3 c (fun i => 300 + i) (fun j => 200 + Z.of_nat j) ≫= fun '(m, c) =>
   Some (k, m, total_sends_ c, total_recvs_ c, of_sample <$> samples c)) =
  Some (2, 2, 2, 2, [(0, 0, 100); (1, 1, 101)]).
Proof. vm_compute. reflexivity. Qed.

End ShmSystem.
