(* ===== verification/Engines.v ===== *)
(** The load engines over sockets: epoll and io_uring
    (src/loadgen/include/loadgen/io_engine.hpp, src/loadgen/src/io_engine.cpp),
    the low-latency engine (src/loadgen/include/loadgen/ultra_engine.hpp) and the
    multiplexed one (src/loadgen/include/loadgen/pipeline_engine.hpp).

    All four drive the fleet of [Fleet]: stamp the template of an idle bot, hand
    it to a socket, and turn acknowledgements into latency samples.  What the
    kernel returns (results of send, writev and recv, events, completions, free
    submission entries and what the last of them held before) is an argument of each batch; the [k]-th reading of the
    time stamp counter is [rdtsc e k]. *)

From S2P Require Import Prelude Arena Protocol RingBuffer Fleet.

(** What one engine works on: the fleet with its message memory, the engine's
    own counters (every engine class has these three members of its own; one
    engine drives a run), the telemetry ring and the number of clock readings; and
    the history: the bytes handed to sockets with the bot they belong to, and the
    samples taken, each with the number of messages handed over before it. *)
Record engine := {
  fleet : BotFleet.t; mem : arr Z; next_seq_ : Z; total_sends_ : Z; total_recvs_ : Z;
  telemetry : @SPSCRingBuffer.t LatencySample; rdtsc : nat -> Z; ticks : nat;
  wire : list (Z * list Z); samples : list (nat * LatencySample) }.

(** ** What the engines share *)

Definition with_fleet (e : engine) (f : BotFleet.t) : engine :=
  {| fleet := f; mem := mem e; next_seq_ := next_seq_ e; total_sends_ := total_sends_ e; total_recvs_ := total_recvs_ e;
     telemetry := telemetry e; rdtsc := rdtsc e; ticks := ticks e; wire := wire e; samples := samples e |}.

Definition set_state (e : engine) (i : Z) (s : BotState) : engine :=
  let f := fleet e in
  with_fleet e
    {| BotFleet.count := BotFleet.count f; BotFleet.bot_ids := BotFleet.bot_ids f;
       BotFleet.sequence_nums := BotFleet.sequence_nums f; BotFleet.states := (BotFleet.states f).[i <- s];
       BotFleet.send_tsc := BotFleet.send_tsc f; BotFleet.recv_tsc := BotFleet.recv_tsc f;
       BotFleet.socket_fds := BotFleet.socket_fds f; BotFleet.payloads := BotFleet.payloads f;
       BotFleet.payload_lens := BotFleet.payload_lens f |}.

(** Read the clock, take a number, patch the template and record both. *)
Definition stamp (e : engine) (i : Z) : engine :=
  let tsc_now := rdtsc e (ticks e) in
  let seq := next_seq_ e in
  let f := fleet e in
  {| fleet :=
       {| BotFleet.count := BotFleet.count f; BotFleet.bot_ids := BotFleet.bot_ids f;
          BotFleet.sequence_nums := (BotFleet.sequence_nums f).[i <- seq]; BotFleet.states := BotFleet.states f;
          BotFleet.send_tsc := (BotFleet.send_tsc f).[i <- tsc_now]; BotFleet.recv_tsc := BotFleet.recv_tsc f;
          BotFleet.socket_fds := BotFleet.socket_fds f; BotFleet.payloads := BotFleet.payloads f;
          BotFleet.payload_lens := BotFleet.payload_lens f |};
     mem := patch_payload (mem e) (BotFleet.payloads f i) seq tsc_now; next_seq_ := u32 (seq + 1);
     total_sends_ := total_sends_ e; total_recvs_ := total_recvs_ e; telemetry := telemetry e;
     rdtsc := rdtsc e; ticks := S (ticks e); wire := wire e; samples := samples e |}.

(** Hand bot [i]'s template to its socket. *)
Definition transmit (e : engine) (i : Z) : engine :=
  {| fleet := fleet e; mem := mem e; next_seq_ := next_seq_ e; total_sends_ := total_sends_ e; total_recvs_ := total_recvs_ e;
     telemetry := telemetry e; rdtsc := rdtsc e; ticks := ticks e;
     wire := wire e ++ [(i, read_bytes (mem e) (BotFleet.payloads (fleet e) i) (BotFleet.payload_lens (fleet e) i))];
     samples := samples e |}.

Definition count_sends (e : engine) (n : Z) : engine :=
  {| fleet := fleet e; mem := mem e; next_seq_ := next_seq_ e; total_sends_ := u64 (total_sends_ e + n);
     total_recvs_ := total_recvs_ e; telemetry := telemetry e; rdtsc := rdtsc e; ticks := ticks e; wire := wire e; samples := samples e |}.
Definition count_recv (e : engine) : engine :=
  {| fleet := fleet e; mem := mem e; next_seq_ := next_seq_ e; total_sends_ := total_sends_ e;
     total_recvs_ := u64 (total_recvs_ e + 1); telemetry := telemetry e; rdtsc := rdtsc e; ticks := ticks e; wire := wire e;
     samples := samples e |}.

(** Read the clock, mark bot [i] idle and push its sample. *)
Definition record_ack (e : engine) (i seq : Z) : engine :=
  let now := rdtsc e (ticks e) in
  let f := fleet e in
  let sample := {| send_tsc := BotFleet.send_tsc f i; recv_tsc := now; bot_id := BotFleet.bot_ids f i; seq_num := seq |} in
  {| fleet :=
       {| BotFleet.count := BotFleet.count f; BotFleet.bot_ids := BotFleet.bot_ids f;
          BotFleet.sequence_nums := BotFleet.sequence_nums f; BotFleet.states := (BotFleet.states f).[i <- IDLE];
          BotFleet.send_tsc := BotFleet.send_tsc f; BotFleet.recv_tsc := (BotFleet.recv_tsc f).[i <- now];
          BotFleet.socket_fds := BotFleet.socket_fds f; BotFleet.payloads := BotFleet.payloads f;
          BotFleet.payload_lens := BotFleet.payload_lens f |};
     mem := mem e; next_seq_ := next_seq_ e; total_sends_ := total_sends_ e; total_recvs_ := total_recvs_ e;
     telemetry := (SPSCRingBuffer.try_push 1048576 (telemetry e) sample).2; rdtsc := rdtsc e; ticks := S (ticks e);
     wire := wire e; samples := samples e ++ [(length (wire e), sample)] |}.
Definition tick (e : engine) : engine :=
  {| fleet := fleet e; mem := mem e; next_seq_ := next_seq_ e; total_sends_ := total_sends_ e; total_recvs_ := total_recvs_ e;
     telemetry := telemetry e; rdtsc := rdtsc e; ticks := S (ticks e); wire := wire e; samples := samples e |}.

Definition idle (e : engine) (i : Z) : bool := bool_decide (BotFleet.states (fleet e) i = IDLE).
Definition connected (e : engine) (i : Z) : bool := negb (BotFleet.socket_fds (fleet e) i <? 0).

(** A received acknowledgement: the number of bytes and the bytes. *)
Definition ack_ok (ret : Z) (bytes : list Z) : bool :=
  (ret =? wire_size AckMessage) && (ak_magic (of_wire bytes : AckMessage) =? ACK_MAGIC).

(** [init]: the connections ([fds i] is what connecting bot [i] gives, negative
    on failure); the fleet and whether any bot is connected. *)
Definition connect_bots (f : BotFleet.t) (fds : Z -> Z) : BotFleet.t * bool :=
  let bots := seqZ 0 (BotFleet.count f) in
  ({| BotFleet.count := BotFleet.count f; BotFleet.bot_ids := BotFleet.bot_ids f;
      BotFleet.sequence_nums := BotFleet.sequence_nums f;
      BotFleet.states := fun i => if bool_decide (i ∈ bots) && negb (fds i <? 0) then IDLE else BotFleet.states f i;
      BotFleet.send_tsc := BotFleet.send_tsc f; BotFleet.recv_tsc := BotFleet.recv_tsc f;
      BotFleet.socket_fds := fun i => if bool_decide (i ∈ bots) then if fds i <? 0 then -1 else fds i else BotFleet.socket_fds f i;
      BotFleet.payloads := BotFleet.payloads f; BotFleet.payload_lens := BotFleet.payload_lens f |},
   existsb (fun i => negb (fds i <? 0)) bots).

(** ** epoll *)

Module EpollIoEngine.

(** Phase 1: the bots from [i], [n] left; [sent i] is the result of [send]. *)
Fixpoint send_phase (n : nat) (i sends batch_size : Z) (e : engine) (sent : Z -> Z) : engine :=
  match n with
  | O => e
  | S n =>
      if negb (sends <? batch_size) then e
      else if negb (idle e i && connected e i) then send_phase n (i + 1) sends batch_size e sent
      else
        let e := transmit (stamp e i) i in
        if 0 <? sent i then send_phase n (i + 1) (sends + 1) batch_size (count_sends (set_state e i WAITING) 1) sent
        else send_phase n (i + 1) sends batch_size e sent
  end.

(** An event: readable or not, the bot, and what [recv] returns for it. *)
Record event := { ev_in : bool; ev_bot : Z; ev_ret : Z; ev_bytes : list Z }.

Definition on_event (e : engine) (ev : event) : bool * engine :=
  if negb (ev_in ev) || (BotFleet.count (fleet e) <=? ev_bot ev) then (false, e)
  else if ack_ok (ev_ret ev) (ev_bytes ev)
  then (true, count_recv (record_ack e (ev_bot ev) (ak_seq_num (of_wire (ev_bytes ev)))))
  else (false, e).

Fixpoint recv_phase (events : list event) (e : engine) : Z * engine :=
  match events with
  | [] => (0, e)
  | ev :: events =>
      let '(got, e) := on_event e ev in
      let '(n, e) := recv_phase events e in ((if got : bool then 1 else 0) + n, e)
  end.

Definition run_batch (e : engine) (batch_size : Z) (sent : Z -> Z) (events : list event) : Z * engine :=
  recv_phase events (send_phase (Z.to_nat (BotFleet.count (fleet e))) 0 0 batch_size e sent).

End EpollIoEngine.

(** ** The low-latency engine *)

Module UltraEngine.

Definition SENDMMSG_BATCH : Z := 8.

(** The gathering loop: the bots from [i], [n] left; the bots gathered. *)
Fixpoint gather (n : nat) (i : Z) (e : engine) (batch : list Z) : engine * list Z :=
  match n with
  | O => (e, batch)
  | S n =>
      if negb (Z.of_nat (length batch) <? SENDMMSG_BATCH) then (e, batch)
      else if negb (idle e i) then gather n (i + 1) e batch
      else if negb (connected e i) then gather n (i + 1) e batch
      else gather n (i + 1) (set_state (stamp e i) i SENDING) (batch ++ [i])
  end.

(** The sending loop over the gathered bots. *)
Definition send_gathered (e : engine) (batch : list Z) (sent : Z -> Z) : engine :=
  foldl (fun e i =>
    let e := transmit e i in
    if 0 <? sent i then count_sends (set_state e i WAITING) 1 else set_state e i IDLE) e batch.

Definition send_batch (e : engine) (sent : Z -> Z) : engine :=
  let '(e, batch) := gather (Z.to_nat (BotFleet.count (fleet e))) 0 e [] in
  if (length batch =? 0)%nat then e else send_gathered e batch sent.

(** An event: readable or not, the bot, and the results of the calls of
    [recv] until one of them is not a whole message. *)
Record event := { ev_in : bool; ev_bot : Z; ev_recvs : list (Z * list Z) }.

Fixpoint drain (recvs : list (Z * list Z)) (i : Z) (e : engine) : Z * engine :=
  match recvs with
  | [] => (0, e)
  | (ret, bytes) :: recvs =>
      if negb (ret =? wire_size AckMessage) then (0, e)
      else if negb (ak_magic (of_wire bytes : AckMessage) =? ACK_MAGIC) then drain recvs i e
      else
        let '(n, e) := drain recvs i (count_recv (record_ack e i (ak_seq_num (of_wire bytes)))) in (n + 1, e)
  end.

Fixpoint recv_batch (events : list event) (e : engine) : Z * engine :=
  match events with
  | [] => (0, e)
  | ev :: events =>
      if negb (ev_in ev) || (BotFleet.count (fleet e) <=? ev_bot ev) then recv_batch events e
      else
        let '(n, e) := drain (ev_recvs ev) (ev_bot ev) e in
        let '(m, e) := recv_batch events e in (n + m, e)
  end.

Definition run_batch (e : engine) (sent : Z -> Z) (events : list event) : Z * engine :=
  recv_batch events (send_batch e sent).

End UltraEngine.

(** ** The multiplexed engine: [POOL] connections, bot [i] on pipe [i mod POOL],
    whose number is in [socket_fds] *)

Module PipelineEngine.

Definition MaxBatch : Z := 512.

(** [init]: the round-robin assignment. *)
Definition assign_pipes (f : BotFleet.t) (POOL : Z) : BotFleet.t :=
  {| BotFleet.count := BotFleet.count f; BotFleet.bot_ids := BotFleet.bot_ids f;
     BotFleet.sequence_nums := BotFleet.sequence_nums f;
     BotFleet.states := fun i => if bool_decide (i ∈ seqZ 0 (BotFleet.count f)) then IDLE else BotFleet.states f i;
     BotFleet.send_tsc := BotFleet.send_tsc f; BotFleet.recv_tsc := BotFleet.recv_tsc f;
     BotFleet.socket_fds := fun i => if bool_decide (i ∈ seqZ 0 (BotFleet.count f)) then i32 (i mod POOL)
                                     else BotFleet.socket_fds f i;
     BotFleet.payloads := BotFleet.payloads f; BotFleet.payload_lens := BotFleet.payload_lens f |}.

(** Bots gathered with their pipe; [pool p] is the descriptor of pipe [p]. *)
Fixpoint gather (n : nat) (i POOL : Z) (pool : arr Z) (e : engine) (batch : list (Z * Z)) : engine * list (Z * Z) :=
  match n with
  | O => (e, batch)
  | S n =>
      if negb (Z.of_nat (length batch) <? MaxBatch) then (e, batch)
      else if negb (idle e i) then gather n (i + 1) POOL pool e batch
      else
        let pipe := u64 (BotFleet.socket_fds (fleet e) i) in
        if (POOL <=? pipe) || (pool pipe <? 0) then gather n (i + 1) POOL pool e batch
        else gather n (i + 1) POOL pool (set_state (stamp e i) i WAITING) (batch ++ [(i, pipe)])
  end.

Definition on_pipe (batch : list (Z * Z)) (p : Z) : list Z := fst <$> filter (fun bp => bp.2 = p) batch.

(** One [writev] per pipe that has messages; [written p] is its result. *)
Definition write_pipe (pool : arr Z) (batch : list (Z * Z)) (written : Z -> Z) (e : engine) (p : Z) : engine :=
  let bots := on_pipe batch p in
  if (length bots =? 0)%nat || (pool p <? 0) then e
  else
    let e := foldl transmit e bots in
    if 0 <? written p then count_sends e (Z.of_nat (length bots)) else e.

Definition send_pipelined (POOL : Z) (pool : arr Z) (e : engine) (written : Z -> Z) : engine :=
  let '(e, batch) := gather (Z.to_nat (BotFleet.count (fleet e))) 0 POOL pool e [] in
  if (length batch =? 0)%nat then e else foldl (write_pipe pool batch written) e (seqZ 0 POOL).

(** The acknowledgements in the bytes of one [recv]: a word that is not the
    magic is skipped byte by byte. *)
Fixpoint parse_acks (fuel : nat) (buf : list Z) (e : engine) : Z * engine :=
  match fuel with
  | O => (0, e)
  | S fuel =>
      if Z.of_nat (length buf) <? wire_size AckMessage then (0, e)
      else
        let ack : AckMessage := of_wire buf in
        if negb (ak_magic ack =? ACK_MAGIC) then parse_acks fuel (drop 1 buf) e
        else
          let e := if ak_bot_id ack <? BotFleet.count (fleet e) then record_ack e (ak_bot_id ack) (ak_seq_num ack) else tick e in
          let '(n, e) := parse_acks fuel (drop (Z.to_nat (wire_size AckMessage)) buf) (count_recv e) in (n + 1, e)
  end.

Fixpoint recv_chunks (chunks : list (list Z)) (e : engine) : Z * engine :=
  match chunks with
  | [] => (0, e)
  | chunk :: chunks =>
      let '(n, e) := parse_acks (length chunk) chunk e in
      let '(m, e) := recv_chunks chunks e in (n + m, e)
  end.

(** [received p] are the chunks that [recv] returns on pipe [p] before it would block. *)
Fixpoint recv_pipelined (pipes : list Z) (pool : arr Z) (received : Z -> list (list Z)) (e : engine) : Z * engine :=
  match pipes with
  | [] => (0, e)
  | p :: pipes =>
      if pool p <? 0 then recv_pipelined pipes pool received e
      else
        let '(n, e) := recv_chunks (received p) e in
        let '(m, e) := recv_pipelined pipes pool received e in (n + m, e)
  end.

Definition run_batch (POOL : Z) (pool : arr Z) (e : engine) (written : Z -> Z) (received : Z -> list (list Z)) : Z * engine :=
  recv_pipelined (seqZ 0 POOL) pool received (send_pipelined POOL pool e written).

End PipelineEngine.

(** ** io_uring *)

Module IoUringEngine.

Definition encode_send (bot_idx : Z) : Z := Z.lor (u64 (Z.shiftl bot_idx 1)) 0.
Definition encode_recv (bot_idx : Z) : Z := Z.lor (u64 (Z.shiftl bot_idx 1)) 1.
Definition is_recv (user_data : Z) : bool := negb (Z.land user_data 1 =? 0).
Definition bot_index (user_data : Z) : Z := Z.shiftr user_data 1.

(** What a slot of the submission ring asks for: a send or a receive, with its
    user data, or something else (the no-op of a fresh ring). *)
Inductive op := OpSend (user_data : Z) | OpRecv (user_data : Z) | OpOther.

(** An entry taken from the ring: prepared, or taken and not prepared, which
    leaves in the slot what it held before. *)
Inductive sqe := Prepared (o : op) | Unprepared (o : op).
Definition op_of (s : sqe) : op := match s with Prepared o | Unprepared o => o end.

(** Phase 1: the bots from [i], [n] left; [free] entries are left in the ring and
    [stale] is what the slot of the last of them holds. *)
Fixpoint submit_phase (n : nat) (i sends batch_size : Z) (free : nat) (stale : op) (registered_fds : arr Z) (e : engine)
    (entries : list sqe) : engine * list sqe * Z :=
  match n with
  | O => (e, entries, sends)
  | S n =>
      if negb (sends <? batch_size) then (e, entries, sends)
      else if negb (idle e i) || (registered_fds i <? 0)
      then submit_phase n (i + 1) sends batch_size free stale registered_fds e entries
      else
        match free with
        | O => (e, entries, sends)
        | S O => (e, entries ++ [Unprepared stale], sends)
        | S (S free) =>
            submit_phase n (i + 1) (sends + 1) batch_size free stale registered_fds (set_state (stamp e i) i SENDING)
              (entries ++ [Prepared (OpSend (encode_send i)); Prepared (OpRecv (encode_recv i))])
        end
  end.

(** The kernel serves every entry it is given, prepared or not, and takes the
    messages from the bots' memory. *)
Definition submit (e : engine) (entries : list sqe) : engine :=
  foldl (fun e s => match op_of s with OpSend ud => transmit e (bot_index ud) | _ => e end) e entries.

(** A completion: user data, result, and the bytes in the bot's receive buffer. *)
Record cqe := { cq_data : Z; cq_res : Z; cq_bytes : list Z }.

Definition on_completion (e : engine) (registered_fds : arr Z) (c : cqe) : bool * engine * arr Z :=
  let idx := bot_index (cq_data c) in
  if BotFleet.count (fleet e) <=? idx then (false, e, registered_fds)
  else if negb (is_recv (cq_data c)) then
    if 0 <=? cq_res c then (false, set_state (count_sends e 1) idx WAITING, registered_fds)
    else (false, set_state e idx IDLE, registered_fds)
  else if wire_size AckMessage <=? cq_res c then
    let ack : AckMessage := of_wire (cq_bytes c) in
    if ak_magic ack =? ACK_MAGIC then (true, count_recv (record_ack e idx (ak_seq_num ack)), registered_fds)
    else (false, set_state e idx IDLE, registered_fds)
  else if cq_res c =? 0 then (false, set_state e idx IDLE, registered_fds.[idx <- -1])
  else (false, set_state e idx IDLE, registered_fds).

Fixpoint drain (cs : list cqe) (e : engine) (registered_fds : arr Z) : Z * engine * arr Z :=
  match cs with
  | [] => (0, e, registered_fds)
  | c :: cs =>
      let '(got, e, fds) := on_completion e registered_fds c in
      let '(n, e, fds) := drain cs e fds in ((if got : bool then 1 else 0) + n, e, fds)
  end.

(** [queued] are the entries taken in earlier batches and not submitted; they go
    with the next submit, which is made when a bot was served. *)
Definition run_batch (e : engine) (registered_fds : arr Z) (queued : list sqe) (batch_size : Z) (free : nat) (stale : op)
    (completions : list cqe) : Z * engine * arr Z * list sqe :=
  let '(e, entries, sends) :=
    submit_phase (Z.to_nat (BotFleet.count (fleet e))) 0 0 batch_size free stale registered_fds e queued in
  let '(e, queued) := if 0 <? sends then (submit e entries, []) else (e, entries) in
  (drain (take 256 completions) e registered_fds, queued).

Lemma user_data_roundtrip i : 0 <= i < 2 ^ 63 ->
  bot_index (encode_send i) = i /\ is_recv (encode_send i) = false /\
  bot_index (encode_recv i) = i /\ is_recv (encode_recv i) = true.
Proof.
  intros Hi. unfold bot_index, is_recv, encode_send, encode_recv. rewrite Z.shiftl_mul_pow2, u64_small by lia.
  change (2 ^ 1) with 2. rewrite Z.lor_0_r. assert (E : Z.lor (i * 2) 1 = i * 2 + 1).
  { symmetry. rewrite <- Z.lxor_lor, <- Z.add_nocarry_lxor; [done|..]; apply Z.bits_inj'; intros j Hj;
      rewrite Z.land_spec, Z.bits_0; destruct (Z.eq_dec j 0) as [->|]; try (by rewrite Z.testbit_even_0 || by rewrite (Z.mul_comm i 2), Z.testbit_even_0);
      rewrite (Z.bits_above_log2 1 j) by (cbn; lia); apply andb_false_r. }
  rewrite E. assert (Hm : forall x, Z.land x 1 = x mod 2) by (intros x; apply (land_mask x 1); lia). rewrite !Hm.
  rewrite !Z.shiftr_div_pow2 by lia. change (2 ^ 1) with 2.
  assert (i * 2 / 2 = i /\ (i * 2) mod 2 = 0 /\ (i * 2 + 1) / 2 = i /\ (i * 2 + 1) mod 2 = 1) as (-> & -> & -> & ->)
    by (Z.div_mod_to_equations; lia). done.
Qed.

End IoUringEngine.
