(* ===== verification/EngineNet.v ===== *)
(** What the four socket engines of [Engines] have in common, whatever the
    sockets do: every message handed to a socket is the bot's own, freshly
    numbered, and every latency sample starts at a message that was sent.

    The invariant is stated with the bots that are stamped and not yet handed to
    a socket, because three of the engines gather a batch first. *)

From S2P Require Import Prelude Arena Protocol RingBuffer Fleet Engines.

Definition message_of (entry : Z * list Z) : BenchmarkMessage := of_wire entry.2.

Lemma of_wire_payload i s t : is_u32 i -> is_u32 s -> is_u64 t ->
  of_wire (payload i s t i) =
  {| bm_magic := MSG_MAGIC; bm_bot_id := i; bm_seq_num := s; bm_tsc := t; bm_body_len := BODY_SIZE |}.
Proof.
  intros Hi Hs Ht. apply of_to_wire. unfold wire_ok. cbn. unfold is_u32, is_u64, MSG_MAGIC, BODY_SIZE in *. lia.
Qed.

(** The message with which bot [i] is stamped. *)
Definition current (e : engine) (i : Z) : Z * list Z :=
  (i, payload i (BotFleet.sequence_nums (fleet e) i) (BotFleet.send_tsc (fleet e) i) i).

(** The time stamp of the last message of bot [i] on the wire, 0 if there is none. *)
Definition last_tsc (w : list (Z * list Z)) (i : Z) : Z :=
  match last (filter (fun entry => entry.1 = i) w) with Some entry => bm_tsc (message_of entry) | None => 0 end.

(** A sample of a bot of the fleet, taken after [k.1] messages were handed over,
    measures from the last of them that was the bot's. *)
Definition sample_ok (n : Z) (w : list (Z * list Z)) (k : nat * LatencySample) : Prop :=
  0 <= bot_id k.2 < n /\ (k.1 <= length w)%nat /\ send_tsc k.2 = last_tsc (take k.1 w) (bot_id k.2).

Definition entry_ok (n : Z) (entry : Z * list Z) : Prop :=
  exists s t, 0 <= entry.1 < n /\ is_u32 s /\ is_u64 t /\ entry.2 = payload entry.1 s t entry.1.

(** [P] are the bots stamped and not handed over, [A] the messages handed over
    again by submission entries nobody prepared; the others, [W], carry the
    numbers from 0 on. *)
Record inv (n : Z) (A : list (Z * list Z)) (e : engine) (P : list Z) : Prop := {
  in_count : BotFleet.count (fleet e) = n;
  in_ids : forall i, 0 <= i < n -> BotFleet.bot_ids (fleet e) i = i;
  in_clock : forall k, is_u64 (rdtsc e k);
  in_templates : templates (mem e) (fleet e) (BotFleet.sequence_nums (fleet e)) (BotFleet.send_tsc (fleet e));
  in_range : forall i, 0 <= i < n -> is_u32 (BotFleet.sequence_nums (fleet e) i) /\ is_u64 (BotFleet.send_tsc (fleet e) i);
  in_wire : Forall (entry_ok n) (wire e);
  in_pending : NoDup P /\ Forall (fun i => 0 <= i < n) P;
  in_seqs : exists W, wire e ≡ₚ W ++ A /\
    ((bm_seq_num ∘ message_of) <$> W) ++ (BotFleet.sequence_nums (fleet e) <$> P) ≡ₚ
      (u32 <$> seqZ 0 (Z.of_nat (length W + length P))) /\
    next_seq_ e = u32 (Z.of_nat (length W + length P));
  in_current : forall i, 0 <= i < n -> i ∉ P -> BotFleet.send_tsc (fleet e) i = last_tsc (wire e) i;
  in_samples : Forall (sample_ok n (wire e)) (samples e) }.

Lemma templates_fleet m f f' seq tsc : templates m f seq tsc ->
  BotFleet.count f' = BotFleet.count f -> BotFleet.bot_ids f' = BotFleet.bot_ids f ->
  BotFleet.payloads f' = BotFleet.payloads f -> BotFleet.payload_lens f' = BotFleet.payload_lens f ->
  templates m f' seq tsc.
Proof. intros [H1 H2 H3] E1 E2 E3 E4. by split; rewrite ?E1, ?E2, ?E3, ?E4. Qed.

Lemma last_tsc_snoc w entry i :
  last_tsc (w ++ [entry]) i = if bool_decide (entry.1 = i) then bm_tsc (message_of entry) else last_tsc w i.
Proof.
  unfold last_tsc. rewrite filter_app, filter_cons, filter_nil. case_bool_decide as H.
  - by rewrite decide_True, last_snoc by done.
  - by rewrite decide_False, app_nil_r by done.
Qed.

Section Shared.
Context (n : Z) (Hn : 0 <= n < 2 ^ 32) (A : list (Z * list Z)).

Lemma inv_perm e P P' : P ≡ₚ P' -> inv n A e P -> inv n A e P'.
Proof.
  intros HP [I1 I2 I3 I4 I5 I6 [I7 I7'] (W & HW & I8 & I9) I10 I11].
  pose proof (Permutation_length HP) as HL. split; try done.
  - split; [by rewrite <- HP|by rewrite <- HP].
  - exists W. rewrite <- HL. split; [done|]. split; [by rewrite <- HP|done].
  - intros i Hi Hin. apply I10; [done|]. by rewrite HP.
Qed.

(** Operations that touch only states and counters. *)
Lemma set_state_inv e P i s : inv n A e P -> inv n A (set_state e i s) P.
Proof. intros [I1 I2 I3 I4 I5 I6 I7 I8 I9 I10]. split; try done. by eapply templates_fleet. Qed.
Lemma count_sends_inv e P k : inv n A e P -> inv n A (count_sends e k) P.
Proof. by intros []. Qed.
Lemma count_recv_inv e P : inv n A e P -> inv n A (count_recv e) P.
Proof. by intros []. Qed.
Lemma tick_inv e P : inv n A e P -> inv n A (tick e) P.
Proof. by intros []. Qed.

Lemma stamp_inv e P i : inv n A e P -> 0 <= i < n -> i ∉ P -> inv n A (stamp e i) (P ++ [i]).
Proof.
  intros [I1 I2 I3 I4 I5 I6 [I7 I7'] (W & HW & I8 & I9) I10 I11] Hi Hin.
  assert (HL : Z.of_nat (length W + length (P ++ [i])) = Z.of_nat (length W + length P) + 1)
    by (rewrite length_app; cbn [length]; lia).
  split; cbn [stamp fleet mem next_seq_ wire samples rdtsc BotFleet.count BotFleet.bot_ids BotFleet.sequence_nums
    BotFleet.send_tsc]; try done.
  - eapply templates_fleet; [apply patch_templates; [exact I4|lia]|done..].
  - intros j Hj. destruct (Z.eq_dec j i) as [->|Hne].
    + rewrite !upd_eq. split; [rewrite I9; apply u32_range|apply I3].
    + rewrite !upd_ne by done. by apply I5.
  - split; [apply NoDup_app; split; [done|split; [|apply NoDup_singleton]]|apply Forall_app; split; [done|by constructor]].
    intros x Hx ->%list_elem_of_singleton. done.
  - exists W. split; [done|]. rewrite HL. split.
    + rewrite fmap_app. cbn [fmap list_fmap]. rewrite upd_eq, app_assoc.
      rewrite (list_fmap_ext _ (BotFleet.sequence_nums (fleet e)) P) by
        (intros k j Hj; apply upd_ne; intros ->; apply Hin; by eapply list_elem_of_lookup_2).
      rewrite I8, I9, seqZ_app, fmap_app by lia. done.
    + rewrite I9. unfold u32. by rewrite Zplus_mod_idemp_l.
  - intros j Hj Hnot. apply not_elem_of_app in Hnot as [Hnp Hnj]. rewrite list_elem_of_singleton in Hnj.
    rewrite upd_ne by done. by apply I10.
Qed.

Lemma sample_ok_mono w w' s : sample_ok n w s -> sample_ok n (w ++ w') s.
Proof. intros (H1 & H2 & H3). split; [done|]. rewrite length_app, take_app_le by done. split; [lia|done]. Qed.

(** What is handed over for a bot is its message. *)
Lemma transmit_wire e P i : inv n A e P -> 0 <= i < n ->
  wire (transmit e i) = wire e ++ [current e i] /\ entry_ok n (current e i) /\
  bm_seq_num (message_of (current e i)) = BotFleet.sequence_nums (fleet e) i /\
  bm_tsc (message_of (current e i)) = BotFleet.send_tsc (fleet e) i.
Proof.
  intros [I1 I2 I3 I4 I5 _ _ _ _ _] Hi. destruct (I5 i Hi) as [Hs Ht]. split.
  { unfold transmit, current. cbn [wire]. do 2 f_equal. f_equal. rewrite (tp_lens _ _ _ _ I4), (tp_bytes _ _ _ _ I4), I2 by lia. done. }
  split; [exists (BotFleet.sequence_nums (fleet e) i), (BotFleet.send_tsc (fleet e) i); done|].
  unfold message_of, current. cbn [snd]. rewrite of_wire_payload; [done|unfold is_u32; lia|done|done].
Qed.

(** The times of the last messages after bot [i]'s is handed over (again). *)
Lemma transmit_current e (P P' : list Z) i : inv n A e P -> 0 <= i < n -> (forall j, j ∉ P' -> j = i \/ j ∉ P) ->
  forall j, 0 <= j < n -> j ∉ P' -> BotFleet.send_tsc (fleet e) j = last_tsc (wire e ++ [current e i]) j.
Proof.
  intros H Hi HP j Hj Hnj. destruct (transmit_wire e P i H Hi) as (_ & _ & _ & Et). rewrite last_tsc_snoc.
  case_bool_decide as E; [cbn in E; subst j; by rewrite Et|].
  destruct (HP j Hnj) as [->|Hp]; [done|]. by apply (in_current _ _ _ _ H).
Qed.

Lemma transmit_inv e P i : inv n A e (i :: P) -> inv n A (transmit e i) P.
Proof.
  intros H. pose proof H as [I1 I2 I3 I4 I5 I6 [I7 I7'] (W & HW & I8 & I9) I10 I11].
  apply NoDup_cons in I7 as [Hin I7]. apply Forall_cons in I7' as [Hi I7'].
  destruct (transmit_wire e _ i H Hi) as (Ew & Eo & Em & Et).
  assert (HL : (length (W ++ [current e i]) + length P = length W + length (i :: P))%nat)
    by (rewrite length_app; cbn [length]; lia).
  split; rewrite ?Ew; try done.
  - apply Forall_app. split; [done|]. by apply Forall_singleton.
  - exists (W ++ [current e i]). rewrite HL. split; [rewrite HW; solve_Permutation|]. split; [|done].
    rewrite fmap_app, <- app_assoc. cbn [fmap list_fmap app] in *. unfold compose in *. rewrite Em. exact I8.
  - apply (transmit_current e (i :: P) P i H Hi). intros j Hj. destruct (Z.eq_dec j i); [by left|right].
    by apply not_elem_of_cons.
  - eapply Forall_impl; [exact I11|]. intros x. apply sample_ok_mono.
Qed.

(** A message handed over by an entry that nobody prepared. *)
Lemma again_inv e P i : inv n A e P -> 0 <= i < n -> inv n (A ++ [current e i]) (transmit e i) P.
Proof.
  intros H Hi. pose proof H as [I1 I2 I3 I4 I5 I6 I7 (W & HW & I8 & I9) I10 I11].
  destruct (transmit_wire e _ i H Hi) as (Ew & Eo & _).
  split; rewrite ?Ew; try done.
  - apply Forall_app. split; [done|]. by apply Forall_singleton.
  - exists W. split; [rewrite HW; solve_Permutation|done].
  - apply (transmit_current e P P i H Hi). by right.
  - eapply Forall_impl; [exact I11|]. intros x. apply sample_ok_mono.
Qed.

Lemma record_ack_inv e P i seq : inv n A e P -> 0 <= i < n -> i ∉ P -> inv n A (record_ack e i seq) P.
Proof.
  intros [I1 I2 I3 I4 I5 I6 I7 I8 I9 I10] Hi Hin. split; try done; [by eapply templates_fleet|].
  apply Forall_app. split; [done|]. apply Forall_singleton. unfold sample_ok. cbn [fst snd bot_id send_tsc].
  rewrite I2, firstn_all by done. split; [done|]. split; [done|]. by apply I9.
Qed.

(** A bot stamped and handed over at once. *)
Lemma stamp_transmit_inv e i : inv n A e [] -> 0 <= i < n -> inv n A (transmit (stamp e i) i) [].
Proof. intros H Hi. apply transmit_inv, (stamp_inv e [] i); [done|done|apply not_elem_of_nil]. Qed.

Lemma fold_transmit_inv bots : forall e P, inv n A e (bots ++ P) -> inv n A (foldl transmit e bots) P.
Proof. induction bots as [|i bots IH]; intros e P H; [done|]. cbn [foldl]. apply IH. by apply transmit_inv. Qed.

(** ** epoll *)

Lemma epoll_send_inv m : forall i sends batch e sent, inv n A e [] -> 0 <= i -> i + Z.of_nat m <= n ->
  inv n A (EpollIoEngine.send_phase m i sends batch e sent) [].
Proof.
  induction m as [|m IH]; intros i sends batch e sent H Hi Hm; [done|]. cbn [EpollIoEngine.send_phase].
  destruct (negb (sends <? batch)); [done|]. destruct (negb _); [apply IH; [done|lia..]|].
  pose proof (stamp_transmit_inv e i H ltac:(lia)) as H'. destruct (0 <? sent i); apply IH; try lia; [|done].
  by apply count_sends_inv, set_state_inv.
Qed.

Lemma epoll_recv_inv events : forall e, inv n A e [] -> Forall (fun ev => 0 <= EpollIoEngine.ev_bot ev) events ->
  inv n A (EpollIoEngine.recv_phase events e).2 [].
Proof.
  induction events as [|ev events IH]; intros e H Hev; [done|]. inversion Hev; subst. cbn [EpollIoEngine.recv_phase].
  assert (H' : inv n A (EpollIoEngine.on_event e ev).2 []).
  { unfold EpollIoEngine.on_event. rewrite (in_count _ _ _ _ H).
    destruct (negb _), (Z.leb_spec n (EpollIoEngine.ev_bot ev)); cbn [orb]; try done.
    destruct (ack_ok _ _); [|done]. apply count_recv_inv, record_ack_inv; [done|lia|apply not_elem_of_nil]. }
  destruct (EpollIoEngine.on_event e ev) as [got e1]. specialize (IH e1 H' ltac:(done)).
  by destruct (EpollIoEngine.recv_phase events e1).
Qed.

Lemma epoll_batch_inv e batch sent events : inv n A e [] -> Forall (fun ev => 0 <= EpollIoEngine.ev_bot ev) events ->
  inv n A (EpollIoEngine.run_batch e batch sent events).2 [].
Proof.
  intros H Hev. apply epoll_recv_inv; [|done]. apply epoll_send_inv; [done|lia|]. rewrite (in_count _ _ _ _ H). lia.
Qed.

(** ** The low-latency engine *)

Lemma ultra_gather_inv m : forall i e batch, inv n A e batch -> Forall (fun j => j < i) batch -> 0 <= i -> i + Z.of_nat m <= n ->
  let '(e', batch') := UltraEngine.gather m i e batch in inv n A e' batch'.
Proof.
  induction m as [|m IH]; intros i e batch H Hb Hi Hm; [done|]. cbn [UltraEngine.gather].
  assert (Hb' : Forall (fun j => j < i + 1) batch) by (eapply Forall_impl; [exact Hb|]; cbn; lia).
  destruct (negb (_ <? _)); [done|]. destruct (negb (idle e i)); [apply IH; (done || lia)|].
  destruct (negb (connected e i)); [apply IH; (done || lia)|]. apply IH; [|apply Forall_app; split; [done|by repeat constructor; lia]|lia|lia].
  apply set_state_inv, stamp_inv; [done|lia|]. intros Hin. apply (proj1 (Forall_forall _ _) Hb) in Hin. lia.
Qed.

Lemma ultra_send_inv batch sent : forall e, inv n A e batch -> inv n A (UltraEngine.send_gathered e batch sent) [].
Proof.
  unfold UltraEngine.send_gathered. induction batch as [|i batch IH]; intros e H; [done|]. cbn [foldl]. apply IH.
  apply transmit_inv in H. destruct (0 <? sent i); [by apply count_sends_inv, set_state_inv|by apply set_state_inv].
Qed.

Lemma ultra_drain_inv recvs i : forall e, inv n A e [] -> 0 <= i < n -> inv n A (UltraEngine.drain recvs i e).2 [].
Proof.
  induction recvs as [|[ret bytes] recvs IH]; intros e H Hi; [done|]. cbn [UltraEngine.drain].
  destruct (negb _); [done|]. destruct (negb _); [by apply IH|].
  assert (H' : inv n A (count_recv (record_ack e i (ak_seq_num (of_wire bytes)))) [])
    by (apply count_recv_inv, record_ack_inv; [done|lia|apply not_elem_of_nil]).
  specialize (IH _ H' Hi). by destruct (UltraEngine.drain _ _ _).
Qed.

Lemma ultra_recv_inv events : forall e, inv n A e [] -> Forall (fun ev => 0 <= UltraEngine.ev_bot ev) events ->
  inv n A (UltraEngine.recv_batch events e).2 [].
Proof.
  induction events as [|ev events IH]; intros e H Hev; [done|]. inversion Hev; subst. cbn [UltraEngine.recv_batch].
  rewrite (in_count _ _ _ _ H). destruct (negb _), (Z.leb_spec n (UltraEngine.ev_bot ev)); cbn [orb]; try by apply IH.
  pose proof (ultra_drain_inv (UltraEngine.ev_recvs ev) (UltraEngine.ev_bot ev) e H ltac:(lia)) as H'.
  destruct (UltraEngine.drain _ _ _) as [k e1]. specialize (IH e1 H' ltac:(done)). by destruct (UltraEngine.recv_batch events e1).
Qed.

Lemma ultra_send_batch_inv e sent : inv n A e [] -> inv n A (UltraEngine.send_batch e sent) [].
Proof.
  intros H. unfold UltraEngine.send_batch.
  pose proof (ultra_gather_inv (Z.to_nat (BotFleet.count (fleet e))) 0 e [] H ltac:(constructor) ltac:(lia)
    ltac:(rewrite (in_count _ _ _ _ H); lia)) as Hg.
  destruct (UltraEngine.gather _ _ _ _) as [e1 batch]. destruct batch as [|i batch]; [done|]. by apply ultra_send_inv.
Qed.

Lemma ultra_batch_inv e sent events : inv n A e [] -> Forall (fun ev => 0 <= UltraEngine.ev_bot ev) events ->
  inv n A (UltraEngine.run_batch e sent events).2 [].
Proof. intros H Hev. by apply ultra_recv_inv, Hev; apply ultra_send_batch_inv. Qed.

(** ** The multiplexed engine *)

(** The bots of a batch, pipe by pipe. *)
Lemma by_pipes (batch : list (Z * Z)) pipes : NoDup pipes -> Forall (fun bp => bp.2 ∈ pipes) batch ->
  fst <$> batch ≡ₚ concat (PipelineEngine.on_pipe batch <$> pipes).
Proof.
  intros Hnd. revert batch. induction Hnd as [|p pipes Hp Hnd IH]; intros batch Hb.
  { destruct batch; [done|]. inversion Hb as [|? ? H]. by apply not_elem_of_nil in H. }
  cbn [fmap list_fmap concat]. rewrite <- (filter_app_complement (fun bp => bp.2 = p) batch) at 1.
  rewrite fmap_app. unfold PipelineEngine.on_pipe at 1. apply Permutation_app_head. rewrite IH.
  - match goal with |- ?x ≡ₚ ?y => assert (x = y) as ->; [|done] end. f_equal. apply list_fmap_ext. intros k q Hq. unfold PipelineEngine.on_pipe. f_equal.
    rewrite list_filter_filter. apply list_filter_iff. intros bp. split; [tauto|]. intros ->. split; [done|].
    intros ->. apply Hp. by eapply list_elem_of_lookup_2.
  - apply Forall_forall. intros bp [Hne Hin]%list_elem_of_filter. apply (proj1 (Forall_forall _ _) Hb) in Hin.
    apply elem_of_cons in Hin as [?|?]; done.
Qed.

Lemma pipeline_gather_inv POOL pool m : forall i e batch, inv n A e (fst <$> batch) -> Forall (fun bp => bp.1 < i) batch ->
  Forall (fun bp => 0 <= bp.2 < POOL /\ 0 <= pool bp.2) batch -> 0 <= i -> i + Z.of_nat m <= n ->
  let '(e', batch') := PipelineEngine.gather m i POOL pool e batch in
  inv n A e' (fst <$> batch') /\ Forall (fun bp => 0 <= bp.2 < POOL /\ 0 <= pool bp.2) batch'.
Proof.
  induction m as [|m IH]; intros i e batch H Hb Hp Hi Hm; [done|]. cbn [PipelineEngine.gather].
  assert (Hb' : Forall (fun bp => bp.1 < i + 1) batch) by (eapply Forall_impl; [exact Hb|]; cbn; lia).
  destruct (negb (_ <? _)); [done|]. destruct (negb (idle e i)); [apply IH; (done || lia)|].
  set (pipe := u64 (BotFleet.socket_fds (fleet e) i)). pose proof (u64_range (BotFleet.socket_fds (fleet e) i)) as Hr. fold pipe in Hr.
  destruct (Z.leb_spec POOL pipe), (Z.ltb_spec (pool pipe) 0); cbn [orb]; try (apply IH; (done || lia)).
  apply IH; [|apply Forall_app; split; [done|apply Forall_singleton; cbn; lia]..|lia|lia].
  rewrite fmap_app. apply set_state_inv, stamp_inv; [done|lia|]. intros ([b q] & -> & Hin)%list_elem_of_fmap.
  apply (proj1 (Forall_forall _ _) Hb) in Hin. cbn in Hin. lia.
Qed.

Lemma pipeline_write_inv pool batch written pipes : forall e, Forall (fun bp => 0 <= pool bp.2) batch ->
  inv n A e (concat (PipelineEngine.on_pipe batch <$> pipes)) ->
  inv n A (foldl (PipelineEngine.write_pipe pool batch written) e pipes) [].
Proof.
  induction pipes as [|p pipes IH]; intros e Hp H; [done|]. cbn [foldl fmap list_fmap concat] in *. apply IH; [done|].
  unfold PipelineEngine.write_pipe. destruct (PipelineEngine.on_pipe batch p) as [|b bots] eqn:E; [done|].
  assert (Hin : b ∈ PipelineEngine.on_pipe batch p) by (rewrite E; by left).
  apply list_elem_of_fmap in Hin as ([b' q] & -> & [Hq Hin]%list_elem_of_filter). cbn in Hq. subst q.
  apply (proj1 (Forall_forall _ _) Hp) in Hin. cbn [snd] in Hin. rewrite (proj2 (Z.ltb_ge _ _)) by lia.
  cbn [length Nat.eqb orb]. apply fold_transmit_inv in H. destruct (0 <? written p); [by apply count_sends_inv|done].
Qed.

Lemma pipeline_send_inv POOL pool e written : inv n A e [] -> inv n A (PipelineEngine.send_pipelined POOL pool e written) [].
Proof.
  intros H. unfold PipelineEngine.send_pipelined.
  pose proof (pipeline_gather_inv POOL pool (Z.to_nat (BotFleet.count (fleet e))) 0 e [] H ltac:(constructor) ltac:(constructor)
    ltac:(lia) ltac:(rewrite (in_count _ _ _ _ H); lia)) as Hg.
  destruct (PipelineEngine.gather _ _ _ _ _ _) as [e1 batch]. destruct Hg as [Hg Hp]. destruct batch as [|bp batch]; [done|].
  cbn [length Nat.eqb]. apply pipeline_write_inv; [eapply Forall_impl; [exact Hp|]; tauto|].
  eapply inv_perm; [|exact Hg]. apply by_pipes; [apply NoDup_seqZ|].
  eapply Forall_impl; [exact Hp|]. intros x [Hx _]. apply elem_of_seqZ. lia.
Qed.

Lemma ack_bot_range bytes : Forall (fun b => 0 <= b < 256) bytes -> 0 <= ak_bot_id (of_wire bytes : AckMessage).
Proof.
  intros H. unfold of_wire. cbn [wire_build AckMessage_wire wire_layout ak_bot_id AckMessage_layout decode nthz nth].
  assert (Hv : forall l, Forall (fun b => 0 <= b < 256) l -> 0 <= le_value l).
  { induction 1; cbn [le_value]; lia. }
  apply Hv. by apply Forall_take, Forall_drop.
Qed.

Lemma pipeline_parse_inv fuel : forall buf e, inv n A e [] -> Forall (fun b => 0 <= b < 256) buf ->
  inv n A (PipelineEngine.parse_acks fuel buf e).2 [].
Proof.
  induction fuel as [|fuel IH]; intros buf e H Hb; [done|]. cbn [PipelineEngine.parse_acks].
  destruct (_ <? _); [done|]. destruct (negb _); [apply IH; [done|by apply Forall_drop]|].
  pose proof (ack_bot_range buf Hb) as Hr. set (ack := of_wire buf : AckMessage) in *.
  assert (H' : inv n A (count_recv (if ak_bot_id ack <? BotFleet.count (fleet e)
    then record_ack e (ak_bot_id ack) (ak_seq_num ack) else tick e)) []).
  { apply count_recv_inv. rewrite (in_count _ _ _ _ H). destruct (Z.ltb_spec (ak_bot_id ack) n); [|by apply tick_inv].
    apply record_ack_inv; [done|lia|apply not_elem_of_nil]. }
  specialize (IH (drop (Z.to_nat (wire_size AckMessage)) buf) _ H' ltac:(by apply Forall_drop)).
  by destruct (PipelineEngine.parse_acks fuel _ _).
Qed.

Lemma pipeline_chunks_inv chunks : forall e, inv n A e [] -> Forall (Forall (fun b => 0 <= b < 256)) chunks ->
  inv n A (PipelineEngine.recv_chunks chunks e).2 [].
Proof.
  induction chunks as [|c chunks IH]; intros e H Hc; [done|]. inversion Hc; subst. cbn [PipelineEngine.recv_chunks].
  pose proof (pipeline_parse_inv (length c) c e H ltac:(done)) as H'. destruct (PipelineEngine.parse_acks _ _ _) as [k e1].
  specialize (IH e1 H' ltac:(done)). by destruct (PipelineEngine.recv_chunks chunks e1).
Qed.

Lemma pipeline_recv_inv pool received pipes : (forall p, Forall (Forall (fun b => 0 <= b < 256)) (received p)) ->
  forall e, inv n A e [] -> inv n A (PipelineEngine.recv_pipelined pipes pool received e).2 [].
Proof.
  intros Hrec. induction pipes as [|p pipes IH]; intros e H; [done|]. cbn [PipelineEngine.recv_pipelined].
  destruct (_ <? _); [by apply IH|].
  pose proof (pipeline_chunks_inv (received p) e H (Hrec p)) as H'. destruct (PipelineEngine.recv_chunks _ _) as [k e1].
  specialize (IH e1 H'). by destruct (PipelineEngine.recv_pipelined _ _ _ _).
Qed.

Lemma pipeline_batch_inv POOL pool e written received : inv n A e [] ->
  (forall p, Forall (Forall (fun b => 0 <= b < 256)) (received p)) ->
  inv n A (PipelineEngine.run_batch POOL pool e written received).2 [].
Proof. intros H Hrec. by apply pipeline_recv_inv, pipeline_send_inv. Qed.

(** ** io_uring *)

Lemma uring_drain_inv cs : forall e fds, inv n A e [] -> Forall (fun c => 0 <= IoUringEngine.cq_data c) cs ->
  inv n A (IoUringEngine.drain cs e fds).1.2 [].
Proof.
  induction cs as [|c cs IH]; intros e fds H Hc; [done|]. inversion Hc as [|? ? Hd Hcs]; subst. cbn [IoUringEngine.drain].
  assert (H' : inv n A (IoUringEngine.on_completion e fds c).1.2 []).
  { unfold IoUringEngine.on_completion. rewrite (in_count _ _ _ _ H).
    destruct (Z.leb_spec n (IoUringEngine.bot_index (IoUringEngine.cq_data c))) as [|Hlt]; [done|].
    assert (Hi : 0 <= IoUringEngine.bot_index (IoUringEngine.cq_data c)) by (unfold IoUringEngine.bot_index; by apply Z.shiftr_nonneg).
    destruct (negb _); [destruct (0 <=? _); cbn [fst snd]; [by apply set_state_inv, count_sends_inv|by apply set_state_inv]|].
    destruct (_ <=? _); [|destruct (_ =? 0); cbn [fst snd]; by apply set_state_inv].
    destruct (_ =? _); cbn [fst snd]; [|by apply set_state_inv].
    apply count_recv_inv, record_ack_inv; [done|lia|apply not_elem_of_nil]. }
  destruct (IoUringEngine.on_completion e fds c) as [[got e1] fds1]. cbn [fst snd] in H'. specialize (IH e1 fds1 H' Hcs).
  by destruct (IoUringEngine.drain cs e1 fds1) as [[k e2] fds2].
Qed.

(** The bots an entry list sends for: by prepared entries, and by stale ones. *)
Definition sends_of (o : IoUringEngine.op) : list Z :=
  match o with IoUringEngine.OpSend ud => [IoUringEngine.bot_index ud] | _ => [] end.
Definition send_bots (entries : list IoUringEngine.sqe) : list Z :=
  concat ((fun s => match s with IoUringEngine.Prepared o => sends_of o | _ => [] end) <$> entries).
Definition stale_bots (entries : list IoUringEngine.sqe) : list Z :=
  concat ((fun s => match s with IoUringEngine.Unprepared o => sends_of o | _ => [] end) <$> entries).

Lemma send_bots_app a b : send_bots (a ++ b) = send_bots a ++ send_bots b.
Proof. unfold send_bots. by rewrite fmap_app, concat_app. Qed.
Lemma stale_bots_app a b : stale_bots (a ++ b) = stale_bots a ++ stale_bots b.
Proof. unfold stale_bots. by rewrite fmap_app, concat_app. Qed.

(** No entry is left unprepared, or what is left there is no send. *)
Definition no_stale_send (free : nat) (stale : IoUringEngine.op) : Prop := Nat.Even free \/ sends_of stale = [].

Lemma uring_submit_phase_inv m stale : Forall (fun i => 0 <= i < n) (sends_of stale) ->
  forall i sends batch free fds e entries, inv n A e (send_bots entries) ->
  Forall (fun j => j < i) (send_bots entries) -> sends = Z.of_nat (length (send_bots entries)) -> 0 <= i -> i + Z.of_nat m <= n ->
  Forall (fun i => 0 <= i < n) (stale_bots entries) ->
  let '(e', entries', sends') := IoUringEngine.submit_phase m i sends batch free stale fds e entries in
  inv n A e' (send_bots entries') /\ sends' = Z.of_nat (length (send_bots entries')) /\
  Forall (fun i => 0 <= i < n) (stale_bots entries') /\
  (no_stale_send free stale -> stale_bots entries' = stale_bots entries).
Proof.
  intros Hst. induction m as [|m IH]; intros i sends batch free fds e entries H Hb Hs Hi Hm Hr; [done|]. cbn [IoUringEngine.submit_phase].
  assert (Hb' : Forall (fun j => j < i + 1) (send_bots entries)) by (eapply Forall_impl; [exact Hb|]; cbn; lia).
  destruct (negb (_ <? _)); [done|]. destruct (_ || _); [apply IH; (done || lia)|].
  destruct free as [|[|free]]; [done| |].
  { rewrite send_bots_app, stale_bots_app. unfold send_bots at 2 4. unfold stale_bots at 2 4. cbn [fmap list_fmap concat]. rewrite !app_nil_r.
    split; [done|]. split; [done|]. split; [by apply Forall_app|]. intros [[k Hk]|E]; [lia|]. by rewrite E, app_nil_r. }
  set (entries1 := entries ++ _).
  assert (Eb : send_bots entries1 = send_bots entries ++ [i] /\ stale_bots entries1 = stale_bots entries).
  { unfold entries1. rewrite send_bots_app, stale_bots_app. cbn.
    destruct (IoUringEngine.user_data_roundtrip i ltac:(lia)) as (-> & _). by rewrite app_nil_r. }
  destruct Eb as [Eb Es].
  specialize (IH (i + 1) (sends + 1) batch free fds (set_state (stamp e i) i SENDING) entries1). rewrite Eb, Es in IH.
  destruct (IoUringEngine.submit_phase _ _ _ _ _ _ _ _ entries1) as [[e' entries'] sends'].
  destruct IH as (J1 & J2 & J3 & J4); [|apply Forall_app; split; [done|apply Forall_singleton; lia]|rewrite length_app; cbn [length]; lia|lia|lia|done|].
  { apply set_state_inv, stamp_inv; [done|lia|]. intros Hin. apply (proj1 (Forall_forall _ _) Hb) in Hin. lia. }
  split; [done|]. split; [done|]. split; [done|]. intros [[k Hk]|E]; apply J4; [left; exists (k - 1)%nat; lia|by right].
Qed.

End Shared.

Lemma uring_submit_inv n (Hn : 0 <= n < 2 ^ 32) entries : forall A e, inv n A e (send_bots entries) ->
  Forall (fun i => 0 <= i < n) (stale_bots entries) ->
  exists A', inv n A' (IoUringEngine.submit e entries) [] /\ (stale_bots entries = [] -> A' = A).
Proof.
  unfold IoUringEngine.submit. induction entries as [|s entries IH]; intros A e H Hr; [by exists A|]. cbn [foldl].
  destruct s as [[ud|ud|]|[ud|ud|]]; cbn [IoUringEngine.op_of]; try (by apply IH).
  - apply IH; [|done]. by apply transmit_inv.
  - apply Forall_cons in Hr as [Hi Hr]. cbn in Hi.
    destruct (IH (A ++ [current e (IoUringEngine.bot_index ud)]) (transmit e (IoUringEngine.bot_index ud))) as (A' & H' & _);
      [|done|exists A'; split; [exact H'|done]]. by apply again_inv.
Qed.

(** A batch; the entries that stay queued are unprepared ones. *)
Lemma uring_batch_inv n A (Hn : 0 <= n < 2 ^ 32) e fds queued batch free stale cs : inv n A e [] ->
  send_bots queued = [] -> Forall (fun i => 0 <= i < n) (stale_bots queued) -> Forall (fun i => 0 <= i < n) (sends_of stale) ->
  Forall (fun c => 0 <= IoUringEngine.cq_data c) cs ->
  let r := IoUringEngine.run_batch e fds queued batch free stale cs in
  send_bots r.2 = [] /\ Forall (fun i => 0 <= i < n) (stale_bots r.2) /\
  exists A', inv n A' r.1.1.2 [] /\ (no_stale_send free stale -> stale_bots queued = [] -> A' = A /\ stale_bots r.2 = []).
Proof.
  intros H Hq Hr Hst Hc r. unfold r, IoUringEngine.run_batch.
  pose proof (uring_submit_phase_inv n Hn A (Z.to_nat (BotFleet.count (fleet e))) stale Hst 0 0 batch free fds e queued) as Hs.
  rewrite Hq in Hs. specialize (Hs H ltac:(constructor) eq_refl ltac:(lia) ltac:(rewrite (in_count _ _ _ _ H); lia) Hr).
  destruct (IoUringEngine.submit_phase _ _ _ _ _ _ _ _ _) as [[e1 entries] sends]. destruct Hs as (H1 & -> & Hr1 & Hns).
  destruct (Z.ltb_spec 0 (Z.of_nat (length (send_bots entries)))) as [Hl|Hl]; cbn [fst snd].
  - split; [done|]. split; [constructor|]. destruct (uring_submit_inv n Hn entries A e1 H1 Hr1) as (A' & H' & HA).
    exists A'. split; [by apply uring_drain_inv, Forall_take|]. intros Hf Hs. split; [|done]. apply HA. by rewrite Hns.
  - assert (E : send_bots entries = []) by (destruct (send_bots entries); [done|cbn [length] in Hl; lia]). rewrite E in H1.
    split; [done|]. split; [done|]. exists A. split; [by apply uring_drain_inv, Forall_take|]. intros Hf Hs. by rewrite Hns.
Qed.

(** ** Runs *)

(** A run is driven by one engine. *)
Inductive kind := Epoll | Ultra | Pipeline | Uring.

(** The engine with the table of descriptors and the unsubmitted entries of the
    io_uring one. *)
Record machine := { m_engine : engine; m_fds : arr Z; m_queue : list IoUringEngine.sqe }.
Definition with_engine (M : machine) (e : engine) : machine := {| m_engine := e; m_fds := m_fds M; m_queue := m_queue M |}.

(** A batch of the engine of the given kind, whatever the kernel returns: the
    events and completions, the results of the calls, the free entries and what
    the slot of the last one held (an entry for a bot of the fleet or none).  In a
    [clean] run no batch of the io_uring engine leaves a send in a slot it took
    and did not prepare. *)
Inductive batch (clean : bool) : kind -> machine -> machine -> Prop :=
| b_epoll M batch_size sent events : Forall (fun ev => 0 <= EpollIoEngine.ev_bot ev) events ->
    batch clean Epoll M (with_engine M (EpollIoEngine.run_batch (m_engine M) batch_size sent events).2)
| b_ultra M sent events : Forall (fun ev => 0 <= UltraEngine.ev_bot ev) events ->
    batch clean Ultra M (with_engine M (UltraEngine.run_batch (m_engine M) sent events).2)
| b_pipeline M POOL pool written received : (forall p, Forall (Forall (fun b => 0 <= b < 256)) (received p)) ->
    batch clean Pipeline M (with_engine M (PipelineEngine.run_batch POOL pool (m_engine M) written received).2)
| b_uring M batch_size free stale cs : Forall (fun c => 0 <= IoUringEngine.cq_data c) cs ->
    Forall (fun i => 0 <= i < BotFleet.count (fleet (m_engine M))) (sends_of stale) ->
    (clean = true -> no_stale_send free stale) ->
    let r := IoUringEngine.run_batch (m_engine M) (m_fds M) (m_queue M) batch_size free stale cs in
    batch clean Uring M {| m_engine := r.1.1.2; m_fds := r.1.2; m_queue := r.2 |}.

Definition boot (f : BotFleet.t) (m : arr Z) (ring : @SPSCRingBuffer.t LatencySample) (clock : nat -> Z) : engine :=
  {| fleet := f; mem := m; next_seq_ := 0; total_sends_ := 0; total_recvs_ := 0; telemetry := ring; rdtsc := clock;
     ticks := 0; wire := []; samples := [] |}.

(** How an engine's [init] connects the bots: a socket per bot, or the assignment
    of the bots to the pipes of the multiplexed one. *)
Definition connected_by (k : kind) (f0 f : BotFleet.t) : Prop :=
  match k with
  | Pipeline => exists POOL, f = PipelineEngine.assign_pipes f0 POOL
  | _ => exists fds, f = (connect_bots f0 fds).1
  end.

(** Before the first batch: the io_uring engine's table holds the sockets and
    nothing is queued. *)
Definition start (e : engine) : machine := {| m_engine := e; m_fds := BotFleet.socket_fds (fleet e); m_queue := [] |}.

Lemma boot_inv k a n f0 a1 m0 a2 f1 m f ring clock :
  HugePageArena.ok a -> 0 <= n < 2 ^ 32 -> BotFleet.init a n = (Some f0, a1) ->
  generate_payloads a1 f0 m0 = (true, a2, f1, m) -> connected_by k f1 f -> (forall k, is_u64 (clock k)) ->
  inv n [] (boot f m ring clock) [].
Proof.
  intros Ha Hn Hi Hg Hf Hc. destruct (init_fleet a n f0 a1 Ha Hn Hi) as (Ha1 & Hcount & Hids).
  destruct (generate_templates a1 f0 m0 a2 f1 m Ha1 ltac:(lia) Hg) as (Ht & _ & E1 & E2).
  assert (Hz : BotFleet.sequence_nums f1 = (fun _ => 0) /\ BotFleet.send_tsc f1 = (fun _ => 0)).
  { destruct (generate_same _ _ _ _ _ _ Hg) as [-> ->]. unfold BotFleet.init in Hi.
    destruct (HugePageArena.allocate_all _ _) as [ps a']. destruct (HugePageArena.all_some ps); [|done]. by injection Hi as <- _. }
  destruct Hz as [Hz1 Hz2].
  assert (Hsame : BotFleet.count f = BotFleet.count f1 /\ BotFleet.bot_ids f = BotFleet.bot_ids f1 /\
    BotFleet.payloads f = BotFleet.payloads f1 /\ BotFleet.payload_lens f = BotFleet.payload_lens f1 /\
    BotFleet.sequence_nums f = BotFleet.sequence_nums f1 /\ BotFleet.send_tsc f = BotFleet.send_tsc f1).
  { destruct k; by destruct Hf as [x ->]. }
  destruct Hsame as (S1 & S2 & S3 & S4 & S5 & S6). rewrite Hz1 in S5. rewrite Hz2 in S6.
  split; cbn [boot fleet mem wire samples rdtsc next_seq_]; rewrite ?S1, ?S2, ?S5, ?S6, ?E1, ?E2; try done.
  - by eapply templates_fleet.
  - split; constructor.
  - by exists [].
Qed.

(** What holds between batches: messages are handed over again only by the
    io_uring engine in a run that is not clean. *)
Definition machine_ok (n : Z) (clean : bool) (k : kind) (M : machine) : Prop :=
  send_bots (m_queue M) = [] /\ Forall (fun i => 0 <= i < n) (stale_bots (m_queue M)) /\
  exists A, inv n A (m_engine M) [] /\ (k <> Uring \/ clean = true -> A = [] /\ stale_bots (m_queue M) = []).

Lemma batch_inv n clean k M M' : 0 <= n < 2 ^ 32 -> machine_ok n clean k M -> batch clean k M M' -> machine_ok n clean k M'.
Proof.
  intros Hn (Hq & Hs & A & H & HA). destruct 1 as [M batch sent events Hev|M sent events Hev|M POOL pool wr rc Hrc|M batch free stale cs Hc Hst Hcl r];
    [split; [done|]; split; [done|]; exists A; (split; [|done])..|].
  - by apply epoll_batch_inv.
  - by apply ultra_batch_inv.
  - by apply pipeline_batch_inv.
  - rewrite (in_count _ _ _ _ H) in Hst.
    destruct (uring_batch_inv n A Hn _ (m_fds M) _ batch free stale cs H Hq Hs Hst Hc) as (J1 & J2 & A' & J3 & J4).
    fold r in J1, J2, J3, J4. split; [done|]. split; [done|]. exists A'. split; [done|]. cbn [m_queue].
    intros [|Hk]; [done|]. destruct (HA (or_intror Hk)) as [-> E]. by apply J4; [apply Hcl|].
Qed.

Lemma run_inv n clean k M M' : 0 <= n < 2 ^ 32 -> machine_ok n clean k M -> rtc (batch clean k) M M' -> machine_ok n clean k M'.
Proof. intros Hn H. induction 1 as [|M M1 M2 Hb _ IH]; [done|]. apply IH. by apply (batch_inv n clean k M). Qed.

(** C21: Every engine sends each bot's own, freshly numbered message, and measures
    from it.  Start from a fleet whose templates were generated and whose bots were
    connected by the engine; run batches of that engine, one of the epoll,
    low-latency, multiplexed and io_uring ones, whatever the kernel answers.  Then
    the bytes handed to sockets are, each, a message of the bot they were taken
    from; and every latency sample is of a bot of the fleet and starts at the time
    stamp of the last message of that bot handed over before the sample was taken
    (at 0 if there was none).  The messages handed over are those numbered from 0
    on, each number once (modulo 2^32), and [A], messages the io_uring engine's ring
    handed over again from a slot that was taken and not prepared; [A] is empty for
    the other engines, and for io_uring in runs in which no batch that found an odd
    number of free entries took a slot whose old content was a send. *)
Theorem engine_messages clean k a n f0 a1 m0 a2 f1 m f ring clock M :
  HugePageArena.ok a -> 0 <= n < 2 ^ 32 -> BotFleet.init a n = (Some f0, a1) ->
  generate_payloads a1 f0 m0 = (true, a2, f1, m) -> connected_by k f1 f -> (forall k, is_u64 (clock k)) ->
  rtc (batch clean k) (start (boot f m ring clock)) M ->
  let e := m_engine M in
  (forall entry, entry ∈ wire e -> 0 <= entry.1 < n /\ length entry.2 = 64%nat /\
    bm_magic (message_of entry) = MSG_MAGIC /\ bm_bot_id (message_of entry) = entry.1 /\
    bm_body_len (message_of entry) = BODY_SIZE) /\
  (exists W A, wire e ≡ₚ W ++ A /\
    (bm_seq_num ∘ message_of <$> W) ≡ₚ (u32 <$> seqZ 0 (Z.of_nat (length W))) /\
    (k <> Uring \/ clean = true -> A = [])) /\
  (forall j s, (j, s) ∈ samples e -> 0 <= bot_id s < n /\ (j <= length (wire e))%nat /\
    send_tsc s = last_tsc (take j (wire e)) (bot_id s)).
Proof.
  intros Ha Hn Hi Hg Hf Hc Hr e. pose proof (boot_inv k _ _ _ _ _ _ _ _ f ring clock Ha Hn Hi Hg Hf Hc) as H0.
  apply (run_inv n clean k _ M Hn) in Hr as (_ & _ & A & [I1 I2 I3 I4 I5 I6 I7 (W & HW & I8 & _) I10 I11] & HA).
  2:{ split; [done|]. split; [constructor|]. by exists []. }
  fold e in I6, HW, I11.
  assert (He : forall entry, entry ∈ wire e -> exists s t, entry_ok n entry /\ entry.2 = payload entry.1 s t entry.1 /\
    message_of entry = {| bm_magic := MSG_MAGIC; bm_bot_id := entry.1; bm_seq_num := s; bm_tsc := t; bm_body_len := BODY_SIZE |}).
  { intros entry Hin. apply (proj1 (Forall_forall _ _) I6) in Hin. pose proof Hin as (s & t & H1 & H2 & H3 & H4).
    exists s, t. split; [done|]. split; [done|]. unfold message_of. rewrite H4. apply of_wire_payload; [unfold is_u32; lia|done|done]. }
  split; [|split].
  - intros entry Hin. destruct (He entry Hin) as (s & t & (s' & t' & H1 & _) & E & ->). split; [done|].
    split; [|done]. rewrite E. apply Nat2Z.inj. apply length_payload.
  - exists W, A. split; [done|]. split; [by rewrite app_nil_r, Nat.add_0_r in I8|]. intros Hk. by apply HA.
  - intros j s Hin. exact (proj1 (Forall_forall _ _) I11 _ Hin).
Qed.

(** ** Idle bots are served *)

Definition ready (e : engine) (i : Z) : bool := idle e i && connected e i.
Definition ready_from (e : engine) (i : Z) (m : nat) : list Z := List.filter (ready e) (seqZ i (Z.of_nat m)).

Lemma ready_from_S e i m : ready_from e i (S m) = (if ready e i then [i] else []) ++ ready_from e (i + 1) m.
Proof.
  unfold ready_from. rewrite seqZ_cons by lia. cbn [List.filter]. replace (Z.pred (Z.of_nat (S m))) with (Z.of_nat m) by lia.
  replace (Z.succ i) with (i + 1) by lia. by destruct (ready e i).
Qed.

Lemma ready_from_ext e e' i m : (forall j, i <= j -> ready e' j = ready e j) -> ready_from e' i m = ready_from e i m.
Proof.
  intros H. unfold ready_from. apply filter_ext_in. intros j Hj. apply list_elem_of_In, elem_of_seqZ in Hj. apply H. lia.
Qed.

(** Gathering takes the first ready bots and marks them. *)
Lemma ultra_gather_spec m : forall i e batch, (length batch <= 8)%nat ->
  let '(e', batch') := UltraEngine.gather m i e batch in
  let B := take (8 - length batch) (ready_from e i m) in
  batch' = batch ++ B /\ wire e' = wire e /\ total_sends_ e' = total_sends_ e /\
  forall j, BotFleet.states (fleet e') j = if bool_decide (j ∈ B) then SENDING else BotFleet.states (fleet e) j.
Proof.
  induction m as [|m IH]; intros i e batch Hl; cbn [UltraEngine.gather].
  { change (ready_from e i 0) with (@nil Z). cbv zeta. rewrite take_nil, app_nil_r. split; [done|]. split; [done|]. split; [done|]. intros j.
    rewrite bool_decide_eq_false_2; [done|apply not_elem_of_nil]. }
  unfold UltraEngine.SENDMMSG_BATCH. destruct (Z.ltb_spec (Z.of_nat (length batch)) 8) as [Hb|Hb]; cbn [negb].
  2:{ replace (8 - length batch)%nat with 0%nat by lia. cbn [take]. rewrite app_nil_r. split; [done|]. split; [done|].
      split; [done|]. intros j. rewrite bool_decide_eq_false_2; [done|apply not_elem_of_nil]. }
  rewrite ready_from_S. unfold ready. destruct (idle e i) eqn:Ei; cbn [negb andb app]; [|by apply IH].
  destruct (connected e i) eqn:Ec; cbn [negb app]; [|by apply IH].
  set (e1 := set_state (stamp e i) i SENDING).
  assert (Hr : ready_from e1 (i + 1) m = ready_from e (i + 1) m).
  { apply ready_from_ext. intros j Hj. unfold ready, idle, connected, e1. cbn. by rewrite upd_ne by lia. }
  specialize (IH (i + 1) e1 (batch ++ [i]) ltac:(rewrite length_app; cbn; lia)). rewrite Hr, length_app in IH. cbn [length] in IH.
  destruct (UltraEngine.gather m (i + 1) e1 (batch ++ [i])) as [e' batch']. destruct IH as (E1 & E2 & E3 & E4).
  replace (8 - length batch)%nat with (S (8 - (length batch + 1)))%nat by lia. cbn [take]. rewrite <- app_assoc in E1.
  split; [exact E1|]. split; [exact E2|]. split; [exact E3|]. intros j. rewrite E4. unfold e1. cbn.
  destruct (Z.eq_dec j i) as [->|Hne].
  - rewrite upd_eq, (bool_decide_eq_true_2 (i ∈ i :: _)) by (by left). by case_bool_decide.
  - rewrite upd_ne by done. rewrite (bool_decide_ext (j ∈ i :: _) (j ∈ take (8 - (length batch + 1)) (ready_from e (i + 1) m)));
      [done|]. rewrite elem_of_cons. naive_solver.
Qed.

Lemma ready_from_nodup e i m : NoDup (ready_from e i m).
Proof. unfold ready_from. apply NoDup_ListNoDup, List.NoDup_filter, NoDup_ListNoDup, NoDup_seqZ. Qed.

Lemma ultra_send_spec sent bs : forall e, NoDup bs ->
  let e' := UltraEngine.send_gathered e bs sent in
  fst <$> wire e' = (fst <$> wire e) ++ bs /\
  total_sends_ e' = foldl (fun k i => if 0 <? sent i then u64 (k + 1) else k) (total_sends_ e) bs /\
  forall j, BotFleet.states (fleet e') j =
    if bool_decide (j ∈ bs) then (if 0 <? sent j then WAITING else IDLE) else BotFleet.states (fleet e) j.
Proof.
  unfold UltraEngine.send_gathered. induction bs as [|i bs IH]; intros e Hnd; cbn [foldl].
  { rewrite app_nil_r. split; [done|]. split; [done|]. intros j. rewrite bool_decide_eq_false_2; [done|apply not_elem_of_nil]. }
  apply NoDup_cons in Hnd as [Hi Hnd].
  set (e1 := if 0 <? sent i then _ else _). specialize (IH e1 Hnd) as (E1 & E2 & E3).
  assert (W : wire e1 = wire (transmit e i)) by (unfold e1; by destruct (0 <? sent i)).
  split; [rewrite E1, W; cbn; rewrite fmap_app, <- app_assoc; done|].
  split; [rewrite E2; unfold e1; by destruct (0 <? sent i)|].
  intros j. rewrite E3. destruct (Z.eq_dec j i) as [->|Hne].
  - rewrite bool_decide_eq_false_2, (bool_decide_eq_true_2 (i ∈ i :: bs)) by (done || by left).
    unfold e1. destruct (0 <? sent i); cbn; by rewrite upd_eq.
  - rewrite (bool_decide_ext (j ∈ i :: bs) (j ∈ bs)) by (rewrite elem_of_cons; naive_solver).
    case_bool_decide; [done|]. unfold e1. destruct (0 <? sent i); cbn; by rewrite upd_ne.
Qed.

(** Idle bots are served.  A send phase of the low-latency engine hands a
    message of each of the first eight idle, connected bots to its socket, in the
    order of the bots, and of no other; a bot whose send succeeded is then waiting,
    one whose send failed is idle again and is tried in the next batch, every other
    bot is as it was; and the counter grows by the number of successes. *)
Theorem ultra_serves_idle e sent :
  let bots := take 8 (ready_from e 0 (Z.to_nat (BotFleet.count (fleet e)))) in
  let e' := UltraEngine.send_batch e sent in
  fst <$> wire e' = (fst <$> wire e) ++ bots /\
  total_sends_ e' = foldl (fun k i => if 0 <? sent i then u64 (k + 1) else k) (total_sends_ e) bots /\
  forall j, BotFleet.states (fleet e') j =
    if bool_decide (j ∈ bots) then (if 0 <? sent j then WAITING else IDLE) else BotFleet.states (fleet e) j.
Proof.
  intros bots e'. unfold e', UltraEngine.send_batch.
  pose proof (ultra_gather_spec (Z.to_nat (BotFleet.count (fleet e))) 0 e [] ltac:(cbn; lia)) as Hg.
  destruct (UltraEngine.gather _ _ _ _) as [e1 batch']. cbn [length Nat.sub app] in Hg. fold bots in Hg.
  destruct Hg as (-> & W & T & S).
  replace (if (length bots =? 0)%nat then e1 else _) with (UltraEngine.send_gathered e1 bots sent) by (by destruct bots).
  destruct (ultra_send_spec sent bots e1) as (E1 & E2 & E3).
  { unfold bots. eapply sublist_NoDup; [apply ready_from_nodup|apply sublist_take]. }
  rewrite E1, E2, W, T. split; [done|]. split; [done|]. intros j. rewrite E3, S. by case_bool_decide.
Qed.

Definition demo_ring : @SPSCRingBuffer.t LatencySample :=
  SPSCRingBuffer.create 1048576 24 {| send_tsc := 0; recv_tsc := 0; bot_id := 0; seq_num := 0 |}.
Definition demo_clock (k : nat) : Z := u64 (100 + Z.of_nat k).

(** A run of the low-latency engine with three bots: each sends, bot 0 is
    acknowledged. *)
Definition demo_ack : UltraEngine.event :=
  {| UltraEngine.ev_in := true; UltraEngine.ev_bot := 0;
     UltraEngine.ev_recvs := [(wire_size AckMessage,
       to_wire {| ak_magic := ACK_MAGIC; ak_bot_id := 0; ak_seq_num := 0; ak_tsc := 9 |})] |}.

Lemma demo_ack_sample e : 0 < BotFleet.count (fleet e) ->
  exists s, (length (wire (UltraEngine.recv_batch [demo_ack] e).2), s) ∈ samples (UltraEngine.recv_batch [demo_ack] e).2.
Proof.
  intros Hc.
  assert (E : UltraEngine.recv_batch [demo_ack] e = (1, count_recv (record_ack e 0 0))).
  { unfold UltraEngine.recv_batch. cbn [UltraEngine.ev_in UltraEngine.ev_bot UltraEngine.ev_recvs demo_ack negb orb].
    rewrite (proj2 (Z.leb_gt _ _)) by done. unfold UltraEngine.drain. rewrite <- (app_nil_r (to_wire _)), of_to_wire by (vm_compute; repeat split; congruence).
    rewrite Z.eqb_refl. reflexivity. }
  rewrite E. eexists. cbn [snd samples count_recv record_ack wire]. apply elem_of_app. right. by left.
Qed.

Lemma engine_messages_witness : exists f0 a2 f1 m,
  BotFleet.init (demo_arena 0) 3 = (Some f0, demo_arena 454) /\
  generate_payloads (demo_arena 454) f0 (fun _ => 0) = (true, a2, f1, m) /\
  let e := (UltraEngine.run_batch (boot (connect_bots f1 (fun i => i + 3)).1 m demo_ring demo_clock) (fun _ => 64) [demo_ack]).2 in
  (bm_seq_num ∘ message_of <$> wire e) ≡ₚ (u32 <$> seqZ 0 (Z.of_nat (length (wire e)))) /\
  exists s, (length (wire e), s) ∈ samples e /\ send_tsc s = last_tsc (wire e) (bot_id s).
Proof.
  destruct demo_fleet_init as [f0 E]. exists f0.
  destruct (init_fleet (demo_arena 0) 3 f0 (demo_arena 454) (demo_arena_ok 0 ltac:(lia)) ltac:(lia) E) as (Ha1 & Hc & _).
  destruct (generate_loop_room (Z.to_nat (BotFleet.count f0)) 0 (demo_arena 454) f0 (fun _ => 0) Ha1) as (a2 & f1 & m & Eg);
    [rewrite Hc; vm_compute; discriminate|].
  exists a2, f1, m. split; [exact E|]. split; [exact Eg|]. intros e.
  set (M0 := start (boot (connect_bots f1 (fun i => i + 3)).1 m demo_ring demo_clock)).
  destruct (engine_messages true Ultra (demo_arena 0) 3 f0 (demo_arena 454) (fun _ => 0) a2 f1 m
    (connect_bots f1 (fun i => i + 3)).1 demo_ring demo_clock (with_engine M0 e)) as (_ & (W & A & HW & Hs & HA) & Hsam);
    [apply demo_arena_ok; lia|lia|exact E|exact Eg|by eexists|intros k; apply u64_range| |].
  { apply rtc_once, (b_ultra true M0). by repeat constructor. }
  split.
  - rewrite (HA (or_intror eq_refl)), app_nil_r in HW. cbn [m_engine with_engine] in HW. rewrite (Permutation_length HW). etransitivity; [|exact Hs]. by apply Permutation_map.
  - assert (Hin : exists s, (length (wire e), s) ∈ samples e).
    { apply demo_ack_sample. eapply Z.lt_le_trans with 3; [lia|]. apply Z.eq_le_incl. symmetry.
      eapply in_count, (ultra_send_batch_inv 3 ltac:(lia) []). eapply (boot_inv Ultra);
        [apply (demo_arena_ok 0); lia|lia|exact E|exact Eg|by eexists|intros k; apply u64_range]. }
    destruct Hin as [s Hin]. exists s. split; [exact Hin|]. destruct (Hsam _ _ Hin) as (_ & _ & ->). cbn [m_engine with_engine].
    by rewrite firstn_all.
Defined.

(** A failed [writev] of the multiplexed engine: the bots wait for ever for
    acknowledgements of messages that were never sent. *)
Definition demo_pipeline : engine :=
  boot (PipelineEngine.assign_pipes
    {| BotFleet.count := 2; BotFleet.bot_ids := fun i => i; BotFleet.sequence_nums := fun _ => 0; BotFleet.states := fun _ => IDLE;
       BotFleet.send_tsc := fun _ => 0; BotFleet.recv_tsc := fun _ => 0; BotFleet.socket_fds := fun _ => -1;
       BotFleet.payloads := fun i => 4096 + 64 * i; BotFleet.payload_lens := fun _ => 64 |} 4)
    (fun _ => 0) demo_ring demo_clock.

Example failed_writev_strands_bots :
  let e := PipelineEngine.send_pipelined 4 (fun p => p + 10) demo_pipeline (fun _ => -1) in
  (total_sends_ e, BotFleet.states (fleet e) 0, BotFleet.states (fleet e) 1) = (0, WAITING, WAITING) /\
  length (wire (PipelineEngine.send_pipelined 4 (fun p => p + 10) e (fun _ => 64))) = length (wire e).
Proof. vm_compute. split; reflexivity. Qed.

(** Without a second submission entry the io_uring engine leaves one unprepared. *)
Example unprepared_entry :
  (IoUringEngine.submit_phase 2 0 0 256 3 (IoUringEngine.OpSend 0) (fun i => i + 10) demo_pipeline []).1.2 =
  [IoUringEngine.Prepared (IoUringEngine.OpSend 0); IoUringEngine.Prepared (IoUringEngine.OpRecv 1);
   IoUringEngine.Unprepared (IoUringEngine.OpSend 0)].
Proof. vm_compute. reflexivity. Qed.

(** With three free entries and two idle bots, the third entry still asks for the
    send of bot 0 that its slot once held: bot 0's message, number 0, is handed over
    twice, and bot 1's not at all. *)
Lemma stale_entry_sends_twice :
  let r := IoUringEngine.run_batch demo_pipeline (fun i => i + 10) [] 256 3 (IoUringEngine.OpSend 0) [] in
  let e := r.1.1.2 in
  (bm_seq_num ∘ message_of <$> wire e = [0; 0] /\ (fst <$> wire e) = [0; 0]) /\ BotFleet.states (fleet e) 1 = IDLE.
Proof. vm_compute. done. Qed.
