(* ===== verification/LocalExchange.v ===== *)
(** The exchange a contestant can run at home: the host side of the link
    (src/exchange/include/exchange/gateway.hpp) and the main loop that joins the
    matching engine, the tick generator and the gateway
    (src/exchange/src/exchange_local.cpp).

    What the kernel and the clocks answer is an argument of every turn of the
    loop: every [send] of the session has a result of its own and puts that many
    bytes of its buffer on the stream.  The theorems say that a session never
    gets stuck, what the SDK's client reads of the stream (up to the first send
    that was cut short, exactly the messages sent), and that a lone contestant
    only trades with itself. *)

From S2P Require Import Prelude Arena Protocol PriceMap OrderBook BookRep BookOps BookMatch BookSpec.
From S2P Require Import Xorshift MarketData MatchEngine EngineMaps EnginePnl EngineSpec SimpleBook Client.
From Stdlib Require Import SpecFloat.
Import MatchEngine.

Record GatewayConfig := { gc_contestant_id : Z; gc_max_orders_per_sec : Z; gc_heartbeat_timeout_ms : Z }.

Module Gateway.

(** [sent] is the history of the calls of [send]: the buffer handed over and
    the result. *)
Record t := { cfg_ : GatewayConfig; listen_fd_ : Z; client_fd_ : Z; sent : list (list Z * Z) }.

(** What is on the stream: of every buffer as many bytes as [send] says it
    took, none if it failed. *)
Definition taken_bytes (c : list Z * Z) : list Z := take (Z.to_nat c.2) c.1.
Definition stream_of (l : list (list Z * Z)) : list Z := concat (taken_bytes <$> l).
Definition stream (g : t) : list Z := stream_of (sent g).

Definition init (cfg : GatewayConfig) : t := {| cfg_ := cfg; listen_fd_ := -1; client_fd_ := -1; sent := [] |}.

(** The results of [socket], [bind], [listen], [poll] and [accept]. *)
Definition listen_and_accept (g : t) (socket bind listen poll accept : Z) : bool * t :=
  let g := {| cfg_ := cfg_ g; listen_fd_ := socket; client_fd_ := client_fd_ g; sent := sent g |} in
  if socket <? 0 then (false, g)
  else if bind <? 0 then (false, g)
  else if listen <? 0 then (false, g)
  else if poll <=? 0 then (false, g)
  else
    let g := {| cfg_ := cfg_ g; listen_fd_ := listen_fd_ g; client_fd_ := accept; sent := sent g |} in
    if accept <? 0 then (false, g) else (true, g).

Definition is_connected (g : t) : bool := 0 <=? client_fd_ g.

(** [ret] is what [send] returns; a short or failed send is reported to the
    caller and not repeated. *)
Definition send_to_contestant (g : t) (data : list Z) (size ret : Z) : bool * t :=
  if client_fd_ g <? 0 then (false, g)
  else (ret =? size,
        {| cfg_ := cfg_ g; listen_fd_ := listen_fd_ g; client_fd_ := client_fd_ g;
           sent := sent g ++ [(take (Z.to_nat size) data, ret)] |}).

(** [bytes] is what [recv] puts in the buffer, nothing if it fails. *)
Definition recv_from_contestant (g : t) (buf : list Z) (buf_size : Z) (bytes : list Z) : MsgType * list Z :=
  if client_fd_ g <? 0 then (of_byte 0, buf)
  else
    match take (Z.to_nat buf_size) bytes with
    | [] => (of_byte 0, buf)
    | got => let buf := got ++ drop (length got) buf in (peek_msg_type buf, buf)
    end.

Definition session_start (cfg : MatchEngineConfig) (start_ts : Z) : SessionStart :=
  {| ss_msg_type := SESSION_START; ss_instrument_count := 1; ss_match_duration_ms := match_duration_ms cfg;
     ss_start_timestamp_ns := start_ts; ss_initial_cash := initial_cash cfg; ss_max_position := max_position cfg;
     ss_max_order_size := max_order_size cfg; ss_max_orders_per_sec := max_orders_per_sec cfg |}.

Definition send_session_start (g : t) (cfg : MatchEngineConfig) (start_ts ret : Z) : t :=
  (send_to_contestant g (to_wire (session_start cfg start_ts)) (wire_size SessionStart) ret).2.
Definition send_market_data (g : t) (update : MarketUpdate) (ret : Z) : t :=
  (send_to_contestant g (to_wire update) (wire_size MarketUpdate) ret).2.
Definition forward_outbound (g : t) (msg : OutboundMsg) (ret : Z) : t :=
  if om_contestant_id msg =? gc_contestant_id (cfg_ g) then (send_to_contestant g (om_data msg) (om_size msg) ret).2 else g.
Definition send_session_end (g : t) (e : SessionEnd) (ret : Z) : t :=
  (send_to_contestant g (to_wire e) (wire_size SessionEnd) ret).2.
Definition shutdown (g : t) : t := {| cfg_ := cfg_ g; listen_fd_ := -1; client_fd_ := -1; sent := sent g |}.

End Gateway.

Module LocalExchange.
Section Libm.
Context (dlog dcos : spec_float -> spec_float).

(** The engine's configuration for [--duration] and [--ticks-per-sec]. *)
Definition engine_config (duration_secs ticks_per_sec : Z) : MatchEngineConfig :=
  let d := default_engine_config in
  {| tick_interval_us := Z.quot 1000000 ticks_per_sec; match_duration_ms := u32 (duration_secs * 1000);
     max_position := max_position d; max_order_size := max_order_size d; max_orders_per_sec := max_orders_per_sec d;
     initial_cash := initial_cash d; market_cfg := market_cfg d |}.

Definition RECV_BUF : Z := 256.

(** What [main] keeps between two turns; times are nanoseconds of the steady
    clock. *)
Record session := {
  engine : MatchEngine.t; gateway : Gateway.t; contestant : Z; recv_buf : list Z;
  tick_count : Z; orders_processed : Z; next_tick : Z; report_interval : Z }.

(** What one turn of the loop reads: the steady clock, the wall clock at the
    tick and at the receipt, what [recv] delivers, the seconds elapsed, and what
    [send] returns, for each send by its number in the session. *)
Record turn := { now : Z; tick_ts : Z; received : list Z; recv_ts : Z; secs : Z; send_ret : nat -> Z }.

(** The result of the gateway's next [send]. *)
Definition next_ret (ret : nat -> Z) (g : Gateway.t) : Z := ret (length (Gateway.sent g)).

(** A market data tick at the configured rate. *)
Definition tick_phase (s : session) (t : turn) : session :=
  if next_tick s <=? now t then
    let '(update, e) := generate_tick dlog dcos (engine s) (tick_ts t) in
    let interval := tick_interval_us (cfg_ (engine s)) * 1000 in
    let next := next_tick s + interval in
    {| engine := e;
       gateway := if Gateway.is_connected (gateway s) then Gateway.send_market_data (gateway s) update (next_ret (send_ret t) (gateway s)) else gateway s;
       contestant := contestant s; recv_buf := recv_buf s; tick_count := u64 (tick_count s + 1);
       orders_processed := orders_processed s; next_tick := if next <? now t then now t + interval else next;
       report_interval := report_interval s |}
  else s.

(** One message of the contestant. *)
Definition recv_phase (s : session) (t : turn) : option session :=
  if Gateway.is_connected (gateway s) then
    let '(type, buf) := Gateway.recv_from_contestant (gateway s) (recv_buf s) RECV_BUF (received t) in
    let done (e : MatchEngine.t) (n : Z) :=
      {| engine := e; gateway := gateway s; contestant := contestant s; recv_buf := buf; tick_count := tick_count s;
         orders_processed := n; next_tick := next_tick s; report_interval := report_interval s |} in
    match type with
    | ORDER_ENTRY =>
        e ← process_order (engine s) (contestant s) (of_wire buf) (recv_ts t);
        Some (done e (u64 (orders_processed s + 1)))
    | CANCEL_REQUEST =>
        e ← process_cancel (engine s) (contestant s) (of_wire buf) (recv_ts t);
        Some (done e (orders_processed s))
    | _ => Some (done (engine s) (orders_processed s))
    end
  else Some s.

(** [while (engine.pop_outbound(outmsg))]: one pending message less per turn. *)
Fixpoint forward_phase (fuel : nat) (e : MatchEngine.t) (g : Gateway.t) (ret : nat -> Z) : option (MatchEngine.t * Gateway.t) :=
  match fuel with
  | O => None
  | S fuel =>
      match pop_outbound e with
      | (None, e) => Some (e, g)
      | (Some msg, e) => forward_phase fuel e (Gateway.forward_outbound g msg (next_ret ret g)) ret
      end
  end.
Definition forward_fuel (e : MatchEngine.t) : nat := S (Z.to_nat (u32 (outbound_tail_ e - outbound_head_ e))).

(** The periodic report reads the best prices, which refreshes their caches. *)
Definition report_phase (s : session) (t : turn) : session :=
  if report_interval s <? secs t then
    let '(_, b) := OrderBook.best_bid_price (book_ (engine s)) in
    let '(_, b) := OrderBook.best_ask_price b in
    {| engine := set_book (engine s) b; gateway := gateway s; contestant := contestant s; recv_buf := recv_buf s;
       tick_count := tick_count s; orders_processed := orders_processed s; next_tick := next_tick s; report_interval := secs t |}
  else s.

Definition turn_body (s : session) (t : turn) : option session :=
  s ← recv_phase (tick_phase s t) t;
  '(e, g) ← forward_phase (forward_fuel (engine s)) (engine s) (gateway s) (send_ret t);
  Some (report_phase
    {| engine := e; gateway := g; contestant := contestant s; recv_buf := recv_buf s; tick_count := tick_count s;
       orders_processed := orders_processed s; next_tick := next_tick s; report_interval := report_interval s |} t).

(** Before the loop: register the contestant and open the session. *)
Definition open_session (e : MatchEngine.t) (g : Gateway.t) (buf : list Z) (match_start start_ts ret : Z) : session :=
  let '(cid, e) := register_contestant e (initial_cash (cfg_ e)) in
  {| engine := e;
     gateway := if Gateway.is_connected g then Gateway.send_session_start g (cfg_ e) start_ts ret else g;
     contestant := cid; recv_buf := buf; tick_count := 0; orders_processed := 0; next_tick := match_start;
     report_interval := 0 |}.

(** After it: close the session. *)
Definition close_session (s : session) (end_ts ret : Z) : SessionEnd * session :=
  let '(m, e) := make_session_end (engine s) (contestant s) end_ts in
  let g := if Gateway.is_connected (gateway s) then Gateway.send_session_end (gateway s) m ret else gateway s in
  (m, {| engine := e; gateway := Gateway.shutdown g; contestant := contestant s; recv_buf := recv_buf s;
         tick_count := tick_count s; orders_processed := orders_processed s; next_tick := next_tick s;
         report_interval := report_interval s |}).

End Libm.
End LocalExchange.

(** ** How many messages an order can cause *)

Module FillBound.
Import OrderBook.

Lemma fill_one_count taker best oidx st : fill_count (fill_one taker best oidx st) = fill_count st + 1.
Proof.
  unfold fill_count, fill_one. destruct (_ =? 0); [destruct (unlink _ _ _ _)|]; cbn [ms_fills]; rewrite length_app; cbn [length]; lia.
Qed.

Lemma walk_level_count taker max best fuel : forall oidx st st', fill_count st <= max ->
  walk_level fuel taker max best oidx st = Some st' -> fill_count st' <= max.
Proof.
  induction fuel as [|fuel IH]; intros oidx st st' H E; [done|]. cbn [walk_level] in E.
  destruct (_ && _) eqn:Eg; [|by injection E as <-]. apply andb_true_iff in Eg as [_ Hlt]. apply Z.ltb_lt in Hlt.
  apply IH in E; [done|]. rewrite fill_one_count. lia.
Qed.

Lemma match_loop_count aggressor limit taker max fuel : forall st st', fill_count st <= max ->
  match_loop fuel aggressor limit taker max st = Some st' -> fill_count st' <= max.
Proof.
  induction fuel as [|fuel IH]; intros st st' H E; [done|]. cbn [match_loop] in E.
  destruct (_ && _); [|by injection E as <-].
  destruct (if is_buy aggressor then _ else _) as [best l].
  destruct (best =? NULL_INDEX); [by injection E as <-|]. destruct (negb _); [by injection E as <-|].
  destruct (walk_level _ _ _ _ _ _) as [st1|] eqn:Ew; [|done]. cbn [mbind option_bind] in E.
  apply walk_level_count in Ew; [|done].
  destruct (if PriceLevelPool.order_count _ _ =? 0 then _ else _) as [l1|]; [|done]. cbn [mbind option_bind] in E.
  by apply IH in E.
Qed.

Lemma match_count b s p q cid max ms b' : 0 <= max -> match_ b s p q cid max = Some (ms, b') -> Z.of_nat (length ms) <= max.
Proof.
  intros Hm E. unfold match_ in E. destruct (match_loop _ _ _ _ _ _) as [st|] eqn:El; [|done]. cbn [mbind option_bind] in E.
  apply match_loop_count in El; [|done]. by injection E as <- _.
Qed.

End FillBound.

(** ** The engine's queue *)

Module Replies.
Import OutboundFacts.

Definition bytes_of (m : OutboundMsg) : list Z := take (Z.to_nat (om_size m)) (om_data m).

(** A whole message of a known type. *)
Definition framed (bs : list Z) : Prop := 0 < msg_size (peek_msg_type bs) /\ Z.of_nat (length bs) = msg_size (peek_msg_type bs).

(** With room for [k] messages, at most [k] whole messages are appended. *)
Definition emits (k : nat) (e e' : MatchEngine.t) : Prop :=
  ring_ok e -> pending_count e + Z.of_nat k <= OUTBOUND_QUEUE_SIZE ->
  ring_ok e' /\ exists new, pending e' = pending e ++ new /\ (length new <= k)%nat /\ Forall (fun m => framed (bytes_of m)) new.

Lemma emits_same k e e' : outbound_ e' = outbound_ e -> outbound_head_ e' = outbound_head_ e ->
  outbound_tail_ e' = outbound_tail_ e -> emits k e e'.
Proof.
  intros H1 H2 H3 [Hh Ht] _. split; [split; congruence|]. exists []. rewrite app_nil_r. split; [|by split; [cbn; lia|]].
  unfold pending, pending_count. by rewrite H1, H2, H3.
Qed.

Lemma emits_trans k1 k2 e1 e2 e3 : emits k1 e1 e2 -> emits k2 e2 e3 -> emits (k1 + k2) e1 e3.
Proof.
  intros H1 H2 Hr Hk. destruct (H1 Hr ltac:(lia)) as (Hr2 & n1 & E1 & L1 & F1).
  destruct (H2 Hr2) as (Hr3 & n2 & E2 & L2 & F2).
  { pose proof (length_pending e2) as Hl. rewrite E1, length_app in Hl. pose proof (length_pending e1). lia. }
  split; [done|]. exists (n1 ++ n2). rewrite E2, E1, app_assoc, length_app. split; [done|]. split; [lia|]. by apply Forall_app.
Qed.

Lemma emits_le k k' e e' : (k <= k')%nat -> emits k e e' -> emits k' e e'.
Proof. intros Hk H Hr Hc. destruct (H Hr ltac:(lia)) as (? & n & ? & ? & ?). split; [done|]. exists n. split; [done|]. split; [lia|done]. Qed.

Lemma emits_enqueue e cid data size : framed data -> size = Z.of_nat (length data) -> emits 1 e (enqueue_outbound e cid data size).
Proof.
  intros Hf -> Hr Hc. destruct (enqueue_pending e cid data (Z.of_nat (length data)) Hr ltac:(lia)) as [Hr' E].
  split; [done|]. exists [enqueued e cid data (Z.of_nat (length data))]. split; [done|]. split; [cbn; lia|].
  apply Forall_singleton. unfold bytes_of, enqueued. cbn [om_data om_size]. rewrite Nat2Z.id, firstn_all.
  by rewrite take_app_length.
Qed.

Ltac frame_wire := split; [done|apply length_to_wire].

Lemma framed_ack a b c d p : framed (to_wire (order_ack a b c d p)).
Proof. frame_wire. Qed.
Lemma framed_cancel a b c : framed (to_wire (cancel_ack a b c)).
Proof. frame_wire. Qed.
Lemma framed_fill (f : Fill) : fl_msg_type f = FILL -> framed (to_wire f).
Proof. intros H. destruct f; cbn in H; subst. frame_wire. Qed.
Lemma framed_update (u : MarketUpdate) : mu_msg_type u = MARKET_UPDATE -> framed (to_wire u).
Proof. intros H. destruct u; cbn in H; subst. frame_wire. Qed.
Lemma framed_start cfg ts : framed (to_wire (Gateway.session_start cfg ts)).
Proof. frame_wire. Qed.

Lemma send_ack_emits e cid co st xo p q : emits 1 e (send_ack e cid co st xo p q).
Proof. apply emits_enqueue; [apply framed_ack|symmetry; apply length_to_wire]. Qed.

Lemma send_fill_emits e cid co xo s p q r ts : emits 1 e (send_fill e cid co xo s p q r ts).
Proof.
  unfold send_fill. destruct (OrderBook.best_bid_price _) as [x b]. destruct (OrderBook.best_ask_price b) as [y b'].
  apply (emits_trans 0 1 _ (set_book e b')); [by apply emits_same|].
  apply emits_enqueue; [by apply framed_fill|symmetry; apply length_to_wire].
Qed.

Lemma report_fill_emits taker order ts st f : emits 2 st.1 (report_fill taker order ts st f).1.
Proof.
  destruct st as [e n]. cbn [fst]. unfold report_fill. set (m := OrderBook.order_at _ _). cbn zeta.
  set (e1 := set_contestants e _). set (e2 := set_contestants e1 _).
  apply (emits_trans 0 2 _ e2); [by apply emits_same|].
  eapply (emits_trans 1 1); [apply send_fill_emits|].
  eapply (emits_trans 1 0); [apply send_fill_emits|by apply emits_same].
Qed.

Lemma report_fills_emits taker order ts fs : forall st,
  emits (2 * length fs) st.1 (foldl (report_fill taker order ts) st fs).1.
Proof.
  induction fs as [|f fs IH]; intros st; [by apply emits_same|]. cbn [foldl length].
  replace (2 * S (length fs))%nat with (2 + 2 * length fs)%nat by lia.
  eapply emits_trans; [apply report_fill_emits|apply IH].
Qed.

(** An order causes at most 129 messages: two per fill and an acknowledgement. *)
Lemma process_order_emits e taker order ts e' : process_order e taker order ts = Some e' -> emits 129 e e'.
Proof.
  unfold process_order.
  destruct (_ <=? taker); [intros [= <-]; by apply emits_same|].
  destruct (_ || _); [intros [= <-]; apply (emits_le 1); [lia|apply send_ack_emits]|].
  destruct (is_buy _ && _); [intros [= <-]; apply (emits_le 1); [lia|apply send_ack_emits]|].
  destruct (bool_decide _ && _); [intros [= <-]; apply (emits_le 1); [lia|apply send_ack_emits]|].
  cbn zeta. set (e1 := set_contestants e _).
  destruct (OrderBook.match_ _ _ _ _ _ _) as [[ms b']|] eqn:Em; [|done]. cbn [mbind option_bind].
  apply FillBound.match_count in Em; [|done].
  pose proof (report_fills_emits taker order ts ms (set_book e1 b', 0)) as Hf.
  destruct (foldl _ _ ms) as [e2 n]. cbn [fst] in Hf. intros Hp.
  assert (H2 : emits 128 e e2).
  { apply (emits_le (0 + 2 * length ms)); [lia|]. eapply emits_trans; [|exact Hf]. by apply emits_same. }
  apply (emits_trans 128 1 _ e2); [done|]. destruct (_ && _).
  - destruct (OrderBook.add_order _ _ _ _ _ _ _) as [[o b3]|]; [|done]. cbn [mbind option_bind] in Hp.
    destruct (negb _); injection Hp as <-; [|by apply emits_same].
    eapply (emits_trans 0 1 _ (set_book e2 b3)); [by apply emits_same|].
    eapply (emits_trans 1 0); [apply send_ack_emits|by apply emits_same].
  - destruct (0 <? n); injection Hp as <-; [apply send_ack_emits|by apply emits_same].
Qed.

Lemma process_cancel_emits e cid cancel ts e' : process_cancel e cid cancel ts = Some e' -> emits 1 e e'.
Proof.
  unfold process_cancel. cbn zeta.
  assert (Hf : forall e st, emits 1 e (enqueue_outbound e cid (to_wire (cancel_ack (cr_client_order_id cancel) st ts)) (wire_size CancelAck))).
  { intros e0 st. apply emits_enqueue; [apply framed_cancel|symmetry; apply length_to_wire]. }
  destruct (_ =? NULL_INDEX); [intros [= <-]; apply Hf|]. destruct (_ || _); [intros [= <-]; apply Hf|].
  destruct (OrderBook.cancel_order _ _) as [[r b]|]; [|done]. cbn [mbind option_bind]. intros [= <-].
  eapply (emits_trans 0 1); [|apply Hf]. by apply emits_same.
Qed.

End Replies.

(** ** A lone contestant *)

Module Alone.
Import OrderBook.

(** Every order of the pool is [cid]'s and nobody holds a position. *)
Record alone (cid : Z) (e : MatchEngine.t) : Prop := {
  al_owner : forall x, contestant_id (order_at (book_ e) x) = cid;
  al_flat : forall j, ContestantState.position (contestants_ e) j = 0 }.

(** Buying from oneself what one sells nets out, wrap-around included. *)
Lemma self_fill c cid s s' p q j : is_buy s = negb (is_buy s') -> (forall i, ContestantState.position c i = 0) ->
  ContestantState.position (ContestantState.apply_fill (ContestantState.apply_fill c cid s p q) cid s' p q) j = 0.
Proof.
  intros Hs H. rewrite !apply_position, Z.eqb_refl, !H. destruct (j =? cid); [|done].
  assert (E : forall a b, a ≡32 b -> i32 a = i32 b).
  { intros a b Hab. unfold i32. by rewrite <- (Zplus_mod_idemp_l a), <- (Zplus_mod_idemp_l b), Hab. }
  rewrite (E _ 0); [done|]. rewrite Z.add_0_l. rewrite (mod_shift _ (ContestantState.signed s q) (ContestantState.signed s' q));
    [|apply i32_mod|done]. apply signed_cancel. rewrite Hs. by destruct (is_buy s').
Qed.

Lemma report_fills_alone cid order ts bids asks fs : forall e n,
  book_ok (book_ e) bids asks -> (forall f, f ∈ fs -> reportable e order f) -> 0 <= cid < MAX_CONTESTANTS ->
  alone cid e -> forall j, ContestantState.position (contestants_ (foldl (report_fill cid order ts) (e, n) fs).1) j = 0.
Proof.
  induction fs as [|f fs IH]; intros e n Hok Hrep Hc [Ho Hp]; [done|]. cbn [foldl].
  pose proof (report_fill_spec e n cid order ts f bids asks Hok (Hrep f (list_elem_of_here _ _)) Hc) as Hs.
  destruct (report_fill cid order ts (e, n) f) as [e1 n1]. destruct Hs as (Hok1 & Hr1 & _ & _ & Hc1).
  pose proof (rp_book _ _ Hr1) as Hb. apply IH; try done.
  - intros g Hg. eapply reportable_cache; [exact Hb|]. apply Hrep. by right.
  - split.
    + intros x. unfold order_at. rewrite (sbc_pool _ _ Hb). apply Ho.
    + intros j. rewrite Hc1. cbn zeta. rewrite Ho. apply self_fill; [|done].
      by destruct (Hrep f (list_elem_of_here _ _)) as (E & _).
Qed.

Lemma process_order_alone e cid order ts e' bids asks :
  engine_ok e bids asks -> 0 <= cid -> alone cid e ->
  takes e order ->
  process_order e cid order ts = Some e' -> alone cid e'.
Proof.
  intros Hok Hc Ha Hacc Hp. pose proof Ha as [Ho Hz].
  destruct (process_order_spec e cid order ts bids asks Hok Hc Hacc) as (e2 & b2 & a2 & Hp2 & _ & Hown).
  rewrite Hp in Hp2. injection Hp2 as <-. split; [intros x; by destruct (Hown x) as [?| ->]|].
  destruct (process_order_positions _ _ _ _ _ Hp) as [->|(Hrej & Hlt & ms & b' & e2 & n & Hm & Hf & ->)]; [done|].
  cbn zeta in Hm, Hf. pose proof (eo_count _ _ _ Hok) as Hcnt.
  assert (Hq : 0 < oe_quantity order <= INT32_MAX).
  { unfold rejection in Hrej. destruct (Z.leb_spec (oe_quantity order) 0); [done|].
    destruct (Z.ltb_spec (max_order_size (MatchEngine.cfg_ e)) (oe_quantity order)); [done|].
    pose proof (eo_size _ _ _ Hok). lia. }
  set (e1 := set_contestants e _) in *. set (contra := negb (is_buy (oe_side order))).
  pose proof (proj1 (book_rep (book_ e) contra bids asks) (eo_book _ _ _ Hok)) as Hr.
  destruct (match_book (book_ e) (oe_side order) (oe_price order) (oe_quantity order) cid 64 _ _ Hr ltac:(lia))
    as (ms2 & b2' & L' & Hm2 & Hr' & _ & Hms & _ & _ & Hids & _).
  change (book_ e1) with (book_ e) in Hm. rewrite Hm in Hm2. injection Hm2 as <- <-.
  pose proof (report_fills_alone cid order ts (if contra then L' else bids) (if contra then asks else L') ms
    (set_book e1 b') 0) as H. rewrite Hf in H. cbn [fst] in H. apply H.
  - apply (book_rep b' contra). fold contra in Hr'. by destruct contra.
  - intros f Hin. destruct (Hms f Hin) as (Hq0 & _ & Hin'). exact (fill_reportable e e1 b' order _ _ f (eo_owner _ _ _ Hok) Hr Hids Hin' Hq0).
  - lia.
  - split; [|done]. intros x. cbn [book_ set_book]. destruct (Hids x) as (_ & _ & _ & -> & _). apply Ho.
Qed.

End Alone.

(** ** The stream to the contestant *)

Import Replies Alone OutboundFacts LocalExchange.

Lemma next_frame_framed bs tl : framed bs -> GatewayClient.next_frame (bs ++ tl) = Some ((peek_msg_type bs, bs), tl).
Proof.
  intros [H1 H2]. destruct bs as [|b bs]; [cbn [length] in H2; lia|]. unfold GatewayClient.next_frame. cbn [app].
  change (b :: bs ++ tl) with ((b :: bs) ++ tl). change (peek_msg_type ((b :: bs) ++ tl)) with (peek_msg_type (b :: bs)).
  rewrite <- H2 in *. rewrite length_app.
  rewrite (proj2 (Z.eqb_neq _ _)) by lia. rewrite (proj2 (Z.ltb_ge _ _)) by lia. cbn [orb].
  rewrite Nat2Z.id, take_app_length, drop_app_length. done.
Qed.

(** What the client reads after a stretch of whole messages. *)
Lemma messages_app l tl : Forall framed l ->
  GatewayClient.messages (concat l ++ tl) = ((fun bs => (peek_msg_type bs, bs)) <$> l) ++ GatewayClient.messages tl.
Proof.
  unfold GatewayClient.messages. intros H.
  enough (Hp : forall fuel, (length (concat l ++ tl) <= fuel)%nat ->
    (GatewayClient.parse fuel (concat l ++ tl)).1 =
    ((fun bs => (peek_msg_type bs, bs)) <$> l) ++ (GatewayClient.parse (length tl) tl).1) by (by apply Hp).
  induction H as [|bs l Hb _ IH]; intros fuel Hf; [cbn [concat app fmap list_fmap] in *; by rewrite (GatewayClient.parse_fuel fuel (length tl)) by lia|].
  cbn [concat] in *. rewrite <- app_assoc in *. rewrite length_app in Hf. pose proof Hb as [H1 H2]. destruct fuel as [|fuel]; [lia|].
  cbn [GatewayClient.parse]. rewrite next_frame_framed by done. specialize (IH fuel ltac:(lia)).
  destruct (GatewayClient.parse fuel (concat l ++ tl)) as [fs r]. cbn [fst] in *. by rewrite IH.
Qed.

(** A send that took the whole buffer or nothing, and the buffers of those that
    took something. *)
Definition clean (c : list Z * Z) : Prop := c.2 <= 0 \/ c.2 = Z.of_nat (length c.1).
Definition delivered (l : list (list Z * Z)) : list (list Z) := fst <$> filter (fun c => 0 < c.2) l.

Lemma stream_clean l : Forall clean l -> Gateway.stream_of l = concat (delivered l).
Proof.
  unfold Gateway.stream_of, delivered. induction 1 as [|[bs r] l Hc _ IH]; [done|].
  rewrite fmap_cons, filter_cons. cbn [concat]. rewrite IH. unfold Gateway.taken_bytes, clean in *. cbn [fst snd] in *.
  case_decide as Hr; [|by replace (Z.to_nat r) with 0%nat by lia].
  cbn [fmap list_fmap concat fst]. f_equal. apply take_ge. lia.
Qed.

(** As long as no send is cut short, the SDK's client reads the messages that
    were taken. *)
Lemma stream_read pre post : Forall (fun c => framed c.1) pre -> Forall clean pre ->
  GatewayClient.messages (Gateway.stream_of (pre ++ post)) =
  ((fun bs => (peek_msg_type bs, bs)) <$> delivered pre) ++ GatewayClient.messages (Gateway.stream_of post).
Proof.
  intros Hf Hc. unfold Gateway.stream_of at 1. rewrite fmap_app, concat_app.
  fold (Gateway.stream_of pre). fold (Gateway.stream_of post). rewrite stream_clean by done. apply messages_app.
  unfold delivered. apply Forall_fmap, Forall_forall. intros c [_ Hin]%list_elem_of_filter.
  by apply (proj1 (Forall_forall _ _) Hf).
Qed.

(** Buffers with the results of their sends, from the [k]-th send on. *)
Definition answered (ret : nat -> Z) (k : nat) (l : list (list Z)) : list (list Z * Z) :=
  imap (fun i bs => (bs, ret (k + i)%nat)) l.

Lemma answered_app ret k l1 l2 : answered ret k (l1 ++ l2) = answered ret k l1 ++ answered ret (k + length l1) l2.
Proof. unfold answered. rewrite imap_app. f_equal. apply imap_ext. intros. by rewrite Nat.add_assoc. Qed.

Lemma fst_answered ret k l : fst <$> answered ret k l = l.
Proof. unfold answered. rewrite fmap_imap. etransitivity; [|apply list_fmap_id]. rewrite <- imap_const. by apply imap_ext. Qed.

Lemma length_answered ret k l : length (answered ret k l) = length l.
Proof. apply length_imap. Qed.

(** The messages of a queue that go to the gateway's contestant. *)
Definition addressed (g : Gateway.t) (l : list OutboundMsg) : list (list Z) :=
  if Gateway.is_connected g
  then bytes_of <$> filter (fun m => om_contestant_id m = gc_contestant_id (Gateway.cfg_ g)) l else [].

Definition same_link (g g' : Gateway.t) : Prop :=
  Gateway.cfg_ g' = Gateway.cfg_ g /\ Gateway.client_fd_ g' = Gateway.client_fd_ g.

Lemma send_spec g data size ret :
  same_link g (Gateway.send_to_contestant g data size ret).2 /\
  Gateway.sent (Gateway.send_to_contestant g data size ret).2 =
    Gateway.sent g ++ (if Gateway.is_connected g then [(take (Z.to_nat size) data, ret)] else []).
Proof.
  unfold Gateway.send_to_contestant, Gateway.is_connected.
  destruct (Z.ltb_spec (Gateway.client_fd_ g) 0) as [H|H]; [rewrite (proj2 (Z.leb_gt _ _)) by lia|rewrite (proj2 (Z.leb_le _ _)) by lia];
    (split; [done|]); [by rewrite app_nil_r|done].
Qed.

Lemma addressed_cons g m l : addressed g (m :: l) =
  (if Gateway.is_connected g && (om_contestant_id m =? gc_contestant_id (Gateway.cfg_ g)) then [bytes_of m] else []) ++ addressed g l.
Proof.
  unfold addressed. destruct (Gateway.is_connected g); [|done]. rewrite filter_cons. cbn [andb].
  destruct (Z.eqb_spec (om_contestant_id m) (gc_contestant_id (Gateway.cfg_ g))) as [E|E]; [rewrite decide_True by done|rewrite decide_False by done]; done.
Qed.

Lemma addressed_link g g' l : same_link g g' -> addressed g' l = addressed g l.
Proof. intros [H1 H2]. unfold addressed, Gateway.is_connected. by rewrite H1, H2. Qed.

Lemma same_link_trans g1 g2 g3 : same_link g1 g2 -> same_link g2 g3 -> same_link g1 g3.
Proof. intros [H1 H2] [H3 H4]. split; congruence. Qed.

Lemma forward_spec g m ret : same_link g (Gateway.forward_outbound g m ret) /\
  Gateway.sent (Gateway.forward_outbound g m ret) = Gateway.sent g ++
    (if Gateway.is_connected g && (om_contestant_id m =? gc_contestant_id (Gateway.cfg_ g)) then [(bytes_of m, ret)] else []).
Proof.
  unfold Gateway.forward_outbound. destruct (_ =? _); [rewrite andb_true_r; apply send_spec|].
  rewrite andb_false_r, app_nil_r. done.
Qed.

(** Forwarding empties the queue: every pending message addressed to the
    contestant is sent, in order; only the queue's positions change. *)
Lemma forward_phase_spec fuel : forall e g ret, ring_ok e -> (length (pending e) < fuel)%nat ->
  exists e' g', forward_phase fuel e g ret = Some (e', g') /\ ring_ok e' /\ pending e' = [] /\ same_link g g' /\
    Gateway.sent g' = Gateway.sent g ++ answered ret (length (Gateway.sent g)) (addressed g (pending e)) /\ exists h tl, e' = set_outbound e (outbound_ e) h tl.
Proof.
  induction fuel as [|fuel IH]; intros e g ret Hr Hl; [lia|]. cbn [forward_phase]. pose proof (pop_pending e Hr) as Hp.
  destruct (pending e) as [|m rest] eqn:Ep.
  { rewrite Hp. exists e, g. split; [done|]. split; [done|]. split; [done|]. split; [done|].
    unfold addressed. rewrite filter_nil. split; [by destruct (Gateway.is_connected g); rewrite app_nil_r|].
    exists (outbound_head_ e), (outbound_tail_ e). by destruct e. }
  destruct Hp as (e1 & E1 & Hr1 & Ep1). rewrite E1.
  assert (Hs : exists h tl, e1 = set_outbound e (outbound_ e) h tl).
  { unfold pop_outbound in E1. destruct (_ =? _); [done|]. injection E1 as _ <-. by eexists _, _. }
  destruct (forward_spec g m (next_ret ret g)) as [L1 S1]. cbn [length] in Hl.
  destruct (IH e1 (Gateway.forward_outbound g m (next_ret ret g)) ret Hr1 ltac:(rewrite Ep1; lia)) as (e' & g' & E & Hr' & P' & L' & S' & h' & tl' & ->).
  eexists _, g'. split; [exact E|]. split; [done|]. split; [done|]. split; [by eapply same_link_trans|].
  split.
  { rewrite S', S1, Ep1, addressed_cons, (addressed_link _ _ _ L1), answered_app, <- app_assoc, length_app. f_equal.
    destruct (_ && _); cbn [length]; [|by rewrite Nat.add_0_r]. f_equal.
    unfold answered, next_ret. cbn [imap]. by rewrite Nat.add_0_r. }
  destruct Hs as (h & tl & ->). by eexists _, _.
Qed.

(** ** Sessions *)

Section Sessions.
Context (dlog dcos : spec_float -> spec_float).

(** The order a turn delivers, if it delivers one, is one the engine takes: a
    limit order of an allowed size is one the book has room for. *)
Definition admissible (s : session) (t : turn) : Prop :=
  let s1 := tick_phase dlog dcos s t in
  forall buf, Gateway.recv_from_contestant (gateway s1) (recv_buf s1) RECV_BUF (received t) = (ORDER_ENTRY, buf) ->
  takes (engine s1) (of_wire buf).

Inductive reach : session -> Prop :=
| r_open arena mem omem cfg g buf match_start start_ts ret :
    (MatchEngine.init arena mem omem cfg new_engine).1.1 = true ->
    (forall o, remaining_qty (mem o) <= 0 /\ contestant_id (mem o) = 0) -> max_order_size cfg <= INT32_MAX ->
    Gateway.sent g = [] -> gc_contestant_id (Gateway.cfg_ g) = 0 ->
    reach (open_session (MatchEngine.init arena mem omem cfg new_engine).2 g buf match_start start_ts ret)
| r_turn s t s' : reach s -> admissible s t -> turn_body dlog dcos s t = Some s' -> reach s'.

Record session_ok (s : session) (q : list OutboundMsg) : Prop := {
  so_engine : exists bids asks, engine_ok (engine s) bids asks;
  so_cid : contestant s = 0;
  so_alone : alone 0 (engine s);
  so_ring : ring_ok (engine s);
  so_queue : pending (engine s) = q;
  so_link : gc_contestant_id (Gateway.cfg_ (gateway s)) = 0;
  so_sent : Forall (fun c => framed c.1) (Gateway.sent (gateway s)) }.

Lemma alone_book e b cid : alone cid e -> same_but_cache (book_ e) b -> alone cid (set_book e b).
Proof. intros [H1 H2] [Hp _ _]. split; [|done]. intros x. unfold OrderBook.order_at. cbn [book_ set_book]. rewrite Hp. apply H1. Qed.

Lemma generate_tick_same e ts : let e' := (generate_tick dlog dcos e ts).2 in
  pending e' = pending e /\ (ring_ok e -> ring_ok e') /\ contestants_ e' = contestants_ e /\ cfg_ e' = cfg_ e /\
  OrderBook.pool_ (book_ e') = OrderBook.pool_ (book_ e) /\ mu_msg_type (generate_tick dlog dcos e ts).1 = MARKET_UPDATE.
Proof.
  unfold generate_tick. destruct (MarketDataGenerator.next_tick dlog dcos (market_gen_ e) ts) as [u gen] eqn:Eu.
  assert (Hu : mu_msg_type u = MARKET_UPDATE).
  { unfold MarketDataGenerator.next_tick in Eu. repeat (case_match; simplify_eq); done. }
  pose proof (sbc_pool _ _ (best_bid_cache (book_ e))) as P1.
  destruct (OrderBook.best_bid_price (book_ e)) as [bb b1]. cbn [snd] in P1.
  pose proof (sbc_pool _ _ (best_ask_cache b1)) as P2. destruct (OrderBook.best_ask_price b1) as [ba b2]. cbn [snd] in P2.
  assert (P3 : OrderBook.pool_ (if 0 <? bb then OrderBook.best_bid_qty b2 else (mu_best_bid_qty u, b2)).2 = OrderBook.pool_ b2).
  { destruct (0 <? bb); [|done]. rewrite best_bid_qty_book. apply (sbc_pool _ _ (best_bid_cache b2)). }
  destruct (if 0 <? bb then _ else _) as [bq b3]. cbn [snd] in P3.
  assert (P4 : OrderBook.pool_ (if 0 <? ba then OrderBook.best_ask_qty b3 else (mu_best_ask_qty u, b3)).2 = OrderBook.pool_ b3).
  { destruct (0 <? ba); [|done]. rewrite best_ask_qty_book. apply (sbc_pool _ _ (best_ask_cache b3)). }
  destruct (if 0 <? ba then _ else _) as [aq b4]. cbn [snd] in P4.
  cbn [fst snd contestants_ cfg_ book_ mu_msg_type]. split; [done|]. split; [intros [H1 H2]; by split|].
  split; [done|]. split; [done|]. split; [congruence|done].
Qed.

(** The bytes of the tick of a turn. *)
Definition tick_bytes (s : session) (t : turn) : list (list Z) :=
  if (next_tick s <=? now t) && Gateway.is_connected (gateway s)
  then [to_wire (generate_tick dlog dcos (engine s) (tick_ts t)).1] else [].

Lemma answered_framed ret k l : Forall framed l -> Forall (fun c => framed c.1) (answered ret k l).
Proof. intros H. apply (proj1 (Forall_fmap fst framed _)). by rewrite fst_answered. Qed.

Lemma tick_phase_ok s t q : session_ok s q ->
  session_ok (tick_phase dlog dcos s t) q /\ same_link (gateway s) (gateway (tick_phase dlog dcos s t)) /\
  Gateway.sent (gateway (tick_phase dlog dcos s t)) = Gateway.sent (gateway s) ++
    answered (send_ret t) (length (Gateway.sent (gateway s))) (tick_bytes s t) /\
  recv_buf (tick_phase dlog dcos s t) = recv_buf s /\ orders_processed (tick_phase dlog dcos s t) = orders_processed s.
Proof.
  intros H. unfold tick_phase, tick_bytes. destruct (_ <=? _); [|by rewrite app_nil_r].
  pose proof H as [(bids & asks & He) Hc Ha Hr Hq Hl Hs].
  pose proof (generate_tick_ok dlog dcos (engine s) (tick_ts t) bids asks He) as He'.
  destruct (generate_tick_same (engine s) (tick_ts t)) as (P1 & P2 & P3 & P4 & P5 & P6).
  destruct (generate_tick dlog dcos (engine s) (tick_ts t)) as [u e']. cbn [fst snd] in *. cbn [andb].
  destruct (send_spec (gateway s) (to_wire u) (wire_size MarketUpdate) (next_ret (send_ret t) (gateway s))) as [L1 S1].
  assert (Et : take (Z.to_nat (wire_size MarketUpdate)) (to_wire u) = to_wire u).
  { apply take_ge. pose proof (length_to_wire u). lia. }
  set (r := next_ret (send_ret t) (gateway s)) in *.
  fold (Gateway.send_market_data (gateway s) u r) in L1, S1. rewrite Et in S1.
  set (g' := if Gateway.is_connected (gateway s) then Gateway.send_market_data (gateway s) u r else gateway s).
  assert (Lg : same_link (gateway s) g') by (unfold g'; by destruct (Gateway.is_connected (gateway s))).
  assert (Sg : Gateway.sent g' = Gateway.sent (gateway s) ++ 
    answered (send_ret t) (length (Gateway.sent (gateway s))) (if Gateway.is_connected (gateway s) then [to_wire u] else [])).
  { unfold g'. destruct (Gateway.is_connected (gateway s)); [|by rewrite app_nil_r].
    rewrite S1. unfold answered. cbn [imap]. by rewrite Nat.add_0_r. }
  split; [|split; [exact Lg|split; [exact Sg|done]]].
  split; cbn [engine gateway contestant]; try done.
  - by exists bids, asks.
  - destruct Ha as [A1 A2]. split; [intros x; unfold OrderBook.order_at; rewrite P5; apply A1|by rewrite P3].
  - by apply P2.
  - congruence.
  - by rewrite (proj1 Lg).
  - rewrite Sg. apply Forall_app. split; [done|]. apply answered_framed.
    destruct (Gateway.is_connected _); [|done]. by apply Forall_singleton, framed_update.
Qed.

Lemma pending_nil_count e : pending e = [] -> pending_count e = 0.
Proof. intros H. rewrite <- length_pending, H. done. Qed.

(** The queue an operation leaves, from an empty one. *)
Lemma emits_from_empty k e e' : ring_ok e -> pending e = [] -> (k <= 129)%nat -> emits k e e' ->
  ring_ok e' /\ (length (pending e') <= 129)%nat /\ Forall (fun m => framed (bytes_of m)) (pending e').
Proof.
  intros Hr Hp Hk H. destruct (H Hr) as (Hr' & new & E & L & F).
  { rewrite pending_nil_count by done. unfold OUTBOUND_QUEUE_SIZE. lia. }
  rewrite E, Hp. cbn [app]. split; [done|]. split; [lia|done].
Qed.

Lemma recv_phase_ok s t : session_ok s [] ->
  (forall buf, Gateway.recv_from_contestant (gateway s) (recv_buf s) RECV_BUF (received t) = (ORDER_ENTRY, buf) ->
   takes (engine s) (of_wire buf)) ->
  exists s' q, recv_phase s t = Some s' /\ session_ok s' q /\ (length q <= 129)%nat /\
    Forall (fun m => framed (bytes_of m)) q /\ gateway s' = gateway s.
Proof.
  intros H Hadm. unfold recv_phase. pose proof H as [(bids & asks & He) Hc Ha Hr Hq Hl Hs].
  destruct (Gateway.is_connected (gateway s)); [|exists s, []; split; [done|]; split; [done|]; split; [cbn; lia|done]].
  destruct (Gateway.recv_from_contestant _ _ _ _) as [type buf] eqn:Er.
  destruct (decide (type = ORDER_ENTRY)) as [->|Ho].
  { specialize (Hadm buf eq_refl). rewrite Hc.
    destruct (process_order_spec (engine s) 0 (of_wire buf) (recv_ts t) bids asks He ltac:(lia) Hadm) as (e' & b' & a' & Ep & He' & _).
    rewrite Ep. cbn [mbind option_bind].
    destruct (emits_from_empty 129 _ _ Hr Hq ltac:(lia) (process_order_emits _ _ _ _ _ Ep)) as (Hr' & Hlen & Hfr).
    eexists _, (pending e'). split; [reflexivity|]. split; [|done]. split; cbn [engine gateway contestant]; try done.
    - by exists b', a'.
    - exact (process_order_alone _ 0 _ _ _ bids asks He ltac:(lia) Ha Hadm Ep). }
  destruct (decide (type = CANCEL_REQUEST)) as [->|Hcr].
  { rewrite Hc. destruct (process_cancel_spec (engine s) 0 (of_wire buf) (recv_ts t) bids asks He) as (e' & b' & a' & Ep & He' & Hown & Hpos).
    rewrite Ep. cbn [mbind option_bind].
    destruct (emits_from_empty 1 _ _ Hr Hq ltac:(lia) (process_cancel_emits _ _ _ _ _ Ep)) as (Hr' & Hlen & Hfr).
    eexists _, (pending e'). split; [reflexivity|]. split; [|done]. split; cbn [engine gateway contestant]; try done.
    - by exists b', a'.
    - destruct Ha as [A1 A2]. split; [intros x; by rewrite Hown|by rewrite Hpos]. }
  destruct type; try done.
  all: eexists _, []; split; [reflexivity|]; split; [|split; [cbn; lia|done]].
  all: split; cbn [engine gateway contestant]; try done; by exists bids, asks.
Qed.

Lemma report_phase_ok s t : session_ok s [] -> session_ok (report_phase s t) [] /\ gateway (report_phase s t) = gateway s.
Proof.
  intros H. unfold report_phase. destruct (_ <? _); [|done]. pose proof H as [(bids & asks & He) Hc Ha Hr Hq Hl Hs].
  destruct (best_both _ _ _ (eo_book _ _ _ He)) as [H1 H2].
  destruct (OrderBook.best_bid_price (book_ (engine s))) as [x b1]. cbn [snd] in H1, H2.
  destruct (OrderBook.best_ask_price b1) as [y b2]. cbn [snd] in H1, H2.
  split; [|done]. split; cbn [engine gateway contestant]; try done.
  - exists bids, asks. by apply engine_ok_book.
  - by apply alone_book.
  - destruct Hr. by split.
Qed.

(** One turn, from start to end. *)
Lemma turn_ok s t : session_ok s [] -> admissible s t ->
  exists s1 s', recv_phase (tick_phase dlog dcos s t) t = Some s1 /\ turn_body dlog dcos s t = Some s' /\ session_ok s' [] /\
    (length (pending (engine s1)) <= 129)%nat /\
    Gateway.sent (gateway s') = Gateway.sent (gateway s) ++ answered (send_ret t) (length (Gateway.sent (gateway s)))
      (tick_bytes s t ++ addressed (gateway s) (pending (engine s1))).
Proof.
  intros H Hadm. destruct (tick_phase_ok s t [] H) as (H1 & L1 & S1 & _).
  destruct (recv_phase_ok _ t H1 Hadm) as (s1 & q & E1 & H2 & Hlen & Hfr & G1).
  pose proof H2 as [(bids & asks & He) Hc Ha Hr Hq Hl Hs].
  destruct (forward_phase_spec (forward_fuel (engine s1)) (engine s1) (gateway s1) (send_ret t) Hr) as
    (e' & g' & E2 & Hr' & P' & L' & S' & h & tl & Ee).
  { unfold forward_fuel. fold (pending_count (engine s1)). rewrite <- length_pending. lia. }
  assert (Hf : session_ok {| engine := e'; gateway := g'; contestant := contestant s1; recv_buf := recv_buf s1;
    tick_count := tick_count s1; orders_processed := orders_processed s1; next_tick := next_tick s1;
    report_interval := report_interval s1 |} []).
  { split; cbn [engine gateway contestant]; try done; rewrite ?Ee.
    - exists bids, asks. by apply engine_ok_outbound.
    - destruct Ha as [A1 A2]. by split.
    - by rewrite (proj1 L').
    - rewrite S'. apply Forall_app. split; [done|]. apply answered_framed. unfold addressed. destruct (Gateway.is_connected _); [|done].
      apply Forall_fmap, Forall_forall. intros m Hm. apply list_elem_of_filter in Hm as [_ Hm]. rewrite Hq in Hm.
      by apply (proj1 (Forall_forall _ _) Hfr). }
  destruct (report_phase_ok _ t Hf) as [Hr2 Hg2].
  eexists s1, _. split; [exact E1|]. unfold turn_body. rewrite E1. cbn [mbind option_bind]. rewrite E2. cbn [mbind option_bind].
  split; [reflexivity|]. split; [exact Hr2|]. split; [by rewrite Hq|].
  rewrite Hg2. cbn [gateway]. rewrite S', G1, S1, <- app_assoc, answered_app, length_app, length_answered.
  by rewrite (addressed_link _ _ _ L1).
Qed.

Lemma engine_init_state arena mem omem cfg :
  (MatchEngine.init arena mem omem cfg new_engine).1.1 = true ->
  let e := (MatchEngine.init arena mem omem cfg new_engine).2 in
  (forall x, OrderBook.order_at (book_ e) x = mem x) /\ (forall j, ContestantState.position (contestants_ e) j = 0) /\
  outbound_head_ e = 0 /\ outbound_tail_ e = 0 /\ cfg_ e = cfg.
Proof.
  intros H. unfold MatchEngine.init in *. cbn [book_] in *.
  assert (Hpool : (OrderBook.init arena mem new_book).1.1 = true ->
    OrderPool.orders (OrderBook.pool_ (OrderBook.init arena mem new_book).2) = mem).
  { unfold OrderBook.init, OrderPool.init. intros Hi. repeat case_match; simplify_eq; done. }
  destruct (OrderBook.init arena mem (book_ new_engine)) as [[ok1 a1] b] eqn:E1.
  change (book_ new_engine) with new_book in E1. rewrite E1 in Hpool. cbn [fst snd] in *.
  destruct ok1; cbn [negb] in *; [|done]. specialize (Hpool eq_refl).
  destruct (ContestantState.init a1 _ _) as [[ok2 a2] c] eqn:E2. destruct ok2; cbn [negb] in *; [|done].
  destruct (contestants_init_spec _ _ _ _ _ E2) as [Hpos _].
  destruct (HugePageArena.allocate_raw a2 _ _) as [p1 a3]. destruct (negb _); [done|].
  destruct (HugePageArena.allocate a3 _ _ _) as [p2 a4].
  destruct (HugePageArena.allocate a4 _ _ _) as [p3 a5]. destruct (negb _); [done|].
  cbn [fst snd]. split; [|by split].
  intros x. unfold OrderBook.order_at. cbn [book_ set_cancel_map set_outbound set_contestants set_book]. by rewrite <- Hpool.
Qed.

Lemma session_reach_ok s : reach s -> session_ok s [].
Proof.
  induction 1 as [arena mem omem cfg g buf ms ts ret Hi Hm Hsz Hg Hc|s t s' _ IH Hadm E].
  - destruct (engine_init_ok arena mem omem cfg Hi) as [He Hcnt];
      [intros o; destruct (Hm o) as [? ->]; unfold MAX_CONTESTANTS; lia|done|].
    destruct (engine_init_state arena mem omem cfg Hi) as (Hpool & Hpos & Hh & Ht & Hcfg).
    set (e := (MatchEngine.init arena mem omem cfg new_engine).2) in *. cbn zeta in *.
    destruct (register_ok e (initial_cash (cfg_ e)) _ _ He) as [Hr _]; [by rewrite Hcnt|].
    unfold open_session. cbn [register_contestant]. rewrite Hcnt.
    cbn [register_contestant snd] in Hr. rewrite Hcnt in Hr.
    match type of Hr with engine_ok ?x _ _ => set (e1 := x) in * end.
    destruct (send_spec g (to_wire (Gateway.session_start (cfg_ e1) ts)) (wire_size SessionStart) ret) as [L1 S1].
    fold (Gateway.send_session_start g (cfg_ e1) ts ret) in L1, S1.
    split; cbn [engine gateway contestant]; try done.
    + by exists [], [].
    + split; [intros x; change (book_ e1) with (book_ e); rewrite Hpool; apply Hm|exact Hpos].
    + split; [change (outbound_head_ e1) with (outbound_head_ e)|change (outbound_tail_ e1) with (outbound_tail_ e)]; lia.
    + unfold pending, pending_count. change (outbound_head_ e1) with (outbound_head_ e). change (outbound_tail_ e1) with (outbound_tail_ e).
      by rewrite Hh, Ht.
    + destruct (Gateway.is_connected g); [|done]. by rewrite (proj1 L1).
    + destruct (Gateway.is_connected g) eqn:Eg; [|by rewrite Hg]. rewrite S1, Hg. apply Forall_singleton.
      cbn [fst]. rewrite take_ge; [apply framed_start|]. pose proof (length_to_wire (Gateway.session_start (cfg_ e1) ts)). lia.
  - destruct (turn_ok s t IH Hadm) as (s1 & s2 & _ & E2 & H & _). rewrite E in E2. by injection E2 as ->.
Qed.

(** C23: A local session keeps going and is understood.  In every session that
    starts from an initialised engine in zeroed memory and in which each limit
    order of an allowed size is one the book has room for when it arrives
    ([admissible]: price strictly inside the 64-bit range, no overflow of its
    level's total, a live level at its price or else an unused level slot and
    probe distances below 250), and whatever else the contestant, the clocks and
    the kernel do, every turn of the main loop returns, at most 129 messages wait
    in the engine's queue of 4096, all of them are handed to [send] in order
    before the turn ends, and the matching engine stays well formed.  As far as
    no [send] took only a part of its buffer, the SDK's client reads from the
    stream exactly the messages whose [send] succeeded, in order; a failed or
    short send is not repeated, so what follows a short one is read from the
    middle of a message. *)
Theorem local_session s : reach s ->
  (exists bids asks, engine_ok (engine s) bids asks) /\ pending (engine s) = [] /\
  (forall pre post, Gateway.sent (gateway s) = pre ++ post -> Forall clean pre ->
     GatewayClient.messages (Gateway.stream (gateway s)) =
     ((fun bs => (peek_msg_type bs, bs)) <$> delivered pre) ++ GatewayClient.messages (Gateway.stream_of post)) /\
  forall t, admissible s t -> exists s1 s', recv_phase (tick_phase dlog dcos s t) t = Some s1 /\
    turn_body dlog dcos s t = Some s' /\ (length (pending (engine s1)) <= 129)%nat /\
    Gateway.sent (gateway s') = Gateway.sent (gateway s) ++ answered (send_ret t) (length (Gateway.sent (gateway s)))
      (tick_bytes s t ++ addressed (gateway s) (pending (engine s1))).
Proof.
  intros Hr. pose proof (session_reach_ok s Hr) as H. split; [apply H|]. split; [apply H|]. split.
  - intros pre post E Hc. unfold Gateway.stream. rewrite E. apply stream_read; [|done].
    pose proof (so_sent _ _ H) as Hf. rewrite E in Hf. by apply Forall_app in Hf as [? _].
  - intros t Hadm. destruct (turn_ok s t H Hadm) as (s1 & s' & E1 & E2 & _ & H3 & H4). by exists s1, s'.
Qed.

(** Alone, one only trades with oneself.  In a local session, which has one
    contestant and whose simulated market never enters the book, the contestant's
    position is zero after every turn, whatever it sends and whatever is filled, so
    the session ends with a final position of zero and a final profit that is the
    realized one alone. *)
Theorem local_session_flat s ts ret : reach s ->
  ContestantState.position (contestants_ (engine s)) (contestant s) = 0 /\
  se_final_position (close_session s ts ret).1 = 0 /\
  se_final_pnl (close_session s ts ret).1 = i64 (ContestantState.realized_pnl (contestants_ (engine s)) (contestant s)).
Proof.
  intros Hr. destruct (session_reach_ok s Hr) as [_ Hc [_ Hz] _ _ _ _]. split; [apply Hz|].
  unfold close_session, make_session_end. destruct (OrderBook.best_bid_price _) as [x b]. destruct (OrderBook.best_ask_price b) as [y b'].
  cbn [fst se_final_position se_final_pnl]. split; [apply Hz|].
  unfold ContestantState.total_pnl, ContestantState.unrealized_pnl. rewrite Hz. cbn [Z.eqb]. by rewrite Z.add_0_r.
Qed.

End Sessions.

(** ** A session with a self-trade *)

Definition demo_open : session :=
  open_session (MatchEngine.init demo_arena (fun _ => zero_order) (fun _ => zero_slot) default_engine_config new_engine).2
    (Gateway.listen_and_accept (Gateway.init {| gc_contestant_id := 0; gc_max_orders_per_sec := 1000; gc_heartbeat_timeout_ms := 5000 |})
       3 0 0 1 4).2 (replicate 256 0) 1000 77 64.

Definition demo_order (side : Side) (id : Z) : OrderEntry :=
  {| oe_msg_type := ORDER_ENTRY; oe_side := side; oe_order_type := LIMIT; oe_instrument_id := 0;
     oe_client_order_id := id; oe_price := 100; oe_quantity := 5 |}.
Definition demo_turn_ret (ret : nat -> Z) (side : Side) (id : Z) : turn :=
  {| now := 0; tick_ts := 0; received := to_wire (demo_order side id); recv_ts := id; secs := 0; send_ret := ret |}.

(** Every message sent whole: the session's opening, the acknowledgement of the
    first order, the two fills and the acknowledgement of the second. *)
Definition demo_sizes (k : nat) : Z := nth k [64; 32; 64; 64; 32] 0.
Definition demo_turn : Side -> Z -> turn := demo_turn_ret demo_sizes.

Definition no_libm (x : spec_float) : spec_float := x.

Definition demo_after : session :=
  default demo_open (turn_body no_libm no_libm demo_open (demo_turn BUY 1)).

Lemma demo_open_reach : reach no_libm no_libm demo_open.
Proof. apply r_open; [vm_compute; reflexivity|done|done|vm_compute; reflexivity|vm_compute; reflexivity]. Qed.

(** The demonstration orders arrive whole and find the other side empty or not
    at all in their way. *)
Lemma demo_admissible s ret side id : let bid := is_buy side in
  next_tick s = 1000 -> Gateway.client_fd_ (gateway s) = 4 -> wire_ok (demo_order side id) ->
  PriceLevelPool.count (OrderBook.levels (book_ (engine s)) bid) = 0 ->
  PriceLevelPool.capacity (OrderBook.levels (book_ (engine s)) bid) = 4096 ->
  PriceHashMap.probe_room (PriceLevelPool.price_map (OrderBook.levels (book_ (engine s)) bid)) ->
  admissible no_libm no_libm s (demo_turn_ret ret side id).
Proof.
  intros bid Ht Hg Hw Hc Hcap Hr. unfold admissible, tick_phase. rewrite Ht. cbn [now demo_turn_ret Z.leb Z.compare].
  unfold Gateway.recv_from_contestant. rewrite Hg. change (4 <? 0) with false. cbn iota. cbn [received demo_turn_ret].
  rewrite take_ge by (pose proof (length_to_wire (demo_order side id)) as Hl; change (wire_size OrderEntry) with 64 in Hl; unfold RECV_BUF; lia).
  destruct (to_wire (demo_order side id)) as [|x l] eqn:E; [pose proof (length_to_wire (demo_order side id)) as Hl; rewrite E in Hl; done|].
  intros buf [= _ <-]. rewrite app_comm_cons, <- E, of_to_wire by done. intros _ _. apply accepts_empty; try done. cbn [demo_order oe_side]. fold bid. lia.
Qed.

Lemma demo_first : admissible no_libm no_libm demo_open (demo_turn BUY 1).
Proof. apply demo_admissible; try (vm_compute; reflexivity). repeat split; vm_compute; congruence. Qed.

Lemma demo_second : admissible no_libm no_libm demo_after (demo_turn SELL 2).
Proof. apply demo_admissible; try (vm_compute; reflexivity). repeat split; vm_compute; congruence. Qed.

Lemma demo_after_reach : reach no_libm no_libm demo_after.
Proof.
  destruct (turn_ok no_libm no_libm demo_open _ (session_reach_ok _ _ _ demo_open_reach) demo_first) as (_ & s1 & _ & E1 & _).
  eapply r_turn; [apply demo_open_reach|apply demo_first|]. unfold demo_after. by rewrite E1.
Qed.

(** After the first turn the client has read the opening and the
    acknowledgement; the second turn returns and leaves five messages sent. *)
Lemma local_session_witness :
  (GatewayClient.messages (Gateway.stream (gateway demo_after))).*1 = [SESSION_START; ORDER_ACK] /\
  exists s', turn_body no_libm no_libm demo_after (demo_turn SELL 2) = Some s' /\
    length (Gateway.sent (gateway s')) = 5%nat.
Proof.
  destruct (local_session no_libm no_libm demo_after demo_after_reach) as (_ & _ & Hm & Ht). split.
  - specialize (Hm (Gateway.sent (gateway demo_after)) []). rewrite Hm; [vm_compute; reflexivity|by rewrite app_nil_r|].
    vm_compute. repeat constructor; by right.
  - destruct (Ht (demo_turn SELL 2) demo_second) as (s1 & s' & _ & E & _). exists s'. split; [exact E|].
    assert (H : s' = default demo_open (turn_body no_libm no_libm demo_after (demo_turn SELL 2))) by (by rewrite E).
    rewrite H. vm_compute. reflexivity.
Defined.

(** The same two turns when the kernel takes 10 of the 32 bytes of the first
    acknowledgement: nothing is repeated, and the client reads a message made of
    those bytes and the head of the next one, then stops at a byte that is no
    message type, with 138 bytes unread. *)
Definition short_sizes (k : nat) : Z := nth k [64; 10; 64; 64; 32] 0.
Definition short_session : option session :=
  s ← turn_body no_libm no_libm demo_open (demo_turn_ret short_sizes BUY 1);
  turn_body no_libm no_libm s (demo_turn_ret short_sizes SELL 2).
Lemma short_send_garbles :
  (s ← short_session; Some (length (Gateway.sent (gateway s)),
     (GatewayClient.messages (Gateway.stream (gateway s))).*1,
     length (GatewayClient.parse (length (Gateway.stream (gateway s))) (Gateway.stream (gateway s))).2)) =
  Some (5%nat, [SESSION_START; ORDER_ACK], 138%nat).
Proof. vm_compute. reflexivity. Qed.

Lemma local_session_flat_witness : exists s2,
  turn_body no_libm no_libm demo_after (demo_turn SELL 2) = Some s2 /\
  ContestantState.total_fills (contestants_ (engine s2)) 0 = 2 /\ length (Gateway.sent (gateway s2)) = 5%nat /\
  se_final_position (close_session s2 9 64).1 = 0.
Proof.
  destruct (turn_ok no_libm no_libm demo_after _ (session_reach_ok _ _ _ demo_after_reach) demo_second) as (_ & s2 & _ & E2 & _).
  assert (H2 : s2 = default demo_open (turn_body no_libm no_libm demo_after (demo_turn SELL 2))) by (by rewrite E2).
  assert (R2 : reach no_libm no_libm s2) by (eapply r_turn; [exact demo_after_reach|exact demo_second|exact E2]).
  exists s2. split; [done|]. split; [rewrite H2; vm_compute; reflexivity|].
  split; [rewrite H2; vm_compute; reflexivity|]. apply (local_session_flat no_libm no_libm s2 9 64 R2).
Defined.
