(* ===== verification/Telemetry.v ===== *)
(** The telemetry consumer (src/telemetry/include/telemetry/consumer.hpp and
    src/telemetry/src/consumer.cpp), the calibration of the time stamp counter
    (src/core/include/core/tsc.hpp), and the results a worker reports from them
    (src/orchestrator/src/integrated_worker.cpp).  The readings of the clocks and
    what the ring delivers in each turn of the consumer's loop are arguments. *)

From S2P Require Import Prelude Xorshift Arena Histogram.
From Stdlib Require Import SpecFloat.

(** ** The time stamp counter *)

Record TscCalibration := { cal_tsc_to_ns : spec_float; cal_tsc_ghz : spec_float; cal_tsc_hz : Z }.

(** The frequency from the two clocks at the ends of the calibration window. *)
Definition calibrate_tsc (start_sec start_nsec end_sec end_nsec tsc_start tsc_end : Z) : TscCalibration :=
  let elapsed_ns := (end_sec - start_sec) * 1000000000 + (end_nsec - start_nsec) in
  let elapsed_tsc := u64 (tsc_end - tsc_start) in
  let tsc_hz := F64.div (F64.mul (F64.of_Z elapsed_tsc) (F64.of_Z 1000000000)) (F64.of_Z elapsed_ns) in
  {| cal_tsc_to_ns := F64.div (F64.of_Z elapsed_ns) (F64.of_Z elapsed_tsc);
     cal_tsc_ghz := F64.div tsc_hz (F64.of_Z 1000000000); cal_tsc_hz := u64 (F64.trunc tsc_hz) |}.

Definition tsc_to_ns (ticks : Z) (cal : TscCalibration) : spec_float := F64.mul (F64.of_Z ticks) (cal_tsc_to_ns cal).
Definition tsc_to_us (ticks : Z) (cal : TscCalibration) : spec_float := F64.div (tsc_to_ns ticks cal) (F64.of_Z 1000).

(** ** The consumer *)

Module TelemetryConsumer.
Import HdrHistogram.

Record t := {
  report_interval_ms : Z; tsc_cal_ : TscCalibration; histogram_ : HdrHistogram.t; latest_pct_ : Percentiles;
  total_samples_ : Z; dropped_ : Z; last_seq_ : Z }.

(** [init]; [h] is the initialised histogram. *)
Definition init (c : t) (interval_ms : Z) (cal : TscCalibration) (h : HdrHistogram.t) : t :=
  {| report_interval_ms := interval_ms; tsc_cal_ := cal; histogram_ := h; latest_pct_ := latest_pct_ c;
     total_samples_ := 0; dropped_ := 0; last_seq_ := 0 |}.

(** The latency of a sample in nanoseconds. *)
Definition latency_ns (c : t) (s : LatencySample) : Z :=
  u64 (F64.trunc (F64.mul (F64.of_Z (u64 (recv_tsc s - send_tsc s))) (cal_tsc_to_ns (tsc_cal_ c)))).

Definition consume (c : t) (s : LatencySample) : t :=
  {| report_interval_ms := report_interval_ms c; tsc_cal_ := tsc_cal_ c; histogram_ := record (histogram_ c) (latency_ns c s);
     latest_pct_ := latest_pct_ c; total_samples_ := u64 (total_samples_ c + 1); dropped_ := dropped_ c;
     last_seq_ := if last_seq_ c <? seq_num s then seq_num s else last_seq_ c |}.

Definition report (c : t) : t :=
  {| report_interval_ms := report_interval_ms c; tsc_cal_ := tsc_cal_ c; histogram_ := histogram_ c;
     latest_pct_ := get_percentiles (histogram_ c); total_samples_ := total_samples_ c; dropped_ := dropped_ c;
     last_seq_ := last_seq_ c |}.

Definition report_ticks (c : t) : Z :=
  u64 (F64.trunc (F64.mul (F64.div (F64.of_Z (report_interval_ms c)) (F64.of_Z 1000)) (F64.of_Z (cal_tsc_hz (tsc_cal_ c))))).

(** A turn of the loop: what [try_pop] gives and what the counter reads. *)
Record turn := { popped : option LatencySample; now_tsc : Z }.

(** The consumer with [last_report_tsc] and [samples_since_report]. *)
Definition turn_body (ticks : Z) (st : t * Z * Z) (tn : turn) : t * Z * Z :=
  let '(c, last_report_tsc, since) := st in
  let '(c, since) := match popped tn with Some s => (consume c s, u64 (since + 1)) | None => (c, since) end in
  if ticks <=? u64 (now_tsc tn - last_report_tsc) then (report c, now_tsc tn, 0) else (c, last_report_tsc, since).

(** After [stop]: the drops. *)
Definition finish (c : t) : t :=
  {| report_interval_ms := report_interval_ms c; tsc_cal_ := tsc_cal_ c; histogram_ := histogram_ c;
     latest_pct_ := latest_pct_ c; total_samples_ := total_samples_ c;
     dropped_ := if total_samples_ c <? u32 (last_seq_ c + 1) then u64 (u32 (last_seq_ c + 1) - total_samples_ c) else dropped_ c;
     last_seq_ := last_seq_ c |}.

Definition run (c : t) (start_tsc : Z) (turns : list turn) : t :=
  finish (foldl (turn_body (report_ticks c)) (c, start_tsc, 0) turns).1.1.

(** ** What a run computes *)

Definition delivered (turns : list turn) : list LatencySample := omap popped turns.
Definition highest (seqs : list Z) : Z := foldr Z.max 0 seqs.

Record summary (c : t) (ss : list LatencySample) (c' : t) : Prop := {
  su_cal : tsc_cal_ c' = tsc_cal_ c;
  su_hist : histogram_ c' = record_all (histogram_ c) (latency_ns c <$> ss);
  su_total : total_samples_ c' = u64 (total_samples_ c + Z.of_nat (length ss));
  su_dropped : dropped_ c' = dropped_ c;
  su_last : last_seq_ c' = Z.max (last_seq_ c) (highest (seq_num <$> ss)) }.

(** The turns, from number [i] on, at which a report is due: those whose counter
    reads at least [ticks] more than at the report before, the first compared
    with [last]. *)
Fixpoint report_turns (ticks last : Z) (i : nat) (turns : list turn) : list nat :=
  match turns with
  | [] => []
  | tn :: turns =>
      if ticks <=? u64 (now_tsc tn - last) then i :: report_turns ticks (now_tsc tn) (S i) turns
      else report_turns ticks last (S i) turns
  end.

(** The percentiles of what was delivered up to the last of these turns. *)
Definition published (c : t) (ticks start_tsc : Z) (turns : list turn) : Percentiles :=
  match last (report_turns ticks start_tsc 0 turns) with
  | None => latest_pct_ c
  | Some i => get_percentiles (record_all (histogram_ c) (latency_ns c <$> delivered (take (S i) turns)))
  end.

Lemma highest_nonneg l : 0 <= highest l.
Proof. induction l as [|x l IH]; cbn [highest foldr]; [lia|]. fold (highest l). lia. Qed.

Lemma highest_app l l' : highest (l ++ l') = Z.max (highest l) (highest l').
Proof.
  induction l as [|x l IH]; cbn [app highest foldr]; [pose proof (highest_nonneg l'); unfold highest in *; lia|].
  fold (highest (l ++ l')) (highest l). lia.
Qed.

Lemma summary_consume c ss c' s : 0 <= seq_num s -> summary c ss c' -> summary c (ss ++ [s]) (consume c' s).
Proof.
  intros Hs [H1 H2 H3 H4 H5]. split; cbn [consume tsc_cal_ histogram_ total_samples_ dropped_ last_seq_ latest_pct_]; try done.
  - unfold latency_ns at 1. rewrite H1, H2. fold (latency_ns c s). unfold record_all. by rewrite fmap_app, foldl_app.
  - rewrite H3, length_app. cbn [length]. unfold u64. rewrite Zplus_mod_idemp_l. f_equal. lia.
  - rewrite fmap_app, highest_app, H5. cbn [fmap list_fmap highest foldr]. fold (highest (seq_num <$> ss)).
    destruct (Z.ltb_spec (Z.max (last_seq_ c) (highest (seq_num <$> ss))) (seq_num s)); lia.
Qed.

Lemma summary_report c ss c' : summary c ss c' -> summary c ss (report c').
Proof. by intros [H1 H2 H3 H4 H5]. Qed.

Lemma delivered_app l l' : delivered (l ++ l') = delivered l ++ delivered l'.
Proof. apply omap_app. Qed.

(** One turn: the sample is consumed and, if a report is due, the percentiles of
    everything so far are published. *)
Lemma turn_summary c ticks past c1 last since tn :
  summary c (delivered past) c1 -> Forall (fun s => 0 <= seq_num s) (delivered [tn]) ->
  let st := turn_body ticks (c1, last, since) tn in
  summary c (delivered (past ++ [tn])) st.1.1 /\
  (if ticks <=? u64 (now_tsc tn - last)
   then st.1.2 = now_tsc tn /\
        latest_pct_ st.1.1 = get_percentiles (record_all (histogram_ c) (latency_ns c <$> delivered (past ++ [tn])))
   else st.1.2 = last /\ latest_pct_ st.1.1 = latest_pct_ c1).
Proof.
  intros H Hs st.
  set (c2 := match popped tn with Some s => consume c1 s | None => c1 end).
  assert (H2 : summary c (delivered (past ++ [tn])) c2 /\ latest_pct_ c2 = latest_pct_ c1).
  { rewrite delivered_app. unfold c2, delivered in *. cbn [omap list_omap] in *. destruct (popped tn) as [s|].
    - inversion Hs; subst. split; [by apply summary_consume|done].
    - by rewrite app_nil_r. }
  destruct H2 as [H2 Hp]. unfold st, turn_body, c2 in *. destruct (popped tn) as [s|]; destruct (_ <=? _); cbn [fst snd].
  all: split; [done || by apply summary_report|]; (split; [done|]); try exact Hp.
  all: cbn [report latest_pct_]; by rewrite (su_hist _ _ _ H2).
Qed.

Lemma loop_published c ticks turns : forall past st,
  summary c (delivered past) st.1.1 -> Forall (fun s => 0 <= seq_num s) (delivered turns) ->
  latest_pct_ (foldl (turn_body ticks) st turns).1.1 =
  match last (report_turns ticks st.1.2 (length past) turns) with
  | None => latest_pct_ st.1.1
  | Some i => get_percentiles (record_all (histogram_ c) (latency_ns c <$> delivered (take (S i) (past ++ turns))))
  end.
Proof.
  induction turns as [|tn turns IH]; intros past [[c1 la] since] H Hs; [done|].
  change (tn :: turns) with ([tn] ++ turns) in Hs. rewrite delivered_app in Hs. apply Forall_app in Hs as [Hs1 Hs2].
  destruct (turn_summary c ticks past c1 la since tn H Hs1) as [H1 H2]. cbn [foldl report_turns fst snd] in *.
  destruct (turn_body ticks (c1, la, since) tn) as [[c2 la2] since2]. cbn [fst snd] in *.
  rewrite (IH (past ++ [tn]) (c2, la2, since2)), length_app, <- app_assoc by done. cbn [fst snd length app].
  rewrite Nat.add_1_r. destruct (_ <=? _); destruct H2 as [-> ->]; [|done]. rewrite last_cons.
  destruct (last (report_turns _ _ _ _)) as [i|]; [done|].
  change (tn :: turns) with ([tn] ++ turns). rewrite app_assoc, take_app_le, take_ge by (rewrite length_app; cbn [length]; lia). done.
Qed.

Lemma loop_summary c ticks turns : forall ss st, summary c ss st.1.1 -> Forall (fun s => 0 <= seq_num s) (delivered turns) ->
  summary c (ss ++ delivered turns) (foldl (turn_body ticks) st turns).1.1.
Proof.
  induction turns as [|tn turns IH]; intros ss st H Hs; [cbn; by rewrite app_nil_r|]. cbn [foldl].
  destruct st as [[c1 last] since]. cbn [fst] in H.
  assert (E : exists ss', ss ++ delivered (tn :: turns) = ss' ++ delivered turns /\
    Forall (fun s => 0 <= seq_num s) (delivered turns) /\ summary c ss' (turn_body ticks (c1, last, since) tn).1.1).
  { unfold delivered in *. cbn [omap list_omap] in *. unfold turn_body. destruct (popped tn) as [s|].
    - inversion Hs as [|? ? H0 Hs']; subst. exists (ss ++ [s]). rewrite <- app_assoc. split; [done|]. split; [done|].
      destruct (_ <=? _); [apply summary_report|]; by apply summary_consume.
    - exists ss. split; [done|]. split; [done|]. destruct (_ <=? _); [by apply summary_report|done]. }
  destruct E as (ss' & -> & Hs' & H'). by apply IH.
Qed.

(** Distinct numbers up to the highest: what is missing. *)
Definition missing (seqs : list Z) : list Z := filter (fun x => x ∉ seqs) (seqZ 0 (highest seqs + 1)).

Lemma highest_bound l x : x ∈ l -> x <= highest l.
Proof. induction 1 as [x l|x y l _ IH]; cbn [highest foldr]; fold (highest l); lia. Qed.

Lemma missing_count seqs : NoDup seqs -> Forall (fun x => 0 <= x) seqs ->
  Z.of_nat (length (missing seqs)) = highest seqs + 1 - Z.of_nat (length seqs).
Proof.
  intros Hnd Hp. pose proof (highest_nonneg seqs) as Hh.
  assert (Hperm : seqs ++ missing seqs ≡ₚ seqZ 0 (highest seqs + 1)).
  { apply NoDup_Permutation.
    - apply NoDup_app. split; [done|]. split; [|apply NoDup_filter, NoDup_seqZ].
      intros x Hx Hm. by apply list_elem_of_filter in Hm as [? _].
    - apply NoDup_seqZ.
    - intros x. rewrite elem_of_app, elem_of_seqZ. unfold missing. rewrite list_elem_of_filter, elem_of_seqZ. split.
      + intros [Hx|[_ Hx]]; [|lia]. pose proof (highest_bound _ _ Hx). pose proof (proj1 (Forall_forall _ _) Hp x Hx). cbn beta in *. lia.
      + intros Hx. destruct (decide (x ∈ seqs)); [by left|by right]. }
  apply Permutation_length in Hperm. rewrite length_app, length_seqZ in Hperm. lia.
Qed.

(** C24: The consumer reports what it was given.  For any run of its loop in
    which the samples delivered have distinct sequence numbers below 2^32 - 1: the
    count is the number of samples, the histogram holds exactly their latencies, the
    number of drops is the number of sequence numbers up to the highest one seen
    that were not delivered (number 0, if nothing was), and the published percentiles
    are those of the samples delivered up to the last turn at which a report was
    due (a report is due when the counter reads at least the interval's ticks more
    than at the report before, or than at the start), or the old ones if none was. *)
Theorem consumer_run c cal interval h start_tsc turns :
  let ss := delivered turns in
  let seqs := seq_num <$> ss in
  let c0 := init c interval cal h in
  Z.of_nat (length ss) < 2 ^ 64 -> NoDup seqs -> Forall (fun x => 0 <= x < 2 ^ 32 - 1) seqs ->
  let c' := run c0 start_tsc turns in
  total_samples_ c' = Z.of_nat (length ss) /\ histogram_ c' = record_all h (latency_ns c0 <$> ss) /\
  dropped_ c' = Z.of_nat (length (missing seqs)) /\
  latest_pct_ c' = published c0 (report_ticks c0) start_tsc turns.
Proof.
  intros ss seqs c0 Hlen Hnd Hr c'.
  assert (H0 : summary c0 [] c0) by (by split).
  assert (Hs : Forall (fun s => 0 <= seq_num s) ss).
  { apply Forall_fmap in Hr. eapply Forall_impl; [exact Hr|]. intros s [Hs _]. exact Hs. }
  pose proof (loop_summary c0 (report_ticks c0) turns [] (c0, start_tsc, 0) H0 Hs) as [_ H2 H3 H4 H5].
  pose proof (loop_published c0 (report_ticks c0) turns [] (c0, start_tsc, 0) H0 Hs) as H6.
  assert (Hh : 0 <= highest seqs < 2 ^ 32 - 1).
  { split; [apply highest_nonneg|]. clear -Hr. induction Hr as [|x l Hx _ IH]; cbn [highest foldr]; [lia|fold (highest l); lia]. }
  assert (Hm : Z.of_nat (length (missing seqs)) = highest seqs + 1 - Z.of_nat (length ss)).
  { rewrite missing_count; [by unfold seqs; rewrite length_fmap|done|]. eapply Forall_impl; [exact Hr|]. cbn beta. lia. }
  cbn [app] in *. unfold c', run, finish. cbn [total_samples_ histogram_ dropped_ latest_pct_].
  fold ss in H2, H3, H5. fold seqs in H5. change (total_samples_ c0) with 0 in H3. rewrite Z.add_0_l, u64_small in H3 by lia.
  change (last_seq_ c0) with 0 in H5. rewrite Z.max_r in H5 by lia.
  split; [done|]. split; [done|]. split; [|done].
  rewrite H3, H4, H5, u32_small by lia. change (dropped_ c0) with 0.
  destruct (Z.ltb_spec (Z.of_nat (length ss)) (highest seqs + 1)) as [Hlt|Hge]; [rewrite u64_small by lia; lia|lia].
Qed.

Definition demo_cal : TscCalibration := calibrate_tsc 0 0 0 100000000 0 300000000.
Definition sample_of (seq : Z) : LatencySample := {| send_tsc := 1000; recv_tsc := 301000; bot_id := 0; seq_num := seq |}.
Definition demo_sample (seq : Z) : turn := {| popped := Some (sample_of seq); now_tsc := 302000 |}.
Definition demo_consumer : t :=
  {| report_interval_ms := 1000; tsc_cal_ := demo_cal; histogram_ := HdrHistogram.new; latest_pct_ := no_percentiles;
     total_samples_ := 0; dropped_ := 0; last_seq_ := 0 |}.

(** Three of five samples arrive; the counter passes the interval of 3 * 10^9
    ticks once, after the second of them. *)
Definition demo_turns : list turn :=
  [demo_sample 0; demo_sample 4; {| popped := None; now_tsc := 3000000001 |};
   {| popped := Some (sample_of 1); now_tsc := 3000000002 |}].

Lemma consumer_run_witness :
  let c := init demo_consumer 1000 demo_cal HdrHistogram.new in
  dropped_ (run c 0 demo_turns) = 2 /\ report_turns (report_ticks c) 0 0 demo_turns = [2%nat] /\
  latest_pct_ (run c 0 demo_turns) =
    get_percentiles (record_all HdrHistogram.new (latency_ns c <$> [sample_of 0; sample_of 4])).
Proof.
  intros c.
  destruct (consumer_run demo_consumer demo_cal 1000 HdrHistogram.new 0 demo_turns) as (_ & _ & H & Hp).
  - vm_compute. reflexivity.
  - vm_compute. repeat constructor; set_solver.
  - repeat (apply Forall_cons; split; [cbn; lia|]). by apply Forall_nil.
  - split; [etransitivity; [exact H|]; vm_compute; reflexivity|].
    assert (Er : report_turns (report_ticks c) 0 0 demo_turns = [2%nat]) by (vm_compute; reflexivity).
    split; [exact Er|]. etransitivity; [exact Hp|]. unfold published. fold c. by rewrite Er.
Defined.

(** A run that ends before the first report publishes nothing: the percentiles
    read after it are still those of an empty histogram. *)
Example short_run_unpublished :
  let c' := run (init demo_consumer 1000 demo_cal HdrHistogram.new) 0 [demo_sample 0; demo_sample 1] in
  (total_samples_ c', p99 (latest_pct_ c'), p_total_count (latest_pct_ c')) = (2, 0, 0).
Proof. vm_compute. reflexivity. Qed.

End TelemetryConsumer.

(** ** The worker's results *)

Record BenchmarkResults := {
  br_total_sends : Z; br_total_recvs : Z; br_drops : Z; br_tps : spec_float; br_elapsed_secs : spec_float;
  br_p50_ns : Z; br_p90_ns : Z; br_p99_ns : Z; br_p999_ns : Z; br_max_ns : Z; br_score : spec_float }.

(** What [run_shm_benchmark] collects at its end from the engine's counters, the
    elapsed time and the consumer's percentiles. *)
Definition collect_results (total_sends total_recvs : Z) (elapsed : spec_float) (pct : HdrHistogram.Percentiles) : BenchmarkResults :=
  let drops := if total_recvs <? total_sends then u64 (total_sends - total_recvs) else 0 in
  let tps := F64.div (F64.of_Z total_recvs) elapsed in
  let p99_us := F64.div (F64.of_Z (HdrHistogram.p99 pct)) (F64.of_Z 1000) in
  let p99_us := if F64.ltb p99_us (F64.of_Z 1) then F64.of_Z 1 else p99_us in
  {| br_total_sends := total_sends; br_total_recvs := total_recvs; br_drops := drops; br_tps := tps; br_elapsed_secs := elapsed;
     br_p50_ns := HdrHistogram.p50 pct; br_p90_ns := HdrHistogram.p90 pct; br_p99_ns := HdrHistogram.p99 pct;
     br_p999_ns := HdrHistogram.p999 pct; br_max_ns := HdrHistogram.p_max pct;
     br_score := F64.mul (F64.mul tps (F64.div (F64.of_Z 1000) p99_us)) (if drops =? 0 then F64.of_Z 1 else F64.lit 1 2) |}.

(** The worker reads the percentiles last published: the two samples of a short
    run, each of a hundred microseconds, score as if they had taken one, a hundred
    times what their latency is worth. *)
Example short_run_score :
  let c' := TelemetryConsumer.run (TelemetryConsumer.init TelemetryConsumer.demo_consumer 1000 TelemetryConsumer.demo_cal HdrHistogram.new) 0
    [TelemetryConsumer.demo_sample 0; TelemetryConsumer.demo_sample 1] in
  let truth := {| HdrHistogram.p50 := 100000; HdrHistogram.p90 := 100000; HdrHistogram.p99 := 100000; HdrHistogram.p999 := 100000;
    HdrHistogram.p_min := 100000; HdrHistogram.p_max := 100000; HdrHistogram.p_total_count := 2; HdrHistogram.p_mean := F64.of_Z 100000 |} in
  TelemetryConsumer.latency_ns c' {| send_tsc := 1000; recv_tsc := 301000; bot_id := 0; seq_num := 0 |} = 100000 /\
  br_score (collect_results 2 2 (F64.of_Z 1) (TelemetryConsumer.latest_pct_ c')) = F64.of_Z 2000 /\
  br_score (collect_results 2 2 (F64.of_Z 1) truth) = F64.of_Z 20.
Proof. vm_compute. repeat split. Qed.
