(* ===== verification/Orchestrator.v ===== *)
(** The benchmark orchestrator (src/orchestrator/src/orchestrator_server.cpp), its
    messages (src/orchestrator/proto/control.proto) and the worker agent that
    calls it (src/orchestrator/src/worker_agent.cpp).  Every handler holds the
    mutex for its whole body, so a server is the sequence of the handlers it
    runs; [StreamMetrics] takes the mutex once per poll.  The readings of the
    clocks, [std::sort] and what the network does with a call are arguments. *)

From S2P Require Import Prelude Xorshift Text.
From Stdlib Require Import SpecFloat.
From Stdlib Require String Ascii.
Import String.StringSyntax.

(** ** Strings as keys of ordered maps

    A [std::string] is the list of its bytes; [std::map] visits its keys in
    lexicographic order. *)

Abbreviation str := (list Z).

Fixpoint id_leb (a b : str) : bool :=
  match a, b with
  | [], _ => true
  | _ :: _, [] => false
  | x :: a, y :: b => (x <? y) || ((x =? y) && id_leb a b)
  end.

Definition key_le {A} (p q : str * A) : Prop := id_leb p.1 q.1 = true.

#[export] Instance key_le_dec {A} : RelDecision (@key_le A).
Proof. intros p q. unfold key_le. apply _. Defined.

(** The pairs of a [std::map] from [begin] to [end]. *)
Definition iterate {A} (m : gmap str A) : list (str * A) := merge_sort key_le (map_to_list m).

(** ** Messages *)

Record WorkerInfo := {
  wi_worker_id : str; wi_hostname : str; wi_num_cores : Z; wi_memory_bytes : Z; wi_has_hugepages : bool; wi_has_kvm : bool;
  wi_isolated_cores : list Z }.
Record RegistrationAck := { accepted : bool; assigned_id : str; ack_error_message : str }.
Record HeartbeatRequest := { hb_worker_id : str; hb_timestamp_ns : Z; hb_cpu_usage : spec_float; hb_memory_used_bytes : Z;
  hb_active_sandboxes : Z }.
(** The fields of the configuration the server reads. *)
Record BenchmarkConfig := { cf_benchmark_id : str; cf_contestant_id : str }.
Record BenchmarkHandle := { bh_benchmark_id : str; bh_worker_id : str }.
Inductive State := UNKNOWN | PENDING | RUNNING | COMPLETED | FAILED | TIMEOUT.
Record BenchmarkStatus := { st_state : State; st_benchmark_id : str; st_elapsed_secs : spec_float; st_total_tps : Z; st_error_message : str }.
Record LatencyProfile := {
  min_ns : Z; p50_ns : Z; p90_ns : Z; p99_ns : Z; p999_ns : Z; max_ns : Z; lp_total_samples : Z }.
(** The message field [latency] is present or absent. *)
Record BenchmarkResult := {
  br_benchmark_id : str; br_contestant_id : str; br_elapsed_secs : spec_float; br_total_sends : Z; br_total_recvs : Z;
  br_drops : Z; br_achieved_tps : spec_float; br_latency : option LatencyProfile; br_score : spec_float; br_error_message : str }.
Record MetricsSnapshot := {
  ms_benchmark_id : str; ms_timestamp_ns : Z; ms_tps : spec_float; ms_total_samples : Z; ms_dropped : Z;
  ms_latency : option LatencyProfile }.
Record LeaderboardEntry := {
  le_rank : Z; le_contestant_id : str; le_score : spec_float; le_achieved_tps : spec_float; le_latency : LatencyProfile; le_drops : Z }.

(** A message before any field is set. *)
Definition zero : spec_float := S754_zero false.
Definition empty_latency : LatencyProfile :=
  {| min_ns := 0; p50_ns := 0; p90_ns := 0; p99_ns := 0; p999_ns := 0; max_ns := 0; lp_total_samples := 0 |}.
Definition empty_result : BenchmarkResult :=
  {| br_benchmark_id := []; br_contestant_id := []; br_elapsed_secs := zero; br_total_sends := 0; br_total_recvs := 0;
     br_drops := 0; br_achieved_tps := zero; br_latency := None; br_score := zero; br_error_message := [] |}.

(** [grpc::Status]: an error with its message, or the response. *)
Inductive StatusCode := UNAVAILABLE | NOT_FOUND.
Definition Reply (A : Type) : Type := (StatusCode * str) + A.

(** ** State *)

Record WorkerState := {
  worker_id : str; hostname : str; num_cores : Z; memory_bytes : Z; has_hugepages : bool; has_kvm : bool;
  last_heartbeat : Z; cpu_usage : spec_float; active_sandboxes : Z; alive : bool }.

Record BenchmarkState := {
  benchmark_id : str; contestant_id : str; bs_worker_id : str; state : State; start_time : Z;
  result : BenchmarkResult; metrics_history : list MetricsSnapshot }.

Record LeaderboardEntry_internal := {
  li_contestant_id : str; score : spec_float; achieved_tps : spec_float; latency : LatencyProfile; drops : Z }.

Module OrchestratorService.

Record t := {
  workers_ : gmap str WorkerState; benchmarks_ : gmap str BenchmarkState; leaderboard_ : gmap str LeaderboardEntry_internal }.

Definition init : t := {| workers_ := ∅; benchmarks_ := ∅; leaderboard_ := ∅ |}.

Definition set_workers (s : t) m := {| workers_ := m; benchmarks_ := benchmarks_ s; leaderboard_ := leaderboard_ s |}.
Definition set_benchmarks (s : t) m := {| workers_ := workers_ s; benchmarks_ := m; leaderboard_ := leaderboard_ s |}.
Definition set_leaderboard (s : t) m := {| workers_ := workers_ s; benchmarks_ := benchmarks_ s; leaderboard_ := m |}.

(** ** Workers *)

Definition RegisterWorker (now : Z) (s : t) (request : WorkerInfo) : t * Reply RegistrationAck :=
  let ws := {| worker_id := wi_worker_id request; hostname := wi_hostname request; num_cores := wi_num_cores request;
               memory_bytes := wi_memory_bytes request; has_hugepages := wi_has_hugepages request;
               has_kvm := wi_has_kvm request; last_heartbeat := now; cpu_usage := zero; active_sandboxes := 0;
               alive := true |} in
  (set_workers s (<[worker_id ws := ws]> (workers_ s)),
   inr {| accepted := true; assigned_id := worker_id ws; ack_error_message := [] |}).

Definition Heartbeat (now : Z) (s : t) (request : HeartbeatRequest) : t * Reply bool :=
  (match workers_ s !! hb_worker_id request with
   | Some ws =>
       set_workers s (<[hb_worker_id request :=
         {| worker_id := worker_id ws; hostname := hostname ws; num_cores := num_cores ws; memory_bytes := memory_bytes ws;
            has_hugepages := has_hugepages ws; has_kvm := has_kvm ws; last_heartbeat := now;
            cpu_usage := hb_cpu_usage request; active_sandboxes := hb_active_sandboxes request; alive := true |}]> (workers_ s))
   | None => s
   end, inr true).

(** ** Benchmarks *)

(** The loop that looks for an available worker; the empty string is none. *)
Fixpoint first_alive (l : list (str * WorkerState)) : str :=
  match l with
  | [] => []
  | (k, ws) :: l => if alive ws then k else first_alive l
  end.

Definition StartBenchmark (now : Z) (s : t) (request : BenchmarkConfig) : t * Reply BenchmarkHandle :=
  let worker := first_alive (iterate (workers_ s)) in
  match worker with
  | [] => (s, inl (UNAVAILABLE, bytes "No workers available"))
  | _ =>
      let bs := {| benchmark_id := cf_benchmark_id request; contestant_id := cf_contestant_id request; bs_worker_id := worker;
                   state := RUNNING; start_time := now; result := empty_result; metrics_history := [] |} in
      (set_benchmarks s (<[benchmark_id bs := bs]> (benchmarks_ s)),
       inr {| bh_benchmark_id := benchmark_id bs; bh_worker_id := worker |})
  end.

(** [duration<double>] of a difference of nanosecond clock readings. *)
Definition secs (ns : Z) : spec_float := F64.div (F64.of_Z ns) (F64.of_Z 1000000000).

Definition with_state (b : BenchmarkState) (st : State) : BenchmarkState :=
  {| benchmark_id := benchmark_id b; contestant_id := contestant_id b; bs_worker_id := bs_worker_id b; state := st;
     start_time := start_time b; result := result b; metrics_history := metrics_history b |}.

(** The response of [StopBenchmark]: the result held, with three fields set. *)
Definition stop_response (now : Z) (b : BenchmarkState) : BenchmarkResult :=
  let r := result b in
  {| br_benchmark_id := benchmark_id b; br_contestant_id := contestant_id b; br_elapsed_secs := secs (now - start_time b);
     br_total_sends := br_total_sends r; br_total_recvs := br_total_recvs r; br_drops := br_drops r;
     br_achieved_tps := br_achieved_tps r; br_latency := br_latency r; br_score := br_score r;
     br_error_message := br_error_message r |}.

(** The score: TPS * (1000 / p99 in microseconds) * penalty. *)
Definition p99_us (r : BenchmarkResult) : spec_float :=
  let us := match br_latency r with
            | Some l => F64.div (F64.of_Z (p99_ns l)) (F64.of_Z 1000)
            | None => F64.of_Z 1000
            end in
  if F64.ltb us (F64.of_Z 1) then F64.of_Z 1 else us.

Definition score_of (r : BenchmarkResult) : spec_float :=
  let drop_penalty := if br_drops r =? 0 then F64.of_Z 1 else F64.lit 1 2 in
  F64.mul (F64.mul (br_achieved_tps r) (F64.div (F64.of_Z 1000) (p99_us r))) drop_penalty.

Definition entry_of (c : str) (r : BenchmarkResult) : LeaderboardEntry_internal :=
  {| li_contestant_id := c; score := score_of r; achieved_tps := br_achieved_tps r;
     latency := match br_latency r with Some l => l | None => empty_latency end; drops := br_drops r |}.

Definition update_leaderboard (s : t) (c : str) (r : BenchmarkResult) : t :=
  set_leaderboard s (<[c := entry_of c r]> (leaderboard_ s)).

Definition StopBenchmark (now : Z) (s : t) (request : BenchmarkHandle) : t * Reply BenchmarkResult :=
  match benchmarks_ s !! bh_benchmark_id request with
  | None => (s, inl (NOT_FOUND, bytes "Benchmark not found"))
  | Some b =>
      let bs := with_state b COMPLETED in
      let s := set_benchmarks s (<[bh_benchmark_id request := bs]> (benchmarks_ s)) in
      let response := stop_response now bs in
      (update_leaderboard s (contestant_id bs) response, inr response)
  end.

Definition GetBenchmarkStatus (now : Z) (s : t) (request : BenchmarkHandle) : t * Reply BenchmarkStatus :=
  match benchmarks_ s !! bh_benchmark_id request with
  | None => (s, inl (NOT_FOUND, bytes "Benchmark not found"))
  | Some b => (s, inr {| st_state := state b; st_benchmark_id := benchmark_id b; st_elapsed_secs := secs (now - start_time b);
                     st_total_tps := 0; st_error_message := [] |})
  end.

(** A turn of the loop of [StreamMetrics] under the mutex: [None] leaves the
    loop, [Some w] writes [w], if any. *)
Definition poll (s : t) (bench_id : str) : option (option MetricsSnapshot) :=
  match benchmarks_ s !! bench_id with
  | None => None
  | Some b => match state b with
              | COMPLETED | FAILED => None
              | _ => Some (last (metrics_history b))
              end
  end.

(** What the stream writes; [turns] are the answers of [IsCancelled] with the
    server each turn finds. *)
Fixpoint StreamMetrics (turns : list (bool * t)) (bench_id : str) : list MetricsSnapshot :=
  match turns with
  | [] => []
  | (cancelled, s) :: turns =>
      if cancelled then []
      else match poll s bench_id with
           | None => []
           | Some w => match w with Some m => [m] | None => [] end ++ StreamMetrics turns bench_id
           end
  end.

(** ** Leaderboard *)

(** The comparator handed to [std::sort]. *)
Definition better (a b : str * LeaderboardEntry_internal) : bool := F64.ltb (score b.2) (score a.2).

Definition rank_entry (i : nat) (p : str * LeaderboardEntry_internal) : LeaderboardEntry :=
  {| le_rank := u32 (Z.of_nat i + 1); le_contestant_id := li_contestant_id p.2; le_score := score p.2;
     le_achieved_tps := achieved_tps p.2; le_latency := latency p.2; le_drops := drops p.2 |}.

Definition GetLeaderboard (sort : (str * LeaderboardEntry_internal -> str * LeaderboardEntry_internal -> bool) ->
    list (str * LeaderboardEntry_internal) -> list (str * LeaderboardEntry_internal)) (s : t) (top_n : Z) : list LeaderboardEntry :=
  let sorted := sort better (iterate (leaderboard_ s)) in
  let size := u32 (Z.of_nat (length sorted)) in
  let top_n := if top_n =? 0 then size else top_n in
  imap rank_entry (take (Z.to_nat (Z.min top_n size)) sorted).

(** ** The operations no remote procedure reaches *)

Definition ingest_metrics (s : t) (k : str) (m : MetricsSnapshot) : t :=
  match benchmarks_ s !! k with
  | None => s
  | Some b =>
      set_benchmarks s (<[k :=
        {| benchmark_id := benchmark_id b; contestant_id := contestant_id b; bs_worker_id := bs_worker_id b; state := state b;
           start_time := start_time b; result := result b; metrics_history := metrics_history b ++ [m] |}]> (benchmarks_ s))
  end.

Definition submit_result (s : t) (k : str) (r : BenchmarkResult) : t :=
  match benchmarks_ s !! k with
  | None => s
  | Some b =>
      set_benchmarks s (<[k :=
        {| benchmark_id := benchmark_id b; contestant_id := contestant_id b; bs_worker_id := bs_worker_id b; state := COMPLETED;
           start_time := start_time b; result := r; metrics_history := metrics_history b |}]> (benchmarks_ s))
  end.

End OrchestratorService.

(** ** The worker agent *)

Module WorkerAgent.
Import OrchestratorService.

(** What becomes of a remote call: it does not reach the server, it is executed
    and the answer is lost or late, or it is answered. *)
Inductive Net := Lost | Unanswered | Answered.

(** A call through the stub: the server after it, and the answer if it is OK. *)
Definition rpc {A} (net : Net) (s : t) (call : t * Reply A) : t * option A :=
  match net with
  | Lost => (s, None)
  | Unanswered => (call.1, None)
  | Answered => (call.1, match call.2 with inl _ => None | inr a => Some a end)
  end.

(** [check_hugepages]: the lines of /proc/meminfo if it opens. *)
Definition is_space (c : Z) : bool := (c =? 32) || ((9 <=? c) && (c <=? 13)).

Fixpoint skip_ws (l : str) : str :=
  match l with c :: l' => if is_space c then skip_ws l' else l | [] => [] end.
Fixpoint skip_word (l : str) : str :=
  match l with c :: l' => if is_space c then l else skip_word l' | [] => [] end.
Fixpoint read_digits (l : str) : str :=
  match l with c :: l' => if digit c then c :: read_digits l' else [] | [] => [] end.

(** [iss >> val] into an [int]: nothing is stored when only white space is
    left, 0 when there is no number, the nearest limit when it is too large. *)
Definition read_int (old : Z) (l : str) : Z :=
  match skip_ws l with
  | [] => old
  | c :: l' =>
      let n := if c =? 45 then - undec (read_digits l')
               else if c =? 43 then undec (read_digits l') else undec (read_digits (c :: l')) in
      Z.max INT32_MIN (Z.min INT32_MAX n)
  end.

Fixpoint contains (pat l : str) : bool :=
  match l with
  | [] => match pat with [] => true | _ => false end
  | _ :: l' => bool_decide (take (length pat) l = pat) || contains pat l'
  end.

Fixpoint scan_meminfo (uninit : Z) (lines : list str) : bool :=
  match lines with
  | [] => false
  | line :: lines =>
      if contains (bytes "HugePages_Total:") line then 0 <? read_int uninit (skip_word (skip_ws line))
      else scan_meminfo uninit lines
  end.

Definition check_hugepages (uninit : Z) (meminfo : option (list str)) : bool :=
  match meminfo with None => false | Some lines => scan_meminfo uninit lines end.

(** What [register_worker] reads from the system. *)
Record System := {
  sys_hostname : str; nprocessors : Z; phys_pages : Z; pagesize : Z; meminfo : option (list str); kvm_access : bool; sys_uninit : Z }.

Definition worker_info (id : str) (sys : System) : WorkerInfo :=
  {| wi_worker_id := id; wi_hostname := sys_hostname sys; wi_num_cores := u32 (nprocessors sys);
     wi_memory_bytes := u64 (phys_pages sys * pagesize sys);
     wi_has_hugepages := check_hugepages (sys_uninit sys) (meminfo sys); wi_has_kvm := kvm_access sys;
     wi_isolated_cores := [] |}.

Definition register_worker (net : Net) (now : Z) (s : t) (id : str) (sys : System) : t * bool :=
  let '(s, ack) := rpc net s (RegisterWorker now s (worker_info id sys)) in
  (s, match ack with Some a => accepted a | None => false end).

Definition send_heartbeat (net : Net) (now : Z) (s : t) (id : str) (clock : Z) : t :=
  (rpc net s (Heartbeat now s
     {| hb_worker_id := id; hb_timestamp_ns := u64 clock; hb_cpu_usage := zero; hb_memory_used_bytes := 0; hb_active_sandboxes := 0 |})).1.

Definition submit_result (net : Net) (now : Z) (s : t) (id : str) (r : BenchmarkResult) : t * bool :=
  let '(s, response) := rpc net s (StopBenchmark now s {| bh_benchmark_id := br_benchmark_id r; bh_worker_id := id |}) in
  (s, match response with Some _ => true | None => false end).

End WorkerAgent.

(** ** Runs of the server *)

Import OrchestratorService.

(** The handlers, and the two member functions no handler calls. *)
Inductive op :=
  | Op_RegisterWorker (r : WorkerInfo)
  | Op_Heartbeat (r : HeartbeatRequest)
  | Op_StartBenchmark (r : BenchmarkConfig)
  | Op_StopBenchmark (r : BenchmarkHandle)
  | Op_GetBenchmarkStatus (r : BenchmarkHandle)
  | Op_ingest_metrics (k : str) (m : MetricsSnapshot)
  | Op_submit_result (k : str) (r : BenchmarkResult).

Definition exec (now : Z) (s : t) (o : op) : t :=
  match o with
  | Op_RegisterWorker r => (RegisterWorker now s r).1
  | Op_Heartbeat r => (Heartbeat now s r).1
  | Op_StartBenchmark r => (StartBenchmark now s r).1
  | Op_StopBenchmark r => (StopBenchmark now s r).1
  | Op_GetBenchmarkStatus r => (GetBenchmarkStatus now s r).1
  | Op_ingest_metrics k m => OrchestratorService.ingest_metrics s k m
  | Op_submit_result k r => OrchestratorService.submit_result s k r
  end.

Abbreviation turn := (Z * op)%type.
Definition exec_turn (s : t) (x : turn) : t := exec x.1 s x.2.
Definition run (ops : list turn) : t := foldl exec_turn init ops.

Definition is_rpc (o : op) : bool :=
  match o with Op_ingest_metrics _ _ | Op_submit_result _ _ => false | _ => true end.

(** ** What a history says *)

(** The workers that registered. *)
Definition registration (x : turn) : option str :=
  match x.2 with Op_RegisterWorker r => Some (wi_worker_id r) | _ => None end.
Definition registered (ops : list turn) : list str := omap registration ops.

(** The answers [StopBenchmark] gave. *)
Definition answer_of (s : t) (x : turn) : list BenchmarkResult :=
  match x.2 with
  | Op_StopBenchmark r => match (StopBenchmark x.1 s r).2 with inr res => [res] | inl _ => [] end
  | _ => []
  end.
Fixpoint answers (s : t) (ops : list turn) : list BenchmarkResult :=
  match ops with [] => [] | x :: ops => answer_of s x ++ answers (exec_turn s x) ops end.

(** The last of them for a contestant. *)
Definition latest (c : str) (rs : list BenchmarkResult) : option BenchmarkResult :=
  last (filter (fun r => br_contestant_id r = c) rs).

Lemma run_snoc ops x : run (ops ++ [x]) = exec_turn (run ops) x.
Proof. unfold run. by rewrite foldl_app. Qed.

Lemma registered_snoc ops x : registered (ops ++ [x]) = registered ops ++ match registration x with Some k => [k] | None => [] end.
Proof.
  unfold registered. induction ops as [|y ops IH]; cbn [app omap list_omap]; [by destruct (registration x)|].
  destruct (registration y); cbn [app]; by rewrite IH.
Qed.

Lemma answers_app s ops ops' : answers s (ops ++ ops') = answers s ops ++ answers (foldl exec_turn s ops) ops'.
Proof. revert s. induction ops as [|y ops IH]; intros s; cbn [app answers foldl]; [done|]. by rewrite IH, <- app_assoc. Qed.

Lemma answers_snoc ops x : answers init (ops ++ [x]) = answers init ops ++ answer_of (run ops) x.
Proof. rewrite answers_app. cbn [answers]. by rewrite app_nil_r. Qed.

Lemma latest_snoc c rs r : latest c (rs ++ [r]) = if decide (br_contestant_id r = c) then Some r else latest c rs.
Proof.
  unfold latest. rewrite filter_app. destruct (decide (br_contestant_id r = c)) as [E|E].
  - rewrite filter_cons_True, filter_nil by done. by rewrite last_snoc.
  - rewrite filter_cons_False, filter_nil by done. by rewrite app_nil_r.
Qed.

(** ** Ordered maps *)

Lemma id_leb_refl a : id_leb a a = true.
Proof. induction a as [|x a IH]; cbn [id_leb]; [done|]. by rewrite Z.eqb_refl, IH, orb_true_r. Qed.

Lemma id_leb_antisym a b : id_leb a b = true -> id_leb b a = true -> a = b.
Proof.
  revert b. induction a as [|x a IH]; intros [|y b] H H'; try done. cbn [id_leb] in *.
  rewrite !orb_true_iff, !andb_true_iff, !Z.ltb_lt, !Z.eqb_eq in *.
  destruct H as [?|[-> H]], H' as [?|[? H']]; try lia. by rewrite (IH b).
Qed.

#[export] Instance key_le_trans {A} : Transitive (@key_le A).
Proof.
  intros [a x] [b y] [c z]. unfold key_le. cbn [fst]. clear. revert b c. induction a as [|x a IH]; intros [|y b] [|z c] H H'; try done.
  cbn [id_leb] in *. rewrite !orb_true_iff, !andb_true_iff, !Z.ltb_lt, !Z.eqb_eq in *.
  destruct H as [?|[-> H]], H' as [?|[-> H']]; [left; lia..|]. right. split; [done|]. by eapply IH.
Qed.

#[export] Instance key_le_total {A} : Total (@key_le A).
Proof.
  intros [a x] [b y]. unfold key_le. cbn [fst]. clear. revert b. induction a as [|x a IH]; intros [|y b]; [by left..|by right|].
  cbn [id_leb]. rewrite !orb_true_iff, !andb_true_iff, !Z.ltb_lt, !Z.eqb_eq.
  destruct (Z.lt_trichotomy x y) as [?|[->|?]]; [auto| |auto]. destruct (IH b); auto.
Qed.

Section ordered_maps.
Context {A : Type}.
Implicit Types m : gmap str A.

Lemma iterate_perm m : iterate m ≡ₚ map_to_list m.
Proof. apply merge_sort_Permutation. Qed.

Lemma elem_of_iterate m k a : (k, a) ∈ iterate m <-> m !! k = Some a.
Proof. rewrite iterate_perm. apply elem_of_map_to_list. Qed.

Lemma iterate_nodup m : NoDup (iterate m).*1.
Proof. rewrite iterate_perm. apply NoDup_fst_map_to_list. Qed.

Lemma length_iterate m : length (iterate m) = size m.
Proof. rewrite iterate_perm. apply length_map_to_list. Qed.

Lemma iterate_least m k a l : iterate m = (k, a) :: l -> forall k', is_Some (m !! k') -> id_leb k k' = true.
Proof.
  intros E k' [a' Ha']. apply elem_of_iterate in Ha'.
  assert (Hs : StronglySorted key_le (iterate m)) by (unfold iterate; apply StronglySorted_merge_sort; apply _).
  rewrite E in Ha', Hs. apply StronglySorted_inv in Hs as [_ Hf].
  apply elem_of_cons in Ha' as [[= -> ->]|Ha']; [apply id_leb_refl|].
  rewrite List.Forall_forall in Hf. apply (Hf (k', a')), list_elem_of_In, Ha'.
Qed.
End ordered_maps.

(** ** The invariant of every run *)

Record run_inv (ops : list turn) (s : t) : Prop := {
  ri_registered : forall k, is_Some (workers_ s !! k) <-> k ∈ registered ops;
  ri_worker : forall k w, workers_ s !! k = Some w -> worker_id w = k /\ alive w = true;
  ri_benchmark : forall k b, benchmarks_ s !! k = Some b ->
    benchmark_id b = k /\ (state b = RUNNING \/ state b = COMPLETED) /\ bs_worker_id b <> [] /\ bs_worker_id b ∈ registered ops;
  ri_board : forall c, leaderboard_ s !! c = entry_of c <$> latest c (answers init ops) }.

(** With every worker alive the loop picks the first key. *)
Lemma first_alive_head m : (forall k w, m !! k = Some w -> alive w = true) ->
  first_alive (iterate m) = match iterate m with [] => [] | (k, _) :: _ => k end.
Proof.
  intros H. destruct (iterate m) as [|[k w] l] eqn:E; [done|]. cbn [first_alive].
  rewrite (H k w); [done|]. apply elem_of_iterate. rewrite E. left.
Qed.

Lemma first_alive_registered ops s : run_inv ops s -> first_alive (iterate (workers_ s)) <> [] ->
  first_alive (iterate (workers_ s)) ∈ registered ops /\
  forall k, k ∈ registered ops -> id_leb (first_alive (iterate (workers_ s))) k = true.
Proof.
  intros H Hne. rewrite first_alive_head in * by (intros; by eapply ri_worker).
  destruct (iterate (workers_ s)) as [|[k w] l] eqn:E; [done|]. split.
  - apply (ri_registered _ _ H). exists w. apply elem_of_iterate. rewrite E. left.
  - intros k' Hk'. apply (ri_registered _ _ H) in Hk'. by eapply iterate_least.
Qed.

Lemma first_alive_none ops s : run_inv ops s ->
  first_alive (iterate (workers_ s)) = [] <-> registered ops = [] \/ [] ∈ registered ops.
Proof.
  intros H. rewrite first_alive_head by (intros; by eapply ri_worker).
  destruct (iterate (workers_ s)) as [|[k w] l] eqn:E.
  - split; [|done]. intros _. left. destruct (registered ops) as [|k r] eqn:Er; [done|].
    destruct (proj2 (ri_registered _ _ H k)) as [w Hw]; [rewrite Er; left|].
    apply elem_of_iterate in Hw. rewrite E in Hw. by apply not_elem_of_nil in Hw.
  - assert (Hk : k ∈ registered ops).
    { apply (ri_registered _ _ H). exists w. apply elem_of_iterate. rewrite E. left. }
    split; [intros ->; by right|]. intros [Hr|Hr]; [rewrite Hr in Hk; by apply not_elem_of_nil in Hk|].
    apply (ri_registered _ _ H) in Hr. apply id_leb_antisym; [by eapply iterate_least|done].
Qed.

(** An operation that only changes the benchmarks at one key. *)
Lemma inv_bench ops x s k b : run_inv ops s -> registration x = None -> answer_of s x = [] -> s = run ops ->
  benchmark_id b = k -> state b = RUNNING \/ state b = COMPLETED -> bs_worker_id b <> [] -> bs_worker_id b ∈ registered ops ->
  run_inv (ops ++ [x]) (set_benchmarks s (<[k := b]> (benchmarks_ s))).
Proof.
  intros [H1 H2 H3 H4] Hr Ha -> Hk Hst Hw Hw'.
  split; cbn [set_benchmarks workers_ benchmarks_ leaderboard_]; rewrite ?registered_snoc, ?answers_snoc, ?Hr, ?Ha, ?app_nil_r; try done.
  intros k' b'. destruct (decide (k = k')) as [<-|]; [rewrite lookup_insert_eq|rewrite lookup_insert_ne by done]; [|apply H3].
  by intros [= <-].
Qed.

(** One that changes nothing. *)
Lemma inv_same ops x : run_inv ops (run ops) -> registration x = None -> answer_of (run ops) x = [] ->
  run_inv (ops ++ [x]) (run ops).
Proof. intros [H1 H2 H3 H4] Hr Ha. split; rewrite ?registered_snoc, ?answers_snoc, ?Hr, ?Ha, ?app_nil_r; done. Qed.

Lemma inv_register ops now r : run_inv ops (run ops) ->
  run_inv (ops ++ [(now, Op_RegisterWorker r)]) (RegisterWorker now (run ops) r).1.
Proof.
  intros [H1 H2 H3 H4]. unfold RegisterWorker. cbn [fst worker_id].
  split; cbn [set_workers workers_ benchmarks_ leaderboard_]; rewrite ?registered_snoc, ?answers_snoc; cbn [registration snd answer_of].
  - intros k. rewrite elem_of_app, list_elem_of_singleton, <- H1.
    destruct (decide (wi_worker_id r = k)) as [<-|]; [rewrite lookup_insert_eq; split; [by right|by eexists]|].
    rewrite lookup_insert_ne by done. split; [by left|]. intros [?|?]; congruence.
  - intros k w. destruct (decide (wi_worker_id r = k)) as [<-|]; [rewrite lookup_insert_eq|rewrite lookup_insert_ne by done; apply H2].
    by intros [= <-].
  - intros k b Hb. destruct (H3 k b Hb) as (?&?&?&?). rewrite elem_of_app. auto.
  - by rewrite app_nil_r.
Qed.

Lemma inv_heartbeat ops now r : run_inv ops (run ops) ->
  run_inv (ops ++ [(now, Op_Heartbeat r)]) (Heartbeat now (run ops) r).1.
Proof.
  intros H. unfold Heartbeat. cbn [fst]. destruct (workers_ (run ops) !! hb_worker_id r) as [ws|] eqn:E; [|by apply inv_same].
  destruct H as [H1 H2 H3 H4]. split; cbn [set_workers workers_ benchmarks_ leaderboard_]; rewrite ?registered_snoc, ?answers_snoc;
    cbn [registration snd answer_of]; rewrite ?app_nil_r; [| |done..].
  - intros k. rewrite <- H1. destruct (decide (hb_worker_id r = k)) as [<-|]; [rewrite lookup_insert_eq, E; by split; eexists|].
    by rewrite lookup_insert_ne.
  - intros k w. destruct (decide (hb_worker_id r = k)) as [<-|]; [rewrite lookup_insert_eq|rewrite lookup_insert_ne by done; apply H2].
    intros [= <-]. cbn. split; [|done]. by apply H2.
Qed.

Lemma inv_start ops now r : run_inv ops (run ops) ->
  run_inv (ops ++ [(now, Op_StartBenchmark r)]) (StartBenchmark now (run ops) r).1.
Proof.
  intros H. unfold StartBenchmark. pose proof (first_alive_registered _ _ H) as Hw.
  destruct (first_alive _) as [|z w] eqn:E; cbn [fst]; [by apply inv_same|].
  apply inv_bench; try done; [by left|]. by apply Hw.
Qed.

Lemma inv_stop ops now r : run_inv ops (run ops) ->
  run_inv (ops ++ [(now, Op_StopBenchmark r)]) (StopBenchmark now (run ops) r).1.
Proof.
  intros H. destruct (StopBenchmark now (run ops) r) as [s' rep] eqn:E. cbn [fst]. unfold StopBenchmark in E.
  destruct (benchmarks_ (run ops) !! bh_benchmark_id r) as [b|] eqn:Eb; injection E as <- <-.
  2:{ apply inv_same; [done..|]. unfold answer_of, StopBenchmark. cbn [snd fst]. by rewrite Eb. }
  destruct H as [H1 H2 H3 H4]. destruct (H3 _ _ Eb) as (Hk&_&Hw&Hw').
  split; cbn [update_leaderboard set_leaderboard set_benchmarks workers_ benchmarks_ leaderboard_];
    rewrite ?registered_snoc, ?answers_snoc; cbn [registration snd]; rewrite ?app_nil_r; [done..| |].
  - intros k b'. destruct (decide (bh_benchmark_id r = k)) as [<-|]; [rewrite lookup_insert_eq|rewrite lookup_insert_ne by done; apply H3].
    intros [= <-]. cbn. auto.
  - intros c. unfold answer_of, StopBenchmark. cbn [snd fst]. rewrite Eb. cbn [snd]. rewrite latest_snoc.
    cbn [stop_response br_contestant_id with_state contestant_id]. case_decide as Ec.
    + subst c. by rewrite lookup_insert_eq.
    + by rewrite lookup_insert_ne.
Qed.

Lemma server_ok ops : run_inv ops (run ops).
Proof.
  induction ops as [|[now o] ops IH] using rev_ind.
  { split; try done. intros k. cbn. rewrite lookup_empty. split; [by intros [? ?]|]. intros Hk. by apply not_elem_of_nil in Hk. }
  rewrite run_snoc. unfold exec_turn. cbn [fst snd]. destruct o as [r|r|r|r|r|k m|k r]; cbn [exec].
  - by apply inv_register.
  - by apply inv_heartbeat.
  - by apply inv_start.
  - by apply inv_stop.
  - unfold GetBenchmarkStatus. destruct (benchmarks_ _ !! _); by apply inv_same.
  - unfold ingest_metrics. destruct (benchmarks_ _ !! _) as [b|] eqn:E; [|by apply inv_same].
    destruct (ri_benchmark _ _ IH _ _ E) as (?&?&?&?). by apply inv_bench.
  - unfold submit_result. destruct (benchmarks_ _ !! _) as [b|] eqn:E; [|by apply inv_same].
    destruct (ri_benchmark _ _ IH _ _ E) as (?&?&?&?). apply inv_bench; try done. by right.
Qed.

(** ** Ordering of scores *)

Definition is_number (x : spec_float) : Prop := x <> S754_nan.

(** The place of a number in the order of [SFcompare]. *)
Definition place (x : spec_float) : Z * Z * Z :=
  match x with
  | S754_infinity true => (-2, 0, 0)
  | S754_finite true m e => (-1, - e, - Z.pos m)
  | S754_zero _ | S754_nan => (0, 0, 0)
  | S754_finite false m e => (1, e, Z.pos m)
  | S754_infinity false => (2, 0, 0)
  end.
Definition place_lt (p q : Z * Z * Z) : Prop :=
  p.1.1 < q.1.1 \/ p.1.1 = q.1.1 /\ (p.1.2 < q.1.2 \/ p.1.2 = q.1.2 /\ p.2 < q.2).

Lemma ltb_place x y : is_number x -> is_number y -> F64.ltb x y = true <-> place_lt (place x) (place y).
Proof.
  intros Hx Hy. unfold F64.ltb, SFltb, place_lt, is_number in *.
  destruct x as [sx|[]| |[] mx ex], y as [sy|[]| |[] my ey]; try done; cbn [SFcompare place fst snd]; try (first [split; [done|lia] | split; [lia|done]]).
  all: destruct (Z.compare_spec ex ey) as [->| |]; try (change (Pos.compare_cont Eq mx my) with (Pos.compare mx my); destruct (Pos.compare_spec mx my)); 
    cbn [CompOpp]; split; (done || lia || idtac).
  all: intros; exfalso; lia.
Qed.

(** What [std::sort] asks of its comparator on the elements of a list. *)
Record strict_weak {A} (lt : A -> A -> bool) (l : list A) : Prop := {
  sw_irrefl : forall x, x ∈ l -> lt x x = false;
  sw_trans : forall x y z, x ∈ l -> y ∈ l -> z ∈ l -> lt x y = true -> lt y z = true -> lt x z = true;
  sw_incomp : forall x y z, x ∈ l -> y ∈ l -> z ∈ l -> lt x y = false -> lt y x = false -> lt y z = false -> lt z y = false ->
    lt x z = false /\ lt z x = false }.

(** What it then promises: the elements are rearranged, and none comes before
    one that is less. *)
Class StdSort {A} (sort : (A -> A -> bool) -> list A -> list A) : Prop := {
  sort_perm : forall lt l, strict_weak lt l -> sort lt l ≡ₚ l;
  sort_sorted : forall lt l, strict_weak lt l ->
    forall i j x y, (i < j)%nat -> sort lt l !! i = Some x -> sort lt l !! j = Some y -> lt y x = false }.

Lemma not_true_iff (b : bool) (P : Prop) : (b = true <-> P) -> b = false <-> ~ P.
Proof. intros H. rewrite <- not_true_iff_false. by rewrite H. Qed.

Lemma better_strict_weak l : (forall p, p ∈ l -> is_number (score p.2)) -> strict_weak better l.
Proof.
  intros H. unfold better. split.
  - intros x Hx. apply (not_true_iff _ _ (ltb_place _ _ (H _ Hx) (H _ Hx))). unfold place_lt. lia.
  - intros x y z Hx Hy Hz. rewrite !ltb_place by auto. unfold place_lt. lia.
  - intros x y z Hx Hy Hz. pose proof (fun a b Ha Hb => not_true_iff _ _ (ltb_place _ _ (H a Ha) (H b Hb))) as Hn.
    rewrite !Hn by done. unfold place_lt. lia.
Qed.

(** ** Theorems *)

(** C35: whatever has happened, [StartBenchmark] answers UNAVAILABLE and changes
    nothing exactly when no worker has registered or one registered without a
    name; otherwise it assigns the benchmark to the least name that ever
    registered, stores it as running with an empty result, and touches nothing
    else. *)
Theorem start_assigns (ops : list turn) (now : Z) (cfg : BenchmarkConfig) :
  let s := run ops in
  let '(s', reply) := StartBenchmark now s cfg in
  (if decide (registered ops = [] \/ [] ∈ registered ops)
   then reply = inl (UNAVAILABLE, bytes "No workers available") /\ s' = s
   else exists w, w ∈ registered ops /\ (forall k, k ∈ registered ops -> id_leb w k = true) /\
     reply = inr {| bh_benchmark_id := cf_benchmark_id cfg; bh_worker_id := w |} /\
     (exists b, benchmarks_ s' !! cf_benchmark_id cfg = Some b /\ state b = RUNNING /\
        contestant_id b = cf_contestant_id cfg /\ bs_worker_id b = w /\ start_time b = now /\
        result b = empty_result /\ metrics_history b = []) /\
     (forall k, k <> cf_benchmark_id cfg -> benchmarks_ s' !! k = benchmarks_ s !! k) /\
     workers_ s' = workers_ s /\ leaderboard_ s' = leaderboard_ s).
Proof.
  intros s. pose proof (server_ok ops) as H. fold s in H.
  pose proof (first_alive_none _ _ H) as Hn. pose proof (first_alive_registered _ _ H) as Hr.
  unfold StartBenchmark. destruct (first_alive (iterate (workers_ s))) as [|z w] eqn:E.
  - rewrite decide_True by by apply Hn. done.
  - rewrite decide_False by (rewrite <- Hn; done). destruct Hr as [Hin Hle]; [done|].
    exists (z :: w). do 3 (split; [done|]). cbn [set_benchmarks benchmarks_ workers_ leaderboard_ benchmark_id].
    split; [by eexists; rewrite lookup_insert_eq|]. split; [|done]. intros k Hk. by rewrite lookup_insert_ne.
Qed.

(** C34: in every run of the handlers and of the two internal operations, all
    registered workers and only they are in the registry, under their own names
    and alive; every benchmark is stored under its identifier, is running or
    completed and belongs to a registered worker; and a contestant's leaderboard
    entry is the one made from the last answer of [StopBenchmark] about it. *)
Theorem orchestrator_run (ops : list turn) :
  let s := run ops in
  (forall k, is_Some (workers_ s !! k) <-> k ∈ registered ops) /\
  (forall k w, workers_ s !! k = Some w -> worker_id w = k /\ alive w = true) /\
  (forall k b, benchmarks_ s !! k = Some b ->
     benchmark_id b = k /\ (state b = RUNNING \/ state b = COMPLETED) /\ bs_worker_id b <> [] /\ bs_worker_id b ∈ registered ops) /\
  (forall c, leaderboard_ s !! c = entry_of c <$> latest c (answers init ops)).
Proof. intros s. destruct (server_ok ops) as [H1 H2 H3 H4]. done. Qed.

Section ranking.
Context {sort : (str * LeaderboardEntry_internal -> str * LeaderboardEntry_internal -> bool) ->
  list (str * LeaderboardEntry_internal) -> list (str * LeaderboardEntry_internal)} `{!StdSort sort}.

Lemma latest_elem c rs r : latest c rs = Some r -> r ∈ rs.
Proof. intros H. unfold latest in H. apply last_Some_elem_of, list_elem_of_filter in H. tauto. Qed.

(** The entry of a pair of the leaderboard. *)
Lemma board_pair ops p : p ∈ iterate (leaderboard_ (run ops)) ->
  li_contestant_id p.2 = p.1 /\ exists r, latest p.1 (answers init ops) = Some r /\ p.2 = entry_of p.1 r.
Proof.
  destruct p as [c e]. rewrite elem_of_iterate, (ri_board _ _ (server_ok ops)). cbn [fst snd].
  destruct (latest c _) as [r|]; [|done]. intros [= <-]. split; [done|]. by exists r.
Qed.

Lemma board_sw ops : (forall r, r ∈ answers init ops -> is_number (score_of r)) ->
  strict_weak better (iterate (leaderboard_ (run ops))).
Proof.
  intros H. apply better_strict_weak. intros p Hp. destruct (board_pair _ _ Hp) as (_&r&Hr&->).
  apply H. by eapply latest_elem.
Qed.

Lemma lookup_rank n l i e : imap rank_entry (take n l) !! i = Some e ->
  exists p, l !! i = Some p /\ (i < n)%nat /\ e = rank_entry i p.
Proof.
  rewrite list_lookup_imap. destruct (take n l !! i) as [p|] eqn:E; [|done]. intros [= <-].
  apply lookup_take_Some in E as [? ?]. by exists p.
Qed.

Lemma rank_contestants n l : (forall p, p ∈ l -> li_contestant_id p.2 = p.1) ->
  le_contestant_id <$> imap rank_entry (take n l) = (take n l).*1.
Proof.
  intros H. apply list_eq. intros i. rewrite !list_lookup_fmap, list_lookup_imap.
  destruct (take n l !! i) as [p|] eqn:E; [|done]. cbn. f_equal. apply H.
  apply list_elem_of_lookup_2 in E. by eapply elem_of_take in E as (?&?%list_elem_of_lookup_2&_).
Qed.

(** C36: after any run whose answers have scores that are numbers (so that
    [std::sort] keeps its promise), [GetLeaderboard] lists the asked number of
    contestants, or all for 0, each once, ranked from 1 with the score and
    throughput of its last stopped benchmark, no score above an earlier one,
    and nobody left out has a score above a listed one. *)
Theorem leaderboard_ranked ops top_n :
  (forall r, r ∈ answers init ops -> is_number (score_of r)) ->
  0 <= top_n < 4294967296 -> Z.of_nat (size (leaderboard_ (run ops))) < 4294967296 ->
  let board := leaderboard_ (run ops) in
  let es := GetLeaderboard sort (run ops) top_n in
  Z.of_nat (length es) = (if top_n =? 0 then Z.of_nat (size board) else Z.min top_n (Z.of_nat (size board))) /\
  NoDup (le_contestant_id <$> es) /\
  (forall i e, es !! i = Some e -> le_rank e = Z.of_nat i + 1 /\
     exists r, latest (le_contestant_id e) (answers init ops) = Some r /\
       le_score e = score_of r /\ le_achieved_tps e = br_achieved_tps r /\ le_drops e = br_drops r) /\
  (forall i j e e', (i < j)%nat -> es !! i = Some e -> es !! j = Some e' -> F64.ltb (le_score e) (le_score e') = false) /\
  (forall c r e, latest c (answers init ops) = Some r -> c ∉ (le_contestant_id <$> es) -> e ∈ es ->
     F64.ltb (le_score e) (score_of r) = false).
Proof.
  intros Hnum Htop Hsize board es. set (sz := size (leaderboard_ (run ops))) in *. change (size board) with sz. pose proof (board_sw _ Hnum) as Hsw.
  pose proof (sort_perm _ _ Hsw) as Hp. pose proof (sort_sorted _ _ Hsw) as Hs.
  set (l := sort better (iterate (leaderboard_ (run ops)))) in *.
  assert (Hl : Z.of_nat (length l) = Z.of_nat sz) by (by rewrite Hp, length_iterate).
  assert (Hb : forall p, p ∈ l -> li_contestant_id p.2 = p.1 /\ exists r, latest p.1 (answers init ops) = Some r /\ p.2 = entry_of p.1 r).
  { intros p Hp'. apply board_pair. by rewrite <- Hp. }
  set (n := Z.to_nat (if top_n =? 0 then Z.of_nat sz else Z.min top_n (Z.of_nat sz))).
  assert (Ees : es = imap rank_entry (take n l)).
  { unfold es, GetLeaderboard. fold l. rewrite Hl, u32_small by lia. do 2 f_equal. unfold n. destruct (top_n =? 0); lia. }
  assert (Hc : le_contestant_id <$> es = (take n l).*1) by (rewrite Ees; apply rank_contestants; intros p Hp'; by apply Hb).
  split; [rewrite Ees, length_imap, length_take; unfold n; destruct (top_n =? 0); lia|].
  split; [rewrite Hc; apply (sublist_NoDup _ (l.*1)); [rewrite Hp; apply iterate_nodup|apply fmap_sublist, sublist_take]|].
  rewrite Hc. clearbody es. subst es. split; [|split].
  - intros i e He. apply lookup_rank in He as (p&Hi&Hn&->). pose proof (lookup_lt_Some _ _ _ Hi).
    split; [cbn [rank_entry le_rank]; apply u32_small; lia|].
    destruct (Hb p) as (Ec&r&Hr&Er); [by eapply list_elem_of_lookup_2|]. exists r. cbn [rank_entry le_contestant_id]. rewrite Ec.
    split; [done|]. cbn [rank_entry le_score le_achieved_tps le_drops]. rewrite Er. done.
  - intros i j e e' Hij (p&Hi&_&->)%lookup_rank (q&Hj&_&->)%lookup_rank. by apply (Hs i j).
  - intros c r e Hr Hout (i&He)%list_elem_of_lookup. apply lookup_rank in He as (p&Hi&Hn&->).
    assert (Hin : (c, entry_of c r) ∈ l).
    { rewrite Hp. apply elem_of_iterate. by rewrite (ri_board _ _ (server_ok ops)), Hr. }
    apply list_elem_of_lookup in Hin as [j Hj]. destruct (decide (j < n)%nat) as [Hlt|Hge].
    + destruct Hout. apply list_elem_of_fmap. exists (c, entry_of c r). split; [done|].
      apply list_elem_of_lookup. exists j. by rewrite lookup_take_lt.
    + apply (Hs i j p (c, entry_of c r)); [lia|done..].
Qed.
End ranking.

(** ** A sort that keeps the promise *)

Section insertion_sort.
Context {A : Type}.
Implicit Types lt : A -> A -> bool.

Fixpoint place_in lt (x : A) (l : list A) : list A :=
  match l with [] => [x] | y :: l => if lt y x then y :: place_in lt x l else x :: y :: l end.
Definition isort lt (l : list A) : list A := foldr (place_in lt) [] l.

Lemma place_in_perm lt x l : place_in lt x l ≡ₚ x :: l.
Proof. induction l as [|y l IH]; cbn [place_in]; [done|]. destruct (lt y x); [|done]. rewrite IH. apply Permutation_swap. Qed.

Lemma isort_perm lt l : isort lt l ≡ₚ l.
Proof. induction l as [|x l IH]; [done|]. change (isort lt (x :: l)) with (place_in lt x (isort lt l)). by rewrite place_in_perm, IH. Qed.

Definition not_above lt (x y : A) : Prop := lt y x = false.

(** "Not above" is transitive where the comparator is a strict weak order. *)
Lemma not_above_trans lt L x y z : strict_weak lt L -> x ∈ L -> y ∈ L -> z ∈ L ->
  not_above lt x y -> not_above lt y z -> not_above lt x z.
Proof.
  unfold not_above. intros [Hi Ht Hc] Hx Hy Hz Hyx Hzy. destruct (lt z x) eqn:E; [|done].
  destruct (lt x y) eqn:E1; [by rewrite (Ht z x y) in Hzy|]. destruct (lt y z) eqn:E2; [by rewrite (Ht y z x) in Hyx|].
  by destruct (Hc x y z) as [_ ?]; [..|congruence].
Qed.

Lemma place_in_sorted lt L x l : strict_weak lt L -> x ∈ L -> (forall y, y ∈ l -> y ∈ L) ->
  StronglySorted (not_above lt) l -> StronglySorted (not_above lt) (place_in lt x l).
Proof.
  intros Hsw Hx Hl Hs. induction Hs as [|y l Hs IH Hf]; cbn [place_in]; [by repeat constructor|].
  assert (Hy : y ∈ L) by (apply Hl; left). assert (Hl' : forall z, z ∈ l -> z ∈ L) by (intros; apply Hl; by right).
  rewrite Forall_forall in Hf. destruct (lt y x) eqn:E.
  - constructor; [by apply IH|]. apply Forall_forall. intros z. rewrite place_in_perm, elem_of_cons.
    intros [->|Hz]; [|by apply Hf]. unfold not_above. destruct (lt x y) eqn:E'; [|done].
    by rewrite <- (sw_irrefl _ _ Hsw x Hx), (sw_trans _ _ Hsw x y x).
  - constructor; [by constructor; [|apply Forall_forall]|]. apply Forall_forall. intros z. rewrite elem_of_cons.
    intros [->|Hz]; [done|]. apply (not_above_trans lt L x y z); auto.
Qed.

Lemma isort_sorted lt l : strict_weak lt l -> StronglySorted (not_above lt) (isort lt l).
Proof.
  intros Hsw. assert (H : forall l', (forall y, y ∈ l' -> y ∈ l) -> StronglySorted (not_above lt) (isort lt l')); [|by apply H].
  induction l' as [|x l' IH]; intros Hl; [constructor|].
  change (isort lt (x :: l')) with (place_in lt x (isort lt l')). apply (place_in_sorted lt l); [done|apply Hl; left| |].
  - intros y. rewrite isort_perm. intros. apply Hl. by right.
  - apply IH. intros. apply Hl. by right.
Qed.

Lemma StronglySorted_lookup (R : A -> A -> Prop) l i j x y : StronglySorted R l -> (i < j)%nat -> l !! i = Some x -> l !! j = Some y -> R x y.
Proof.
  intros Hs. revert i j. induction Hs as [|z l Hs IH Hf]; intros [|i] [|j] Hij Hi Hj; cbn in *; try (done || lia).
  - injection Hi as ->. rewrite Forall_forall in Hf. by eapply Hf, list_elem_of_lookup_2.
  - eapply IH; [|done..]. lia.
Qed.
End insertion_sort.

#[export] Instance isort_spec {A} : StdSort (@isort A).
Proof.
  split.
  - intros lt l _. apply isort_perm.
  - intros lt l Hsw i j x y Hij Hx Hy. by eapply (StronglySorted_lookup (not_above lt)); [apply isort_sorted|..].
Qed.

(** ** The deployed system

    Workers talk to the server through the agent, clients through remote calls. *)

Inductive event :=
  | Ev_register (net : WorkerAgent.Net) (id : str) (sys : WorkerAgent.System)
  | Ev_heartbeat (net : WorkerAgent.Net) (id : str) (clock : Z)
  | Ev_submit (net : WorkerAgent.Net) (id : str) (r : BenchmarkResult)
  | Ev_client (o : op).

Definition occur (s : t) (x : Z * event) : t :=
  match x.2 with
  | Ev_register net id sys => (WorkerAgent.register_worker net x.1 s id sys).1
  | Ev_heartbeat net id clock => WorkerAgent.send_heartbeat net x.1 s id clock
  | Ev_submit net id r => (WorkerAgent.submit_result net x.1 s id r).1
  | Ev_client o => if is_rpc o then exec x.1 s o else s
  end.
Definition deployed (evs : list (Z * event)) : t := foldl occur init evs.

(** Every event is at most one remote call. *)
Lemma occur_rpc s x : occur s x = s \/ exists o, is_rpc o = true /\ occur s x = exec x.1 s o.
Proof.
  destruct x as [now [net id sys|net id clock|net id r|o]]; unfold occur; cbn [fst snd].
  - destruct net; [by left|right..]; by exists (Op_RegisterWorker (WorkerAgent.worker_info id sys)).
  - destruct net; [by left|right..]; by eexists (Op_Heartbeat _).
  - unfold WorkerAgent.submit_result, WorkerAgent.rpc. destruct net; [by left|right..]; by eexists (Op_StopBenchmark _).
  - destruct (is_rpc o) eqn:E; [right|by left]. by exists o.
Qed.

Lemma deployed_run evs : exists ops, Forall (fun x => is_rpc x.2 = true) ops /\ deployed evs = run ops.
Proof.
  induction evs as [|x evs (ops&Hf&IH)] using rev_ind; [by exists []|]. unfold deployed in *. rewrite foldl_app. cbn [foldl].
  destruct (occur_rpc (foldl occur init evs) x) as [->|(o&Ho&->)]; [by exists ops|].
  exists (ops ++ [(x.1, o)]). rewrite run_snoc, IH. split; [|done]. apply Forall_app. by repeat constructor.
Qed.

(** Remote calls alone leave every benchmark with the empty result. *)
Lemma rpc_empty_results ops : Forall (fun x => is_rpc x.2 = true) ops ->
  forall k b, benchmarks_ (run ops) !! k = Some b -> result b = empty_result.
Proof.
  induction ops as [|[now o] ops IH] using rev_ind; intros Hf k b; [done|]. apply Forall_app in Hf as [Hf Ho].
  apply Forall_cons in Ho as [Ho _]. specialize (IH Hf). rewrite run_snoc. unfold exec_turn. cbn [fst snd] in *.
  destruct o as [r|r|r|r|r|? ?|? ?]; cbn [exec]; try done.
  - apply IH.
  - unfold Heartbeat. cbn [fst]. destruct (workers_ _ !! _); apply IH.
  - unfold StartBenchmark. destruct (first_alive _); [apply IH|]. cbn [fst set_benchmarks benchmarks_].
    rewrite lookup_insert_Some. intros [[_ <-]|[_ ?]]; [done|by eapply IH].
  - unfold StopBenchmark. destruct (benchmarks_ _ !! bh_benchmark_id r) as [b'|] eqn:E; [|apply IH].
    cbn [fst update_leaderboard set_leaderboard set_benchmarks benchmarks_].
    rewrite lookup_insert_Some. intros [[_ <-]|[_ ?]]; [exact (IH _ _ E)|by eapply IH].
  - unfold GetBenchmarkStatus. by case_match; apply IH.
Qed.

Lemma rpc_empty_answers ops : Forall (fun x => is_rpc x.2 = true) ops ->
  forall r, r ∈ answers init ops -> br_achieved_tps r = zero /\ br_latency r = None /\ br_drops r = 0.
Proof.
  induction ops as [|[now o] ops IH] using rev_ind; intros Hf r; [intros H; by apply not_elem_of_nil in H|].
  apply Forall_app in Hf as [Hf Ho]. rewrite answers_snoc, elem_of_app. intros [H|H]; [by apply IH|].
  unfold answer_of in H. cbn [snd fst] in H. destruct o; try by apply not_elem_of_nil in H.
  unfold StopBenchmark in H. destruct (benchmarks_ _ !! _) as [b|] eqn:E; cbn [snd] in H; [|by apply not_elem_of_nil in H].
  apply list_elem_of_singleton in H as ->. cbn [stop_response br_achieved_tps br_latency br_drops with_state result].
  by rewrite (rpc_empty_results ops Hf _ _ E).
Qed.

(** Then every leaderboard entry is the one of the empty result. *)
Definition zero_entry (c : str) : LeaderboardEntry_internal :=
  {| li_contestant_id := c; score := zero; achieved_tps := zero; latency := empty_latency; drops := 0 |}.

Lemma rpc_board ops c e : Forall (fun x => is_rpc x.2 = true) ops -> leaderboard_ (run ops) !! c = Some e -> e = zero_entry c.
Proof.
  intros Hf. rewrite (ri_board _ _ (server_ok ops)). destruct (latest c _) as [r|] eqn:E; [|done]. apply latest_elem in E.
  destruct (rpc_empty_answers _ Hf r E) as (Ht&Hl&Hd). cbn. intros [= <-]. unfold entry_of, score_of, p99_us, zero_entry. rewrite Ht, Hl, Hd.
  repeat f_equal.
Qed.

(** in the deployed system, where workers submit their results through the
    agent, whatever results they submit and whatever the network loses, every
    leaderboard entry has score, throughput and drops zero and no latency: the
    agent stops the benchmark without sending the result, and the server
    operation that stores one is reached by no call. *)
Theorem submitted_results_lost (evs : list (Z * event)) (c : str) :
  leaderboard_ (deployed evs) !! c = None \/
  leaderboard_ (deployed evs) !! c =
    Some {| li_contestant_id := c; score := zero; achieved_tps := zero; latency := empty_latency; drops := 0 |}.
Proof.
  destruct (deployed_run evs) as (ops&Hf&->). destruct (leaderboard_ (run ops) !! c) as [e|] eqn:E; [right|by left].
  by rewrite (rpc_board _ _ _ Hf E).
Qed.

(** ** The stream of metrics *)

(** Once a benchmark is stopped, the next poll of every stream of it ends the
    stream; an unknown benchmark is an empty stream, not an error. *)
Lemma stream_ends now s r cancelled turns : 
  StreamMetrics ((cancelled, (StopBenchmark now s r).1) :: turns) (bh_benchmark_id r) = [].
Proof.
  cbn [StreamMetrics]. destruct cancelled; [done|]. unfold poll, StopBenchmark.
  destruct (benchmarks_ s !! bh_benchmark_id r) as [b|] eqn:E; cbn [fst]; [|by rewrite E].
  cbn [update_leaderboard set_leaderboard set_benchmarks benchmarks_]. by rewrite lookup_insert_eq.
Qed.

(** What a stream writes while its benchmark runs is the snapshot ingested last. *)
Lemma stream_latest s k b m turns : benchmarks_ s !! k = Some b -> state b = RUNNING ->
  StreamMetrics ((false, ingest_metrics s k m) :: turns) k = m :: StreamMetrics turns k.
Proof.
  intros Hb Hr. cbn [StreamMetrics]. unfold poll, ingest_metrics. rewrite Hb. cbn [set_benchmarks benchmarks_].
  rewrite lookup_insert_eq. cbn [state metrics_history]. by rewrite Hr, last_snoc.
Qed.

(** ** The huge pages of a worker *)

Lemma skip_ws_app n l : WorkerAgent.skip_ws (replicate n 32 ++ l) = WorkerAgent.skip_ws l.
Proof. by induction n. Qed.

Lemma read_digits_all l : Forall (fun c => digit c = true) l -> WorkerAgent.read_digits l = l.
Proof. induction 1 as [|c l Hc _ IH]; cbn [WorkerAgent.read_digits]; [done|]. by rewrite Hc, IH. Qed.

Lemma read_int_dec old n l : 0 <= n <= INT32_MAX -> WorkerAgent.read_int old (replicate l 32 ++ dec n) = n.
Proof.
  intros Hn. unfold WorkerAgent.read_int. rewrite skip_ws_app. pose proof (dec_digits n) as Hd. pose proof (undec_dec n ltac:(lia)) as Hu.
  destruct (dec n) as [|c r] eqn:E; [by apply dec_nonempty in E|].
  pose proof (proj1 (proj1 (Forall_cons _ _ _) Hd)) as Hc. unfold digit in Hc. bool_hyps.
  assert (Hs : WorkerAgent.is_space c = false) by (unfold WorkerAgent.is_space; bool_cases; done || lia).
  cbn [WorkerAgent.skip_ws]. rewrite Hs, (proj2 (Z.eqb_neq c 45)), (proj2 (Z.eqb_neq c 43)) by lia.
  rewrite read_digits_all, Hu by done. unfold INT32_MIN, INT32_MAX in *. lia.
Qed.

(** The kernel's line is read as the number it shows. *)
Lemma hugepages_line uninit n k rest : 0 <= n <= INT32_MAX ->
  WorkerAgent.check_hugepages uninit (Some ((bytes "HugePages_Total:" ++ replicate (S k) 32 ++ dec n) :: rest)) = (0 <? n).
Proof.
  intros Hn. unfold WorkerAgent.check_hugepages, WorkerAgent.scan_meminfo.
  replace (WorkerAgent.contains _ _) with true by reflexivity.
  change (WorkerAgent.skip_word _) with (replicate (S k) 32 ++ dec n). by rewrite read_int_dec.
Qed.

(** ** A run, and the witness of the ranking *)

Definition demo_worker : WorkerInfo :=
  {| wi_worker_id := bytes "worker-1"; wi_hostname := bytes "host"; wi_num_cores := 8; wi_memory_bytes := 17179869184;
     wi_has_hugepages := true; wi_has_kvm := true; wi_isolated_cores := [] |}.
Definition demo_result (tps p99 dr : Z) : BenchmarkResult :=
  {| br_benchmark_id := []; br_contestant_id := []; br_elapsed_secs := zero; br_total_sends := 10; br_total_recvs := 10;
     br_drops := dr; br_achieved_tps := F64.of_Z tps;
     br_latency := Some {| min_ns := 0; p50_ns := 0; p90_ns := 0; p99_ns := p99; p999_ns := 0; max_ns := 0; lp_total_samples := 10 |};
     br_score := zero; br_error_message := [] |}.
Definition demo_bench (b c : str) (r : BenchmarkResult) : list turn :=
  [(1, Op_StartBenchmark {| cf_benchmark_id := b; cf_contestant_id := c |});
   (2, Op_submit_result b r);
   (3, Op_StopBenchmark {| bh_benchmark_id := b; bh_worker_id := [] |})].
Definition demo_ops : list turn :=
  (0, Op_RegisterWorker demo_worker) ::
  demo_bench (bytes "b1") (bytes "ada") (demo_result 1000 50000 0) ++
  demo_bench (bytes "b2") (bytes "bob") (demo_result 1000 20000 0) ++
  demo_bench (bytes "b3") (bytes "cyd") (demo_result 1000 20000 3).

Lemma leaderboard_ranked_witness :
  (fun e => (le_rank e, le_contestant_id e)) <$> GetLeaderboard isort (run demo_ops) 2 =
    [(1, bytes "bob"); (2, bytes "cyd")] /\
  NoDup (le_contestant_id <$> GetLeaderboard isort (run demo_ops) 2).
Proof.
  split; [vm_compute; reflexivity|]. eapply (leaderboard_ranked (sort := isort) demo_ops 2); [|lia|vm_compute; reflexivity].
  assert (H : Forall is_number (score_of <$> answers init demo_ops)) by (vm_compute; repeat constructor; discriminate).
  intros r Hr. rewrite Forall_fmap, Forall_forall in H. by apply H.
Defined.

(** A worker that registers without a name blocks every start. *)
Example nameless_worker_blocks :
  (StartBenchmark 5 (run (demo_ops ++
     [(4, Op_RegisterWorker {| wi_worker_id := []; wi_hostname := []; wi_num_cores := 1; wi_memory_bytes := 0;
                               wi_has_hugepages := false; wi_has_kvm := false; wi_isolated_cores := [] |})]))
     {| cf_benchmark_id := bytes "b4"; cf_contestant_id := bytes "dan" |}).2 = inl (UNAVAILABLE, bytes "No workers available").
Proof. vm_compute. reflexivity. Qed.
