(* ===== verification/Firecracker.v ===== *)
(** The microVM manager (src/sandbox/include/sandbox/firecracker_manager.hpp) and
    the boot of a contestant's virtual machine in the contest runner
    (src/orchestrator/include/orchestrator/contest_runner.hpp).  An operation
    takes what the system calls answer as arguments and gives the calls that
    have an effect outside as a list of events.  The theorems read the requests
    back with readers of HTTP and JSON. *)

From S2P Require Import Prelude Xorshift Text Crc Metrics.
From Stdlib Require String Ascii.
Import String.StringSyntax.

(** ** Escaping for JSON *)

(** The digits of [%x], at least four ([%04x] of a 32-bit unsigned). *)
Definition hex_digit (d : Z) : Z := if d <? 10 then 48 + d else 87 + d.
Fixpoint rhex (fuel : nat) (n : Z) : list Z :=
  match fuel with
  | O => []
  | S fuel => hex_digit (n mod 16) :: (if n / 16 =? 0 then [] else rhex fuel (n / 16))
  end.
Definition hex04 (n : Z) : list Z :=
  let ds := rev (rhex 8 n) in replicate (4 - length ds) 48 ++ ds.

(** A byte as the [char] of the target, which is signed. *)
Definition char_of (b : Z) : Z := if b <? 128 then b else b - 256.

(** What a character is replaced by. *)
Definition escape (b : Z) : list Z :=
  let c := char_of b in
  if (b =? QUOTE) || (b =? 92) then [92; b]
  else if c <? 32 then bytes "\u" ++ hex04 (u32 c)
  else [b].

(** A turn of the loop; [out] is what has been printed, so that [j] is its
    length.  The result of [snprintf] is added to [j] even when it did not fit:
    [out] is then longer than the buffer. *)
Definition escape_char (dst_size : Z) (out : list Z) (b : Z) : list Z :=
  let j := Z.of_nat (length out) in
  let c := char_of b in
  if (b =? QUOTE) || (b =? 92) then if j + 1 <? dst_size - 1 then out ++ [92; b] else out ++ [92]
  else if c <? 32 then if j + 6 <? dst_size then out ++ escape b else out
  else out ++ [b].

Fixpoint escape_loop (dst_size : Z) (out src : list Z) : list Z :=
  match src with
  | [] => out
  | b :: src =>
      if Z.of_nat (length out) <? dst_size - 2 then escape_loop dst_size (escape_char dst_size out b) src else out
  end.

(** [json_escape]: the text in the buffer, or [None] when the terminator is
    stored behind it. *)
Definition json_escape (dst_size : Z) (src : list Z) : option (list Z) :=
  let out := escape_loop dst_size [] src in
  if Z.of_nat (length out) <? dst_size then Some out else None.

(** ** Configuration and state *)

Record MicroVMConfig := {
  firecracker_bin : list Z; kernel_image_path : option (list Z); rootfs_path : option (list Z); vcpu_count : Z; mem_size_mib : Z;
  enable_network : bool; tap_device : option (list Z); guest_mac : list Z; boot_args : list Z }.

Definition default_config : MicroVMConfig :=
  {| firecracker_bin := bytes "/usr/local/bin/firecracker"; kernel_image_path := None; rootfs_path := None; vcpu_count := 2;
     mem_size_mib := 256; enable_network := false; tap_device := None; guest_mac := bytes "AA:FC:00:00:00:01";
     boot_args := bytes "console=ttyS0 reboot=k panic=1 pci=off root=/dev/vda rw" |}.

Inductive VMState := CREATED | CONFIGURED | RUNNING | STOPPED | FAILED.
#[export] Instance VMState_eq_dec : EqDecision VMState.
Proof. solve_decision. Defined.

Record VMStatus := { state : VMState; firecracker_pid : Z; api_socket_fd : Z; socket_path : list Z; error : list Z }.

(** ** System calls *)

Inductive signal := SIGTERM | SIGKILL.

(** The calls with an effect; [E_fork] has the arguments the child executes, and
    [E_request] the socket, what was sent and whether it was answered with a
    status 2xx. *)
Inductive event :=
  | E_unlink (path : list Z)
  | E_fork (pid : Z) (argv : list (list Z))
  | E_close (fd : Z)
  | E_request (path : list Z) (data : outcome) (ok : bool)
  | E_kill (pid : Z) (sig : signal)
  | E_waitpid (pid : Z).

(** What a connection to the API is answered: the results of [socket],
    [connect] and [send], and what [recv] reads. *)
Record ApiAnswer := { a_socket : Z; a_connect : Z; a_sent : Z; a_response : option (list Z) }.

Definition connect_api_socket (a : ApiAnswer) : list event * Z :=
  if a_socket a <? 0 then ([], -1)
  else if a_connect a <? 0 then ([E_close (a_socket a)], -1)
  else ([], a_socket a).

(** [strstr] of a C string. *)
Fixpoint is_prefix (p l : list Z) : bool :=
  match p, l with
  | [], _ => true
  | _ :: _, [] => false
  | x :: p, y :: l => (x =? y) && is_prefix p l
  end.
Fixpoint strstr (l p : list Z) : bool :=
  is_prefix p l || match l with [] => false | _ :: l => strstr l p end.

(** The text of the request. *)
Definition crlf : list Z := [CR; LF].
Definition request_text (endpoint body : list Z) : list Z :=
  bytes "PUT " ++ endpoint ++ bytes " HTTP/1.1" ++ crlf ++ bytes "Host: localhost" ++ crlf ++
  bytes "Accept: application/json" ++ crlf ++ bytes "Content-Type: application/json" ++ crlf ++
  bytes "Content-Length: " ++ dec (Z.of_nat (length body)) ++ crlf ++ crlf ++ body.

Module FirecrackerManager.

Record t := { config_ : MicroVMConfig; status_ : VMStatus }.

Definition init : t :=
  {| config_ := default_config;
     status_ := {| state := CREATED; firecracker_pid := -1; api_socket_fd := -1; socket_path := []; error := [] |} |}.

Definition with_status (m : t) (s : VMStatus) : t := {| config_ := config_ m; status_ := s |}.
Definition set_state (m : t) (st : VMState) : t :=
  with_status m {| state := st; firecracker_pid := firecracker_pid (status_ m); api_socket_fd := api_socket_fd (status_ m);
                   socket_path := socket_path (status_ m); error := error (status_ m) |}.
Definition set_error (m : t) (msg : list Z) : t :=
  with_status m {| state := state (status_ m); firecracker_pid := firecracker_pid (status_ m);
                   api_socket_fd := api_socket_fd (status_ m); socket_path := socket_path (status_ m);
                   error := (snprintf 256 msg).1 |}.
Definition set_fd (m : t) (fd : Z) : t :=
  with_status m {| state := state (status_ m); firecracker_pid := firecracker_pid (status_ m); api_socket_fd := fd;
                   socket_path := socket_path (status_ m); error := error (status_ m) |}.
Definition set_pid (m : t) (pid : Z) : t :=
  with_status m {| state := state (status_ m); firecracker_pid := pid; api_socket_fd := api_socket_fd (status_ m);
                   socket_path := socket_path (status_ m); error := error (status_ m) |}.
Definition set_path (m : t) (path : list Z) : t :=
  with_status m {| state := state (status_ m); firecracker_pid := firecracker_pid (status_ m);
                   api_socket_fd := api_socket_fd (status_ m); socket_path := path; error := error (status_ m) |}.

(** [api_put]. *)
Definition api_put (m : t) (endpoint body : list Z) (a : ApiAnswer) : list event * bool :=
  let '(ev, fd) := connect_api_socket a in
  if fd <? 0 then (ev, false) else
  let '(request, req_len) := snprintf 4096 (request_text endpoint body) in
  let ok := (a_sent a =? req_len) &&
    match a_response a with
    | Some (c :: r) => strstr (c_string (take 4095 (c :: r))) (bytes "HTTP/1.1 2")
    | _ => false
    end in
  (ev ++ [E_request (socket_path (status_ m)) (send_first request req_len (a_sent a)) ok; E_close fd], ok).

(** What [create] is answered: its own process id, the result of [fork] with the
    text of the error, the results of the calls of [access] in order, and the
    connection. *)
Record CreateAnswer := { self_pid : Z; fork_pid : option Z; errno_text : list Z; access : nat -> bool; c_api : ApiAnswer }.

(** The waiting loop: the number of calls of [access] it makes. *)
Fixpoint wait_socket (ac : nat -> bool) (i turns : nat) : nat :=
  match turns with
  | O => i
  | S turns => if ac i then S i else wait_socket ac (S i) turns
  end.

Definition create (m : t) (config : MicroVMConfig) (k : CreateAnswer) : t * list event * bool :=
  let m := {| config_ := config; status_ := status_ m |} in
  let m := set_path m (snprintf 256 (bytes "/tmp/firecracker_" ++ dec (self_pid k) ++ bytes ".sock")).1 in
  let path := socket_path (status_ m) in
  let ev := [E_unlink path] in
  match fork_pid k with
  | None => (set_error m (bytes "fork failed: " ++ errno_text k), ev, false)
  | Some pid =>
      let ev := ev ++ [E_fork pid [firecracker_bin config; bytes "firecracker"; bytes "--api-sock"; path;
                                   bytes "--level"; bytes "Warning"]] in
      let m := set_state (set_pid m pid) CREATED in
      if negb (access k (wait_socket (access k) 0 100)) then
        (set_state (set_error m (bytes "Firecracker socket not created after 1s")) FAILED, ev, false)
      else
        let '(ev', fd) := connect_api_socket (c_api k) in
        let m := set_fd m fd in
        if fd <? 0 then
          (set_state (set_error m (bytes "Failed to connect to Firecracker API socket")) FAILED, ev ++ ev', false)
        else (m, ev ++ ev', true)
  end.

(** The bodies of the requests, as their format strings print them. *)
Definition quoted (s : list Z) : list Z := [QUOTE] ++ s ++ [QUOTE].
Definition boot_json (kernel args : list Z) : list Z :=
  bytes "{" ++ quoted (bytes "kernel_image_path") ++ bytes ": " ++ quoted kernel ++ bytes ", " ++
  quoted (bytes "boot_args") ++ bytes ": " ++ quoted args ++ bytes "}".
Definition machine_json (vcpus mem : Z) : list Z :=
  bytes "{" ++ quoted (bytes "vcpu_count") ++ bytes ": " ++ dec vcpus ++ bytes ", " ++
  quoted (bytes "mem_size_mib") ++ bytes ": " ++ dec mem ++ bytes "}".
Definition drive_json (rootfs : list Z) : list Z :=
  bytes "{" ++ quoted (bytes "drive_id") ++ bytes ": " ++ quoted (bytes "rootfs") ++ bytes ", " ++
  quoted (bytes "path_on_host") ++ bytes ": " ++ quoted rootfs ++ bytes ", " ++
  quoted (bytes "is_root_device") ++ bytes ": true, " ++ quoted (bytes "is_read_only") ++ bytes ": false}".
Definition net_json (mac tap : list Z) : list Z :=
  bytes "{" ++ quoted (bytes "iface_id") ++ bytes ": " ++ quoted (bytes "eth0") ++ bytes ", " ++
  quoted (bytes "guest_mac") ++ bytes ": " ++ quoted mac ++ bytes ", " ++
  quoted (bytes "host_dev_name") ++ bytes ": " ++ quoted tap ++ bytes "}".
Definition action_json (action : list Z) : list Z :=
  bytes "{" ++ quoted (bytes "action_type") ++ bytes ": " ++ quoted action ++ bytes "}".

Record ConfigAnswers := { a_boot : ApiAnswer; a_machine : ApiAnswer; a_drive : ApiAnswer; a_net : ApiAnswer }.

(** The optional network interface; a refusal is not fatal. *)
Definition configure_net (m : t) (a : ApiAnswer) : option (list event) :=
  match enable_network (config_ m), tap_device (config_ m) with
  | true, Some tap =>
      safe_mac ← json_escape 64 (guest_mac (config_ m));
      safe_tap ← json_escape 128 tap;
      Some (api_put m (bytes "/network-interfaces/eth0") (snprintf 512 (net_json safe_mac safe_tap)).1 a).1
  | _, _ => Some []
  end.

(** [configure]; [None] when an escaped string is stored past its buffer. *)
Definition configure (m : t) (k : ConfigAnswers) : option (t * list event * bool) :=
  if negb (bool_decide (state (status_ m) = CREATED)) then
    Some (set_error m (bytes "Cannot configure: VM not in CREATED state"), [], false) else
  match kernel_image_path (config_ m), rootfs_path (config_ m) with
  | Some kernel, Some rootfs =>
      safe_kernel ← json_escape 512 kernel;
      safe_rootfs ← json_escape 512 rootfs;
      safe_bootargs ← json_escape 512 (boot_args (config_ m));
      let '(ev1, ok) := api_put m (bytes "/boot-source") (snprintf 1024 (boot_json safe_kernel safe_bootargs)).1 (a_boot k) in
      if negb ok then Some (set_error m (bytes "Failed to set boot source"), ev1, false) else
      let '(ev2, ok) := api_put m (bytes "/machine-config")
        (snprintf 512 (machine_json (vcpu_count (config_ m)) (mem_size_mib (config_ m)))).1 (a_machine k) in
      if negb ok then Some (set_error m (bytes "Failed to set machine config"), ev1 ++ ev2, false) else
      let '(ev3, ok) := api_put m (bytes "/drives/rootfs") (snprintf 1024 (drive_json safe_rootfs)).1 (a_drive k) in
      if negb ok then Some (set_error m (bytes "Failed to set rootfs drive"), ev1 ++ ev2 ++ ev3, false) else
      ev4 ← configure_net m (a_net k);
      Some (set_state m CONFIGURED, ev1 ++ ev2 ++ ev3 ++ ev4, true)
  | _, _ => Some (set_error m (bytes "kernel_image_path and rootfs_path are required"), [], false)
  end.

Definition start (m : t) (a : ApiAnswer) : t * list event * bool :=
  if negb (bool_decide (state (status_ m) = CONFIGURED)) then (set_error m (bytes "Cannot start: VM not configured"), [], false) else
  let '(ev, ok) := api_put m (bytes "/actions") (action_json (bytes "InstanceStart")) a in
  if negb ok then (set_error m (bytes "Failed to start VM instance"), ev, false)
  else (set_state m RUNNING, ev, true).

Definition stop (m : t) (a : ApiAnswer) : t * list event :=
  if bool_decide (state (status_ m) = RUNNING) then
    (set_state m STOPPED, (api_put m (bytes "/actions") (action_json (bytes "SendCtrlAltDel")) a).1)
  else (m, []).

Definition destroy (m : t) (a : ApiAnswer) : t * list event :=
  let '(m, ev) := stop m a in
  let '(m, ev) := if 0 <=? api_socket_fd (status_ m)
    then (set_fd m (-1), ev ++ [E_close (api_socket_fd (status_ m))]) else (m, ev) in
  let '(m, ev) := if 0 <? firecracker_pid (status_ m)
    then let pid := firecracker_pid (status_ m) in
         (set_pid m (-1), ev ++ [E_kill pid SIGTERM; E_waitpid pid; E_kill pid SIGKILL; E_waitpid pid]) else (m, ev) in
  match socket_path (status_ m) with
  | [] => (m, ev)
  | path => (set_path m [], ev ++ [E_unlink path])
  end.

End FirecrackerManager.

(** ** The boot of a contestant's machine by the contest runner *)

Import FirecrackerManager.

Record BootAnswers := {
  k_copy : Z; k_create : CreateAnswer; k_config : ConfigAnswers; k_start : ApiAnswer; k_destroy : ApiAnswer }.

(** The commands handed to [system]. *)
Definition rootfs_copy (contestant : list Z) : list Z := (snprintf 256 (bytes "/tmp/iicpc_rootfs_" ++ contestant ++ bytes ".ext4")).1.
Definition cp_cmd (rootfs copy : list Z) : list Z :=
  (snprintf 512 (bytes "cp --reflink=auto '" ++ rootfs ++ bytes "' '" ++ copy ++ bytes "'")).1.
Definition inject_cmd (binary copy : list Z) : list Z :=
  (snprintf 1024 (bytes "debugfs -w -R 'write " ++ binary ++ bytes " /usr/bin/contestant' '" ++ copy ++ bytes "' 2>/dev/null")).1.

Definition vm_config (kernel copy : list Z) : MicroVMConfig :=
  {| firecracker_bin := firecracker_bin default_config; kernel_image_path := Some kernel; rootfs_path := Some copy;
     vcpu_count := 2; mem_size_mib := 256; enable_network := enable_network default_config; tap_device := tap_device default_config;
     guest_mac := guest_mac default_config; boot_args := bytes "console=ttyS0 reboot=k panic=1 pci=off root=/dev/vda rw" |}.

Inductive boot_event := B_system (cmd : list Z) | B_remove (path : list Z) | B_vm (e : event).

Inductive boot_failure := CopyFailed | CreateFailed | ConfigureFailed | StartFailed.

(** The block that boots a machine from a copy of the root file system: [fc_mgr]
    lives in it, so its destructor runs on every way out.  The result is the
    step that failed or the process that the rest of the match takes for the
    contestant. *)
Definition boot_block (copy kernel rootfs binary : list Z) (k : BootAnswers) : option (list boot_event * (boot_failure + Z)) :=
  let ev := [B_system (cp_cmd rootfs copy)] in
  if negb (k_copy k =? 0) then Some (ev, inl CopyFailed) else
  let ev := ev ++ [B_system (inject_cmd binary copy)] in
  let leave m := B_vm <$> (destroy m (k_destroy k)).2 in
  let '(m, e1, ok) := create FirecrackerManager.init (vm_config kernel copy) (k_create k) in
  let ev := ev ++ (B_vm <$> e1) in
  if negb ok then Some ((ev ++ [B_remove copy]) ++ leave m, inl CreateFailed) else
  '(m, e2, ok) ← configure m (k_config k);
  let ev := ev ++ (B_vm <$> e2) in
  if negb ok then Some ((ev ++ [B_remove copy]) ++ leave m, inl ConfigureFailed) else
  let '(m, e3, ok) := start m (k_start k) in
  let ev := ev ++ (B_vm <$> e3) in
  if negb ok then Some ((ev ++ [B_remove copy]) ++ leave m, inl StartFailed) else
  let contestant_pid := firecracker_pid (status_ m) in
  Some (ev ++ leave m, inr contestant_pid).

(** The message the contest runner reports. *)
Definition boot_error (f : boot_failure) : list Z :=
  match f with
  | CopyFailed => bytes "rootfs copy failed"
  | CreateFailed => bytes "Firecracker create failed"
  | ConfigureFailed => bytes "Firecracker configure failed"
  | StartFailed => bytes "Firecracker start failed"
  end.

(** In the contest runner, and in the system tests, which report no message. *)
Definition boot_vm (contestant kernel rootfs binary : list Z) (k : BootAnswers) : option (list boot_event * (list Z + Z)) :=
  '(ev, r) ← boot_block (rootfs_copy contestant) kernel rootfs binary k;
  Some (ev, match r with inl f => inl (boot_error f) | inr pid => inr pid end).

Definition systest_copy (scenario_id : Z) : list Z := (snprintf 256 (bytes "/tmp/iicpc_systest_" ++ dec scenario_id ++ bytes ".ext4")).1.
Definition boot_systest (scenario_id : Z) (kernel rootfs binary : list Z) (k : BootAnswers) : option (list boot_event * option Z) :=
  '(ev, r) ← boot_block (systest_copy scenario_id) kernel rootfs binary k;
  Some (ev, match r with inl _ => None | inr pid => Some pid end).

(** ** Escaped strings *)

Definition ascii (l : list Z) : Prop := Forall (fun b => 0 < b < 128) l.
Definition escaped (src : list Z) : list Z := mjoin (escape <$> src).

Lemma ascii_char b : 0 < b < 128 -> char_of b = b.
Proof. intros H. unfold char_of. by rewrite (proj2 (Z.ltb_lt b 128)) by lia. Qed.

Lemma control_cases (P : Z -> bool) : forallb P (seqZ 0 32) = true -> forall b, 0 <= b < 32 -> P b = true.
Proof. rewrite forallb_forall. intros H b Hb. apply H, list_elem_of_In, elem_of_seqZ. lia. Qed.

(** A control character is printed in six characters. *)
Lemma escape_control b : 0 <= b < 32 -> length (escape b) = 6%nat.
Proof.
  intros Hb. apply Nat.eqb_eq. revert b Hb. apply (control_cases (fun b => Nat.eqb (length (escape b)) 6)). vm_compute. reflexivity.
Qed.

Lemma escape_length b : 0 < b < 128 -> (1 <= length (escape b) <= 6)%nat.
Proof.
  intros H. destruct (Z.lt_ge_cases b 32); [rewrite escape_control; lia|].
  unfold escape. rewrite ascii_char by done. destruct (_ || _); [cbn; lia|].
  rewrite (proj2 (Z.ltb_ge b 32)) by done. cbn. lia.
Qed.

(** A turn of the loop stays below the last byte of the buffer. *)
Lemma escape_loop_bound dst_size src : ascii src -> forall out,
  Z.of_nat (length out) < dst_size -> Z.of_nat (length (escape_loop dst_size out src)) < dst_size.
Proof.
  induction 1 as [|b src Hb _ IH]; intros out Ho; cbn [escape_loop]; [done|].
  destruct (Z.ltb_spec (Z.of_nat (length out)) (dst_size - 2)); [|done]. apply IH. unfold escape_char. rewrite ascii_char by done.
  destruct ((b =? QUOTE) || (b =? 92)).
  - destruct (Z.ltb_spec (Z.of_nat (length out) + 1) (dst_size - 1)); rewrite length_app; cbn [length]; lia.
  - destruct (Z.ltb_spec b 32); [|rewrite length_app; cbn [length]; lia].
    destruct (Z.ltb_spec (Z.of_nat (length out) + 6) dst_size); [|done]. rewrite length_app, escape_control by lia. lia.
Qed.

(** While there is room the loop appends the escaped characters. *)
Lemma escape_char_fits dst_size out b : 0 < b < 128 -> Z.of_nat (length out) + Z.of_nat (length (escape b)) <= dst_size - 2 ->
  escape_char dst_size out b = out ++ escape b.
Proof.
  intros Hb Ho. unfold escape_char. destruct (Z.lt_ge_cases b 32) as [Hc|Hc].
  - rewrite escape_control in Ho by lia. rewrite ascii_char by done. replace ((b =? QUOTE) || (b =? 92)) with false.
    2:{ symmetry. apply orb_false_iff. rewrite !Z.eqb_neq. unfold QUOTE. lia. }
    by rewrite (proj2 (Z.ltb_lt b 32)), (proj2 (Z.ltb_lt _ dst_size)) by lia.
  - unfold escape in *. rewrite ascii_char in * by done. rewrite (proj2 (Z.ltb_ge b 32)) in * by done.
    destruct ((b =? QUOTE) || (b =? 92)); [|done]. cbn [length] in Ho. by rewrite (proj2 (Z.ltb_lt _ _)) by lia.
Qed.

Lemma escape_loop_fits dst_size src : ascii src -> forall out,
  Z.of_nat (length out) + Z.of_nat (length (escaped src)) <= dst_size - 2 -> escape_loop dst_size out src = out ++ escaped src.
Proof.
  induction 1 as [|b src Hb _ IH]; intros out Ho; cbn [escape_loop]; [by rewrite app_nil_r|].
  change (escaped (b :: src)) with (escape b ++ escaped src) in *. rewrite length_app in Ho. pose proof (escape_length b Hb).
  rewrite (proj2 (Z.ltb_lt _ (dst_size - 2))), escape_char_fits by (done || lia).
  rewrite IH, app_assoc; [done|]. rewrite length_app. lia.
Qed.

(** Plain text never leaves the buffer. *)
Lemma json_escape_ascii dst_size src : 0 < dst_size -> ascii src -> exists out, json_escape dst_size src = Some out /\
  Z.of_nat (length out) < dst_size /\ (Z.of_nat (length (escaped src)) <= dst_size - 2 -> out = escaped src).
Proof.
  intros Hd Ha. unfold json_escape. pose proof (escape_loop_bound dst_size src Ha [] Hd) as Hb.
  rewrite (proj2 (Z.ltb_lt _ _) Hb). eexists. split; [done|]. split; [done|]. intros Hf. by apply (escape_loop_fits dst_size src Ha []).
Qed.

(** ** Reading JSON *)

Inductive jvalue := JStr (s : list Z) | JNum (n : Z) | JBool (b : bool).

Definition unhex (c : Z) : Z := if digit c then c - 48 else c - 87.
Definition is_hex (c : Z) : bool := digit c || ((97 <=? c) && (c <=? 102)).

(** The characters of a string up to its closing quote, and what follows. *)
Fixpoint read_string (l : list Z) : option (list Z * list Z) :=
  match l with
  | 34 :: l => Some ([], l)
  | 92 :: 117 :: a :: b :: c :: d :: l =>
      if forallb is_hex [a; b; c; d] then
        '(s, r) ← read_string l; Some (unhex a * 4096 + unhex b * 256 + unhex c * 16 + unhex d :: s, r)
      else None
  | 92 :: c :: l => if (c =? 34) || (c =? 92) then '(s, r) ← read_string l; Some (c :: s, r) else None
  | c :: l => if 32 <=? c then '(s, r) ← read_string l; Some (c :: s, r) else None
  | [] => None
  end.

Fixpoint read_number (l : list Z) : list Z * list Z :=
  match l with
  | c :: l' => if digit c then let '(ds, r) := read_number l' in (c :: ds, r) else ([], l)
  | [] => ([], [])
  end.

Definition read_jvalue (l : list Z) : option (jvalue * list Z) :=
  match l with
  | 34 :: l => '(s, r) ← read_string l; Some (JStr s, r)
  | 116 :: 114 :: 117 :: 101 :: r => Some (JBool true, r)
  | 102 :: 97 :: 108 :: 115 :: 101 :: r => Some (JBool false, r)
  | _ => match read_number l with ([], _) => None | (ds, r) => Some (JNum (undec ds), r) end
  end.

(** The members of an object after its opening brace. *)
Fixpoint read_members (fuel : nat) (l : list Z) : option (list (list Z * jvalue)) :=
  match fuel with
  | O => None
  | S fuel =>
      match l with
      | 34 :: l =>
          '(k, r) ← read_string l;
          match r with
          | 58 :: 32 :: r =>
              '(v, r) ← read_jvalue r;
              match r with
              | [125] => Some [(k, v)]
              | 44 :: 32 :: r => ms ← read_members fuel r; Some ((k, v) :: ms)
              | _ => None
              end
          | _ => None
          end
      | _ => None
      end
  end.

Definition read_object (l : list Z) : option (list (list Z * jvalue)) :=
  match l with 123 :: l => read_members (length l) l | _ => None end.

(** *** Writing it *)

Definition jtext (v : jvalue) : list Z :=
  match v with
  | JStr s => quoted (escaped s)
  | JNum n => dec n
  | JBool b => if b then bytes "true" else bytes "false"
  end.
Fixpoint members (fs : list (list Z * jvalue)) : list Z :=
  match fs with
  | [] => []
  | [(k, v)] => quoted (escaped k) ++ bytes ": " ++ jtext v
  | (k, v) :: fs => quoted (escaped k) ++ bytes ": " ++ jtext v ++ bytes ", " ++ members fs
  end.
Definition object (fs : list (list Z * jvalue)) : list Z := bytes "{" ++ members fs ++ bytes "}".

Definition jvalid (v : jvalue) : Prop :=
  match v with JStr s => ascii s | JNum n => 0 <= n | JBool _ => True end.

Lemma read_escape_table : Forall (fun b => forall l, read_string (escape b ++ l) = '(s, r) ← read_string l; Some (b :: s, r)) (seqZ 1 127).
Proof.
  match goal with |- Forall _ ?l => let x := eval vm_compute in l in change l with x end.
  repeat (apply Forall_cons_2; [intros l; reflexivity|]). apply Forall_nil_2.
Qed.

Lemma read_escape b l : 0 < b < 128 -> read_string (escape b ++ l) = '(s, r) ← read_string l; Some (b :: s, r).
Proof. intros Hb. pose proof read_escape_table as H. rewrite Forall_forall in H. apply H, elem_of_seqZ. lia. Qed.

Lemma read_escaped s rest : ascii s -> read_string (escaped s ++ [34] ++ rest) = Some (s, rest).
Proof.
  induction 1 as [|b s Hb _ IH]; [done|]. change (escaped (b :: s)) with (escape b ++ escaped s).
  by rewrite <- app_assoc, read_escape, IH.
Qed.

Lemma read_number_digits ds rest : Forall (fun c => digit c = true) ds -> (match rest with c :: _ => digit c = false | [] => True end) ->
  read_number (ds ++ rest) = (ds, rest).
Proof.
  intros Hd Hr. induction Hd as [|c ds Hc _ IH]; cbn [app read_number].
  - destruct rest as [|c rest]; [done|]. cbn [read_number]. by rewrite Hr.
  - by rewrite Hc, IH.
Qed.

Definition separator (l : list Z) : Prop := match l with c :: _ => digit c = false | [] => True end.

Lemma read_digit_value c ds rest : digit c = true -> read_jvalue (c :: ds ++ rest) =
  match read_number (c :: ds ++ rest) with ([], _) => None | (ds, r) => Some (JNum (undec ds), r) end.
Proof.
  intros Hc. unfold digit in Hc. bool_hyps. assert (Hin : c ∈ seqZ 48 10) by (apply elem_of_seqZ; lia).
  assert (Ht : Forall (fun c => read_jvalue (c :: ds ++ rest) =
    match read_number (c :: ds ++ rest) with ([], _) => None | (ds, r) => Some (JNum (undec ds), r) end) (seqZ 48 10)).
  { match goal with |- Forall _ ?l => let x := eval vm_compute in l in change l with x end.
    repeat (apply Forall_cons_2; [reflexivity|]). apply Forall_nil_2. }
  rewrite Forall_forall in Ht. by apply Ht.
Qed.

Lemma read_jtext v rest : jvalid v -> separator rest -> read_jvalue (jtext v ++ rest) = Some (v, rest).
Proof.
  destruct v as [s|n|[]]; cbn [jtext jvalid]; intros Hv Hr; [| |done..].
  - unfold quoted. rewrite <- !app_assoc. change ([QUOTE] ++ escaped s ++ [QUOTE] ++ rest) with (34 :: escaped s ++ [34] ++ rest).
    cbn [read_jvalue]. by rewrite read_escaped.
  - pose proof (dec_digits n) as Hd. pose proof (undec_dec n Hv) as Hu. destruct (dec n) as [|c ds] eqn:E; [by apply dec_nonempty in E|].
    cbn [app]. rewrite read_digit_value by by apply Forall_cons in Hd as [? _].
    change (c :: ds ++ rest) with ((c :: ds) ++ rest). by rewrite read_number_digits, Hu.
Qed.

Definition fields_valid (fs : list (list Z * jvalue)) : Prop := Forall (fun f => ascii f.1 /\ jvalid f.2) fs.

Lemma read_members_object fs fuel : fs <> [] -> fields_valid fs -> (length fs <= fuel)%nat ->
  read_members fuel (members fs ++ [125]) = Some fs.
Proof.
  intros Hne Hv. revert fuel. induction Hv as [|[k v] fs [Hk Hv] Hf IH]; intros fuel Hl; [done|].
  destruct fuel as [|fuel]; [cbn [length] in Hl; lia|]. cbn [fst snd length] in *.
  assert (E : exists tl, members ((k, v) :: fs) ++ [125] = 34 :: escaped k ++ [34] ++ 58 :: 32 :: jtext v ++ tl /\
    tl = match fs with [] => [125] | _ => 44 :: 32 :: members fs ++ [125] end).
  { eexists. split; [|done]. destruct fs as [|f fs]; cbn [members]; unfold quoted; rewrite <- !app_assoc; done. }
  destruct E as (tl&->&Etl). cbn [read_members]. rewrite read_escaped by done. cbn [mbind option_bind].
  rewrite read_jtext; [|done|subst tl; by destruct fs]. cbn [mbind option_bind]. subst tl. destruct fs as [|f fs]; [done|].
  rewrite IH; [done|done|lia].
Qed.

Lemma members_length fs : (length fs <= length (members fs ++ [125%Z]))%nat.
Proof.
  induction fs as [|[k v] [|f fs] IH]; [cbn; lia|cbn [length]; rewrite length_app; cbn [length]; lia|].
  change (members ((k, v) :: f :: fs)) with (quoted (escaped k) ++ bytes ": " ++ jtext v ++ bytes ", " ++ members (f :: fs)).
  set (ms := members (f :: fs)) in *. unfold quoted. rewrite <- !app_assoc, !length_app in *. cbn [length] in *. lia.
Qed.

Lemma read_object_text fs : fs <> [] -> fields_valid fs -> read_object (object fs) = Some fs.
Proof. intros Hne Hv. unfold object. cbn [app read_object]. apply read_members_object; [done..|apply members_length]. Qed.

(** ** Reading HTTP *)

(** The bytes before the first line end, and those after it. *)
Fixpoint cut_line (l : list Z) : option (list Z * list Z) :=
  match l with
  | [] => None
  | c :: l' =>
      if is_prefix crlf l then Some ([], drop 2 l) else '(h, r) ← cut_line l'; Some (c :: h, r)
  end.

(** The header lines up to the empty one, and the body. *)
Fixpoint read_headers (fuel : nat) (l : list Z) : option (list (list Z) * list Z) :=
  match fuel with
  | O => None
  | S fuel =>
      '(h, r) ← cut_line l;
      match h with [] => Some ([], r) | _ => '(hs, b) ← read_headers fuel r; Some (h :: hs, b) end
  end.

Definition content_length (h : list Z) : option Z :=
  let name := bytes "Content-Length: " in
  if is_prefix name h then Some (undec (drop (length name) h)) else None.

(** A PUT request whose one content length is the length of its body: the
    target and the body. *)
Definition read_http (l : list Z) : option (list Z * list Z) :=
  '(first, r) ← cut_line l;
  '(hs, body) ← read_headers (length r) r;
  match QuestDBPublisher.split_on 32 first, omap content_length hs with
  | [m; target; v], [n] =>
      if bool_decide (m = bytes "PUT" /\ v = bytes "HTTP/1.1" /\ n = Z.of_nat (length body)) then Some (target, body) else None
  | _, _ => None
  end.

Lemma cut_line_app h r : 13 ∉ h -> cut_line (h ++ crlf ++ r) = Some (h, r).
Proof.
  induction h as [|c h IH]; intros Hn; [done|]. apply not_elem_of_cons in Hn as [Hc Hn]. cbn [app cut_line].
  unfold crlf at 1. cbn [is_prefix]. unfold CR. rewrite (proj2 (Z.eqb_neq 13 c)) by done. cbn [andb]. by rewrite IH.
Qed.

Lemma split_on_plain c l : c ∉ l -> QuestDBPublisher.split_on c l = [l].
Proof.
  induction l as [|x l IH]; intros Hn; [done|]. apply not_elem_of_cons in Hn as [Hc Hn]. cbn [QuestDBPublisher.split_on].
  by rewrite (proj2 (Z.eqb_neq x c)), IH by done.
Qed.

Lemma split_on_cut c l r : c ∉ l -> QuestDBPublisher.split_on c (l ++ c :: r) = l :: QuestDBPublisher.split_on c r.
Proof.
  induction l as [|x l IH]; intros Hn; cbn [app QuestDBPublisher.split_on]; [by rewrite Z.eqb_refl|].
  apply not_elem_of_cons in Hn as [Hc Hn]. by rewrite (proj2 (Z.eqb_neq x c)), IH by done.
Qed.

Lemma digits_not_in c l : digit c = false -> Forall (fun c => digit c = true) l -> c ∉ l.
Proof. intros Hc Hf Hin. rewrite Forall_forall in Hf. apply Hf in Hin. congruence. Qed.

Lemma read_headers_cons fuel h r : h <> [] -> 13 ∉ h ->
  read_headers (S fuel) (h ++ crlf ++ r) = '(hs, b) ← read_headers fuel r; Some (h :: hs, b).
Proof. intros Hh Hn. cbn [read_headers]. rewrite cut_line_app by done. cbn [mbind option_bind]. by destruct h. Qed.

Lemma read_headers_nil fuel r : read_headers (S fuel) ([] ++ crlf ++ r) = Some ([], r).
Proof. done. Qed.

(** A request read back. *)
Lemma read_request endpoint body : 13 ∉ endpoint -> 32 ∉ endpoint -> read_http (request_text endpoint body) = Some (endpoint, body).
Proof.
  intros H13 H32. unfold read_http, request_text.
  assert (H : forall (c : Z) (l : list Z), bool_decide (c ∈ l) = false -> c ∉ l) by (intros c l Hl; by apply bool_decide_eq_false_1 in Hl).
  replace (cut_line _) with (Some (bytes "PUT " ++ endpoint ++ bytes " HTTP/1.1",
    bytes "Host: localhost" ++ crlf ++ bytes "Accept: application/json" ++ crlf ++ bytes "Content-Type: application/json" ++ crlf ++
    (bytes "Content-Length: " ++ dec (Z.of_nat (length body))) ++ crlf ++ [] ++ crlf ++ body)).
  2:{ symmetry. rewrite <- (cut_line_app (bytes "PUT " ++ endpoint ++ bytes " HTTP/1.1")); [by rewrite <- !app_assoc|].
      rewrite !not_elem_of_app. split; [by apply H|]. split; [done|by apply H]. }
  cbn [mbind option_bind]. set (n := length _). assert (exists k, n = S (S (S (S (S k))))) as [k ->] by (eexists; reflexivity).
  do 3 (rewrite read_headers_cons; [|done|by apply H]). rewrite read_headers_cons; [|done|].
  2:{ rewrite not_elem_of_app. split; [by apply H|]. apply digits_not_in; [done|apply dec_digits]. }
  rewrite read_headers_nil. cbn [mbind option_bind].
  change (bytes "PUT " ++ endpoint ++ bytes " HTTP/1.1") with (bytes "PUT" ++ 32 :: (endpoint ++ 32 :: bytes "HTTP/1.1")).
  rewrite split_on_cut by by apply H. rewrite split_on_cut by done. rewrite split_on_plain by by apply H.
  match goal with |- context [omap content_length ?l] => change (omap content_length l) with [undec (dec (Z.of_nat (length body)))] end.
  rewrite undec_dec by lia. by rewrite bool_decide_true.
Qed.

(** ** The requests of a configuration *)

(** A request as its server reads it: the target and the members of the body. *)
Definition read_api (data : list Z) : option (list Z * list (list Z * jvalue)) :=
  '(target, body) ← read_http data; fs ← read_object body; Some (target, fs).

(** The requests among the events, each with its acceptance; [None] is a request
    the server cannot read. *)
Definition request_of (e : event) : option (option (list Z * list (list Z * jvalue)) * bool) :=
  match e with
  | E_request _ (Sent d _) ok => Some (read_api d, ok)
  | E_request _ _ ok => Some (None, ok)
  | _ => None
  end.
Definition requests (ev : list event) := omap request_of ev.

Lemma requests_app ev ev' : requests (ev ++ ev') = requests ev ++ requests ev'.
Proof. unfold requests. apply omap_app. Qed.

Lemma connect_no_request a : requests (connect_api_socket a).1 = [].
Proof. unfold connect_api_socket. by destruct (_ <? 0); [|destruct (_ <? 0)]. Qed.

Ltac literal_lengths :=
  repeat match goal with |- context [length (bytes ?s)] =>
    let n := eval vm_compute in (length (bytes s)) in change (length (bytes s)) with n end.

Lemma request_fits endpoint body : (length endpoint < 100)%nat -> (length body < 2000)%nat ->
  Z.of_nat (length (request_text endpoint body)) < 4096.
Proof.
  intros He Hb. unfold request_text. pose proof (dec_length (Z.of_nat (length body)) 20). rewrite !length_app. literal_lengths.
  change (length crlf) with 2%nat. lia.
Qed.

(** A target without blanks, and a body the server can read. *)
Lemma api_put_request m endpoint body a fs : (length endpoint < 100)%nat -> (length body < 2000)%nat ->
  13 ∉ endpoint -> 32 ∉ endpoint -> read_object body = Some fs ->
  let '(ev, ok) := api_put m endpoint body a in
  (requests ev = [] /\ ok = false) \/ requests ev = [(Some (endpoint, fs), ok)].
Proof.
  intros He Hb H13 H32 Hfs. unfold api_put. pose proof (connect_no_request a) as Hc.
  destruct (connect_api_socket a) as [ev fd]. cbn [fst] in Hc. destruct (fd <? 0); [by left|].
  rewrite snprintf_fits by by apply request_fits.
  right. rewrite requests_app, Hc. cbn [app]. unfold requests. cbn [omap list_omap request_of].
  rewrite send_first_all. unfold read_api. rewrite read_request by done. cbn [mbind option_bind]. by rewrite Hfs.
Qed.

(** The bodies are the objects of their fields. *)
Lemma boot_object k a : boot_json (escaped k) (escaped a) = object [(bytes "kernel_image_path", JStr k); (bytes "boot_args", JStr a)].
Proof. unfold boot_json, object, quoted, members, jtext, quoted. rewrite <- !app_assoc. reflexivity. Qed.
Lemma machine_object v n : machine_json v n = object [(bytes "vcpu_count", JNum v); (bytes "mem_size_mib", JNum n)].
Proof. unfold machine_json, object, quoted, members, jtext, quoted. rewrite <- !app_assoc. reflexivity. Qed.
Lemma drive_object r : drive_json (escaped r) =
  object [(bytes "drive_id", JStr (bytes "rootfs")); (bytes "path_on_host", JStr r);
          (bytes "is_root_device", JBool true); (bytes "is_read_only", JBool false)].
Proof. unfold drive_json, object, quoted, members, jtext, quoted. rewrite <- !app_assoc. reflexivity. Qed.
Lemma net_object mac tap : net_json (escaped mac) (escaped tap) =
  object [(bytes "iface_id", JStr (bytes "eth0")); (bytes "guest_mac", JStr mac); (bytes "host_dev_name", JStr tap)].
Proof. unfold net_json, object, quoted, members, jtext, quoted. rewrite <- !app_assoc. reflexivity. Qed.

Lemma ascii_bytes s : forallb (fun b => (0 <? b) && (b <? 128)) (bytes s) = true -> ascii (bytes s).
Proof. intros H. apply List.Forall_forall. intros b Hb. rewrite forallb_forall in H. apply H in Hb. bool_hyps. lia. Qed.

(** A configuration of plain text that fits the buffers. *)
Record config_ok (c : MicroVMConfig) (kernel rootfs : list Z) : Prop := {
  co_kernel : kernel_image_path c = Some kernel;
  co_rootfs : rootfs_path c = Some rootfs;
  co_ascii : ascii kernel /\ ascii rootfs /\ ascii (boot_args c) /\ ascii (guest_mac c);
  co_fit : (length (escaped kernel) <= 510 /\ length (escaped rootfs) <= 510 /\ length (escaped (boot_args c)) <= 510 /\
            length (escaped kernel) + length (escaped (boot_args c)) <= 981 /\ length (escaped (guest_mac c)) <= 62)%nat;
  co_tap : match tap_device c with Some tap => ascii tap /\ (length (escaped tap) <= 126)%nat | None => True end;
  co_numbers : 0 <= vcpu_count c < 2 ^ 32 /\ 0 <= mem_size_mib c < 2 ^ 64 }.

(** The requests the API expects for it, in order. *)
Definition expected (c : MicroVMConfig) (kernel rootfs : list Z) : list (list Z * list (list Z * jvalue)) :=
  [(bytes "/boot-source", [(bytes "kernel_image_path", JStr kernel); (bytes "boot_args", JStr (boot_args c))]);
   (bytes "/machine-config", [(bytes "vcpu_count", JNum (vcpu_count c)); (bytes "mem_size_mib", JNum (mem_size_mib c))]);
   (bytes "/drives/rootfs", [(bytes "drive_id", JStr (bytes "rootfs")); (bytes "path_on_host", JStr rootfs);
                             (bytes "is_root_device", JBool true); (bytes "is_read_only", JBool false)])].
Definition expected_net (c : MicroVMConfig) : list (list Z * list (list Z * jvalue)) :=
  match enable_network c, tap_device c with
  | true, Some tap => [(bytes "/network-interfaces/eth0",
      [(bytes "iface_id", JStr (bytes "eth0")); (bytes "guest_mac", JStr (guest_mac c)); (bytes "host_dev_name", JStr tap)])]
  | _, _ => []
  end.

Ltac plain_text :=
  unfold fields_valid;
  repeat match goal with
  | |- Forall _ (_ :: _) => apply Forall_cons_2
  | |- Forall _ [] => apply Forall_nil_2
  | |- _ /\ _ => split
  | |- ascii (bytes _) => apply ascii_bytes; reflexivity
  end; cbn [fst snd jvalid]; try (done || (apply ascii_bytes; reflexivity)).

(** A body printed into its buffer and put. *)
Lemma put_object m endpoint text size fs a : text = object fs -> fs <> [] -> fields_valid fs ->
  Z.of_nat (length text) < size -> size <= 1024 -> (length endpoint < 100)%nat -> 13 ∉ endpoint -> 32 ∉ endpoint ->
  let '(ev, ok) := api_put m endpoint (snprintf size text).1 a in
  (requests ev = [] /\ ok = false) \/ requests ev = [(Some (endpoint, fs), ok)].
Proof.
  intros -> Hne Hv Hs Hs' He H13 H32. rewrite snprintf_fits by done. cbn [fst].
  apply api_put_request; try done; [lia|]. by apply read_object_text.
Qed.

Lemma not_in_literal c s : bool_decide (c ∈ bytes s) = false -> c ∉ bytes s.
Proof. apply bool_decide_eq_false_1. Qed.

Section configured.
Context (m : t) (k : ConfigAnswers) (kernel rootfs : list Z) (Hc : config_ok (config_ m) kernel rootfs).

Lemma escape_fits size s : ascii s -> Z.of_nat (length (escaped s)) <= size - 2 -> json_escape size s = Some (escaped s).
Proof. intros Ha Hf. destruct (json_escape_ascii size s) as (out&->&_&E); [lia|done|]. by rewrite E. Qed.

Lemma boot_put : let '(ev, ok) := api_put m (bytes "/boot-source") (snprintf 1024 (boot_json (escaped kernel) (escaped (boot_args (config_ m))))).1 (a_boot k) in
  (requests ev = [] /\ ok = false) \/ requests ev = (fun r => (Some r, ok)) <$> take 1 (expected (config_ m) kernel rootfs).
Proof.
  destruct Hc as [_ _ (?&_&?&_) (?&?&?&?&_) _ _].  apply put_object; [apply boot_object|done|plain_text| |lia|literal_lengths; lia|by apply not_in_literal..].
  unfold boot_json, quoted. rewrite !length_app. literal_lengths. cbn [length]. lia.
Qed.

Lemma machine_put : let '(ev, ok) := api_put m (bytes "/machine-config") (snprintf 512 (machine_json (vcpu_count (config_ m)) (mem_size_mib (config_ m)))).1 (a_machine k) in
  (requests ev = [] /\ ok = false) \/ requests ev = (fun r => (Some r, ok)) <$> take 1 (drop 1 (expected (config_ m) kernel rootfs)).
Proof.
  destruct Hc as [_ _ _ _ _ [Hv Hn]].
  apply put_object; [apply machine_object|done|plain_text; lia| |lia|literal_lengths; lia|by apply not_in_literal..].
  pose proof (dec_length _ _ Hv). pose proof (dec_length _ _ Hn).
  unfold machine_json, quoted. rewrite !length_app. literal_lengths. cbn [length]. lia.
Qed.

Lemma drive_put : let '(ev, ok) := api_put m (bytes "/drives/rootfs") (snprintf 1024 (drive_json (escaped rootfs))).1 (a_drive k) in
  (requests ev = [] /\ ok = false) \/ requests ev = (fun r => (Some r, ok)) <$> take 1 (drop 2 (expected (config_ m) kernel rootfs)).
Proof.
  destruct Hc as [_ _ (_&?&_) (_&?&_) _ _]. apply put_object; [apply drive_object|done|plain_text| |lia|literal_lengths; lia|by apply not_in_literal..].
  unfold drive_json, quoted. rewrite !length_app. literal_lengths. cbn [length]. lia.
Qed.

Lemma net_put : exists ev ok, configure_net m (a_net k) = Some ev /\ (requests ev = [] \/ requests ev = (fun r => (Some r, ok)) <$> expected_net (config_ m)).
Proof.
  unfold configure_net, expected_net.  destruct Hc as [_ _ (_&_&_&?) (_&_&_&_&?) Ht _]. 
  destruct (enable_network (config_ m)); [|exists [], true; by split; [|left]]. destruct (tap_device (config_ m)) as [tap|]; [|exists [], true; by split; [|left]].
  destruct Ht as [? ?]. rewrite !escape_fits by (done || lia). cbn [mbind option_bind].
  pose proof (put_object m (bytes "/network-interfaces/eth0") (net_json (escaped (guest_mac (config_ m))) (escaped tap)) 512 _ (a_net k) (net_object _ _)) as Hp.
  destruct (api_put m _ _ (a_net k)) as [ev ok]. exists ev, ok. split; [done|]. cbn [fst].
  destruct Hp as [[? _]| ->]; [done|plain_text| |lia|literal_lengths; lia|by apply not_in_literal|by apply not_in_literal|by left|by right].
  unfold net_json, quoted. rewrite !length_app. literal_lengths. cbn [length]. lia.
Qed.
End configured.

(** C37: configuring a created machine with plain text that fits the buffers
    sends HTTP requests that a server reads, each with a body of the announced
    length that is a JSON object, as a prefix of boot source, machine, root
    drive and network interface with exactly the configured values; it returns
    true and becomes CONFIGURED only when the first three were accepted, and
    stays CREATED otherwise. *)
Theorem configure_requests m k kernel rootfs :
  state (status_ m) = CREATED -> config_ok (config_ m) kernel rootfs ->
  exists m' ev ok, configure m k = Some (m', ev, ok) /\
    (requests ev).*1 `prefix_of` (Some <$> expected (config_ m) kernel rootfs ++ expected_net (config_ m)) /\
    (if (ok : bool) then state (status_ m') = CONFIGURED /\
       take 3 (requests ev) = (fun r => (Some r, true)) <$> expected (config_ m) kernel rootfs
     else state (status_ m') = CREATED).
Proof.
  intros Hs Hc. pose proof (boot_put m k _ _ Hc) as H1. pose proof (machine_put m k _ _ Hc) as H2.
  pose proof (drive_put m k _ _ Hc) as H3. destruct (net_put m k _ _ Hc) as (ev4&okn&E4&H4).
  pose proof Hc as [Ek Er (?&?&?&_) (?&?&?&_&_) _ _].
  unfold configure. rewrite bool_decide_true, Ek, Er by done. cbn [negb]. rewrite !escape_fits by (done || lia). cbn [mbind option_bind].
  destruct (api_put m (bytes "/boot-source") _ _) as [ev1 ok1]. destruct (api_put m (bytes "/machine-config") _ _) as [ev2 ok2].
  destruct (api_put m (bytes "/drives/rootfs") _ _) as [ev3 ok3].
  destruct ok1; cbn [negb].
  2:{ do 3 eexists. split; [done|]. split; [|done]. by destruct H1 as [[-> _]| ->]; eexists. }
  destruct H1 as [[_ ?]|H1]; [done|]. destruct ok2; cbn [negb].
  2:{ do 3 eexists. split; [done|]. split; [|done]. rewrite requests_app, H1. by destruct H2 as [[-> _]| ->]; eexists. }
  destruct H2 as [[_ ?]|H2]; [done|]. destruct ok3; cbn [negb].
  2:{ do 3 eexists. split; [done|]. split; [|done]. rewrite !requests_app, H1, H2. by destruct H3 as [[-> _]| ->]; eexists. }
  destruct H3 as [[_ ?]|H3]; [done|]. rewrite E4. cbn [mbind option_bind]. do 3 eexists. split; [done|].
  rewrite !requests_app, H1, H2, H3. split; [|done]. unfold expected. generalize dependent (expected_net (config_ m)). intros en H4.
  destruct H4 as [-> | ->]; [by eexists|]. exists []. rewrite app_nil_r, !fmap_app, <- !list_fmap_compose. done.
Qed.

(** ** Life cycle *)

Inductive op :=
  | Op_create (config : MicroVMConfig) (k : CreateAnswer)
  | Op_configure (k : ConfigAnswers)
  | Op_start (a : ApiAnswer)
  | Op_stop (a : ApiAnswer)
  | Op_destroy (a : ApiAnswer).

(** The manager after an operation and the events; [None] when an escaped string
    leaves its buffer. *)
Definition exec (m : t) (o : op) : option (t * list event) :=
  match o with
  | Op_create c k => Some (create m c k).1
  | Op_configure k => r ← configure m k; Some r.1
  | Op_start a => Some (start m a).1
  | Op_stop a => Some (stop m a)
  | Op_destroy a => Some (destroy m a)
  end.

(** Managers reachable by any sequence of operations, with everything they did. *)
Inductive reach : t -> list event -> Prop :=
  | reach_init : reach FirecrackerManager.init []
  | reach_step m tr o m' ev : reach m tr -> exec m o = Some (m', ev) -> reach m' (tr ++ ev).

(** The texts of the accepted requests since the process was forked. *)
Definition note (acc : list (list Z)) (e : event) : list (list Z) :=
  match e with
  | E_fork _ _ => []
  | E_request _ (Sent d _) true => acc ++ [d]
  | E_request _ _ true => acc ++ [[]]
  | _ => acc
  end.
Definition since_fork (tr : list event) : list (list Z) := foldl note [] tr.

Lemma note_connect acc a : foldl note acc (connect_api_socket a).1 = acc.
Proof. unfold connect_api_socket. by destruct (_ <? 0); [|destruct (_ <? 0)]. Qed.

Lemma note_put m endpoint body a acc : (length endpoint < 100)%nat -> (length body < 2000)%nat ->
  let '(ev, ok) := api_put m endpoint body a in
  foldl note acc ev = acc ++ if ok then [request_text endpoint body] else [].
Proof.
  intros He Hb. unfold api_put. pose proof (note_connect acc a) as Hc. destruct (connect_api_socket a) as [ev fd]. cbn [fst] in Hc.
  destruct (fd <? 0); [by rewrite app_nil_r|]. rewrite snprintf_fits by by apply request_fits.
  rewrite foldl_app, Hc, send_first_all. cbn [foldl note]. match goal with |- context [if ?b then _ else _] => by destruct b; rewrite ?app_nil_r end.
Qed.

(** The log of a configured machine. *)
Definition configured_log (l : list (list Z)) : Prop := exists pre b1 b2 b3 net,
  l = pre ++ [request_text (bytes "/boot-source") b1; request_text (bytes "/machine-config") b2;
              request_text (bytes "/drives/rootfs") b3] ++ net /\
  (net = [] \/ exists b4, net = [request_text (bytes "/network-interfaces/eth0") b4]).
Definition start_request : list Z := request_text (bytes "/actions") (action_json (bytes "InstanceStart")).

Definition life_inv (m : t) (l : list (list Z)) : Prop :=
  match state (status_ m) with
  | CONFIGURED => configured_log l
  | RUNNING => exists l', configured_log l' /\ l = l' ++ [start_request]
  | _ => True
  end.

Lemma printed_short size text : 0 < size -> (length (snprintf size text).1 < Z.to_nat size)%nat.
Proof. intros H. unfold snprintf. cbn [fst]. rewrite length_take. lia. Qed.

(** A printed body put on a short target. *)
Lemma put_note m e size text a acc : (length (bytes e) < 100)%nat -> 0 < size <= 1024 ->
  let '(ev, ok) := api_put m (bytes e) (snprintf size text).1 a in
  foldl note acc ev = acc ++ if ok then [request_text (bytes e) (snprintf size text).1] else [].
Proof. intros He Hz. apply note_put; [done|]. pose proof (printed_short size text). lia. Qed.

Arguments put_note m e%_string_scope size text a acc.

Lemma net_note m a ev acc : configure_net m a = Some ev ->
  exists net, foldl note acc ev = acc ++ net /\ (net = [] \/ exists b4, net = [request_text (bytes "/network-interfaces/eth0") b4]).
Proof.
  unfold configure_net. intros E. assert (Hnil : Some [] = Some ev -> exists net, foldl note acc ev = acc ++ net /\
    (net = [] \/ exists b4, net = [request_text (bytes "/network-interfaces/eth0") b4])).
  { intros [= <-]. exists []. split; [by rewrite app_nil_r|by left]. }
  destruct (enable_network _); [|by apply Hnil]. destruct (tap_device _) as [tap|]; [|by apply Hnil]. clear Hnil.
  destruct (json_escape 64 _) as [mac|]; [|done]. destruct (json_escape 128 _) as [stap|]; [|done]. cbn [mbind option_bind] in E. injection E as <-.
  pose proof (put_note m "/network-interfaces/eth0" 512 (net_json mac stap) a acc) as H.
  destruct (api_put m _ _ a) as [ev ok]. cbn [fst]. eexists. split; [apply H; [literal_lengths; lia|lia]|].
  destruct ok; [right; by eexists|by left].
Qed.

Lemma configure_life m k m' ev ok l : configure m k = Some (m', ev, ok) -> life_inv m l -> life_inv m' (foldl note l ev).
Proof.
  intros E H. unfold configure in E. destruct (bool_decide (state (status_ m) = CREATED)) eqn:Es; cbn [negb] in E; [|by injection E as <- <- <-].
  apply bool_decide_eq_true in Es. assert (Hfail : forall e tr, life_inv (set_error m e) tr) by (intros; unfold life_inv; cbn; by rewrite Es).
  destruct (kernel_image_path _) as [kernel|]; [|by injection E as <- <- <-].
  destruct (rootfs_path _) as [rootfs|]; [|by injection E as <- <- <-].
  destruct (json_escape 512 kernel) as [sk|]; [|done]. destruct (json_escape 512 rootfs) as [sr|]; [|done].
  destruct (json_escape 512 (boot_args _)) as [sa|]; [|done]. cbn [mbind option_bind] in E.
  pose proof (fun acc => put_note m "/boot-source" 1024 (boot_json sk sa) (a_boot k) acc) as H1.
  destruct (api_put m (bytes "/boot-source") _ _) as [ev1 [|]]; cbn [negb] in E; [|injection E as <- <- <-; apply Hfail].
  pose proof (fun acc => put_note m "/machine-config" 512 (machine_json (vcpu_count (config_ m)) (mem_size_mib (config_ m))) (a_machine k) acc) as H2.
  destruct (api_put m (bytes "/machine-config") _ _) as [ev2 [|]]; cbn [negb] in E; [|injection E as <- <- <-; apply Hfail].
  pose proof (fun acc => put_note m "/drives/rootfs" 1024 (drive_json sr) (a_drive k) acc) as H3.
  destruct (api_put m (bytes "/drives/rootfs") _ _) as [ev3 [|]]; cbn [negb] in E; [|injection E as <- <- <-; apply Hfail].
  destruct (configure_net m (a_net k)) as [ev4|] eqn:E4; [|done]. cbn [mbind option_bind] in E. injection E as <- <- <-.
  unfold life_inv. cbn [set_state with_status status_ state]. rewrite !foldl_app, H1, H2, H3 by (literal_lengths; lia).
  match goal with |- context [foldl note ?acc ev4] => destruct (net_note m (a_net k) ev4 acc E4) as (net&->&Hnet) end. rewrite <- !app_assoc.
  unfold configured_log. exists l. do 3 eexists. exists net. split; [reflexivity|done].
Qed.

Lemma stop_life m a l : life_inv m l -> let '(m', ev) := stop m a in life_inv m' (foldl note l ev).
Proof. intros H. unfold stop. by destruct (bool_decide _). Qed.

Lemma destroy_life m a l : life_inv m l -> let '(m', ev) := destroy m a in life_inv m' (foldl note l ev).
Proof.
  intros H. unfold destroy. pose proof (stop_life m a l H) as Hs. destruct (stop m a) as [m1 ev1].
  destruct (0 <=? api_socket_fd _).
  all: destruct (0 <? firecracker_pid _); destruct (socket_path _); rewrite ?foldl_app; exact Hs.
Qed.

Lemma exec_life m o m' ev l : exec m o = Some (m', ev) -> life_inv m l -> life_inv m' (foldl note l ev).
Proof.
  destruct o as [c k|k|a|a|a]; cbn [exec]; intros E H.
  - injection E as E. unfold create in E. destruct (fork_pid k) as [pid|]; [|by injection E as <- <-].
    destruct (negb _); [by injection E as <- <-|]. destruct (connect_api_socket _) as [ev' fd]. by destruct (fd <? 0); injection E as <- <-.
  - destruct (configure m k) as [[[m1 ev1] ok]|] eqn:Ec; [|done]. injection E as <- <-. by eapply configure_life.
  - injection E as E. unfold start in E. destruct (bool_decide _) eqn:Es; cbn [negb] in E; [|by injection E as <- <-].
    apply bool_decide_eq_true in Es. pose proof (note_put m (bytes "/actions") (action_json (bytes "InstanceStart")) a l) as Hp.
    destruct (api_put m _ _ a) as [ev1 ok]. specialize (Hp ltac:(vm_compute; lia) ltac:(vm_compute; lia)). unfold life_inv in H. rewrite Es in H.
    destruct ok; injection E as <- <-; unfold life_inv; cbn; rewrite ?Es, Hp; [by exists l|by rewrite app_nil_r].
  - injection E as E. pose proof (stop_life m a l H) as Hs. by rewrite E in Hs.
  - injection E as E. pose proof (destroy_life m a l H) as Hs. by rewrite E in Hs.
Qed.

Lemma reach_life m tr : reach m tr -> life_inv m (since_fork tr).
Proof. induction 1 as [|m tr o m' ev _ IH E]; [done|]. unfold since_fork. rewrite foldl_app. by eapply exec_life. Qed.

(** C38: a manager that has gone through any sequence of operations is RUNNING
    only if, since its process was forked, the API accepted a boot source, a
    machine configuration and a root drive in this order, then at most the
    network interface, and the start request last. *)
Theorem running_was_configured m tr : reach m tr -> state (status_ m) = RUNNING ->
  exists pre b1 b2 b3 net,
    since_fork tr = pre ++ [request_text (bytes "/boot-source") b1; request_text (bytes "/machine-config") b2;
                            request_text (bytes "/drives/rootfs") b3] ++ net ++ [start_request] /\
    (net = [] \/ exists b4, net = [request_text (bytes "/network-interfaces/eth0") b4]).
Proof.
  intros Hr Hs. pose proof (reach_life m tr Hr) as H. unfold life_inv in H. rewrite Hs in H.
  destruct H as (l&(pre&b1&b2&b3&net&->&Hn)&->). exists pre, b1, b2, b3, net. by rewrite <- !app_assoc.
Qed.

(** ** The end of a machine *)

(** Same process and same socket. *)
Definition same_vm (m m' : t) : Prop :=
  firecracker_pid (status_ m') = firecracker_pid (status_ m) /\ socket_path (status_ m') = socket_path (status_ m).

Lemma configure_same m k m' ev ok : configure m k = Some (m', ev, ok) -> same_vm m m'.
Proof.
  intros E. unfold configure in E. destruct (negb _); [by injection E as <- <- <-|].
  destruct (kernel_image_path _) as [kernel|]; [|by injection E as <- <- <-].
  destruct (rootfs_path _) as [rootfs|]; [|by injection E as <- <- <-].
  destruct (json_escape 512 kernel); [|done]. destruct (json_escape 512 rootfs); [|done].
  destruct (json_escape 512 (boot_args _)); [cbn [mbind option_bind] in E|done].
  do 3 (destruct (api_put _ _ _ _) as [? []]; cbn [negb] in E; [|by injection E as <- <- <-]).
  destruct (configure_net _ _); [|done]. by injection E as <- <- <-.
Qed.

Lemma start_same m a : same_vm m (start m a).1.1.
Proof. unfold start. destruct (negb _); [done|]. destruct (api_put _ _ _ _) as [? []]; done. Qed.

Definition reaped (pid : Z) (path : list Z) : list event :=
  [E_kill pid SIGTERM; E_waitpid pid; E_kill pid SIGKILL; E_waitpid pid; E_unlink path].

Lemma destroy_reaps m a : 0 < firecracker_pid (status_ m) -> socket_path (status_ m) <> [] ->
  exists pre, (destroy m a).2 = pre ++ reaped (firecracker_pid (status_ m)) (socket_path (status_ m)).
Proof.
  intros Hp Hs. unfold destroy. assert (H : same_vm m (stop m a).1) by (unfold stop; by destruct (bool_decide _)).
  destruct (stop m a) as [m1 ev1]. destruct H as [H1 H2]. cbn [fst] in H1, H2. rewrite <- H1 in Hp |- *. rewrite <- H2 in Hs |- *.
  destruct (0 <=? api_socket_fd _); cbn [set_fd with_status status_ firecracker_pid socket_path].
  all: rewrite (proj2 (Z.ltb_lt 0 _)) by done; cbn [set_pid set_fd with_status status_ firecracker_pid socket_path].
  all: destruct (socket_path (status_ m1)); [done|]; cbn [snd].
  - eexists (ev1 ++ [E_close _]). by rewrite <- !app_assoc.
  - exists ev1. by rewrite <- !app_assoc.
Qed.

Lemma create_vm m c k pid : fork_pid k = Some pid -> let '(m', ev, ok) := create m c k in
  firecracker_pid (status_ m') = pid /\ socket_path (status_ m') <> [].
Proof.
  intros Hf. unfold create. rewrite Hf. assert (Hp : (snprintf 256 (bytes "/tmp/firecracker_" ++ dec (self_pid k) ++ bytes ".sock")).1 <> []) by done.
  destruct (negb _); [done|]. destruct (connect_api_socket _) as [ev' fd]. by destruct (fd <? 0).
Qed.

Lemma block_reaps copy kernel rootfs binary k ev r pid :
  k_copy k = 0 -> fork_pid (k_create k) = Some pid -> 0 < pid ->
  boot_block copy kernel rootfs binary k = Some (ev, r) ->
  exists pre path, ev = pre ++ (B_vm <$> reaped pid path) /\
    match r with inl _ => True | inr q => q = pid end.
Proof.
  intros Hcp Hf Hpid E. unfold boot_block in E. rewrite Hcp in E. cbn [Z.eqb negb] in E.
  pose proof (create_vm FirecrackerManager.init (vm_config kernel copy) _ _ Hf) as Hc.
  destruct (create _ _ _) as [[m e1] ok1]. destruct Hc as [Hp Hs].
  assert (Hd : forall m' pre, same_vm m m' -> exists pre' path, 
    pre ++ (B_vm <$> (destroy m' (k_destroy k)).2) = pre' ++ (B_vm <$> reaped pid path)).
  { intros m' pre [H1 H2]. destruct (destroy_reaps m' (k_destroy k)) as [pre' ->]; [rewrite H1; lia|by rewrite H2|].
    rewrite fmap_app, app_assoc, H1, Hp. by do 2 eexists. }
  assert (Hfin : forall m' pre (res : boot_failure + Z), same_vm m m' -> match res with inl _ => True | inr q => q = pid end ->
    Some (pre ++ (B_vm <$> (destroy m' (k_destroy k)).2), res) = Some (ev, r) ->
    exists pre path, ev = pre ++ (B_vm <$> reaped pid path) /\ match r with inl _ => True | inr q => q = pid end).
  { intros m' pre res Hm Hres [= <- <-]. destruct (Hd m' pre Hm) as (p'&path&->). by exists p', path. }
  destruct ok1; cbn [negb] in E; [|by eapply (Hfin m); [| |exact E]].
  destruct (configure m (k_config k)) as [[[m2 e2] ok2]|] eqn:E2; [|done]. cbn [mbind option_bind] in E.
  pose proof (configure_same _ _ _ _ _ E2) as [H1 H2]. destruct ok2; cbn [negb] in E; [|by eapply (Hfin m2); [| |exact E]].
  destruct (start_same m2 (k_start k)) as [H3 H4]. destruct (start m2 (k_start k)) as [[m3 e3] ok3]. cbn [fst] in *.
  assert (Hm3 : same_vm m m3) by (split; congruence). destruct ok3; cbn [negb] in E; [|by eapply (Hfin m3); [| |exact E]].
  eapply (Hfin m3); [done| |exact E]. destruct Hm3. congruence.
Qed.

(** however the boot of a contestant's machine ends, in a match and in the
    system tests, its process has been killed and waited for when the boot is
    over; in particular the process handed on as the contestant is the one that
    was just killed. *)
Theorem vm_gone_after_boot contestant scenario_id kernel rootfs binary k pid :
  k_copy k = 0 -> fork_pid (k_create k) = Some pid -> 0 < pid ->
  (forall ev r, boot_vm contestant kernel rootfs binary k = Some (ev, r) ->
     exists pre path, ev = pre ++ (B_vm <$> reaped pid path) /\ match r with inl _ => True | inr q => q = pid end) /\
  (forall ev r, boot_systest scenario_id kernel rootfs binary k = Some (ev, r) ->
     exists pre path, ev = pre ++ (B_vm <$> reaped pid path) /\ match r with None => True | Some q => q = pid end).
Proof.
  intros Hcp Hf Hpid. split; intros ev r E.
  - unfold boot_vm in E. destruct (boot_block _ _ _ _ k) as [[ev' r']|] eqn:Eb; [|done]. cbn [mbind option_bind] in E. injection E as <- <-.
    destruct (block_reaps _ _ _ _ _ _ _ _ Hcp Hf Hpid Eb) as (pre&path&->&H). exists pre, path. by destruct r'.
  - unfold boot_systest in E. destruct (boot_block _ _ _ _ k) as [[ev' r']|] eqn:Eb; [|done]. cbn [mbind option_bind] in E. injection E as <- <-.
    destruct (block_reaps _ _ _ _ _ _ _ _ Hcp Hf Hpid Eb) as (pre&path&->&H). exists pre, path. by destruct r'.
Qed.

(** Plain text is escaped within the buffer and read back as it was while it
    fits; a byte above 127 near the end of the buffer stores the terminator
    behind it, and elsewhere it is read back as other characters. *)
Lemma json_escape_roundtrip dst_size src : 0 < dst_size -> ascii src ->
  exists out, json_escape dst_size src = Some out /\ Z.of_nat (length out) < dst_size /\
    (Z.of_nat (length (escaped src)) <= dst_size - 2 -> forall rest, read_string (out ++ [34] ++ rest) = Some (src, rest)).
Proof.
  intros Hd Ha. destruct (json_escape_ascii dst_size src Hd Ha) as (out&E&Hl&Hf). exists out. split; [done|]. split; [done|].
  intros Hfit rest. rewrite (Hf Hfit). by apply read_escaped.
Qed.

Example json_escape_overflow : json_escape 512 (replicate 505 97 ++ [195; 169]) = None.
Proof. vm_compute. reflexivity. Qed.

Example json_escape_misread :
  json_escape 512 [195; 169] = Some (bytes "\uffffffc3\uffffffa9") /\
  read_string (bytes "\uffffffc3\uffffffa9" ++ [34]) <> Some ([195; 169], []).
Proof. split; [vm_compute; reflexivity|]. vm_compute. discriminate. Qed.

(** ** A machine that boots *)

Definition demo_answer (endpoint body : list Z) : ApiAnswer :=
  {| a_socket := 5; a_connect := 0; a_sent := Z.of_nat (length (request_text endpoint body));
     a_response := Some (bytes "HTTP/1.1 204 No Content") |}.
Definition demo_create : CreateAnswer :=
  {| self_pid := 42; fork_pid := Some 43; errno_text := []; access := fun i => Nat.leb 5 i; c_api := demo_answer [] [] |}.
Definition demo_kernel : list Z := bytes "/opt/vm linux".
Definition demo_rootfs : list Z := bytes "/tmp/ada " ++ quoted (bytes "x") ++ bytes ".ext4".
Definition demo_config : MicroVMConfig := vm_config demo_kernel demo_rootfs.
Definition demo_answers (rootfs : list Z) : ConfigAnswers :=
  {| a_boot := demo_answer (bytes "/boot-source") (boot_json (escaped demo_kernel) (boot_args demo_config));
     a_machine := demo_answer (bytes "/machine-config") (machine_json 2 256);
     a_drive := demo_answer (bytes "/drives/rootfs") (drive_json (escaped rootfs)); a_net := demo_answer [] [] |}.
Definition demo_start : ApiAnswer := demo_answer (bytes "/actions") (action_json (bytes "InstanceStart")).
Definition demo_created : t := (create FirecrackerManager.init demo_config demo_create).1.1.

Lemma demo_config_ok : config_ok demo_config demo_kernel demo_rootfs.
Proof.
  assert (Ha : forall l, forallb (fun b => (0 <? b) && (b <? 128)) l = true -> ascii l).
  { intros l H. apply List.Forall_forall. intros b Hb. rewrite forallb_forall in H. apply H in Hb. bool_hyps. lia. }
  split; try done; [repeat split; by apply Ha|vm_compute; lia].
Qed.

Lemma configure_requests_witness :
  (exists m' ev, configure demo_created (demo_answers demo_rootfs) = Some (m', ev, true) /\
     requests ev = (fun r => (Some r, true)) <$> expected demo_config demo_kernel demo_rootfs) /\
  exists m' ev ok, configure demo_created (demo_answers demo_rootfs) = Some (m', ev, ok) /\
    (requests ev).*1 `prefix_of` (Some <$> expected (config_ demo_created) demo_kernel demo_rootfs ++ expected_net (config_ demo_created)).
Proof.
  split; [do 2 eexists; split; vm_compute; reflexivity|].
  destruct (configure_requests demo_created (demo_answers demo_rootfs) demo_kernel demo_rootfs) as (m'&ev&ok&H1&H2&_).
  - reflexivity.
  - exact demo_config_ok.
  - exists m', ev, ok. split; [exact H1|exact H2].
Defined.

Definition demo_ops : list op := [Op_create demo_config demo_create; Op_configure (demo_answers demo_rootfs); Op_start demo_start].
Definition run_ops (ops : list op) : option (t * list event) :=
  foldl (fun acc o => '(m, tr) ← acc; '(m', ev) ← exec m o; Some (m', tr ++ ev)) (Some (FirecrackerManager.init, [])) ops.

Lemma run_ops_reach ops m tr : run_ops ops = Some (m, tr) -> reach m tr.
Proof.
  unfold run_ops. revert m tr. induction ops as [|o ops IH] using rev_ind; intros m tr H; [injection H as <- <-; constructor|].
  rewrite foldl_app in H. cbn [foldl] in H. destruct (foldl _ _ ops) as [[m1 tr1]|]; [|done]. cbn [mbind option_bind] in H.
  destruct (exec m1 o) as [[m' ev]|] eqn:E; [|done]. cbn [mbind option_bind] in H. injection H as <- <-. eapply reach_step; [by apply IH|done].
Qed.

Definition demo_end : t * list event := default (FirecrackerManager.init, []) (run_ops demo_ops).

Lemma running_was_configured_witness :
  state (status_ demo_end.1) = RUNNING /\ length (since_fork demo_end.2) = 4%nat /\
  exists pre b1 b2 b3 net,
    since_fork demo_end.2 = pre ++ [request_text (bytes "/boot-source") b1; request_text (bytes "/machine-config") b2;
                                    request_text (bytes "/drives/rootfs") b3] ++ net ++ [start_request].
Proof.
  split; [vm_compute; reflexivity|]. split; [vm_compute; reflexivity|].
  destruct (running_was_configured demo_end.1 demo_end.2) as (pre&b1&b2&b3&net&H&_).
  - apply (run_ops_reach demo_ops). vm_compute. reflexivity.
  - vm_compute. reflexivity.
  - by exists pre, b1, b2, b3, net.
Defined.

Definition demo_boot : BootAnswers :=
  {| k_copy := 0; k_create := demo_create; k_config := demo_answers (rootfs_copy (bytes "ada")); k_start := demo_start;
     k_destroy := demo_answer [] [] |}.
Definition demo_booted : list boot_event * (list Z + Z) :=
  default ([], inl []) (boot_vm (bytes "ada") demo_kernel (bytes "/opt/rootfs.ext4") (bytes "/tmp/contestant") demo_boot).

Lemma vm_gone_after_boot_witness : demo_booted.2 = inr 43 /\
  exists pre path, demo_booted.1 = pre ++ (B_vm <$> reaped 43 path).
Proof.
  split; [vm_compute; reflexivity|].
  destruct (vm_gone_after_boot (bytes "ada") 3 demo_kernel (bytes "/opt/rootfs.ext4") (bytes "/tmp/contestant") demo_boot 43)
    as [H _]; [reflexivity|reflexivity|lia|].
  destruct (H demo_booted.1 demo_booted.2) as (pre&path&E&_); [vm_compute; reflexivity|].
  by exists pre, path.
Defined.
