(* ===== verification/Compiler.v ===== *)
(** The compiler service (src/sandbox/include/sandbox/compiler_service.hpp) and
    the build step of the contest runner
    (src/orchestrator/include/orchestrator/contest_runner.hpp).  What the shell
    prints and how it ends are arguments; the theorems read the command with the
    quoting rules of the shell. *)

From S2P Require Import Prelude Xorshift Text.
From Stdlib Require Import SpecFloat.
From Stdlib Require String Ascii.
Import String.StringSyntax.

Record CompileConfig := {
  source_path : option (list Z); output_path : option (list Z); sdk_include : option (list Z); docker_image : list Z;
  timeout_secs : Z; use_docker : bool }.

Record CompileResult := { success : bool; exit_code : Z; error : list Z; compile_secs : spec_float }.

(** [CompileResult result{}]. *)
Definition no_result : CompileResult := {| success := false; exit_code := -1; error := []; compile_secs := S754_zero false |}.
Definition with_error (r : CompileResult) (e : list Z) : CompileResult :=
  {| success := success r; exit_code := exit_code r; error := e; compile_secs := compile_secs r |}.

(** [%d]. *)
Definition show_int (n : Z) : list Z := if n <? 0 then [45] ++ dec (- n) else dec n.

(** [n += snprintf(buf + n, size - n, ...)] on a buffer that holds the string
    [cur]; [None] when [buf + n] is behind the buffer. *)
Definition append_text (size : Z) (st : list Z * Z) (text : list Z) : option (list Z * Z) :=
  let '(cur, n) := st in
  if size <? n then None else Some (take (Z.to_nat (size - 1)) (cur ++ text), n + Z.of_nat (length text)).

(** [Inside single quotes]. *)
Definition in_quotes (s : list Z) : list Z := [39] ++ s ++ [39].

(** What [popen] gives: the error text, or the output of the command and the
    status of [pclose]. *)
Definition Pipe : Type := list Z + (list Z * Z).

Module CompilerService.

Definition strategy_main (sdk : list Z) : list Z := (snprintf 1024 (sdk ++ bytes "/../src/strategy_main.cpp")).1.

(** The command of [compile_host]; [None] when it is printed past its buffer. *)
Definition host_command (cfg : CompileConfig) (out src : list Z) : option (list Z) :=
  let st := snprintf 4096 (bytes "timeout " ++ show_int (timeout_secs cfg) ++ bytes " g++ -std=c++23 -O2 -march=native " ++
    bytes "-Wall " ++ bytes "-o " ++ in_quotes out ++ bytes " " ++ in_quotes src) in
  st ← match sdk_include cfg with
       | Some sdk =>
           st ← append_text 4096 st (bytes " " ++ in_quotes (strategy_main sdk));
           append_text 4096 st (bytes " -I" ++ in_quotes sdk)
       | None => Some st
       end;
  st ← append_text 4096 st (bytes " -lpthread");
  Some (snprintf 4200 (st.1 ++ bytes " 2>&1")).1.

Definition docker_command (cfg : CompileConfig) (out src : list Z) : list Z :=
  (snprintf 4096 (bytes "timeout " ++ show_int (timeout_secs cfg) ++ bytes " docker run --rm " ++
    bytes "-v " ++ in_quotes (src ++ bytes ":/src/contestant.cpp:ro") ++ bytes " " ++
    bytes "-v " ++ in_quotes (default (bytes "/dev/null") (sdk_include cfg) ++ bytes ":/sdk/include:ro") ++ bytes " " ++
    bytes "-v " ++ in_quotes (out ++ bytes ":/out") ++ bytes " " ++ docker_image cfg ++ bytes " " ++
    bytes "sh -c " ++ in_quotes (bytes "g++ -std=c++20 -O2 -march=x86-64-v3 -static -Wall -Werror " ++
      bytes "-I/sdk/include -o /out/contestant /src/contestant.cpp") ++ bytes " 2>&1")).1.

(** What successive calls of [fgets] with 256 bytes read: up to a line end or 255
    bytes. *)
Fixpoint chunks (room : nat) (cur l : list Z) : list (list Z) :=
  match l with
  | [] => match cur with [] => [] | _ => [cur] end
  | c :: l =>
      match room with
      | S (S _ as room) => if c =? LF then (cur ++ [c]) :: chunks 255 [] l else chunks room (cur ++ [c]) l
      | _ => (cur ++ [c]) :: chunks 255 [] l
      end
  end.

(** The loop that captures the output. *)
Definition take_chunk (err buf : list Z) : list Z :=
  let s := c_string buf in
  if Z.of_nat (length err) + Z.of_nat (length s) <? 4096 - 1 then err ++ s else err.
Definition capture (output : list Z) : list Z := foldl take_chunk [] (chunks 255 [] output).

(** [WIFEXITED] and [WEXITSTATUS]. *)
Definition exit_of (status : Z) : Z :=
  if Z.land status 127 =? 0 then Z.land (Z.shiftr status 8) 255 else -1.

(** The part the two ways of compiling share: run the command and collect. *)
Definition run_command (pipe : Pipe) : CompileResult :=
  match pipe with
  | inl e => with_error no_result (snprintf 4096 (bytes "popen failed: " ++ e)).1
  | inr (output, status) =>
      {| success := exit_of status =? 0; exit_code := exit_of status; error := capture output; compile_secs := S754_zero false |}
  end.

(** The command handed to the shell, and the result for what it answers. *)
Definition compile_host (cfg : CompileConfig) (out src : list Z) (pipe : list Z -> Pipe) : option (list Z * CompileResult) :=
  cmd ← host_command cfg out src; Some (cmd, run_command (pipe cmd)).
Definition compile_docker (cfg : CompileConfig) (out src : list Z) (pipe : list Z -> Pipe) : list Z * CompileResult :=
  let cmd := docker_command cfg out src in (cmd, run_command (pipe cmd)).

(** [compile]; the command is absent when none is run. *)
Definition compile (cfg : CompileConfig) (pipe : list Z -> Pipe) (elapsed_ns : Z) : option (option (list Z) * CompileResult) :=
  match source_path cfg, output_path cfg with
  | Some src, Some out =>
      '(cmd, r) ← (if use_docker cfg then Some (compile_docker cfg out src pipe) else compile_host cfg out src pipe);
      Some (Some cmd, {| success := success r; exit_code := exit_code r; error := error r;
                         compile_secs := F64.div (F64.of_Z elapsed_ns) (F64.of_Z 1000000000) |})
  | _, _ => Some (None, with_error no_result (bytes "source_path and output_path required"))
  end.

End CompilerService.

(** ** The build step of a match *)

Import CompilerService.

Record MatchSources := {
  prebuilt_binary : option (list Z); mc_source_path : option (list Z); sdk_include_path : option (list Z); use_docker_compile : bool }.

Definition match_config (cfg : MatchSources) : CompileConfig :=
  {| source_path := mc_source_path cfg; output_path := Some (bytes "/tmp/iicpc_contestant_bin"); sdk_include := sdk_include_path cfg;
     docker_image := bytes "iicpc-compiler"; timeout_secs := 30; use_docker := use_docker_compile cfg |}.

(** What the build leaves: the command, if one was run, the members [compiled]
    and [compile_time_secs] of the match result, and the binary the match runs,
    absent after a failed compilation. *)
Record Build := { b_command : option (list Z); b_compiled : bool; b_secs : spec_float; b_binary : option (list Z) }.
Definition build_contestant (cfg : MatchSources) (pipe : list Z -> Pipe) (elapsed_ns : Z) : option Build :=
  match prebuilt_binary cfg with
  | Some b => Some {| b_command := None; b_compiled := true; b_secs := S754_zero false; b_binary := Some b |}
  | None =>
      '(cmd, cr) ← compile (match_config cfg) pipe elapsed_ns;
      Some {| b_command := cmd; b_compiled := success cr; b_secs := compile_secs cr;
              b_binary := if success cr then output_path (match_config cfg) else None |}
  end.

(** ** The captured output *)

Lemma chunks_concat l : forall room cur, mjoin (chunks room cur l) = cur ++ l.
Proof.
  induction l as [|c l IH]; intros room cur; cbn [chunks]; [by destruct cur; cbn; rewrite ?app_nil_r|].
  assert (H : mjoin ((cur ++ [c]) :: chunks 255 [] l) = cur ++ c :: l).
  { change (mjoin ((cur ++ [c]) :: chunks 255 [] l)) with ((cur ++ [c]) ++ mjoin (chunks 255 [] l)). rewrite IH, <- app_assoc. done. }
  destruct room as [|[|room]]; [done..|]. destruct (c =? LF); [done|]. rewrite IH, <- app_assoc. done.
Qed.

Lemma c_string_id l : 0 ∉ l -> c_string l = l.
Proof.
  induction l as [|c l IH]; intros H; cbn [c_string]; [done|]. apply not_elem_of_cons in H as [Hc H].
  by rewrite (proj2 (Z.eqb_neq c 0)), IH by done.
Qed.

Lemma c_string_length l : (length (c_string l) <= length l)%nat.
Proof. induction l as [|c l IH]; cbn [c_string]; [done|]. destruct (c =? 0); cbn [length]; lia. Qed.

Lemma capture_bound output : Z.of_nat (length (capture output)) < 4095.
Proof.
  unfold capture. assert (H : forall ls err, Z.of_nat (length err) < 4095 -> Z.of_nat (length (foldl take_chunk err ls)) < 4095); [|by apply H].
  induction ls as [|l ls IH]; intros err He; cbn [foldl]; [done|]. apply IH. unfold take_chunk.
  destruct (Z.ltb_spec (Z.of_nat (length err) + Z.of_nat (length (c_string l))) (4096 - 1)); [rewrite length_app; lia|done].
Qed.

Lemma capture_all output : 0 ∉ output -> Z.of_nat (length output) < 4095 -> capture output = output.
Proof.
  intros H0 Hl. unfold capture. pose proof (chunks_concat output 255 []) as E. cbn [app] in E.
  rewrite <- E in H0, Hl. rewrite <- E at 2. clear E. generalize dependent (chunks 255 [] output). intros ls H0 Hl.
  assert (H : forall err, 0 ∉ mjoin ls -> Z.of_nat (length err) + Z.of_nat (length (mjoin ls)) < 4095 -> foldl take_chunk err ls = err ++ mjoin ls).
  2:{ apply (H []); [done|cbn [length]; lia]. }
  clear H0 Hl. induction ls as [|l ls IH]; intros err H0 Hl; cbn [foldl]; [by rewrite app_nil_r|].
  change (mjoin (l :: ls)) with (l ++ mjoin ls) in *. apply not_elem_of_app in H0 as [H0 H0']. rewrite length_app in Hl.
  unfold take_chunk at 2. rewrite c_string_id, (proj2 (Z.ltb_lt _ _)), IH, app_assoc by (try done; rewrite ?length_app; lia). done.
Qed.

(** Exit code 0: the low seven bits, the terminating signal, and the second byte
    of the status are zero. *)
Lemma exit_zero status : exit_of status = 0 <-> status mod 128 = 0 /\ status / 256 mod 256 = 0.
Proof.
  unfold exit_of. change 127 with (2 ^ 7 - 1). change 255 with (2 ^ 8 - 1). rewrite !land_mask, Z.shiftr_div_pow2 by lia.
  change (2 ^ 7) with 128. change (2 ^ 8) with 256. destruct (Z.eqb_spec (status mod 128) 0); lia.
Qed.

(** ** The words of a shell command *)

(** Characters that stand for themselves outside quotes. *)
Definition plain (c : Z) : bool :=
  digit c || ((65 <=? c) && (c <=? 90)) || ((97 <=? c) && (c <=? 122)) || bool_decide (c ∈ bytes "-_./=+:,").

(** The word being read. *)
Definition so_far (cur : option (list Z)) : list Z := match cur with Some w => w | None => [] end.

(** Words are cut at blanks; single quotes keep everything up to the next quote;
    other characters would have a meaning of their own. *)
Fixpoint sh_words (quoted : bool) (cur : option (list Z)) (l : list Z) : option (list (list Z)) :=
  match l with
  | [] => if quoted then None else Some (match cur with Some w => [w] | None => [] end)
  | c :: l =>
      if quoted then if c =? 39 then sh_words false cur l else sh_words true (Some (so_far cur ++ [c])) l
      else if c =? 39 then sh_words true (Some (so_far cur)) l
      else if c =? 32 then
        match cur with Some w => ws ← sh_words false None l; Some (w :: ws) | None => sh_words false None l end
      else if plain c then sh_words false (Some (so_far cur ++ [c])) l else None
  end.

(** A word is written in plain and quoted pieces. *)
Inductive piece := Plain (w : list Z) | Quoted (w : list Z).
Definition piece_text (p : piece) : list Z := match p with Plain w => w | Quoted w => in_quotes w end.
Definition piece_word (p : piece) : list Z := match p with Plain w | Quoted w => w end.
Definition piece_ok (p : piece) : Prop :=
  match p with Plain w => Forall (fun c => plain c = true) w /\ w <> [] | Quoted w => 39 ∉ w end.

Fixpoint render (ws : list (list piece)) : list Z :=
  match ws with
  | [] => []
  | [w] => mjoin (piece_text <$> w)
  | w :: ws => mjoin (piece_text <$> w) ++ [32] ++ render ws
  end.

Lemma plain_not c : plain c = true -> c <> 39 /\ c <> 32.
Proof. intros H. split; intros ->; by vm_compute in H. Qed.

Lemma sh_plain w l : Forall (fun c => plain c = true) w -> forall cur, w <> [] ->
  sh_words false cur (w ++ l) = sh_words false (Some (so_far cur ++ w)) l.
Proof.
  induction 1 as [|c w Hc _ IH]; intros cur Hne; [done|]. cbn [app sh_words]. destruct (plain_not c Hc) as [H1 H2].
  rewrite (proj2 (Z.eqb_neq c 39)), (proj2 (Z.eqb_neq c 32)), Hc by done.
  destruct w as [|c' w]; [done|]. rewrite IH by done. cbn [so_far]. by rewrite <- app_assoc.
Qed.

Lemma sh_quoted_body w l cur : 39 ∉ w -> sh_words true (Some cur) (w ++ [39] ++ l) = sh_words false (Some (cur ++ w)) l.
Proof.
  revert cur. induction w as [|c w IH]; intros cur H; [by rewrite app_nil_r|]. apply not_elem_of_cons in H as [Hc H].
  change ((c :: w) ++ [39] ++ l) with (c :: (w ++ [39] ++ l)). cbn [sh_words]. rewrite (proj2 (Z.eqb_neq c 39)) by done. cbn [so_far]. rewrite (IH (cur ++ [c])) by done. by rewrite <- app_assoc.
Qed.

Lemma sh_piece p l cur : piece_ok p -> sh_words false cur (piece_text p ++ l) = sh_words false (Some (so_far cur ++ piece_word p)) l.
Proof.
  destruct p as [w|w]; cbn [piece_ok piece_text piece_word]; [by intros [? ?]; apply sh_plain|].
  intros H. unfold in_quotes. rewrite <- !app_assoc. cbn [app sh_words Z.eqb]. by apply (sh_quoted_body w l).
Qed.

Lemma sh_pieces ps l : Forall piece_ok ps -> forall cur, ps <> [] ->
  sh_words false cur (mjoin (piece_text <$> ps) ++ l) = sh_words false (Some (so_far cur ++ mjoin (piece_word <$> ps))) l.
Proof.
  induction 1 as [|p ps Hp _ IH]; intros cur Hne; [done|].
  change (mjoin (piece_text <$> p :: ps)) with (piece_text p ++ mjoin (piece_text <$> ps)).
  change (mjoin (piece_word <$> p :: ps)) with (piece_word p ++ mjoin (piece_word <$> ps)).
  rewrite <- app_assoc, sh_piece by done. destruct ps as [|p' ps]; [cbn; by rewrite app_nil_r|].
  rewrite IH by done. cbn [so_far]. by rewrite <- app_assoc.
Qed.

(** The shell reads a rendered command as its words. *)
Lemma sh_render ws : Forall (fun w => Forall piece_ok w /\ w <> []) ws ->
  sh_words false None (render ws) = Some ((fun w => mjoin (piece_word <$> w)) <$> ws).
Proof.
  induction 1 as [|w ws [Hw Hne] Hws IH]; [done|]. destruct ws as [|w' ws].
  - cbn [render]. rewrite <- (app_nil_r (mjoin (piece_text <$> w))). by rewrite sh_pieces.
  - change (render (w :: w' :: ws)) with (mjoin (piece_text <$> w) ++ [32] ++ render (w' :: ws)).
    rewrite sh_pieces by done. cbn [app sh_words Z.eqb]. by rewrite IH.
Qed.

(** ** The commands the service runs *)

Definition words (l : list (list Z)) : list (list piece) := (fun s => [Plain s]) <$> l.

Definition host_words (cfg : CompileConfig) (out src : list Z) : list (list piece) :=
  words [bytes "timeout"] ++ [[Plain (dec (timeout_secs cfg))]] ++
  words [bytes "g++"; bytes "-std=c++23"; bytes "-O2"; bytes "-march=native"; bytes "-Wall"; bytes "-o"] ++ [[Quoted out]; [Quoted src]] ++
  match sdk_include cfg with
  | Some sdk => [[Quoted (sdk ++ bytes "/../src/strategy_main.cpp")]; [Plain (bytes "-I"); Quoted sdk]]
  | None => []
  end ++ words [bytes "-lpthread"].

Definition docker_script : list Z :=
  bytes "g++ -std=c++20 -O2 -march=x86-64-v3 -static -Wall -Werror -I/sdk/include -o /out/contestant /src/contestant.cpp".
Definition docker_words (cfg : CompileConfig) (out src : list Z) : list (list piece) :=
  words [bytes "timeout"] ++ [[Plain (dec (timeout_secs cfg))]] ++ words [bytes "docker"; bytes "run"; bytes "--rm"; bytes "-v"] ++
  [[Quoted (src ++ bytes ":/src/contestant.cpp:ro")]] ++ words [bytes "-v"] ++
  [[Quoted (default (bytes "/dev/null") (sdk_include cfg) ++ bytes ":/sdk/include:ro")]] ++ words [bytes "-v"] ++
  [[Quoted (out ++ bytes ":/out")]] ++ [[Plain (docker_image cfg)]] ++ words [bytes "sh"; bytes "-c"] ++
  [[Quoted docker_script]].

(** The flags the service documents as its strict ones
    (compiler_service.hpp:8-11). *)
Definition documented_flags : list (list Z) :=
  [bytes "-std=c++20"; bytes "-O2"; bytes "-march=x86-64-v3"; bytes "-static"; bytes "-I/sdk/include"; bytes "-Wall"; bytes "-Werror"].

(** The command lines: every path one argument. The container's compiler is
    given the documented flags; the host's has a list of its own. *)
Definition host_flags : list (list Z) := [bytes "-std=c++23"; bytes "-O2"; bytes "-march=native"; bytes "-Wall"].
Definition host_argv (cfg : CompileConfig) (out src : list Z) : list (list Z) :=
  [bytes "timeout"; dec (timeout_secs cfg); bytes "g++"] ++ host_flags ++ [bytes "-o"; out; src] ++
  match sdk_include cfg with
  | Some sdk => [sdk ++ bytes "/../src/strategy_main.cpp"; bytes "-I" ++ sdk]
  | None => []
  end ++ [bytes "-lpthread"].
Definition docker_argv (cfg : CompileConfig) (out src script : list Z) : list (list Z) :=
  [bytes "timeout"; dec (timeout_secs cfg); bytes "docker"; bytes "run"; bytes "--rm";
   bytes "-v"; src ++ bytes ":/src/contestant.cpp:ro";
   bytes "-v"; default (bytes "/dev/null") (sdk_include cfg) ++ bytes ":/sdk/include:ro";
   bytes "-v"; out ++ bytes ":/out"; docker_image cfg; bytes "sh"; bytes "-c"; script].

(** The arguments of the compiler a command runs: on the host its own, in the
    container those of the script. *)
Definition runs (cfg : CompileConfig) (out src : list Z) (ws : list (list Z)) : Prop :=
  if use_docker cfg then
    exists script flags, ws = docker_argv cfg out src script /\ flags ≡ₚ documented_flags /\
      sh_words false None script =
        Some ([bytes "g++"] ++ flags ++ [bytes "-o"; bytes "/out/contestant"; bytes "/src/contestant.cpp"])
  else ws = host_argv cfg out src.

Lemma host_words_argv cfg out src : (fun w => mjoin (piece_word <$> w)) <$> host_words cfg out src = host_argv cfg out src.
Proof. unfold host_words, host_argv. destruct (sdk_include cfg); cbn; rewrite ?app_nil_r; reflexivity. Qed.

Lemma docker_words_runs cfg out src : use_docker cfg = true ->
  runs cfg out src ((fun w => mjoin (piece_word <$> w)) <$> docker_words cfg out src).
Proof.
  intros Hd. unfold runs. rewrite Hd. exists docker_script, ([bytes "-std=c++20"; bytes "-O2"; bytes "-march=x86-64-v3"; bytes "-static"; bytes "-Wall"; bytes "-Werror"; bytes "-I/sdk/include"]).
  split; [|split; [|vm_compute; reflexivity]].
  - unfold docker_words, docker_argv. generalize (default (bytes "/dev/null") (sdk_include cfg)). intros sdk.
    cbn [words fmap list_fmap app mjoin list_join piece_word]. rewrite !app_nil_r. reflexivity.
  - unfold documented_flags. cbn [fmap list_fmap]. do 4 apply perm_skip. etransitivity; [|apply Permutation_app_comm with (l := [bytes "-Wall"; bytes "-Werror"]) (l' := [bytes "-I/sdk/include"])]. done.
Qed.

(** Paths without single quotes that fit the buffers, and a plain image name. *)
Record paths_ok (cfg : CompileConfig) (out src : list Z) : Prop := {
  pk_out : 39 ∉ out;
  pk_src : 39 ∉ src;
  pk_sdk : match sdk_include cfg with Some sdk => (39 ∉ sdk) /\ (length sdk <= 990)%nat | None => True end;
  pk_image : Forall (fun c => plain c = true) (docker_image cfg) /\ docker_image cfg <> [];
  pk_timeout : 0 <= timeout_secs cfg;
  pk_fits : Z.of_nat (length (render (if use_docker cfg then docker_words cfg out src else host_words cfg out src) ++ bytes " 2>&1")) < 4096 }.

Lemma append_fits size cur text : Z.of_nat (length (cur ++ text)) < size ->
  append_text size (cur, Z.of_nat (length cur)) text = Some (cur ++ text, Z.of_nat (length (cur ++ text))).
Proof.
  intros H. unfold append_text. rewrite length_app in *. rewrite (proj2 (Z.ltb_ge size _)) by lia.
  rewrite take_ge by (rewrite length_app; lia). do 2 f_equal. lia.
Qed.

Lemma show_dec n : 0 <= n -> show_int n = dec n.
Proof. intros H. unfold show_int. by rewrite (proj2 (Z.ltb_ge n 0)). Qed.

Lemma host_text cfg out src : use_docker cfg = false -> paths_ok cfg out src ->
  host_command cfg out src = Some (render (host_words cfg out src) ++ bytes " 2>&1").
Proof.
  intros Hd [_ _ Hs _ Ht Hf]. rewrite Hd in Hf. unfold host_command. rewrite show_dec by done.
  set (t0 := bytes "timeout " ++ _). 
  assert (Hr : render (host_words cfg out src) = t0 ++ match sdk_include cfg with
    | Some sdk => bytes " " ++ in_quotes (sdk ++ bytes "/../src/strategy_main.cpp") ++ bytes " -I" ++ in_quotes sdk | None => [] end ++ bytes " -lpthread").
  { unfold host_words, t0. destruct (sdk_include cfg); unfold in_quotes; rewrite <- !app_assoc; cbn; rewrite ?app_nil_r, <- !app_assoc; reflexivity. }
  rewrite Hr in *. clear Hr. clearbody t0. rewrite !length_app in Hf. rewrite snprintf_fits by lia.
  destruct (sdk_include cfg) as [sdk|].
  - destruct Hs as [_ Hl]. unfold strategy_main. rewrite snprintf_fits by (rewrite length_app; change (length (bytes _)) with 25%nat; lia).
    cbn [fst]. rewrite !length_app in Hf. rewrite append_fits by (rewrite !length_app; lia). cbn [mbind option_bind].
    rewrite append_fits by (rewrite !length_app; lia). cbn [mbind option_bind]. rewrite append_fits by (rewrite !length_app; lia).
    cbn [mbind option_bind fst]. rewrite snprintf_fits by (rewrite !length_app; lia). cbn [fst]. by rewrite <- !app_assoc.
  - cbn [mbind option_bind length app] in *. rewrite append_fits by (rewrite !length_app; lia). cbn [mbind option_bind fst].
    rewrite snprintf_fits by (rewrite !length_app; lia). done.
Qed.

Lemma docker_text cfg out src : use_docker cfg = true -> paths_ok cfg out src ->
  docker_command cfg out src = render (docker_words cfg out src) ++ bytes " 2>&1".
Proof.
  intros Hd [_ _ _ _ Ht Hf]. rewrite Hd in Hf. unfold docker_command. rewrite show_dec by done.
  match goal with |- (snprintf _ ?t).1 = ?r => assert (E : t = r) end.
  { unfold docker_words. generalize (dec (timeout_secs cfg)) (default (bytes "/dev/null") (sdk_include cfg)). intros ts sdk.
    cbn [words fmap list_fmap app render mjoin list_join piece_text]. unfold in_quotes. rewrite ?app_nil_r.
    repeat (progress (rewrite <- ?app_assoc; cbn [app])). reflexivity. }
  rewrite E, snprintf_fits by done. done.
Qed.

Lemma words_ok ls : forallb (fun l => forallb plain l && negb (bool_decide (l = []))) ls = true ->
  Forall (fun w => Forall piece_ok w /\ w <> []) (words ls).
Proof.
  intros H. unfold words. apply Forall_fmap, List.Forall_forall. intros l Hl. rewrite forallb_forall in H. apply H in Hl. bool_hyps.
  cbn. split; [|done]. apply Forall_cons_2; [|apply Forall_nil_2]. split.
  - apply List.Forall_forall. by apply forallb_forall.
  - by apply negb_true_iff, bool_decide_eq_false in H1.
Qed.

Lemma dec_piece n : piece_ok (Plain (dec n)).
Proof.
  split; [|apply dec_nonempty]. eapply Forall_impl; [apply dec_digits|]. intros c H. unfold plain. by rewrite H.
Qed.

Lemma literal_no_quote s : bool_decide (39 ∈ bytes s) = false -> 39 ∉ bytes s.
Proof. apply bool_decide_eq_false_1. Qed.

Ltac pieces :=
  repeat match goal with
  | |- Forall _ (_ ++ _) => apply Forall_app_2
  | |- Forall _ (words _) => apply words_ok; reflexivity
  | |- Forall _ (_ :: _) => apply Forall_cons_2
  | |- Forall _ [] => apply Forall_nil_2
  | |- _ /\ _ => split
  | |- piece_ok (Plain (dec _)) => apply dec_piece
  | |- piece_ok (Quoted _) => cbn [piece_ok]; rewrite ?not_elem_of_app
  | |- 39 ∉ bytes _ => apply literal_no_quote; reflexivity
  end; try done.

Lemma host_words_ok cfg out src : paths_ok cfg out src -> Forall (fun w => Forall piece_ok w /\ w <> []) (host_words cfg out src).
Proof.
  intros [Ho Hs Hk _ _ _]. unfold host_words. destruct (sdk_include cfg) as [sdk|]; [destruct Hk as [Hk _]|]; pieces.
  split; [by repeat constructor|done].
Qed.

Lemma docker_words_ok cfg out src : paths_ok cfg out src -> Forall (fun w => Forall piece_ok w /\ w <> []) (docker_words cfg out src).
Proof.
  intros [Ho Hs Hk [Hi Hi'] _ _]. unfold docker_words, docker_script. pieces. destruct (sdk_include cfg) as [sdk|]; [by destruct Hk|by apply literal_no_quote].
Qed.

(** C39: for paths without single quotes that fit the buffers, compiling runs one
    command, which the shell splits so that every path is one whole argument. In
    the container the compiler is run with exactly the strict flags the service
    documents, on the sources and for the output mounted there; on the host it is
    run with the code's own list (-std=c++23 -O2 -march=native -Wall), on the
    source and the SDK's entry point, which is not the documented one
    ([host_flags_not_strict]).  The compilation succeeds exactly when the command
    ran and its status has no signal and exit code 0, and the text captured from
    it never leaves the buffer and is the whole output when that fits. *)
Theorem compile_command cfg pipe elapsed_ns src out :
  source_path cfg = Some src -> output_path cfg = Some out -> paths_ok cfg out src ->
  exists c ws r, compile cfg pipe elapsed_ns = Some (Some (c ++ bytes " 2>&1"), r) /\
    sh_words false None c = Some ws /\ runs cfg out src ws /\
    match pipe (c ++ bytes " 2>&1") with
    | inl _ => success r = false
    | inr (output, status) =>
        (success r = true <-> status mod 128 = 0 /\ status / 256 mod 256 = 0) /\ Z.of_nat (length (error r)) < 4096 /\
        (0 ∉ output -> Z.of_nat (length output) < 4095 -> error r = output)
    end.
Proof.
  intros Es Eo H. unfold compile. rewrite Es, Eo.
  assert (Hr : forall cmd, let r := run_command (pipe cmd) in
    match pipe cmd with
    | inl _ => success r = false
    | inr (output, status) => (success r = true <-> status mod 128 = 0 /\ status / 256 mod 256 = 0) /\ Z.of_nat (length (error r)) < 4096 /\
        (0 ∉ output -> Z.of_nat (length output) < 4095 -> error r = output)
    end).
  { intros cmd r. subst r. unfold run_command. destruct (pipe cmd) as [e|[output status]]; [done|]. cbn [success error].
    split; [rewrite Z.eqb_eq; apply exit_zero|]. split; [pose proof (capture_bound output); lia|apply capture_all]. }
  destruct (use_docker cfg) eqn:Ed.
  - unfold compile_docker. rewrite docker_text by done. cbn [mbind option_bind].
    do 3 eexists. split; [done|]. split; [by apply sh_render, docker_words_ok|]. split; [by apply docker_words_runs|apply Hr].
  - unfold compile_host. rewrite host_text by done. cbn [mbind option_bind].
    do 3 eexists. split; [done|]. split; [by apply sh_render, host_words_ok|].
    split; [unfold runs; rewrite Ed; apply host_words_argv|apply Hr].
Qed.

(** Of the documented flags the host's compiler is given two: a strategy with
    warnings compiles there, against another language standard and dynamically
    linked. *)
Lemma host_flags_not_strict :
  filter (fun f => f ∈ host_flags) documented_flags = [bytes "-O2"; bytes "-Wall"] /\
  filter (fun f => f ∉ documented_flags) host_flags = [bytes "-std=c++23"; bytes "-march=native"].
Proof. split; vm_compute; reflexivity. Qed.

(** ** Examples *)

Definition demo_cfg (docker : bool) (src : list Z) : CompileConfig :=
  {| source_path := Some src; output_path := Some (bytes "/tmp/out bin"); sdk_include := Some (bytes "/opt/sdk/include");
     docker_image := bytes "iicpc-compiler"; timeout_secs := 30; use_docker := docker |}.
Definition demo_pipe (_ : list Z) : Pipe := inr (bytes "warning: unused" ++ [LF], 0).

Lemma compile_command_witness :
  (exists cmd r, compile (demo_cfg false (bytes "/tmp/my strategy.cpp")) demo_pipe 5 = Some (Some cmd, r) /\ success r = true) /\
  exists c ws r, compile (demo_cfg true (bytes "/tmp/my strategy.cpp")) demo_pipe 5 = Some (Some (c ++ bytes " 2>&1"), r) /\
    sh_words false None c = Some ws /\
    runs (demo_cfg true (bytes "/tmp/my strategy.cpp")) (bytes "/tmp/out bin") (bytes "/tmp/my strategy.cpp") ws.
Proof.
  split; [do 2 eexists; split; [vm_compute; reflexivity|reflexivity]|].
  destruct (compile_command (demo_cfg true (bytes "/tmp/my strategy.cpp")) demo_pipe 5 (bytes "/tmp/my strategy.cpp") (bytes "/tmp/out bin"))
    as (c&ws&r&H1&H2&H3&_); [reflexivity|reflexivity| |exists c, ws, r; split; [exact H1|split; [exact H2|exact H3]]].
  split; [by apply literal_no_quote|by apply literal_no_quote| |split; [by repeat constructor|done]|done|by vm_compute].
  split; [by apply literal_no_quote|vm_compute; lia].
Defined.

(** A quote in a path ends the quoting: the rest becomes arguments of the compiler. *)
Example quote_in_path_injects :
  let src := bytes "/tmp/a' -fplugin=/tmp/evil.so '" in
  match host_command (demo_cfg false src) (bytes "/tmp/out") src with
  | Some cmd => (fun ws => bool_decide (bytes "-fplugin=/tmp/evil.so" ∈ ws)) <$> sh_words false None (take (length cmd - 5) cmd)
  | None => None
  end = Some true.
Proof. vm_compute. reflexivity. Qed.

(** The container writes the binary into the output path as a directory, and the
    match runs that path itself. *)
Example docker_output_is_a_directory :
  let cfg := {| prebuilt_binary := None; mc_source_path := Some (bytes "/tmp/s.cpp"); sdk_include_path := None; use_docker_compile := true |} in
  exists cmd secs, build_contestant cfg demo_pipe 5 =
    Some {| b_command := Some cmd; b_compiled := true; b_secs := secs; b_binary := Some (bytes "/tmp/iicpc_contestant_bin") |} /\
    (fun ws => bool_decide (bytes "/tmp/iicpc_contestant_bin:/out" ∈ ws)) <$> sh_words false None (take (length cmd - 5) cmd) = Some true.
Proof. do 2 eexists. split; vm_compute; reflexivity. Qed.
