(* ===== verification/Match.v ===== *)
(** A match from start to end
    (src/orchestrator/include/orchestrator/contest_runner.hpp, run_match, and
    post_contest_validator.hpp, run_single_scenario): building the contestant,
    setting up generator, reference book and link in a fresh arena, starting the
    contestant in a virtual machine or as a process, the timed loop between
    SESSION_START and SESSION_END, the final drain, and the clean-up on every
    way out.  The listener beside a virtual machine is detached and may outlive
    the match.  The loops are executable and refine the step relation of
    Contest.v.  Clocks, sockets, processes and the contestant are arguments. *)

From S2P Require Import Prelude Arena Protocol Text PriceMap OrderBook BookRep BookOps BookMatch BookSpec.
From S2P Require Import Xorshift Histogram Shadow Blaster Stress Bridge Firecracker Compiler Contest.
From Stdlib Require Import SpecFloat.
From Stdlib Require String Ascii.
Import String.StringSyntax.
Import PriceLevelPool OrderPool OrderBook ShadowOrderbook.
#[local] Open Scope Z_scope.

(** What a match does that others can see. *)
Inductive event :=
| E_system (cmd : list Z) | E_boot (e : boot_event) | E_link (e : SandboxBridge.link_event)
| E_spawn (pid : Z) (binary socket : list Z) | E_order (e : BlastOrder)
| E_kill (pid sig : Z) | E_wait (pid : Z)
(* the listener left running beside a machine outlives the link it uses *)
| E_late.
Definition SIGKILL : Z := 9.
Definition SIGTERM : Z := 15.

(** ** The timed loop *)

(** What one turn of the loop meets: for the entry at each position of the
    stream the counter before its send, the outcome of the send and the counter
    the reference book reads; and the chunks received, each with its counter. *)
Record Turn := { w_send : Z -> Z * send_result * Z; w_chunks : list (Z * list Z) }.

Definition on_blaster (st : session) (b : OrderBlaster.t) : session :=
  {| blaster := b; bridge := bridge st; shadow := shadow st; n_orders := n_orders st; n_fills := n_fills st;
     n_acks := n_acks st |}.
Definition on_bridge (st : session) (b : SandboxBridge.t) : session :=
  {| blaster := blaster st; bridge := b; shadow := shadow st; n_orders := n_orders st; n_fills := n_fills st;
     n_acks := n_acks st |}.
Definition sent_one (st : session) (e : BlastOrder) (b : OrderBlaster.t) (tsc : Z) (r : send_result)
    (s : ShadowOrderbook.t) : session :=
  {| blaster := b; bridge := (SandboxBridge.send_order (bridge st) e tsc r).2; shadow := s;
     n_orders := n_orders st + is_order e; n_fills := n_fills st; n_acks := n_acks st |}.
Definition judged_one (st : session) (r : ContestantResponse) (b : SandboxBridge.t) : session :=
  {| blaster := blaster st; bridge := b; shadow := judge_response (shadow st) r; n_orders := n_orders st;
     n_fills := n_fills st + is_fill r; n_acks := n_acks st + is_ack r |}.

(** [while (blaster.pop(order))]; without fuel, or when the reference book
    cannot process an order, there is no result. *)
Fixpoint send_loop (fuel : nat) (w : Turn) (st : session) : option (list event * session) :=
  match OrderBlaster.pop (blaster st) with
  | (None, _) => Some ([], st)
  | (Some e, b) =>
      match fuel with
      | O => None
      | S fuel =>
          let '(tsc, r, ts) := w_send w (OrderBlaster.read_pos_ (blaster st)) in
          s ← feed (shadow st) e ts;
          '(ev, st') ← send_loop fuel w (sent_one st e b tsc r s);
          Some ((if SandboxBridge.is_connected (bridge st) then [E_order e] else []) ++ ev, st')
      end
  end.

(** [while (bridge.pop_response(resp))]. *)
Fixpoint judge_loop (fuel : nat) (st : session) : option session :=
  match SandboxBridge.pop_response (bridge st) with
  | (None, _) => Some st
  | (Some r, b) => match fuel with O => None | S fuel => judge_loop fuel (judged_one st r b) end
  end.

(** The loops run as often as entries wait. *)
Definition waiting_orders (st : session) : nat :=
  Z.to_nat (OrderBlaster.write_pos_ (blaster st) - OrderBlaster.read_pos_ (blaster st)).
Definition waiting_responses (st : session) : nat :=
  Z.to_nat (SandboxBridge.resp_tail_ (bridge st) - SandboxBridge.resp_head_ (bridge st)).

(** A receive and the judging of what it brought. *)
Definition collect (chunks : list (Z * list Z)) (st : session) : option session :=
  let st := on_bridge st (SandboxBridge.recv_responses (bridge st) chunks).2 in
  judge_loop (waiting_responses st) st.

Section Loop.
Context (dlog dcos : spec_float -> spec_float).

Definition turn (w : Turn) (st : session) : option (list event * session) :=
  let st := on_blaster st (OrderBlaster.generate_batch dlog dcos (blaster st)).2 in
  '(ev, st) ← send_loop (waiting_orders st) w st;
  st ← collect (w_chunks w) st;
  Some (ev, st).

(** The turns until the clock passes the end of the match. *)
Fixpoint match_loop (ws : list Turn) (st : session) : option (list event * session) :=
  match ws with
  | [] => Some ([], st)
  | w :: ws =>
      '(ev, st) ← turn w st;
      '(ev', st) ← match_loop ws st;
      Some (ev ++ ev', st)
  end.
End Loop.

(** ** Set-up and clean-up *)

(** The world of a match: the results of the two [mmap]s, the memory the arena
    hands out (that of the order pool is zero, as fresh pages are), the
    calibration of the link, the contestant's start, how far the listener beside
    a machine has come after three seconds, the turns of the loop, the last receive, and the time from the start of the loop to the scoring. *)
Record World := {
  w_huge : option Z; w_regular : option Z;
  w_state : BlasterState.t; w_ring : arr BlastOrder; w_expected : arr ExpectedFill;
  w_responses : arr ContestantResponse; w_latencies : arr OrderLatency; w_tsc_delta : Z; w_ns_delta : Z;
  w_boot : BootAnswers; w_fork : Z; w_listen : SandboxBridge.ListenAnswers; w_listener : option nat;
  w_start_sent : Z; w_turns : list Turn; w_end_sent : Z; w_drain : list (Z * list Z);
  w_elapsed_ns : Z; w_pipe : list Z -> Pipe; w_compile_ns : Z }.

(** The generator's table as constructed over that memory. *)
Definition fresh_state (s : BlasterState.t) : BlasterState.t :=
  BlasterState.new (BlasterState.order_ids s) (BlasterState.order_prices s) (BlasterState.order_sides s)
    (BlasterState.order_qtys s) (BlasterState.order_active s).

Definition link_events (l : list SandboxBridge.link_event) : list event := E_link <$> l.

(** Arena, generator, reference book and link; a link that was not set up is
    destroyed on the way out and removes the socket file. *)
Definition open_match (cfg : OrderBlasterConfig) (socket : list Z) (w : World) : list event * option session :=
  let arena := (HugePageArena.init HugePageArena.new (512 * 1024 * 1024) (w_huge w) (w_regular w)).2 in
  if negb (HugePageArena.is_initialized arena) then ([], None) else
  let '(ok, arena, bl) := OrderBlaster.init arena cfg
    (OrderBlaster.new default_blaster_config (fresh_state (w_state w)) (w_ring w)) in
  if negb ok then ([], None) else
  let '(ok, arena, sh) := ShadowOrderbook.init arena (fun _ => zero_order)
    {| book_ := new_book; expected_ := w_expected w; expected_count_ := 0; result_ := zero_result |} in
  if negb ok then ([], None) else
  let '(ok, arena, br) := SandboxBridge.init arena (w_tsc_delta w) (w_ns_delta w)
    (SandboxBridge.new (w_responses w) (w_latencies w)) in
  if negb ok then (link_events [SandboxBridge.L_unlink socket], None) else
  ([], Some {| blaster := bl; bridge := br; shadow := sh; n_orders := 0; n_fills := 0; n_acks := 0 |}).

(** The listener that is detached beside a machine, three seconds later: it has
    returned ([None]), or it is still running after the first [n] of its calls.
    Once it has accepted only the socket's options are left to set.  Before, the
    link has its listening socket at most, and the thread goes on using it. *)
Definition detached_listener (running : option nat) (ep : SandboxBridge.Endpoint) (br : SandboxBridge.t)
    (k : SandboxBridge.ListenAnswers) : list SandboxBridge.link_event * bool * SandboxBridge.Endpoint * SandboxBridge.t :=
  let '(lev, _, ep', br') := SandboxBridge.listen_and_accept ep br k in
  match running with
  | None => (lev, false, ep', br')
  | Some n =>
      if SandboxBridge.is_connected br' && (5 <=? n)%nat then (lev, false, ep', br')
      else (take n lev, true, if (2 <=? n)%nat then ep' else ep, br)
  end.

(** Starting the contestant: what is seen, and the process, whether a listener is
    still running, and the link.  [boot] is the boot of the virtual machine, with
    the runner's or the system test's report of a failure.  Beside the machine the
    listener is detached; beside a process it is waited for. *)
Definition start_contestant {F : Type} (use_firecracker : bool) (kernel rootfs : option (list Z))
    (boot : list Z -> list Z -> option (list boot_event * (F + Z))) (binary socket : list Z)
    (ep : SandboxBridge.Endpoint) (br : SandboxBridge.t) (w : World) :
    option (list event * (F + (Z * bool * SandboxBridge.Endpoint * SandboxBridge.t))) :=
  match use_firecracker, kernel, rootfs with
  | true, Some kernel, Some rootfs =>
      '(bev, r) ← boot kernel rootfs;
      match r with
      | inl f => Some (E_boot <$> bev, inl f)
      | inr pid =>
          let '(lev, running, ep, br) := detached_listener (w_listener w) ep br (w_listen w) in
          Some ((E_boot <$> bev) ++ link_events lev, inr (pid, running, ep, br))
      end
  | _, _, _ =>
      let '(lev, _, ep, br) := SandboxBridge.listen_and_accept ep br (w_listen w) in
      Some ((if 0 <? w_fork w then [E_spawn (w_fork w) binary socket] else []) ++ link_events lev,
            inr (w_fork w, false, ep, br))
  end.

Section Run.
Context (dlog dcos : spec_float -> spec_float).

(** From SESSION_START to the end of the contestant. *)
Definition play (duration_secs orders_per_sec pid : Z) (ep : SandboxBridge.Endpoint) (w : World) (st : session) :
    option (list event * SandboxBridge.Endpoint * session) :=
  let '(c1, _) := SandboxBridge.send_control (bridge st) (to_wire (session_start duration_secs orders_per_sec))
                    (w_start_sent w) in
  '(ev, st) ← match_loop dlog dcos (w_turns w) st;
  let '(c2, _) := SandboxBridge.send_control (bridge st) (to_wire (session_end (bridge st))) (w_end_sent w) in
  st ← collect (w_drain w) st;
  let '(c3, ep, br) := SandboxBridge.shutdown ep (bridge st) in
  let stop := if 0 <? pid then [E_kill pid SIGTERM; E_kill pid SIGKILL; E_wait pid] else [] in
  Some (link_events c1 ++ ev ++ link_events c2 ++ link_events c3 ++ stop, ep, on_bridge st br).

(** How a session ends. *)
Inductive outcome (F : Type) :=
| Setup_failed | Boot_failed (f : F) | Not_connected | Played (st : session).
#[global] Arguments Setup_failed {F}.
#[global] Arguments Boot_failed {F} f.
#[global] Arguments Not_connected {F}.
#[global] Arguments Played {F} st.

(** The steps the runner and the system test share; the link is destroyed last,
    under the listener if that is still running. *)
Definition run_session {F : Type} (cfg : OrderBlasterConfig) (duration_secs orders_per_sec : Z)
    (use_firecracker : bool) (kernel rootfs : option (list Z))
    (boot : list Z -> list Z -> option (list boot_event * (F + Z))) (binary socket : list Z) (w : World) :
    option (list event * outcome F) :=
  let '(ev0, opened) := open_match cfg socket w in
  match opened with
  | None => Some (ev0, Setup_failed)
  | Some st =>
      let ep := {| SandboxBridge.socket_path_ := Some socket; SandboxBridge.listen_fd_ := -1 |} in
      let destroy ep br := link_events (SandboxBridge.shutdown ep br).1.1 in
      '(ev1, r) ← start_contestant use_firecracker kernel rootfs boot binary socket ep (bridge st) w;
      match r with
      | inl f => Some (ev1 ++ destroy ep (bridge st), Boot_failed f)
      | inr (pid, running, ep, br) =>
          if negb (SandboxBridge.is_connected br) then
            let stop := if 0 <? pid then [E_kill pid SIGKILL; E_wait pid] else [] in
            Some (ev1 ++ stop ++ destroy ep br ++ (if running : bool then [E_late] else []), Not_connected)
          else
            '(ev2, ep, st) ← play duration_secs orders_per_sec pid ep w (on_bridge st br);
            Some (ev1 ++ ev2 ++ destroy ep (bridge st), Played st)
      end
  end.

(** ** One scenario of the post-contest battery *)

(** The session a scenario is played in, absent when it is not. *)
Definition scenario_session (sc : StressScenario) (binary socket : list Z) (use_firecracker : bool)
    (kernel rootfs : option (list Z)) (w : World) : option (list event * option session) :=
  let boot kernel rootfs :=
    '(ev, r) ← boot_systest (ss_id sc) kernel rootfs binary (w_boot w);
    Some (ev, match r with None => inl tt | Some pid => inr pid end) in
  '(ev, o) ← run_session (ss_blaster_cfg sc) (ss_duration_secs sc) 200000 use_firecracker kernel rootfs boot
               binary socket w;
  Some (ev, match o with Played st => Some st | _ => None end).

Definition run_single_scenario (sc : StressScenario) (binary socket : list Z) (use_firecracker : bool)
    (kernel rootfs : option (list Z)) (w : World) : option (list event * ScenarioResult) :=
  '(ev, st) ← scenario_session sc binary socket use_firecracker kernel rootfs w;
  Some (ev, scenario_result sc st).

(** ** The contest runner *)

Record MatchConfig := {
  mc_contestant_id : String.string; mc_sources : MatchSources; mc_duration_secs : Z; mc_orders_per_sec : Z;
  mc_blaster_cfg : OrderBlasterConfig; mc_rootfs_path : option (list Z); mc_kernel_path : option (list Z);
  mc_socket_path : list Z; mc_weights : ScoreWeights; mc_use_firecracker : bool }.

Record MatchResult := {
  mr_contestant_id : String.string; mr_compiled : bool; mr_compile_time_secs : spec_float; mr_orders_sent : Z;
  mr_responses_recv : Z; mr_drops : Z; mr_throughput : spec_float; mr_p50_ns : Z; mr_p99_ns : Z; mr_p999_ns : Z;
  mr_max_ns : Z; mr_correctness : spec_float; mr_score : spec_float; mr_error_msg : option (list Z) }.

(** The result of a match that did not take place. *)
Definition unplayed (cfg : MatchConfig) (b : Build) (error_msg : option (list Z)) : MatchResult :=
  {| mr_contestant_id := strncpy 63 (mc_contestant_id cfg); mr_compiled := b_compiled b;
     mr_compile_time_secs := b_secs b; mr_orders_sent := 0; mr_responses_recv := 0; mr_drops := 0;
     mr_throughput := S754_zero false; mr_p50_ns := 0; mr_p99_ns := 0; mr_p999_ns := 0; mr_max_ns := 0;
     mr_correctness := S754_zero false; mr_score := S754_zero false; mr_error_msg := error_msg |}.

Context (dpow : spec_float -> spec_float -> spec_float) (dlog2 dlog10 : spec_float -> spec_float).

(** The result of a match that was played. *)
Definition match_result (cfg : MatchConfig) (b : Build) (elapsed_ns : Z) (st : session) : option MatchResult :=
  let vr := result_ (finalize (shadow st)) in
  let bs := SandboxBridge.stats_ (bridge st) in
  let elapsed_secs := F64.div (F64.of_Z elapsed_ns) (F64.of_Z 1000000000) in
  p ← latency_percentiles dpow dlog2 (bridge st);
  score ← match_score dpow dlog2 dlog10 (mc_weights cfg) vr (bridge st);
  Some {| mr_contestant_id := strncpy 63 (mc_contestant_id cfg); mr_compiled := b_compiled b;
          mr_compile_time_secs := b_secs b; mr_orders_sent := bs_orders_sent bs;
          mr_responses_recv := bs_responses_recv bs; mr_drops := bs_drops bs;
          mr_throughput := F64.div (F64.of_Z (bs_responses_recv bs)) elapsed_secs;
          mr_p50_ns := HdrHistogram.p50 p; mr_p99_ns := HdrHistogram.p99 p; mr_p999_ns := HdrHistogram.p999 p;
          mr_max_ns := HdrHistogram.p_max p; mr_correctness := shadow_score vr; mr_score := score;
          mr_error_msg := None |}.

Definition run_match (cfg : MatchConfig) (w : World) : option (list event * MatchResult) :=
  b ← build_contestant (mc_sources cfg) (w_pipe w) (w_compile_ns w);
  let ev0 := match b_command b with Some cmd => [E_system cmd] | None => [] end in
  match b_binary b with
  | None => Some (ev0, unplayed cfg b None)
  | Some binary =>
      '(ev, o) ← run_session (mc_blaster_cfg cfg) (mc_duration_secs cfg) (mc_orders_per_sec cfg)
        (mc_use_firecracker cfg) (mc_kernel_path cfg) (mc_rootfs_path cfg)
        (fun kernel rootfs => boot_vm (bytes (mc_contestant_id cfg)) kernel rootfs binary (w_boot w))
        binary (mc_socket_path cfg) w;
      r ← match o with
          | Setup_failed | Not_connected => Some (unplayed cfg b None)
          | Boot_failed msg => Some (unplayed cfg b (Some msg))
          | Played st => match_result cfg b (w_elapsed_ns w) st
          end;
      Some (ev0 ++ ev, r)
  end.

(** [ContestRunner::run_system_tests] and the loop of the validator it calls:
    every scenario in its own world, the results collected by
    [Contest.run_system_tests]. *)
Definition systest_socket : list Z := bytes "/tmp/iicpc_systest.sock".
Definition empty_system_test : SystemTestResult :=
  {| st_contestant_id := String.EmptyString; st_scenarios_passed := 0; st_scenarios_total := 0;
     st_system_score := S754_zero false; st_original_score := S754_zero false; st_final_score := S754_zero false;
     st_scenarios := [] |}.
Definition system_tests (cfg : MatchConfig) (original_score : spec_float) (ws : StressScenario -> World) :
    option (list event * SystemTestResult) :=
  match prebuilt_binary (mc_sources cfg) with
  | None => Some ([], empty_system_test)
  | Some binary =>
      let session sc := scenario_session sc binary systest_socket (mc_use_firecracker cfg) (mc_kernel_path cfg)
                          (mc_rootfs_path cfg) (ws sc) in
      rs ← mapM session build_stress_scenarios;
      Some (concat rs.*1, run_system_tests (mc_contestant_id cfg) original_score
                            (fun sc => default None (snd <$> session sc)))
  end.
End Run.

(** ** What the loops leave of the link *)

(** The number of bytes in a list of chunks. *)
Definition volume (chunks : list (Z * list Z)) : Z := zsum ((fun c => Z.of_nat (length c.2)) <$> chunks).

(** The counters of sends. *)
Definition counted (b : SandboxBridge.t) : Z * Z * Z :=
  let s := SandboxBridge.stats_ b in (bs_orders_sent s, bs_drops s, bs_recv_errors s).
Definition attempts (b : SandboxBridge.t) (n : Z) : Prop :=
  let '(sent, drops, errors) := counted b in 0 <= sent /\ 0 <= drops /\ 0 <= errors /\ sent + drops + errors = n.

Lemma send_order_frame b e tsc r : let b' := (SandboxBridge.send_order b e tsc r).2 in
  SandboxBridge.client_fd_ b' = SandboxBridge.client_fd_ b /\
  SandboxBridge.resp_head_ b' = SandboxBridge.resp_head_ b /\
  SandboxBridge.resp_tail_ b' = SandboxBridge.resp_tail_ b /\
  bs_responses_recv (SandboxBridge.stats_ b') = bs_responses_recv (SandboxBridge.stats_ b).
Proof. unfold SandboxBridge.send_order. case_match; [done|]. by destruct r. Qed.

Lemma send_order_counts b e tsc r n : SandboxBridge.is_connected b = true -> attempts b n -> n < 2 ^ 60 ->
  attempts (SandboxBridge.send_order b e tsc r).2 (n + 1).
Proof.
  unfold SandboxBridge.is_connected, SandboxBridge.send_order, attempts, counted. intros Hc Ha Hn.
  rewrite (proj2 (Z.ltb_ge _ _)) by (by apply Z.leb_le). destruct r; cbn; rewrite u64_small by lia; lia.
Qed.

(** What receiving does not touch. *)
Definition same_link (b b' : SandboxBridge.t) : Prop :=
  SandboxBridge.client_fd_ b' = SandboxBridge.client_fd_ b /\
  SandboxBridge.resp_head_ b' = SandboxBridge.resp_head_ b /\ counted b' = counted b.
(** Responses received are the responses put into the ring. *)
Definition tallied_link (b : SandboxBridge.t) : Prop :=
  bs_responses_recv (SandboxBridge.stats_ b) = SandboxBridge.resp_tail_ b.

Lemma handle_frame tsc b r : let b' := SandboxBridge.handle_response tsc b r in
  same_link b b' /\ SandboxBridge.resp_tail_ b' = u64 (SandboxBridge.resp_tail_ b + 1) /\
  (tallied_link b -> tallied_link b').
Proof.
  unfold SandboxBridge.handle_response, tallied_link. destruct (SandboxBridge.find_pending _ _ _ _); case_match; cbn;
    (split; [done|]; split; [done|]; by intros ->).
Qed.

Lemma handle_all_frame tsc rs : forall b, 0 <= SandboxBridge.resp_tail_ b ->
  SandboxBridge.resp_tail_ b + Z.of_nat (length rs) < 2 ^ 64 ->
  let b' := foldl (SandboxBridge.handle_response tsc) b rs in
  same_link b b' /\ SandboxBridge.resp_tail_ b' = SandboxBridge.resp_tail_ b + Z.of_nat (length rs) /\
  (tallied_link b -> tallied_link b').
Proof.
  induction rs as [|r rs IH]; intros b H0 H1; cbn [foldl length] in *; [split; [done|split; [lia|done]]|].
  destruct (handle_frame tsc b r) as ((E1 & E2 & E4) & E3 & E5). rewrite u64_small in E3 by lia.
  destruct (IH (SandboxBridge.handle_response tsc b r)) as ((F1 & F2 & F4) & F3 & F5); [lia..|].
  unfold same_link. rewrite F1, F2, F3, F4. split; [done|]. split; [lia|auto].
Qed.

Lemma parse_few bytes : Z.of_nat (length (SandboxBridge.parse_chunk bytes)) <= Z.of_nat (length bytes).
Proof.
  unfold SandboxBridge.parse_chunk. assert (H : forall n l, length (SandboxBridge.frames n l) = n).
  { intros n. induction n as [|n IH]; intros l; [done|]. cbn [SandboxBridge.frames length]. by rewrite IH. }
  rewrite H, Nat2Z.inj_div. pose proof (Z.div_le_upper_bound (Z.of_nat (length bytes)) 64 (Z.of_nat (length bytes))). lia.
Qed.

Lemma volume_nonneg chunks : 0 <= volume chunks.
Proof. apply zsum_nonneg. intros x (c & -> & _)%list_elem_of_fmap. lia. Qed.

Definition received (b b' : SandboxBridge.t) (chunks : list (Z * list Z)) : Prop :=
  same_link b b' /\
  SandboxBridge.resp_tail_ b <= SandboxBridge.resp_tail_ b' <= SandboxBridge.resp_tail_ b + volume chunks /\
  (tallied_link b -> tallied_link b').

Lemma recv_loop_frame chunks : forall b n, 0 <= SandboxBridge.resp_tail_ b ->
  SandboxBridge.resp_tail_ b + volume chunks < 2 ^ 64 ->
  received b (SandboxBridge.recv_loop b chunks n).2 chunks.
Proof.
  unfold received. induction chunks as [|[tsc bs] cs IH]; intros b n H0 H1; [cbn; split; [done|split; [lia|done]]|].
  cbn [SandboxBridge.recv_loop]. pose proof (volume_nonneg cs).
  change (volume ((tsc, bs) :: cs)) with (Z.of_nat (length bs) + volume cs) in *.
  case_match; [cbn; split; [done|split; [lia|done]]|]. pose proof (parse_few bs).
  destruct (handle_all_frame tsc (SandboxBridge.parse_chunk bs) b) as ((E1 & E2 & E4) & E3 & E5); [lia..|].
  destruct (IH (foldl (SandboxBridge.handle_response tsc) b (SandboxBridge.parse_chunk bs))
    (u32 (n + Z.of_nat (length (SandboxBridge.parse_chunk bs)))) ltac:(lia) ltac:(lia)) as ((F1 & F2 & F4) & F3 & F5).
  unfold same_link. rewrite F1, F2, F4, E1, E2, E4. split; [done|]. split; [lia|auto].
Qed.

Lemma recv_frame b chunks : 0 <= SandboxBridge.resp_tail_ b ->
  SandboxBridge.resp_tail_ b + volume chunks < 2 ^ 64 -> received b (SandboxBridge.recv_responses b chunks).2 chunks.
Proof.
  intros H0 H1. unfold SandboxBridge.recv_responses. pose proof (volume_nonneg chunks).
  case_match; [split; [done|cbn; split; [lia|done]]|by apply recv_loop_frame].
Qed.

(** ** Sessions in progress *)

Section Play.
Context (dlog dcos : spec_float -> spec_float) (cfg : OrderBlasterConfig) (Hcfg : OrderBlaster.config_ok cfg).

(** A session that has sent the first [es] of the generated messages [hist] to
    a connected contestant and has been given at most [N] responses. *)
Record playing (st : session) (hist : list payload) (es : list BlastOrder) (N : Z) : Prop := {
  pl_reach : reach dlog dcos cfg st;
  pl_ok : session_ok cfg st hist;
  pl_sent : bo_data <$> es = take (Z.to_nat (OrderBlaster.read_pos_ (blaster st))) hist;
  pl_framed : Forall OrderBlaster.framed es;
  pl_orders : n_orders st = zsum (is_order <$> es);
  pl_fd : SandboxBridge.is_connected (bridge st) = true;
  pl_ring : 0 <= SandboxBridge.resp_head_ (bridge st) <= SandboxBridge.resp_tail_ (bridge st);
  pl_tail : SandboxBridge.resp_tail_ (bridge st) <= N;
  pl_judged : 0 <= n_fills st /\ n_fills st + n_acks st <= SandboxBridge.resp_head_ (bridge st);
  pl_small : N < 2 ^ 60;
  pl_attempts : attempts (bridge st) (Z.of_nat (length es));
  pl_received : tallied_link (bridge st) }.

Lemma orders_few es : 0 <= zsum (is_order <$> es) <= Z.of_nat (length es).
Proof.
  pose proof (zsum_bounds (is_order <$> es) 0 1) as H. rewrite length_fmap in H.
  assert (forall x, x ∈ is_order <$> es -> 0 <= x <= 1); [|specialize (H H0); lia].
  intros x (e & -> & _)%list_elem_of_fmap. unfold is_order. destruct (bo_data e); lia.
Qed.

Lemma playing_within st hist es N : playing st hist es N -> within st.
Proof.
  intros [_ Hok Hs _ Ho _ Hr Ht Hj Hn _ _]. apply (f_equal length) in Hs. rewrite length_fmap, length_take in Hs.
  pose proof (orders_few es). pose proof (so_length _ _ _ Hok). pose proof (so_counts _ _ _ Hok). split; lia.
Qed.

(** The reference book has room for every order when its turn comes. *)
Fixpoint sends_placed (fuel : nat) (w : Turn) (st : session) : Prop :=
  match OrderBlaster.pop (blaster st) with
  | (None, _) => True
  | (Some e, b) =>
      has_place (shadow st) e /\
      match fuel with
      | O => True
      | S fuel =>
          let '(tsc, r, ts) := w_send w (OrderBlaster.read_pos_ (blaster st)) in
          match feed (shadow st) e ts with
          | Some s => sends_placed fuel w (sent_one st e b tsc r s)
          | None => True
          end
      end
  end.
Definition batched (st : session) : session :=
  on_blaster st (OrderBlaster.generate_batch dlog dcos (blaster st)).2.
Fixpoint placed (ws : list Turn) (st : session) : Prop :=
  match ws with
  | [] => True
  | w :: ws =>
      sends_placed (waiting_orders (batched st)) w (batched st) /\
      match turn dlog dcos w st with Some (_, st') => placed ws st' | None => True end
  end.

Lemma take_sent (hist : list payload) k es x : 0 <= k -> bo_data <$> es = take (Z.to_nat k) hist ->
  hist !! Z.to_nat k = Some (bo_data x) -> bo_data <$> (es ++ [x]) = take (Z.to_nat (k + 1)) hist.
Proof.
  intros Hk He Hx. rewrite fmap_app, He. replace (Z.to_nat (k + 1)) with (S (Z.to_nat k)) by lia.
  by rewrite (take_S_r _ _ _ Hx).
Qed.

Lemma read_pos_nonneg st hist : session_ok cfg st hist ->
  0 <= OrderBlaster.read_pos_ (blaster st) <= OrderBlaster.write_pos_ (blaster st) /\
  OrderBlaster.write_pos_ (blaster st) = Z.of_nat (length hist).
Proof. intros [(_ & [Rw Rr _ _] & _) _ _ _]. done. Qed.

Lemma sent_one_playing st hist es N e b tsc r ts : playing st hist es N ->
  OrderBlaster.pop (blaster st) = (Some e, b) -> has_place (shadow st) e ->
  exists s, feed (shadow st) e ts = Some s /\ playing (sent_one st e b tsc r s) hist (es ++ [e]) N /\
    OrderBlaster.read_pos_ b = OrderBlaster.read_pos_ (blaster st) + 1 /\
    OrderBlaster.write_pos_ b = OrderBlaster.write_pos_ (blaster st).
Proof.
  intros Hp Hpop Hpl. pose proof (playing_within _ _ _ _ Hp) as Hw. destruct Hp as [H1 H2 H3 H4 H5 H6 H7 H8 H9 H10 H11 H12].
  destruct (send_session_ok cfg st hist e b ts (SandboxBridge.send_order (bridge st) e tsc r).2 Hcfg H2 (proj1 Hw) Hpop Hpl)
    as (s & Hf & Hok & Hk & Hfr & Hr & Hwp).
  destruct (send_order_frame (bridge st) e tsc r) as (E1 & E2 & E3 & E4).
  exists s. split; [done|]. split; [|done]. split; cbn [sent_one blaster bridge shadow n_orders n_fills n_acks];
    unfold tallied_link, SandboxBridge.is_connected in *; rewrite ?E1, ?E2, ?E3, ?E4; try done.
  - eapply reach_step; [exact H1|exact Hw|]. by eapply st_send.
  - rewrite Hr. apply take_sent; [|done|done]. apply read_pos_nonneg in H2. lia.
  - apply Forall_app_2; [done|by repeat constructor].
  - rewrite fmap_app, zsum_app, H5. cbn. lia.
  - rewrite length_app. cbn [length]. replace (Z.of_nat (length es + 1)) with (Z.of_nat (length es) + 1) by lia.
    apply send_order_counts; [done|done|]. apply (f_equal length) in H3. rewrite length_fmap, length_take in H3.
    pose proof (so_length _ _ _ H2). lia.
Qed.

Lemma send_loop_ok w n : forall st hist es N, n = waiting_orders st -> playing st hist es N -> sends_placed n w st ->
  exists es' st', send_loop n w st = Some (E_order <$> es', st') /\ playing st' hist (es ++ es') N /\
    OrderBlaster.read_pos_ (blaster st') = OrderBlaster.write_pos_ (blaster st').
Proof.
  induction n as [|n IH]; intros st hist es N En Hp Hpl; cbn [send_loop sends_placed] in *;
    destruct (read_pos_nonneg st hist (pl_ok _ _ _ _ Hp)) as [Hr Hw]; unfold waiting_orders in En;
    pose proof (OrderBlaster.pop_ok cfg (blaster st) hist (so_blaster _ _ _ (pl_ok _ _ _ _ Hp))
      ltac:(pose proof (so_length _ _ _ (pl_ok _ _ _ _ Hp)); lia)) as Hpo;
    destruct (OrderBlaster.pop (blaster st)) as [[e|] b] eqn:Hpop; destruct Hpo as (_ & _ & Hpo).
  - destruct Hpo as (Hk & _). apply lookup_lt_Some in Hk. lia.
  - exists [], st. rewrite app_nil_r. split; [done|]. split; [done|lia].
  - destruct Hpl as [Hpl Hrest].
    destruct (w_send w (OrderBlaster.read_pos_ (blaster st))) as [[tsc r] ts].
    destruct (sent_one_playing st hist es N e b tsc r ts Hp Hpop Hpl) as (s & Hf & Hp' & Hr' & Hw'). rewrite Hf in *.
    destruct (IH (sent_one st e b tsc r s) hist (es ++ [e]) N) as (es' & st' & E & Hp2 & Hd); [|done|done|].
    { unfold waiting_orders. cbn [sent_one blaster]. rewrite Hr', Hw'. lia. }
    exists (e :: es'), st'. cbn [mbind option_bind]. rewrite E. rewrite (pl_fd _ _ _ _ Hp).
    rewrite <- app_assoc in Hp2. done.
  - exists [], st. rewrite app_nil_r. split; [done|]. split; [done|]. by destruct Hpo.
Qed.

Lemma judge_loop_ok n : forall st hist es N, n = waiting_responses st -> playing st hist es N ->
  exists st', judge_loop n st = Some st' /\ playing st' hist es N /\ blaster st' = blaster st /\
    SandboxBridge.resp_head_ (bridge st') = SandboxBridge.resp_tail_ (bridge st') /\
    SandboxBridge.stats_ (bridge st') = SandboxBridge.stats_ (bridge st).
Proof.
  induction n as [|n IH]; intros st hist es N En Hp; pose proof Hp as [H1 H2 H3 H4 H5 H6 H7 H8 H9 H10 H11 H12];
    unfold waiting_responses in En; cbn [judge_loop]; unfold SandboxBridge.pop_response;
    destruct (Z.leb_spec (SandboxBridge.resp_tail_ (bridge st)) (SandboxBridge.resp_head_ (bridge st))) as [Hle|Hlt];
    try lia; try (exists st; split; [done|]; split; [done|]; split; [done|]; split; [lia|done]).
  match goal with |- context [judged_one st ?r ?b] => set (r0 := r); set (b0 := b) end.
  assert (Hh : SandboxBridge.resp_head_ b0 = SandboxBridge.resp_head_ (bridge st) + 1) by (cbn; rewrite u64_small; lia).
  destruct (IH (judged_one st r0 b0) hist es N) as (st' & E & Hp' & Eb & Hd & Es).
  { unfold waiting_responses. cbn [judged_one bridge]. rewrite Hh. subst b0. cbn. lia. }
  { split; cbn [judged_one blaster bridge shadow n_orders n_fills n_acks]; rewrite ?Hh; try done.
    - eapply reach_step; [exact H1|by eapply playing_within|]. eapply st_judge. unfold SandboxBridge.pop_response.
      rewrite (proj2 (Z.leb_gt _ _)) by done. done.
    - pose proof (so_counts _ _ _ H2). apply judge_session_ok; [done|lia..].
    - subst b0. cbn [SandboxBridge.resp_tail_]. lia.
    - unfold is_fill, is_ack. destruct (rs_response_type r0); lia. }
  by exists st'.
Qed.
(** Nothing waits in the generator's ring or in the response ring. *)
Definition drained (st : session) : Prop :=
  OrderBlaster.read_pos_ (blaster st) = OrderBlaster.write_pos_ (blaster st) /\
  SandboxBridge.resp_head_ (bridge st) = SandboxBridge.resp_tail_ (bridge st).

Lemma collect_ok chunks st hist es N : playing st hist es N -> N + volume chunks < 2 ^ 60 ->
  exists st', collect chunks st = Some st' /\ playing st' hist es (N + volume chunks) /\
    blaster st' = blaster st /\ SandboxBridge.resp_head_ (bridge st') = SandboxBridge.resp_tail_ (bridge st') /\
    counted (bridge st') = counted (bridge st).
Proof.
  intros Hp HN. pose proof (volume_nonneg chunks). pose proof Hp as [H1 H2 H3 H4 H5 H6 H7 H8 H9 H10 H11 H12].
  destruct (recv_frame (bridge st) chunks) as ((E1 & E2 & E4) & E3 & E5); [lia..|]. unfold collect.
  set (br := (SandboxBridge.recv_responses (bridge st) chunks).2) in *.
  destruct (judge_loop_ok (waiting_responses (on_bridge st br)) (on_bridge st br) hist es (N + volume chunks) eq_refl)
    as (st' & E & Hp' & Eb & Hd & Es).
  - split; cbn [on_bridge blaster bridge shadow n_orders n_fills n_acks]; unfold attempts, SandboxBridge.is_connected in *;
      rewrite ?E1, ?E2, ?E4; try done; try lia; [| |by apply E5].
    + eapply reach_step; [exact H1|by eapply playing_within|]. apply st_recv.
    + by destruct H2.
  - exists st'. do 4 (split; [done|]). unfold counted in *. rewrite Es. exact E4.
Qed.

Lemma match_turn_ok w st hist es N : playing st hist es N -> N + volume (w_chunks w) < 2 ^ 60 ->
  Z.of_nat (length hist) + orders_per_batch cfg < 2 ^ 32 - 1 ->
  sends_placed (waiting_orders (batched st)) w (batched st) ->
  exists ms es' st', turn dlog dcos w st = Some (E_order <$> es', st') /\
    (length ms <= Z.to_nat (orders_per_batch cfg))%nat /\
    playing st' (hist ++ ms) (es ++ es') (N + volume (w_chunks w)) /\ drained st'.
Proof.
  intros Hp HN Hl Hpl. pose proof Hp as [H1 H2 H3 H4 H5 H6 H7 H8 H9 H10 H11 H12].
  destruct (batch_session_ok dlog dcos cfg st hist Hcfg H2 Hl) as (Hr & ms & Hms & Hok).
  assert (Hp1 : playing (batched st) (hist ++ ms) es N).
  { split; cbn [batched on_blaster blaster bridge shadow n_orders n_fills n_acks]; try done.
    - eapply reach_step; [exact H1|by eapply playing_within|]. apply st_batch.
      pose proof (so_blaster _ _ _ H2) as (-> & [-> _ _ _] & _). done.
    - rewrite Hr, H3. destruct (read_pos_nonneg st hist H2). rewrite take_app_le by lia. done. }
  destruct (send_loop_ok w _ (batched st) (hist ++ ms) es N eq_refl Hp1 Hpl) as (es' & st1 & E & Hp2 & Hd).
  destruct (collect_ok (w_chunks w) st1 _ _ _ Hp2 HN) as (st2 & E2 & Hp3 & Eb & Hd2 & _).
  exists ms, es', st2. unfold turn. fold (batched st). rewrite E. cbn [mbind option_bind]. rewrite E2.
  split; [done|]. split; [done|]. split; [done|]. split; [by rewrite Eb|done].
Qed.

Lemma match_loop_ok ws : forall st hist es N, playing st hist es N -> drained st ->
  N + volume (concat (w_chunks <$> ws)) < 2 ^ 60 ->
  Z.of_nat (length hist) + Z.of_nat (length ws) * orders_per_batch cfg < 2 ^ 32 - 1 -> placed ws st ->
  exists hist' es' st', match_loop dlog dcos ws st = Some (E_order <$> es', st') /\
    playing st' hist' (es ++ es') (N + volume (concat (w_chunks <$> ws))) /\ drained st'.
Proof.
  pose proof (OrderBlaster.co_batch cfg Hcfg) as Hb.
  induction ws as [|w ws IH]; intros st hist es N Hp Hd HN Hl Hpl; cbn [match_loop length placed fmap list_fmap concat] in *.
  { exists hist, [], st. rewrite app_nil_r. change (volume []) with 0. rewrite Z.add_0_r. done. }
  assert (Ev : volume (w_chunks w ++ concat (w_chunks <$> ws)) = volume (w_chunks w) + volume (concat (w_chunks <$> ws)))
    by (unfold volume; by rewrite fmap_app, zsum_app).
  pose proof (volume_nonneg (concat (w_chunks <$> ws))). rewrite Ev in *. destruct Hpl as [Hpl Hrest].
  destruct (match_turn_ok w st hist es N Hp ltac:(lia) ltac:(nia) Hpl) as (ms & es1 & st1 & E & Hms & Hp1 & Hd1).
  rewrite E in *. cbn [mbind option_bind].
  destruct (IH st1 (hist ++ ms) (es ++ es1) (N + volume (w_chunks w)) Hp1 Hd1) as (hist' & es' & st' & E' & Hp' & Hd');
    [lia|rewrite length_app; nia|done|].
  exists hist', (es1 ++ es'), st'. rewrite E'. cbn [mbind option_bind]. rewrite fmap_app, app_assoc, Z.add_assoc. done.
Qed.
End Play.

(** ** Set-up *)

(** The flag and the arena of a set-up whose sizes are all known. *)
Ltac sized_init E :=
  match type of E with ?f = (?ok, ?ar, ?x) =>
    let v := eval vm_compute in f.1.2 in
    assert (ok = true) as -> by (change ok with ((ok, ar, x).1.1); rewrite <- E; vm_compute; reflexivity);
    assert (ar = v) as -> by (change ar with ((true, ar, x).1.2); rewrite <- E; vm_compute; reflexivity)
  end.

(** A link that has been set up and waits for its contestant. *)
Definition fresh_link (b : SandboxBridge.t) : Prop :=
  SandboxBridge.client_fd_ b = -1 /\ SandboxBridge.resp_head_ b = 0 /\ SandboxBridge.resp_tail_ b = 0 /\
  SandboxBridge.stats_ b = zero_stats.

Lemma link_init_fresh arena td nd r l arena' b :
  SandboxBridge.init arena td nd (SandboxBridge.new r l) = (true, arena', b) -> fresh_link b.
Proof.
  unfold SandboxBridge.init. destruct (HugePageArena.allocate_raw _ _ _) as [[?|] ?], (HugePageArena.allocate_raw _ _ _) as [[?|] ?];
    intros [= <- <-]; done.
Qed.

(** Half a gibibyte holds everything a match allocates: once the arena is
    mapped, no set-up fails. *)
Definition mapped (w : World) : Prop :=
  exists p, p <> 0 /\ (w_huge w = Some p \/ (w_huge w = None /\ w_regular w = Some p)).

Lemma open_match_ok cfg socket w : mapped w ->
  exists st, open_match cfg socket w = ([], Some st) /\ started cfg st /\ fresh_link (bridge st) /\
    OrderBlaster.read_pos_ (blaster st) = OrderBlaster.write_pos_ (blaster st).
Proof.
  intros (p & Hp & Hm). unfold open_match.
  assert (Ea : exists h, (HugePageArena.init HugePageArena.new (512 * 1024 * 1024) (w_huge w) (w_regular w)).2 =
    {| HugePageArena.base_ := p; HugePageArena.size_ := 536870912; HugePageArena.offset_ := 0;
       HugePageArena.hugepage_backed_ := h |}).
  { destruct Hm as [->|[-> ->]]; [by exists true|by exists false]. }
  destruct Ea as [h ->]. unfold HugePageArena.is_initialized. cbn [HugePageArena.base_].
  rewrite (proj2 (Z.eqb_neq p 0)) by done. cbn [negb].
  set (A := {| HugePageArena.base_ := p |}). set (b0 := OrderBlaster.new _ _ _). set (s0 := {| book_ := new_book |}).
  destruct (OrderBlaster.init A cfg b0) as [[ok ar] bl] eqn:E1. sized_init E1. cbn [negb].
  match goal with |- context [ShadowOrderbook.init ?a] => set (A1 := a) in * end.
  destruct (ShadowOrderbook.init A1 (fun _ => zero_order) s0) as [[ok ar] sh] eqn:E2. sized_init E2. cbn [negb].
  match goal with |- context [SandboxBridge.init ?a ?x ?y ?z] => destruct (SandboxBridge.init a x y z) as [[ok ar] br] eqn:E3 end.
  sized_init E3. cbn [negb]. eexists. split; [done|].
  assert (Hst : started cfg {| blaster := bl; bridge := br; shadow := sh; n_orders := 0; n_fills := 0; n_acks := 0 |}).
  { eexists A, b0, A1, (fun _ => zero_order), s0. cbn [blaster shadow n_orders n_fills n_acks].
    rewrite E1, E2. cbn [fst snd]. split; [split; reflexivity|]. do 4 (split; [reflexivity|]).
    split; [intros o; apply Z.le_refl|]. repeat split; reflexivity. }
  split; [done|]. split; [by eapply link_init_fresh|].
  destruct (read_pos_nonneg cfg _ [] (started_session_ok cfg _ Hst)) as [Hr Hw]. cbn [length] in Hw. lia.
Qed.

(** ** The play *)

Section Played.
Context (dlog dcos : spec_float -> spec_float) (cfg : OrderBlasterConfig) (Hcfg : OrderBlaster.config_ok cfg).

Lemma drained_sent st hist es N : playing dlog dcos cfg st hist es N -> drained st -> bo_data <$> es = hist.
Proof.
  intros Hp [Hd _]. destruct (read_pos_nonneg cfg st hist (pl_ok _ _ _ _ _ _ _ Hp)) as [_ Hw].
  rewrite (pl_sent _ _ _ _ _ _ _ Hp), Hd, Hw, Nat2Z.id. by apply take_ge.
Qed.

(** A play in a session just opened: SESSION_START, the generated stream,
    SESSION_END, and everything received judged. *)
Lemma play_ok dur ops pid ep w st : started cfg st -> SandboxBridge.is_connected (bridge st) = true ->
  SandboxBridge.resp_head_ (bridge st) = 0 -> SandboxBridge.resp_tail_ (bridge st) = 0 ->
  SandboxBridge.stats_ (bridge st) = zero_stats ->
  volume (concat (w_chunks <$> w_turns w)) + volume (w_drain w) < 2 ^ 60 ->
  Z.of_nat (length (w_turns w)) * orders_per_batch cfg < 2 ^ 32 - 1 -> placed dlog dcos (w_turns w) st ->
  exists es st1 st' hist N,
    play dlog dcos dur ops pid ep w st =
      Some (link_events [SandboxBridge.L_control (to_wire (session_start dur ops))] ++ (E_order <$> es) ++
            link_events [SandboxBridge.L_control (to_wire (session_end (bridge st1)))] ++
            link_events (SandboxBridge.shutdown ep (bridge st')).1.1 ++
            (if 0 <? pid then [E_kill pid SIGTERM; E_kill pid SIGKILL; E_wait pid] else []),
            (SandboxBridge.shutdown ep (bridge st')).1.2,
            on_bridge st' (SandboxBridge.shutdown ep (bridge st')).2) /\
    playing dlog dcos cfg st' hist es N /\ drained st' /\ bo_data <$> es = hist /\
    counted (bridge st') = counted (bridge st1).
Proof.
  intros Hst Hc Hh Ht Hs Hv Hl Hpl. pose proof (started_session_ok cfg st Hst) as Hok.
  destruct (read_pos_nonneg cfg st [] Hok) as [Hr Hw]. cbn [length] in Hw. pose proof (volume_nonneg (w_drain w)).
  assert (Hz : n_orders st = 0 /\ n_fills st = 0 /\ n_acks st = 0)
    by (by destruct Hst as (? & ? & ? & ? & ? & _ & _ & _ & _ & _ & _ & _ & _ & -> & -> & ->)).
  destruct Hz as (Z1 & Z2 & Z3).
  assert (Hp0 : playing dlog dcos cfg st [] [] 0).
  { split; unfold attempts, counted, tallied_link; rewrite ?Hs, ?Hh, ?Ht, ?Z1, ?Z2, ?Z3; try done; try lia; [by apply reach_start|by rewrite take_nil]. }
  assert (Hd0 : drained st) by (split; lia).
  destruct (match_loop_ok dlog dcos cfg Hcfg (w_turns w) st [] [] 0 Hp0 Hd0) as (hist & es & st1 & E & Hp1 & Hd1);
    [lia|cbn [length]; lia|done|].
  destruct (collect_ok dlog dcos cfg (w_drain w) st1 _ _ _ Hp1) as (st2 & E2 & Hp2 & Eb & Hd2 & Ec); [lia|].
  exists es, st1, st2, hist, (0 + volume (concat (w_chunks <$> w_turns w)) + volume (w_drain w)).
  assert (Hd : drained st2) by (split; [rewrite Eb; apply Hd1|done]).
  split; [|split; [done|split; [done|split; [by eapply drained_sent|done]]]].
  unfold play, SandboxBridge.send_control. pose proof (pl_fd _ _ _ _ _ _ _ Hp1) as Hc1.
  unfold SandboxBridge.is_connected in *. rewrite (proj2 (Z.ltb_ge _ _)) by (by apply Z.leb_le).
  rewrite E. cbn [mbind option_bind]. rewrite (proj2 (Z.ltb_ge _ _)) by (by apply Z.leb_le).
  rewrite E2. cbn [mbind option_bind]. by destruct (SandboxBridge.shutdown ep (bridge st2)) as [[c3 ep3] br3].
Qed.
End Played.

(** The contestant's machine boots, where there is one, and it connects. *)
Definition boots {F} (use_firecracker : bool) (kernel rootfs : option (list Z))
    (boot : list Z -> list Z -> option (list boot_event * (F + Z))) : Prop :=
  forall k r, use_firecracker = true -> kernel = Some k -> rootfs = Some r -> exists ev pid, boot k r = Some (ev, inr pid).
Definition connects (k : SandboxBridge.ListenAnswers) : Prop :=
  0 <= SandboxBridge.lk_socket k /\ 0 <= SandboxBridge.lk_bind k /\ 0 < SandboxBridge.lk_poll k /\
  0 <= SandboxBridge.lk_accept k.
Definition joined (w : World) (st : session) : session :=
  on_bridge st (SandboxBridge.set_client (bridge st) (SandboxBridge.lk_accept (w_listen w))).

Lemma listen_connects ep b k : connects k -> exists ev,
  SandboxBridge.listen_and_accept ep b k =
    (ev, true, {| SandboxBridge.socket_path_ := SandboxBridge.socket_path_ ep; SandboxBridge.listen_fd_ := SandboxBridge.lk_socket k |},
     SandboxBridge.set_client b (SandboxBridge.lk_accept k)).
Proof.
  intros (H1 & H2 & H3 & H4). unfold SandboxBridge.listen_and_accept.
  rewrite (proj2 (Z.ltb_ge (SandboxBridge.lk_socket k) 0)), (proj2 (Z.ltb_ge (SandboxBridge.lk_bind k) 0)),
    (proj2 (Z.leb_gt (SandboxBridge.lk_poll k) 0)), (proj2 (Z.ltb_ge (SandboxBridge.lk_accept k) 0)) by done.
  by eexists.
Qed.

(** Beside a machine, within three seconds. *)
Definition in_time (use_firecracker : bool) (w : World) : Prop :=
  use_firecracker = true -> match w_listener w with None => True | Some n => (5 <= n)%nat end.

Lemma start_connects {F} use kernel rootfs (boot : _ -> _ -> option (list boot_event * (F + Z))) binary socket ep b w :
  boots use kernel rootfs boot -> connects (w_listen w) -> in_time use w -> exists ev pid,
  start_contestant use kernel rootfs boot binary socket ep b w =
    Some (ev, inr (pid, false, {| SandboxBridge.socket_path_ := SandboxBridge.socket_path_ ep;
                           SandboxBridge.listen_fd_ := SandboxBridge.lk_socket (w_listen w) |},
                   SandboxBridge.set_client b (SandboxBridge.lk_accept (w_listen w)))).
Proof.
  intros Hb Hc Ht. unfold start_contestant, detached_listener. destruct (listen_connects ep b (w_listen w) Hc) as (lev & ->).
  destruct use, kernel as [k|], rootfs as [r|]; try by do 2 eexists.
  destruct (Hb k r eq_refl eq_refl eq_refl) as (bev & pid & ->). cbn [mbind option_bind]. specialize (Ht eq_refl).
  destruct (w_listener w) as [n|]; [|by do 2 eexists].
  assert (SandboxBridge.is_connected (SandboxBridge.set_client b (SandboxBridge.lk_accept (w_listen w))) = true) as ->
    by (apply Z.leb_le; apply Hc).
  rewrite (proj2 (Nat.leb_le 5 n)) by done. by do 2 eexists.
Qed.

(** What the world of a match stays within: fewer than 2^60 bytes received, fewer
    than 2^32-1 messages generated, and room in the reference book for every order
    when it is sent. *)
Record fits dlog dcos (cfg : OrderBlasterConfig) (socket : list Z) (w : World) : Prop := {
  fit_bytes : volume (concat (w_chunks <$> w_turns w)) + volume (w_drain w) < 2 ^ 60;
  fit_messages : Z.of_nat (length (w_turns w)) * orders_per_batch cfg < 2 ^ 32 - 1;
  fit_placed : forall st, (open_match cfg socket w).2 = Some st -> placed dlog dcos (w_turns w) (joined w st) }.

(** A session played to its end after the messages [es] and the report [fin]: the
    stream is one the generator may produce, nothing waits in the rings, every
    message was sent, dropped or failed, the report counts those sent, the session
    is one of those [Contest] reasons about, and the verdict covers the orders and
    the responses. *)
Record complete dlog dcos cfg (es : list BlastOrder) (fin : SessionEnd) (st : session) : Prop := {
  cp_stream : OrderBlaster.stream_valid cfg (bo_data <$> es);
  cp_framed : Forall OrderBlaster.framed es;
  cp_drained : drained st;
  cp_attempts : attempts (bridge st) (Z.of_nat (length es));
  cp_type : se_msg_type fin = SESSION_END;
  cp_total : se_total_orders fin = bs_orders_sent (SandboxBridge.stats_ (bridge st));
  cp_reach : exists br, reach dlog dcos cfg (on_bridge st br);
  cp_orders : vr_total_orders (result_ (finalize (shadow st))) = zsum (is_order <$> es);
  cp_responses : let r := result_ (finalize (shadow st)) in
    vr_total_actual r + vr_total_acks r <= bs_responses_recv (SandboxBridge.stats_ (bridge st));
  cp_fills : let r := result_ (finalize (shadow st)) in
    vr_correct_fills r + vr_wrong_price r + vr_wrong_qty r + vr_extra_fills r = vr_total_actual r;
  cp_expected : let r := result_ (finalize (shadow st)) in
    vr_correct_fills r + vr_wrong_price r + vr_wrong_qty r + vr_missing_fills r = vr_total_expected r }.

Lemma playing_complete dlog dcos cfg st1 st hist es N ep : playing dlog dcos cfg st hist es N -> drained st ->
  bo_data <$> es = hist -> counted (bridge st) = counted (bridge st1) ->
  complete dlog dcos cfg es (session_end (bridge st1)) (on_bridge st (SandboxBridge.shutdown ep (bridge st)).2).
Proof.
  intros Hp Hd Eh Ec. pose proof Hp as [Hr Hok _ H4 H5 _ H7 H8 [H9 H9'] _ H11 H12].
  pose proof (so_blaster _ _ _ Hok) as (_ & _ & _ & Hsv).
  destruct (audit_accounts _ _ _ _ (so_audit _ _ _ Hok)) as (A1 & A2 & A3 & A4 & A5 & _).
  assert (Esh : let b := (SandboxBridge.shutdown ep (bridge st)).2 in
    counted b = counted (bridge st) /\ SandboxBridge.resp_head_ b = SandboxBridge.resp_head_ (bridge st) /\
    SandboxBridge.resp_tail_ b = SandboxBridge.resp_tail_ (bridge st) /\
    SandboxBridge.stats_ b = SandboxBridge.stats_ (bridge st)) by (by cbn; case_match).
  destruct Esh as (S1 & S2 & S3 & S4). unfold counted in Ec. injection Ec as Ec1 _ _.
  assert (Hle : Z.of_nat (length es) < 2 ^ 32) by (rewrite <- (length_fmap bo_data), Eh; pose proof (so_length _ _ _ Hok); lia).
  split; unfold attempts, drained, tallied_link in *; cbn [on_bridge blaster bridge shadow];
    rewrite ?S1, ?S2, ?S3, ?S4, ?Eh, ?A1, ?A2, ?A3, ?H12; try done.
  - cbn. rewrite <- Ec1, u32_small; [done|]. unfold counted in H11. lia.
  - exists (bridge st). by destruct st.
  - lia.
  - by rewrite <- A3.
Qed.

(** The session of a match whose contestant starts and connects in time. *)
Lemma session_played dlog dcos {F} cfg dur ops use kernel rootfs
    (boot : list Z -> list Z -> option (list boot_event * (F + Z))) binary socket w :
  OrderBlaster.config_ok cfg -> mapped w -> boots use kernel rootfs boot -> connects (w_listen w) -> in_time use w ->
  fits dlog dcos cfg socket w ->
  exists pre es fin post st,
    run_session dlog dcos cfg dur ops use kernel rootfs boot binary socket w =
      Some (pre ++ link_events [SandboxBridge.L_control (to_wire (session_start dur ops))] ++ (E_order <$> es) ++
            link_events [SandboxBridge.L_control (to_wire fin)] ++ post, Played st) /\
    complete dlog dcos cfg es fin st.
Proof.
  intros Hcfg Hm Hb Hc Hti [Hv Hl Hpl]. destruct (open_match_ok cfg socket w Hm) as (st0 & Eo & Hst & (F1 & F2 & F3 & F4) & _).
  unfold run_session. rewrite Eo in *. specialize (Hpl st0 eq_refl).
  destruct (start_connects use kernel rootfs boot binary socket
    {| SandboxBridge.socket_path_ := Some socket; SandboxBridge.listen_fd_ := -1 |} (bridge st0) w Hb Hc Hti) as (ev1 & pid & ->).
  assert (Hfd : SandboxBridge.is_connected (bridge (joined w st0)) = true) by (apply Z.leb_le; apply Hc).
  cbn [mbind option_bind SandboxBridge.socket_path_]. rewrite (Hfd : SandboxBridge.is_connected (SandboxBridge.set_client _ _) = true).
  cbn [negb]. fold (joined w st0).
  match goal with |- context [play dlog dcos dur ops pid ?e w _] => set (ep := e) end.
  destruct (play_ok dlog dcos cfg Hcfg dur ops pid ep w (joined w st0)) as (es & st1 & st2 & hist & N & -> & Hp & Hd & Eh & Ec);
    try done.
  cbn [mbind option_bind]. exists ev1, es, (session_end (bridge st1)). eexists _, _. split.
  { do 2 f_equal. rewrite <- !app_assoc. done. }
  by eapply playing_complete.
Qed.

(** Whatever the contestant does, a session returns within those limits, as long
    as the boot does: the loops have the fuel they need. *)
Definition boot_returns {F} (use_firecracker : bool) (kernel rootfs : option (list Z))
    (boot : list Z -> list Z -> option (list boot_event * (F + Z))) : Prop :=
  forall k r, use_firecracker = true -> kernel = Some k -> rootfs = Some r -> is_Some (boot k r).

Lemma opened_mapped cfg socket w ev st : open_match cfg socket w = (ev, Some st) -> mapped w.
Proof.
  unfold open_match, HugePageArena.init, mapped.
  destruct (w_huge w) as [p|]; [|destruct (w_regular w) as [p|]; [|done]]; cbn;
    (destruct (Z.eqb_spec p 0) as [->|Hp]; [done|]); intros _; exists p; auto.
Qed.

Lemma listen_joins ep b k ev ok ep' b' : SandboxBridge.is_connected b = false ->
  SandboxBridge.listen_and_accept ep b k = (ev, ok, ep', b') -> SandboxBridge.is_connected b' = true ->
  b' = SandboxBridge.set_client b (SandboxBridge.lk_accept k).
Proof.
  intros Hb. unfold SandboxBridge.listen_and_accept. cbv zeta.
  destruct (SandboxBridge.lk_socket k <? 0), (SandboxBridge.lk_bind k <? 0), (SandboxBridge.lk_poll k <=? 0),
    (SandboxBridge.lk_accept k <? 0); intros E; injection E as _ _ _ <-; by rewrite ?Hb.
Qed.

Lemma detached_joins running ep b k ev late ep' b' : SandboxBridge.is_connected b = false ->
  detached_listener running ep b k = (ev, late, ep', b') -> SandboxBridge.is_connected b' = true ->
  b' = SandboxBridge.set_client b (SandboxBridge.lk_accept k).
Proof.
  intros Hb. unfold detached_listener. destruct (SandboxBridge.listen_and_accept ep b k) as [[[lev ok] ep1] b1] eqn:E.
  destruct running as [n|]; [case_match|]; intros [= <- <- <- <-] Hc; try (by eapply listen_joins).
  by rewrite Hb in Hc.
Qed.

Lemma session_returns dlog dcos {F} cfg dur ops use kernel rootfs
    (boot : list Z -> list Z -> option (list boot_event * (F + Z))) binary socket w :
  OrderBlaster.config_ok cfg -> boot_returns use kernel rootfs boot -> fits dlog dcos cfg socket w ->
  is_Some (run_session dlog dcos cfg dur ops use kernel rootfs boot binary socket w).
Proof.
  intros Hcfg Hb [Hv Hl Hpl]. unfold run_session. destruct (open_match cfg socket w) as [ev0 [st|]] eqn:Eo; [|by eexists].
  destruct (open_match_ok cfg socket w (opened_mapped _ _ _ _ _ Eo)) as (st0 & E0 & Hst & (F1 & F2 & F3 & F4) & _).
  rewrite E0 in Eo. injection Eo as <- <-. specialize (Hpl st0 eq_refl).
  assert (Hnc : SandboxBridge.is_connected (bridge st0) = false) by (unfold SandboxBridge.is_connected; by rewrite F1).
  set (ep0 := {| SandboxBridge.socket_path_ := Some socket |}).
  assert (Hs : exists ev1 r, start_contestant use kernel rootfs boot binary socket ep0 (bridge st0) w = Some (ev1, r) /\
    match r with inl _ => True | inr (_, _, _, br) => SandboxBridge.is_connected br = true ->
      br = SandboxBridge.set_client (bridge st0) (SandboxBridge.lk_accept (w_listen w)) end).
  { unfold start_contestant.
    destruct (SandboxBridge.listen_and_accept ep0 (bridge st0) (w_listen w)) as [[[lev ok] ep1] b1] eqn:El.
    pose proof (fun H => listen_joins _ _ _ _ _ _ _ Hnc El H) as Hj.
    destruct use, kernel as [k|], rootfs as [r|]; try (by eexists _, _).
    destruct (Hb k r eq_refl eq_refl eq_refl) as [[bev [f|pid]] ->]; cbn [mbind option_bind]; [by eexists _, _|].
    destruct (detached_listener _ _ _ _) as [[[lev' late] ep2] b2] eqn:Ed. eexists _, _. split; [done|].
    cbn iota beta. intros Hc. by eapply detached_joins. }
  destruct Hs as (ev1 & [f|[[[pid late] ep] br]] & -> & Hj); cbn [mbind option_bind]; [by eexists|].
  destruct (SandboxBridge.is_connected br) eqn:Ec; cbn [negb]; [|by eexists].
  specialize (Hj eq_refl). subst br. fold (joined w st0).
  destruct (play_ok dlog dcos cfg Hcfg dur ops pid ep w (joined w st0)) as (es & st1 & st2 & hist & N & -> & _); try done.
Qed.

(** ** The scored match *)





(** ** Clean-up *)

Definition opens (e : event) : option Z :=
  match e with E_link (SandboxBridge.L_socket fd) | E_link (SandboxBridge.L_accept fd) => Some fd | _ => None end.
Definition closes (e : event) : option Z := match e with E_link (SandboxBridge.L_close fd) => Some fd | _ => None end.
Definition spawns (e : event) : option Z := match e with E_spawn pid _ _ => Some pid | _ => None end.
Definition lates (e : event) : option unit := match e with E_late => Some tt | _ => None end.

(** Events that neither open nor close a descriptor nor start a process nor
    leave a listener behind. *)
Definition quiet (ev : list event) : Prop :=
  omap opens ev = [] /\ omap closes ev = [] /\ omap spawns ev = [] /\ omap lates ev = [].

Lemma quiet_app l k : quiet l -> quiet k -> quiet (l ++ k).
Proof. intros (H1 & H2 & H3 & H4) (K1 & K2 & K3 & K4). unfold quiet. by rewrite !omap_app, H1, H2, H3, H4, K1, K2, K3, K4. Qed.

(** What is done with the link leaves no listener behind. *)
Lemma link_lates l : omap lates (link_events l) = [].
Proof. induction l as [|x l IH]; [done|exact IH]. Qed.

Lemma quiet_boot bev : quiet (E_boot <$> bev).
Proof. induction bev as [|e bev IH]; [done|]. exact IH. Qed.

Lemma send_order_fd b e tsc r :
  SandboxBridge.client_fd_ (SandboxBridge.send_order b e tsc r).2 = SandboxBridge.client_fd_ b.
Proof. apply send_order_frame. Qed.

Lemma recv_fd b chunks :
  SandboxBridge.client_fd_ (SandboxBridge.recv_responses b chunks).2 = SandboxBridge.client_fd_ b.
Proof.
  unfold SandboxBridge.recv_responses. case_match; [done|]. clear H. generalize 0. revert b.
  induction chunks as [|[tsc bs] cs IH]; intros b n; [done|]. cbn [SandboxBridge.recv_loop]. case_match; [done|].
  rewrite IH. clear. induction (SandboxBridge.parse_chunk bs) as [|r rs IH] in b |- *; [done|]. cbn [foldl].
  rewrite IH. by destruct (handle_frame tsc b r) as ((-> & _) & _).
Qed.

Lemma send_loop_quiet w n : forall st ev st', send_loop n w st = Some (ev, st') ->
  SandboxBridge.client_fd_ (bridge st') = SandboxBridge.client_fd_ (bridge st) /\ quiet ev.
Proof.
  induction n as [|n IH]; intros st ev st' E; cbn [send_loop] in E;
    destruct (OrderBlaster.pop (blaster st)) as [[e|] b]; try done; try (by injection E as <- <-).
  destruct (w_send w _) as [[tsc r] ts]. destruct (feed (shadow st) e ts) as [s|]; [|done]. cbn [mbind option_bind] in E.
  destruct (send_loop n w _) as [[ev1 st1]|] eqn:E1; [|done]. injection E as <- <-. apply IH in E1 as [E1 Hq].
  rewrite E1. cbn [sent_one bridge]. rewrite send_order_fd. split; [done|]. apply quiet_app; [by case_match|done].
Qed.

Lemma judge_loop_fd n : forall st st', judge_loop n st = Some st' ->
  SandboxBridge.client_fd_ (bridge st') = SandboxBridge.client_fd_ (bridge st).
Proof.
  induction n as [|n IH]; intros st st' E; cbn [judge_loop] in E; unfold SandboxBridge.pop_response in E;
    destruct (_ <=? _); try done; try (by injection E as <-). by apply IH in E.
Qed.

Lemma collect_fd chunks st st' : collect chunks st = Some st' ->
  SandboxBridge.client_fd_ (bridge st') = SandboxBridge.client_fd_ (bridge st).
Proof. intros E%judge_loop_fd. rewrite E. apply recv_fd. Qed.

Lemma match_loop_quiet dlog dcos ws : forall st ev st', match_loop dlog dcos ws st = Some (ev, st') ->
  SandboxBridge.client_fd_ (bridge st') = SandboxBridge.client_fd_ (bridge st) /\ quiet ev.
Proof.
  induction ws as [|w ws IH]; intros st ev st' E; cbn [match_loop] in E; [by injection E as <- <-|].
  unfold turn in E. destruct (send_loop _ w _) as [[ev1 st1]|] eqn:E1; [|done]. cbn [mbind option_bind] in E.
  destruct (collect _ st1) as [st2|] eqn:E2; [|done]. cbn [mbind option_bind] in E.
  destruct (match_loop dlog dcos ws st2) as [[ev2 st3]|] eqn:E3; [|done].
  injection E as <- <-. apply send_loop_quiet in E1 as [F1 Q1]. apply collect_fd in E2. apply IH in E3 as [F3 Q3].
  split; [by rewrite F3, E2, F1|by apply quiet_app].
Qed.

(** The descriptors a link holds. *)
Definition held (ep : SandboxBridge.Endpoint) (b : SandboxBridge.t) : list Z :=
  (if 0 <=? SandboxBridge.client_fd_ b then [SandboxBridge.client_fd_ b] else []) ++
  (if 0 <=? SandboxBridge.listen_fd_ ep then [SandboxBridge.listen_fd_ ep] else []).

Lemma shutdown_closes ep b : let '(ev, ep', b') := SandboxBridge.shutdown ep b in
  omap opens (link_events ev) = [] /\ omap spawns (link_events ev) = [] /\
  omap closes (link_events ev) = held ep b /\ held ep' b' = [] /\
  SandboxBridge.socket_path_ ep' = SandboxBridge.socket_path_ ep /\
  (forall path, SandboxBridge.socket_path_ ep = Some path -> last ev = Some (SandboxBridge.L_unlink path)).
Proof.
  unfold SandboxBridge.shutdown, held, link_events.
  destruct (0 <=? SandboxBridge.client_fd_ b) eqn:E1, (0 <=? SandboxBridge.listen_fd_ ep) eqn:E2, (SandboxBridge.socket_path_ ep);
    cbn; rewrite ?E1, ?E2; repeat (split; [done|]); intros ? [=]; by simplify_eq.
Qed.

Lemma listen_opens ep b k : SandboxBridge.client_fd_ b = -1 -> SandboxBridge.listen_fd_ ep = -1 ->
  let '(ev, _, ep', b') := SandboxBridge.listen_and_accept ep b k in
  omap opens (link_events ev) ≡ₚ held ep' b' /\ omap spawns (link_events ev) = [] /\
  omap closes (link_events ev) = [] /\ SandboxBridge.socket_path_ ep' = SandboxBridge.socket_path_ ep.
Proof.
  intros Eb Ee. unfold SandboxBridge.listen_and_accept, held, link_events.
  destruct (Z.ltb_spec (SandboxBridge.lk_socket k) 0);
    [cbn; rewrite Eb; cbn; by rewrite (proj2 (Z.leb_gt _ _))|].
  destruct (SandboxBridge.lk_bind k <? 0); [cbn; rewrite Eb; cbn; by rewrite (proj2 (Z.leb_le _ _))|].
  destruct (SandboxBridge.lk_poll k <=? 0); [cbn; rewrite Eb; cbn; by rewrite (proj2 (Z.leb_le _ _))|].
  destruct (Z.ltb_spec (SandboxBridge.lk_accept k) 0); cbn; rewrite (proj2 (Z.leb_le 0 (SandboxBridge.lk_socket k))) by done.
  - by rewrite (proj2 (Z.leb_gt _ _)).
  - rewrite (proj2 (Z.leb_le _ _)) by done. split; [apply Permutation_swap|done].
Qed.

Lemma open_match_link cfg socket w : let '(ev, o) := open_match cfg socket w in
  quiet ev /\ match o with Some st => SandboxBridge.client_fd_ (bridge st) = -1 | None => True end.
Proof.
  unfold open_match. destruct (HugePageArena.is_initialized _); cbn [negb]; [|done].
  destruct (OrderBlaster.init _ _ _) as [[[] ar] bl]; cbn [negb]; [|done].
  destruct (ShadowOrderbook.init _ _ _) as [[[] ar2] sh]; cbn [negb]; [|done].
  destruct (SandboxBridge.init _ _ _ _) as [[[] ar3] br] eqn:E; cbn [negb]; [|done].
  split; [done|]. cbn [bridge]. by apply link_init_fresh in E as (-> & _).
Qed.

(** A process that was started has been killed and waited for. *)
Definition reaps (ev : list event) (pid : Z) : Prop :=
  exists pre post, ev = pre ++ [E_kill pid SIGKILL; E_wait pid] ++ post /\ pid ∈ omap spawns pre.

(** Also while the listener is still running: it holds what it has opened. *)
Lemma detached_opens running ep b k : SandboxBridge.client_fd_ b = -1 -> SandboxBridge.listen_fd_ ep = -1 ->
  let '(ev, late, ep', b') := detached_listener running ep b k in
  omap opens (link_events ev) ≡ₚ held ep' b' /\ omap spawns (link_events ev) = [] /\
  omap closes (link_events ev) = [] /\ SandboxBridge.socket_path_ ep' = SandboxBridge.socket_path_ ep /\
  (running = None -> late = false) /\ (SandboxBridge.is_connected b' = true -> late = false).
Proof.
  intros Eb Ee. unfold detached_listener. pose proof (listen_opens ep b k Eb Ee) as Hl.
  destruct running as [n|]; [|destruct (SandboxBridge.listen_and_accept ep b k) as [[[lev ok] ep'] b']; by destruct Hl as (L1 & L2 & L3 & L4)].
  destruct (SandboxBridge.listen_and_accept ep b k) as [[[lev ok] ep'] b'] eqn:El.
  destruct (SandboxBridge.is_connected b') eqn:Ec, (Nat.leb_spec 5 n) as [Hn|Hn]; cbn [andb];
    [destruct Hl as (L1 & L2 & L3 & L4); by split_and!|..]; clear Hl.
  all: assert (Hb : SandboxBridge.is_connected b = false) by (unfold SandboxBridge.is_connected; by rewrite Eb).
  all: unfold SandboxBridge.listen_and_accept in El; unfold held, link_events.
  all: destruct (Z.ltb_spec (SandboxBridge.lk_socket k) 0); [injection El as <- <- <- <-|];
    [| destruct (SandboxBridge.lk_bind k <? 0); [injection El as <- <- <- <-|];
       [|destruct (SandboxBridge.lk_poll k <=? 0); [injection El as <- <- <- <-|];
         [|destruct (Z.ltb_spec (SandboxBridge.lk_accept k) 0); injection El as <- <- <- <-]]].
  all: try (exfalso; unfold SandboxBridge.is_connected in Ec; cbn in Ec; rewrite ?Eb in Ec; (apply Z.leb_le in Ec || apply Z.leb_gt in Ec); lia).
  all: destruct n as [|[|[|[|[|n]]]]]; try lia; cbn; rewrite ?Ee, ?Eb; cbn; rewrite ?(proj2 (Z.leb_le 0 (SandboxBridge.lk_socket k))), ?(proj2 (Z.leb_gt 0 (SandboxBridge.lk_socket k))) by lia;
    rewrite ?take_nil; cbn; split_and!; try done; by rewrite Hb.
Qed.

(** What a start leaves: every descriptor opened is held, only the process
    handed on was started, and a listener is left running only beside a machine. *)
Lemma start_holds {F} use kernel rootfs (boot : _ -> _ -> option (list boot_event * (F + Z))) binary socket b w ev r :
  SandboxBridge.client_fd_ b = -1 ->
  let ep := {| SandboxBridge.socket_path_ := Some socket; SandboxBridge.listen_fd_ := -1 |} in
  start_contestant use kernel rootfs boot binary socket ep b w = Some (ev, r) ->
  omap closes ev = [] /\ omap lates ev = [] /\
  match r with
  | inl _ => omap opens ev = [] /\ omap spawns ev = []
  | inr (pid, late, ep', b') => omap opens ev ≡ₚ held ep' b' /\ SandboxBridge.socket_path_ ep' = Some socket /\
      (omap spawns ev = [] \/ (0 < pid /\ omap spawns ev = [pid])) /\
      (use = false \/ w_listener w = None -> late = false) /\ (SandboxBridge.is_connected b' = true -> late = false)
  end.
Proof.
  intros Eb ep E. unfold start_contestant in E.
  assert (Hd : (let '(lev, _, ep', br) := SandboxBridge.listen_and_accept ep b (w_listen w) in
      Some ((if 0 <? w_fork w then [E_spawn (w_fork w) binary socket] else []) ++ link_events lev,
            inr (w_fork w, false, ep', br))) = Some (ev, r) -> omap closes ev = [] /\ omap lates ev = [] /\
    match r with
    | inl _ => omap opens ev = [] /\ omap spawns ev = []
    | inr (pid, late, ep', b') => omap opens ev ≡ₚ held ep' b' /\ SandboxBridge.socket_path_ ep' = Some socket /\
        (omap spawns ev = [] \/ (0 < pid /\ omap spawns ev = [pid])) /\
        (use = false \/ w_listener w = None -> late = false) /\ (SandboxBridge.is_connected b' = true -> late = false)
    end).
  { pose proof (listen_opens ep b (w_listen w) Eb eq_refl) as Hl.
    destruct (SandboxBridge.listen_and_accept ep b (w_listen w)) as [[[lev ok] ep'] b'].
    destruct Hl as (L1 & L2 & L3 & L4). intros [= <- <-]. rewrite !omap_app, L2, L3, link_lates. destruct (Z.ltb_spec 0 (w_fork w)); cbn;
    (split; [done|]); (split; [done|]); (split; [done|]); (split; [done|]); (split; [|done]); [by right|by left]. }
  destruct use, kernel as [k|], rootfs as [rf|]; try (by apply Hd). clear Hd.
  destruct (boot k rf) as [[bev [f|pid]]|]; [| |done]; cbn [mbind option_bind] in E;
    destruct (quiet_boot bev) as (Q1 & Q2 & Q3 & Q4); [by injection E as <- <-|].
  pose proof (detached_opens (w_listener w) ep b (w_listen w) Eb eq_refl) as Hl.
  destruct (detached_listener (w_listener w) ep b (w_listen w)) as [[[lev late] ep'] b'].
  destruct Hl as (L1 & L2 & L3 & L4 & L5 & L6). injection E as <- <-.
  rewrite !omap_app, Q1, Q2, Q3, Q4, L2, L3, link_lates. cbn. split; [done|]. split; [done|]. split; [done|]. split; [done|].
  split; [by left|]. split; [intros [?|?]; [done|by apply L5]|done].
Qed.

Lemma send_control_quiet b msg n : quiet (link_events (SandboxBridge.send_control b msg n).1).
Proof. unfold SandboxBridge.send_control. by case_match. Qed.

Lemma play_closes dlog dcos dur ops pid ep w st ev ep' st' : play dlog dcos dur ops pid ep w st = Some (ev, ep', st') ->
  omap opens ev = [] /\ omap spawns ev = [] /\ omap lates ev = [] /\ omap closes ev = held ep (bridge st) /\ held ep' (bridge st') = [] /\
  SandboxBridge.socket_path_ ep' = SandboxBridge.socket_path_ ep /\
  (0 < pid -> exists pre, ev = pre ++ [E_kill pid SIGKILL; E_wait pid]).
Proof.
  intros E. unfold play in E. pose proof (send_control_quiet (bridge st) (to_wire (session_start dur ops)) (w_start_sent w)) as Q1.
  destruct (SandboxBridge.send_control _ _ _) as [c1 ?]. destruct (match_loop _ _ _ st) as [[ev1 st1]|] eqn:E1; [|done].
  cbn [mbind option_bind] in E.
  pose proof (send_control_quiet (bridge st1) (to_wire (session_end (bridge st1))) (w_end_sent w)) as Q2.
  destruct (SandboxBridge.send_control _ _ _) as [c2 ?]. destruct (collect _ st1) as [st2|] eqn:E2; [|done].
  cbn [mbind option_bind] in E. pose proof (shutdown_closes ep (bridge st2)) as Hs.
  destruct (SandboxBridge.shutdown ep (bridge st2)) as [[c3 ep3] br3]. injection E as <- <- <-.
  destruct Hs as (S1 & S2 & S3 & S4 & S5 & _). apply match_loop_quiet in E1 as [F1 Q]. apply collect_fd in E2.
  assert (Hh : held ep (bridge st2) = held ep (bridge st)) by (unfold held; by rewrite E2, F1).
  destruct Q1 as (A1 & A2 & A3 & A4), Q2 as (B1 & B2 & B3 & B4), Q as (C1 & C2 & C3 & C4). cbn [fst] in *.
  rewrite !omap_app, A1, A2, A3, A4, B1, B2, B3, B4, C1, C2, C3, C4, S1, S2, S3, link_lates, Hh. cbn [app].
  assert (Hq : quiet (if 0 <? pid then [E_kill pid SIGTERM; E_kill pid SIGKILL; E_wait pid] else [])) by (by case_match).
  destruct Hq as (-> & -> & -> & ->). rewrite app_nil_r. do 6 (split; [done|]).
  intros Hp. rewrite (proj2 (Z.ltb_lt _ _)) by done.
  exists (link_events c1 ++ ev1 ++ link_events c2 ++ link_events c3 ++ [E_kill pid SIGTERM]). by rewrite <- !app_assoc.
Qed.

Lemma destroy_closes ep b socket : SandboxBridge.socket_path_ ep = Some socket ->
  let ev := link_events (SandboxBridge.shutdown ep b).1.1 in
  omap opens ev = [] /\ omap spawns ev = [] /\ omap closes ev = held ep b /\ omap lates ev = [] /\
  forall pre, last (pre ++ ev) = Some (E_link (SandboxBridge.L_unlink socket)).
Proof.
  intros Hp. pose proof (shutdown_closes ep b) as Hs. destruct (SandboxBridge.shutdown ep b) as [[ev ep'] b'].
  destruct Hs as (S1 & S2 & S3 & _ & _ & S6). do 3 (split; [done|]). split; [apply link_lates|]. intros pre. specialize (S6 socket Hp).
  cbn [fst]. destruct (last_Some ev (SandboxBridge.L_unlink socket)) as [H _]. destruct (H S6) as [l ->].
  unfold link_events. rewrite fmap_app, app_assoc. apply last_snoc.
Qed.

(** However a session ends, nothing is left behind, as long as no listener
    outlives its link: every descriptor opened for the link has been closed, once,
    the socket file is removed last, and a contestant process that was started has
    been killed and waited for.  A listener can only outlive the link beside a
    machine, when it is still running after three seconds. *)
Lemma session_cleans_up dlog dcos {F} cfg dur ops use kernel rootfs
    (boot : list Z -> list Z -> option (list boot_event * (F + Z))) binary socket w ev o :
  run_session dlog dcos cfg dur ops use kernel rootfs boot binary socket w = Some (ev, o) ->
  omap closes ev ≡ₚ omap opens ev /\
  (forall pid, pid ∈ omap spawns ev -> reaps ev pid) /\
  (use = false \/ w_listener w = None -> omap lates ev = []) /\
  match o with
  | Setup_failed => omap spawns ev = []
  | _ => omap lates ev = [] -> last ev = Some (E_link (SandboxBridge.L_unlink socket))
  end.
Proof.
  intros E. unfold run_session in E. pose proof (open_match_link cfg socket w) as Ho.
  destruct (open_match cfg socket w) as [ev0 [st|]];
    [|injection E as <- <-; destruct Ho as [(-> & -> & -> & ->) _]; by split; [|split; [intros ? ?%elem_of_nil|]]].
  destruct Ho as [_ Hfd].
  destruct (start_contestant _ _ _ _ _ _ _ _ _) as [[ev1 [f|[[[pid late] ep] br]]]|] eqn:E1; [| |done];
    apply (start_holds _ _ _ _ _ _ _ _ _ _ Hfd) in E1 as (C1 & C2 & E1); cbn [mbind option_bind] in E.
  { destruct E1 as [O1 P1].
    destruct (destroy_closes {| SandboxBridge.socket_path_ := Some socket; SandboxBridge.listen_fd_ := -1 |} (bridge st) socket eq_refl)
      as (D1 & D2 & D3 & D4 & D5).
    set (d := link_events _) in D1, D2, D3, D4, D5, E. clearbody d.
    injection E as <- <-. rewrite !omap_app, C1, C2, O1, P1, D1, D2, D3, D4. unfold held. rewrite Hfd.
    split; [done|]. split; [by intros ? ?%elem_of_nil|]. split; [done|]. intros _. apply D5. }
  destruct E1 as (O1 & Hpath & P1 & L1 & L2). destruct (SandboxBridge.is_connected br); cbn [negb] in E.
  - destruct (play _ _ _ _ _ _ _ _) as [[[ev2 ep2] st2]|] eqn:Ep; [|done]. cbn [mbind option_bind] in E.
    apply play_closes in Ep as (A1 & A2 & A7 & A3 & A4 & A5 & A6). rewrite Hpath in A5.
    destruct (destroy_closes ep2 (bridge st2) socket A5) as (D1 & D2 & D3 & D4 & D5).
    set (d := link_events _) in D1, D2, D3, D4, D5, E. clearbody d. injection E as <- <-.
    rewrite !omap_app, C1, C2, A1, A2, A3, A7, D1, D2, D3, D4, A4, !app_nil_r. cbn [app].
    split; [by rewrite O1|]. split; [|split; [done|intros _; rewrite app_assoc; apply D5]].
    intros q Hq. destruct P1 as [P1|[Hpos P1]]; rewrite P1 in Hq; [by apply elem_of_nil in Hq|].
    apply list_elem_of_singleton in Hq as ->. destruct (A6 Hpos) as [pre ->]. eexists (ev1 ++ pre), _.
    rewrite <- !app_assoc. split; [done|]. rewrite omap_app, P1. apply elem_of_app. left. by apply list_elem_of_singleton.
  - destruct (destroy_closes ep br socket Hpath) as (D1 & D2 & D3 & D4 & D5).
    set (d := link_events _) in D1, D2, D3, D4, D5, E. clearbody d. injection E as <- <-.
    assert (Hq : quiet (if 0 <? pid then [E_kill pid SIGKILL; E_wait pid] else [])) by (by case_match).
    destruct Hq as (Q1 & Q2 & Q3 & Q4).
    assert (Hla : omap opens (if late then [E_late] else []) = [] /\ omap closes (if late then [E_late] else []) = [] /\
      omap spawns (if late then [E_late] else []) = []) by (by destruct late). destruct Hla as (R1 & R2 & R3).
    rewrite !omap_app, C1, C2, Q1, Q2, Q3, Q4, D1, D2, D3, D4, R1, R2, R3, !app_nil_r. cbn [app].
    split; [by rewrite O1|]. split; [|split; [intros Hl; by rewrite L1|]].
    + intros q Hq. destruct P1 as [P1|[Hpos P1]]; rewrite P1 in Hq; [by apply elem_of_nil in Hq|].
      apply list_elem_of_singleton in Hq as ->. rewrite (proj2 (Z.ltb_lt _ _)) by done. eexists ev1, _.
      split; [done|]. rewrite P1. by apply list_elem_of_singleton.
    + destruct late; [done|]. intros _. rewrite app_nil_r, app_assoc. apply D5.
Qed.

(** ** A short match *)

(** The room of the reference book, computed. *)
Fixpoint all_from (P : Z -> bool) (n : nat) (i : Z) : bool :=
  match n with O => true | S n => P i && all_from P n (i + 1) end.
Lemma all_from_spec P n : forall i, all_from P n i = true -> forall k, i <= k < i + Z.of_nat n -> P k = true.
Proof.
  induction n as [|n IH]; intros i H k Hk; [lia|]. cbn [all_from] in H. apply andb_true_iff in H as [H1 H2].
  destruct (decide (k = i)) as [->|]; [done|]. apply (IH (i + 1)); [done|lia].
Qed.
Definition accepts_b (b : OrderBook.t) (bid : bool) (p n : Z) : bool :=
  (INT64_MIN <? p) && (p <? INT64_MAX) && (0 <? n) && (n <=? INT32_MAX) &&
  all_from (fun i => negb (active (levels b bid) i) || (total_qty (levels b bid) i + n <=? INT32_MAX))
    (Z.to_nat (count (levels b bid))) 0 &&
  (count (levels b bid) <? PriceLevelPool.capacity (levels b bid)) &&
  all_from (fun s => PriceHashMap.distances (price_map (levels b bid)) s <? PriceHashMap.DMAX)
    (Z.to_nat PRICE_MAP_CAPACITY) 0.

Lemma accepts_b_sound b bid p n : accepts_b b bid p n = true -> accepts b bid p n.
Proof.
  unfold accepts_b. rewrite !andb_true_iff, !Z.ltb_lt, !Z.leb_le.
  intros ((((((H1 & H2) & H3) & H4) & H5) & H6) & H7). split; try done.
  - intros i Hi Ha _. pose proof (all_from_spec _ _ _ H5 i ltac:(lia)) as H. cbn beta in H. rewrite Ha in H. by apply Z.leb_le.
  - right. split; [done|]. intros s Hs. apply Z.ltb_lt. apply (all_from_spec _ _ _ H7 s). lia.
Qed.

Definition demo_blaster : OrderBlasterConfig :=
  {| initial_mid := 1000000; tick_size := 100; price_range := 5000; volatility := F64.lit 1 10000;
     limit_pct := 60; market_pct := 20; cancel_pct := 20; min_qty := 1; max_qty := 100;
     seed := 12345; orders_per_batch := 2 |}.
Definition demo_turn (answers : list ContestantResponse) : Turn :=
  {| w_send := fun k => (100 + k, Sent 64, 7); w_chunks := [(500, concat (to_wire <$> answers))] |}.
Definition demo_answer (id : Z) (ty : MsgType) (price qty : Z) : ContestantResponse :=
  {| rs_order_id := id; rs_response_type := ty; rs_ack_status := ACCEPTED; rs_num_fills := 1; rs_fill_price := price;
     rs_fill_qty := qty; rs_remaining_qty := 0; rs_recv_tsc := 0; rs_send_tsc := 0 |}.

(** Two turns of two messages: the contestant acknowledges, reports one of
    the two fills of the market order right, and after the end the other one at
    a wrong price. *)
Definition demo_world_of (listener : option nat) (use_accept : Z) (turns : list Turn) : World :=
  {| w_huge := None; w_regular := Some 4096; w_state := BlasterState.new (fun _ => 0) (fun _ => 0) (fun _ => BUY) (fun _ => 0) (fun _ => true);
     w_ring := fun _ => OrderBlaster.demo_entry; w_expected := fun _ => no_fill;
     w_responses := fun _ => demo_answer 0 ORDER_ACK 0 0;
     w_latencies := fun _ => {| ol_order_id := 0; ol_send_tsc := 0; ol_recv_tsc := 0; ol_latency_ns := 0; ol_was_dropped := false |};
     w_tsc_delta := 27; w_ns_delta := 10; w_boot := demo_boot; w_fork := 77;
     w_listen := {| SandboxBridge.lk_socket := 3; SandboxBridge.lk_bind := 0; SandboxBridge.lk_poll := 1; SandboxBridge.lk_accept := use_accept |};
     w_listener := listener; w_start_sent := 64;
     w_turns := turns;
     w_end_sent := 64; w_drain := [(900, to_wire (demo_answer 4 FILL 900 57))]; w_elapsed_ns := 1000000000;
     w_pipe := demo_pipe; w_compile_ns := 5 |}.
Definition demo_world_at (listener : option nat) (use_accept : Z) : World :=
  demo_world_of listener use_accept [demo_turn [demo_answer 1 ORDER_ACK 0 0]; demo_turn [demo_answer 4 FILL 500 40]].
Definition demo_world : Z -> World := demo_world_at None.

Definition has_place_b (s : ShadowOrderbook.t) (e : BlastOrder) : bool :=
  match bo_data e with
  | P_order o => negb (bool_decide (oe_order_type o = LIMIT)) ||
      accepts_b (book_ s) (is_buy (oe_side o)) (oe_price o) (oe_quantity o)
  | P_cancel _ => true
  end.
Fixpoint sends_placed_b (fuel : nat) (w : Turn) (st : session) : bool :=
  match OrderBlaster.pop (blaster st) with
  | (None, _) => true
  | (Some e, b) =>
      has_place_b (shadow st) e &&
      match fuel with
      | O => true
      | S fuel =>
          let '(tsc, r, ts) := w_send w (OrderBlaster.read_pos_ (blaster st)) in
          match feed (shadow st) e ts with
          | Some s => sends_placed_b fuel w (sent_one st e b tsc r s)
          | None => true
          end
      end
  end.
Fixpoint placed_b (dlog dcos : spec_float -> spec_float) (ws : list Turn) (st : session) : bool :=
  match ws with
  | [] => true
  | w :: ws =>
      sends_placed_b (waiting_orders (batched dlog dcos st)) w (batched dlog dcos st) &&
      match turn dlog dcos w st with Some (_, st') => placed_b dlog dcos ws st' | None => true end
  end.

Lemma has_place_b_sound s e : has_place_b s e = true -> has_place s e.
Proof.
  unfold has_place_b, has_place. destruct (bo_data e) as [o|]; [|done]. intros H Hl.
  rewrite bool_decide_true in H by done. by apply accepts_b_sound.
Qed.

Lemma sends_placed_b_sound w n : forall st, sends_placed_b n w st = true -> sends_placed n w st.
Proof.
  induction n as [|n IH]; intros st; cbn [sends_placed_b sends_placed];
    destruct (OrderBlaster.pop (blaster st)) as [[e|] b]; try done; intros [H1%has_place_b_sound H2]%andb_true_iff;
    (split; [done|]); [done|].
  destruct (w_send w _) as [[tsc r] ts]. destruct (feed _ _ _); [by apply IH|done].
Qed.

Lemma placed_b_sound dlog dcos ws : forall st, placed_b dlog dcos ws st = true -> placed dlog dcos ws st.
Proof.
  induction ws as [|w ws IH]; intros st; cbn [placed_b placed]; [done|].
  intros [H1%sends_placed_b_sound H2]%andb_true_iff. split; [done|]. destruct (turn _ _ _ _) as [[? ?]|]; [by apply IH|done].
Qed.

#[local] Abbreviation demo_run :=
  (run_session (fun x => x) (fun x => x) demo_blaster 1 100000 false None None
     (fun _ _ => @None (list boot_event * (unit + Z))) [] systest_socket (demo_world 5)).

Lemma demo_blaster_ok : OrderBlaster.config_ok demo_blaster.
Proof. split; vm_compute; (reflexivity || discriminate || (split; discriminate)). Qed.
Lemma demo_mapped : mapped (demo_world 5).
Proof. exists 4096. split; [discriminate|]. right. split; reflexivity. Qed.
Lemma demo_connects : connects (w_listen (demo_world 5)).
Proof. repeat split; vm_compute; discriminate. Qed.
Lemma demo_fits : fits (fun x => x) (fun x => x) demo_blaster systest_socket (demo_world 5).
Proof.
  split; [vm_compute; reflexivity..|]. intros st Hst. apply placed_b_sound.
  transitivity (match (open_match demo_blaster systest_socket (demo_world 5)).2 with
                | Some st => placed_b (fun x => x) (fun x => x) (w_turns (demo_world 5)) (joined (demo_world 5) st)
                | None => true end); [by rewrite Hst|vm_compute; reflexivity].
Qed.

#[local] Open Scope string_scope.
Definition demo_name : String.string := "ada".
#[local] Close Scope string_scope.
Definition demo_match (use_firecracker : bool) : MatchConfig :=
  {| mc_contestant_id := demo_name;
     mc_sources := {| prebuilt_binary := Some (bytes "/tmp/bot"); mc_source_path := None; sdk_include_path := None;
                      use_docker_compile := false |};
     mc_duration_secs := 1; mc_orders_per_sec := 100000; mc_blaster_cfg := demo_blaster;
     mc_rootfs_path := Some (bytes "/opt/rootfs.ext4"); mc_kernel_path := Some demo_kernel; mc_socket_path := systest_socket;
     mc_weights := default_weights; mc_use_firecracker := use_firecracker |}.

#[local] Abbreviation demo_match_run :=
  (run_match (fun x => x) (fun x => x) HdrHistogram.pow_w HdrHistogram.log2_w (fun x => x) (demo_match false) (demo_world 5)).


(** That match: four orders sent and three responses; half of what was expected
    is right. *)
Example demo_match_result :
  (fun x : list event * MatchResult => let r := x.2 in (mr_orders_sent r, mr_responses_recv r, mr_drops r, mr_correctness r)) <$>
    demo_match_run = Some (4, 3, 0, F64.lit 1 2).
Proof. vm_compute. reflexivity. Qed.

(** What that match reports: four orders, two expected fills of which one is
    right and one has the wrong price. *)
Example demo_verdict :
  match demo_run with
  | Some (_, Played st) =>
      let r := result_ (finalize (shadow st)) in
      (vr_total_orders r, vr_total_expected r, vr_total_actual r, vr_total_acks r) = (4, 2, 2, 1) /\
      (vr_correct_fills r, vr_wrong_price r, vr_missing_fills r) = (1, 1, 0) /\
      bs_responses_recv (SandboxBridge.stats_ (bridge st)) = 3
  | _ => False
  end.
Proof. vm_compute. repeat split. Qed.

(** The session of that match is one of those whose verdict accounts for
    everything. *)
Lemma demo_reached : exists st, reach (fun x => x) (fun x => x) demo_blaster st /\
  let r := result_ (finalize (shadow st)) in
  (vr_total_orders r, vr_total_expected r, vr_total_actual r, vr_total_acks r) = (4, 2, 2, 1) /\
  (vr_correct_fills r, vr_wrong_price r) = (1, 1).
Proof.
  destruct (session_played (fun x => x) (fun x => x) demo_blaster 1 100000 false None None
    (fun _ _ => @None (list boot_event * (unit + Z))) [] systest_socket (demo_world 5) demo_blaster_ok demo_mapped)
    as (pre & es & fin & post & st & E & Hcp); [by intros k r|exact demo_connects|by intros|exact demo_fits|].
  destruct (cp_reach _ _ _ _ _ _ Hcp) as [br Hr]. exists (on_bridge st br). split; [exact Hr|].
  pose proof demo_verdict as Hv. rewrite E in Hv. destruct Hv as (V1 & V2 & _). cbn [on_bridge shadow].
  split; [exact V1|exact (f_equal fst V2)].
Qed.

Lemma session_accounting_witness : exists st, n_orders st = 4 /\ n_fills st = 2 /\ n_acks st = 1 /\
  let r := result_ (finalize (shadow st)) in
  vr_total_expected r = 2 /\
  vr_correct_fills r + vr_wrong_price r + vr_wrong_qty r + vr_missing_fills r = vr_total_expected r.
Proof.
  destruct demo_reached as (st & Hr & E & _).
  destruct (session_accounting (fun x => x) (fun x => x) demo_blaster st demo_blaster_ok Hr) as (_ & H1 & H2 & H3 & _ & H4 & _).
  injection E as E1 E2 E3 E4. exists st. rewrite <- H1, <- H2, <- H3. split; [exact E1|]. split; [exact E3|].
  split; [exact E4|]. split; [exact E2|exact H4].
Defined.

(** A contestant whose machine takes longer than three seconds: the listener is
    still waiting for it when the match is given up, the socket it waits on is
    closed and the link destroyed under it, and the result shows no error. *)
Lemma listener_outlives_link :
  match run_match (fun x => x) (fun x => x) HdrHistogram.pow_w HdrHistogram.log2_w (fun x => x) (demo_match true)
          (demo_world_at (Some 4%nat) 5) with
  | Some (ev, r) => last ev = Some E_late /\ omap opens ev = [3] /\ omap closes ev = [3] /\
      mr_orders_sent r = 0 /\ mr_error_msg r = None
  | None => False
  end.
Proof. vm_compute. repeat split. Qed.

Lemma demo_descriptors : exists ev o, demo_run = Some (ev, o) /\ omap opens ev = [3; 5] /\ omap spawns ev = [77].
Proof.
  assert (Hv : (fun x : list event * outcome unit => (omap opens x.1, omap spawns x.1)) <$> demo_run = Some ([3; 5], [77]))
    by (vm_compute; reflexivity).
  destruct demo_run as [[ev o]|]; [|discriminate]. injection Hv as E1 E2. by exists ev, o.
Qed.

Lemma session_cleans_up_witness : exists ev o, demo_run = Some (ev, o) /\
  omap opens ev = [3; 5] /\ omap closes ev ≡ₚ omap opens ev /\ reaps ev 77.
Proof.
  destruct demo_descriptors as (ev & o & E & E1 & E2).
  destruct (session_cleans_up _ _ _ _ _ _ _ _ _ _ _ _ _ _ E) as (H1 & H2 & _).
  exists ev, o. split; [exact E|]. split; [exact E1|]. split; [exact H1|]. apply H2. rewrite E2. by left.
Defined.
