(* ===== verification/RunContest.v ===== *)
(** The contest runner's executable (src/orchestrator/src/run_contest.cpp): the
    command line, the choice between a match and the post-contest battery of
    [Match], and the exit code.  What [strtod] reads from a text is an
    argument. *)

From S2P Require Import Prelude Text Xorshift Histogram Shadow Blaster Stress Bridge Orchestrator Firecracker Compiler Contest Match.
From Stdlib Require Import SpecFloat.
From Stdlib Require Import String.
#[local] Open Scope string_scope.
#[local] Open Scope Z_scope.
#[local] Open Scope list_scope.

#[local] Infix "=s?" := String.eqb (at level 70).

(** [from_chars] into a [uint32_t]: digits only; without any, or with a value
    out of range, the object keeps the fallback. *)
Definition safe_parse_u32 (text : string) (fallback : Z) : Z :=
  match WorkerAgent.read_digits (bytes text) with
  | [] => fallback
  | ds => if undec ds <=? UINT32_MAX then undec ds else fallback
  end.

(** What the loop over the arguments fills in. *)
Record Command := {
  c_contestant : string; c_source : option string; c_duration : Z; c_rate : Z; c_socket : string;
  c_docker : bool; c_firecracker : bool; c_binary : option string; c_system_test : bool; c_original : spec_float }.

Definition default_command : Command :=
  {| c_contestant := "test"; c_source := None; c_duration := 10; c_rate := 100000; c_socket := "/tmp/iicpc_contest.sock";
     c_docker := false; c_firecracker := true; c_binary := None; c_system_test := false; c_original := F64.of_Z 1 |}.

(** The options with a value. *)
Inductive Value := V_source | V_duration | V_rate | V_socket | V_contestant | V_binary | V_score | V_scenarios.
Definition value_name (v : Value) : string :=
  match v with
  | V_source => "--source" | V_duration => "--duration" | V_rate => "--rate" | V_socket => "--socket"
  | V_contestant => "--contestant" | V_binary => "--binary" | V_score => "--original-score" | V_scenarios => "--scenarios"
  end.
Definition value_of (a : string) : option Value :=
  List.find (fun v => value_name v =s? a)
    [V_source; V_duration; V_rate; V_socket; V_contestant; V_binary; V_score; V_scenarios].

(** And those without. *)
Inductive Flag := F_no_docker | F_no_firecracker | F_system_test | F_help.
Definition flag_of (a : string) : option Flag :=
  if a =s? "--no-docker" then Some F_no_docker else if a =s? "--no-firecracker" then Some F_no_firecracker
  else if a =s? "--system-test" then Some F_system_test else if a =s? "--help" then Some F_help else None.

Section Main.
Context (strtod : string -> option spec_float).

Definition safe_parse_double (text : string) (fallback : spec_float) : spec_float := default fallback (strtod text).

Definition assign_value (c : Command) (v : Value) (x : string) : Command :=
  {| c_contestant := match v with V_contestant => x | _ => c_contestant c end;
     c_source := match v with V_source => Some x | _ => c_source c end;
     c_duration := match v with V_duration => safe_parse_u32 x (c_duration c) | _ => c_duration c end;
     c_rate := match v with V_rate => safe_parse_u32 x (c_rate c) | _ => c_rate c end;
     c_socket := match v with V_socket => x | _ => c_socket c end;
     c_docker := c_docker c; c_firecracker := c_firecracker c;
     c_binary := match v with V_binary => Some x | _ => c_binary c end; c_system_test := c_system_test c;
     c_original := match v with V_score => safe_parse_double x (F64.of_Z 1) | _ => c_original c end |}.

Definition set_flag (c : Command) (f : Flag) : Command :=
  {| c_contestant := c_contestant c; c_source := c_source c; c_duration := c_duration c; c_rate := c_rate c;
     c_socket := c_socket c; c_docker := match f with F_no_docker => false | _ => c_docker c end;
     c_firecracker := match f with F_no_firecracker => false | _ => c_firecracker c end; c_binary := c_binary c;
     c_system_test := match f with F_system_test => true | _ => c_system_test c end; c_original := c_original c |}.

(** The loop: an option that lacks its value and anything unknown are passed
    over; [None] is the return after [--help]. *)
Fixpoint parse_loop (c : Command) (args : list string) : option Command :=
  match args with
  | [] => Some c
  | a :: rest =>
      match value_of a, rest with
      | Some v, x :: rest => parse_loop (assign_value c v x) rest
      | _, _ =>
          match flag_of a with
          | Some F_help => None
          | Some f => parse_loop (set_flag c f) rest
          | None => parse_loop c rest
          end
      end
  end.

(** The configuration of the match. *)
Definition contest_blaster : OrderBlasterConfig :=
  {| initial_mid := initial_mid default_blaster_config; tick_size := tick_size default_blaster_config;
     price_range := price_range default_blaster_config; volatility := volatility default_blaster_config;
     limit_pct := 60; market_pct := 20; cancel_pct := 20; min_qty := min_qty default_blaster_config;
     max_qty := max_qty default_blaster_config; seed := seed default_blaster_config; orders_per_batch := 128 |}.
Definition contest_config (c : Command) : MatchConfig :=
  {| mc_contestant_id := c_contestant c;
     mc_sources := {| prebuilt_binary := bytes <$> c_binary c; mc_source_path := bytes <$> c_source c;
                      sdk_include_path := Some (bytes "/home/junior/Desktop/Coding/IICPC/sdk/include");
                      use_docker_compile := c_docker c |};
     mc_duration_secs := c_duration c; mc_orders_per_sec := c_rate c; mc_blaster_cfg := contest_blaster;
     mc_rootfs_path := Some (bytes "/home/junior/Desktop/Coding/IICPC/infra/firecracker/base_rootfs.ext4");
     mc_kernel_path := Some (bytes "/home/junior/Desktop/Coding/IICPC/infra/firecracker/vmlinux.bin");
     mc_socket_path := bytes (c_socket c); mc_weights := default_weights; mc_use_firecracker := c_firecracker c |}.

Context (dlog dcos : spec_float -> spec_float) (dpow : spec_float -> spec_float -> spec_float)
  (dlog2 dlog10 : spec_float -> spec_float).

(** [main]: what the run does and its exit code, in the world of the match or
    those of the scenarios. *)
Definition main (args : list string) (w : World) (ws : StressScenario -> World) : option (list event * Z) :=
  match parse_loop default_command args with
  | None => Some ([], 0)
  | Some c =>
      if c_system_test c then
        match c_binary c with
        | None => Some ([], 1)
        | Some _ =>
            '(ev, r) ← system_tests dlog dcos (contest_config c) (c_original c) ws;
            Some (ev, if st_scenarios_passed r =? st_scenarios_total r then 0 else 1)
        end
      else
        match c_source c, c_binary c with
        | None, None => Some ([], 1)
        | _, _ =>
            '(ev, r) ← run_match dlog dcos dpow dlog2 dlog10 (contest_config c) w;
            Some (ev, if mr_compiled r then 0 else 1)
        end
  end.
End Main.

(** ** The command line *)

(** The arguments as they are meant. *)
Inductive arg := A_value (v : Value) (x : string) | A_flag (f : Flag) | A_other (a : string).
Definition flag_name (f : Flag) : string :=
  match f with
  | F_no_docker => "--no-docker" | F_no_firecracker => "--no-firecracker" | F_system_test => "--system-test" | F_help => "--help"
  end.
Definition arg_text (a : arg) : list string :=
  match a with A_value v x => [value_name v; x] | A_flag f => [flag_name f] | A_other a => [a] end.
Definition arg_ok (a : arg) : Prop :=
  match a with A_value _ _ => True | A_flag f => f <> F_help | A_other a => value_of a = None /\ flag_of a = None end.

Section Facts.
Context (strtod : string -> option spec_float).

Definition arg_effect (c : Command) (a : arg) : Command :=
  match a with A_value v x => assign_value strtod c v x | A_flag f => set_flag c f | A_other _ => c end.

(** Every option does its assignment, in the order given, and an option that
    lacks its value at the end does nothing. *)
Lemma command_line l (trailing : option Value) : Forall arg_ok l -> forall c,
  parse_loop strtod c (mjoin (arg_text <$> l) ++ match trailing with Some v => [value_name v] | None => [] end) =
  Some (foldl arg_effect c l).
Proof.
  induction 1 as [|a l Ha _ IH]; intros c.
  - destruct trailing as [[]|]; done.
  - change (mjoin (arg_text <$> a :: l)) with (arg_text a ++ mjoin (arg_text <$> l)). rewrite <- app_assoc.
    destruct a as [v x|f|a]; cbn [arg_text app foldl arg_effect].
    + rewrite <- IH. by destruct v.
    + rewrite <- IH. by destruct f.
    + destruct Ha as [H1 H2]. rewrite <- IH. cbn [parse_loop]. by rewrite H1, H2.
Qed.

(** ** Clean-up *)

















(** The battery exits with 0 exactly when every scenario reached a correctness
    of 0.8. *)
Lemma battery_exit dlog dcos dpow dlog2 dlog10 args w ws c ev r :
  parse_loop strtod default_command args = Some c -> c_system_test c = true -> is_Some (c_binary c) ->
  system_tests dlog dcos (contest_config c) (c_original c) ws = Some (ev, r) ->
  exists code, main strtod dlog dcos dpow dlog2 dlog10 args w ws = Some (ev, code) /\
    (code = 0 <-> Forall (fun sr => sr_passed sr = true) (st_scenarios r)).
Proof.
  intros Ec Es [b Eb] Er. unfold main. rewrite Ec, Es, Eb, Er. cbn [mbind option_bind]. eexists. split; [done|].
  unfold system_tests in Er. cbn [contest_config mc_sources prebuilt_binary] in Er. rewrite Eb in Er.
  change (bytes <$> Some b) with (Some (bytes b)) in Er. cbn iota in Er.
  match type of Er with (?m ≫= _) = _ => destruct m as [rs|]; [|done] end.
  cbn [mbind option_bind] in Er. injection Er as _ <-. unfold run_system_tests. cbn [st_scenarios_passed st_scenarios_total st_scenarios].
  match goal with |- context [foldl _ 0 ?l] => set (scs := l) end.
  assert (Hl : List.length scs = List.length build_stress_scenarios) by apply length_fmap.
  rewrite passed_count; [|done|rewrite Hl; vm_compute; reflexivity]. rewrite <- Hl. clearbody scs. clear Hl. rewrite Z.add_0_l.
  transitivity (List.length (filter (fun sr => sr_passed sr = true) scs) = List.length scs).
  { destruct (Z.eqb_spec (Z.of_nat (List.length (filter (fun sr => sr_passed sr = true) scs))) (Z.of_nat (List.length scs))); split; lia. }
  induction scs as [|x scs IH]; [done|]. rewrite filter_cons, Forall_cons.
  pose proof (length_filter (fun sr => sr_passed sr = true) scs). case_decide; cbn [List.length]; [|split; [lia|by intros [? _]]].
  rewrite <- IH. split; [intros; split; [done|lia]|intros [_ ?]; lia].
Qed.
End Facts.

(** ** Runs *)

#[local] Abbreviation demo_main args w :=
  (main (fun _ => None) (fun x => x) (fun x => x) HdrHistogram.pow_w HdrHistogram.log2_w (fun x => x) args w (fun _ => w)).
Definition demo_args : list string := ["--no-firecracker"; "--binary"; "/tmp/bot"; "--duration"].





(** The exit code of a match only says that there is a binary: a contestant
    that never connects exits with 0 as well. *)
Example unplayed_exits_zero :
  snd <$> demo_main demo_args (demo_world (-1)) = Some 0 /\
  match run_match (fun x => x) (fun x => x) HdrHistogram.pow_w HdrHistogram.log2_w (fun x => x)
          (contest_config (default default_command (parse_loop (fun _ => None) default_command demo_args))) (demo_world (-1)) with
  | Some (_, r) => (mr_compiled r, mr_orders_sent r) = (true, 0)
  | None => False
  end.
Proof. split; vm_compute; reflexivity. Qed.
