(* ===== verification/Worker.v ===== *)
(** The integrated worker (src/orchestrator/src/integrated_worker.cpp): its
    command line, the drain at the end of a benchmark over the shared-memory
    engine of [Shm], what it publishes through [Metrics], and its calls to the
    orchestrator of [Orchestrator].  The argument list, the clocks, the results
    of [send] and what the network does with a call are arguments. *)

From S2P Require Import Prelude Xorshift Histogram Text Crc Metrics Fleet RingBuffer Shm Orchestrator Telemetry.
From Stdlib Require Import SpecFloat.
From Stdlib Require String Ascii.
Import String.StringSyntax.

(** ** The command line *)

Record WorkerConfig := {
  orchestrator_addr : str; cfg_worker_id : str; num_bots : Z; duration_secs : Z;
  questdb_host : str; questdb_port : Z; redis_host : str; redis_port : Z; redpanda_host : str; redpanda_port : Z;
  use_firecracker : bool; kernel_path : option str; rootfs_path : option str; vm_vcpus : Z; vm_mem_mib : Z;
  cfg_benchmark_id : str; cfg_contestant_id : str }.

Definition default_worker : WorkerConfig :=
  {| orchestrator_addr := bytes "localhost:50051"; cfg_worker_id := bytes "worker-1"; num_bots := 8; duration_secs := 10;
     questdb_host := bytes "127.0.0.1"; questdb_port := 9009; redis_host := bytes "127.0.0.1"; redis_port := 16379;
     redpanda_host := bytes "127.0.0.1"; redpanda_port := 19092; use_firecracker := false; kernel_path := None;
     rootfs_path := None; vm_vcpus := 2; vm_mem_mib := 256; cfg_benchmark_id := bytes "bench-001";
     cfg_contestant_id := bytes "contestant-1" |}.

(** [atoi]: white space, a sign and digits; the value is that of [strtol], cut to
    the limits of a [long], converted to [int]. *)
Definition atoi (s : str) : Z :=
  let n := match WorkerAgent.skip_ws s with
           | [] => 0
           | c :: r => if c =? 45 then - undec (WorkerAgent.read_digits r)
                       else if c =? 43 then undec (WorkerAgent.read_digits r) else undec (WorkerAgent.read_digits (c :: r))
           end in
  i32 (Z.max INT64_MIN (Z.min INT64_MAX n)).

Definition u16 (x : Z) : Z := x mod 65536.

(** The options that take a value. *)
Inductive Opt := O_orchestrator | O_id | O_bots | O_duration | O_contestant | O_benchmark | O_questdb_host | O_questdb_port
  | O_redis_host | O_redis_port | O_redpanda_host | O_redpanda_port | O_kernel | O_rootfs | O_vm_vcpus | O_vm_mem.
#[export] Instance Opt_eq_dec : EqDecision Opt.
Proof. solve_decision. Defined.

Definition opt_name (o : Opt) : str :=
  match o with
  | O_orchestrator => bytes "--orchestrator" | O_id => bytes "--id" | O_bots => bytes "--bots" | O_duration => bytes "--duration"
  | O_contestant => bytes "--contestant" | O_benchmark => bytes "--benchmark" | O_questdb_host => bytes "--questdb-host"
  | O_questdb_port => bytes "--questdb-port" | O_redis_host => bytes "--redis-host" | O_redis_port => bytes "--redis-port"
  | O_redpanda_host => bytes "--redpanda-host" | O_redpanda_port => bytes "--redpanda-port" | O_kernel => bytes "--kernel"
  | O_rootfs => bytes "--rootfs" | O_vm_vcpus => bytes "--vm-vcpus" | O_vm_mem => bytes "--vm-mem"
  end.
(** In the order of the comparisons. *)
Definition all_opts : list Opt :=
  [O_orchestrator; O_id; O_bots; O_duration; O_contestant; O_benchmark; O_questdb_host; O_questdb_port; O_redis_host; O_redis_port;
   O_redpanda_host; O_redpanda_port; O_kernel; O_rootfs; O_vm_vcpus; O_vm_mem].
Definition opt_of (a : str) : option Opt := List.find (fun o => bool_decide (opt_name o = a)) all_opts.

(** The assignment of an option; a [size_t] or [uint64_t] gets the value of an
    [int]. *)
Definition assign (c : WorkerConfig) (o : Opt) (v : str) : WorkerConfig :=
  {| orchestrator_addr := match o with O_orchestrator => v | _ => orchestrator_addr c end;
     cfg_worker_id := match o with O_id => v | _ => cfg_worker_id c end;
     num_bots := match o with O_bots => u64 (atoi v) | _ => num_bots c end;
     duration_secs := match o with O_duration => atoi v | _ => duration_secs c end;
     questdb_host := match o with O_questdb_host => v | _ => questdb_host c end;
     questdb_port := match o with O_questdb_port => u16 (atoi v) | _ => questdb_port c end;
     redis_host := match o with O_redis_host => v | _ => redis_host c end;
     redis_port := match o with O_redis_port => u16 (atoi v) | _ => redis_port c end;
     redpanda_host := match o with O_redpanda_host => v | _ => redpanda_host c end;
     redpanda_port := match o with O_redpanda_port => u16 (atoi v) | _ => redpanda_port c end;
     use_firecracker := use_firecracker c;
     kernel_path := match o with O_kernel => Some v | _ => kernel_path c end;
     rootfs_path := match o with O_rootfs => Some v | _ => rootfs_path c end;
     vm_vcpus := match o with O_vm_vcpus => u32 (atoi v) | _ => vm_vcpus c end;
     vm_mem_mib := match o with O_vm_mem => u64 (atoi v) | _ => vm_mem_mib c end;
     cfg_benchmark_id := match o with O_benchmark => v | _ => cfg_benchmark_id c end;
     cfg_contestant_id := match o with O_contestant => v | _ => cfg_contestant_id c end |}.

Definition set_firecracker (c : WorkerConfig) : WorkerConfig :=
  {| orchestrator_addr := orchestrator_addr c; cfg_worker_id := cfg_worker_id c; num_bots := num_bots c;
     duration_secs := duration_secs c; questdb_host := questdb_host c; questdb_port := questdb_port c;
     redis_host := redis_host c; redis_port := redis_port c; redpanda_host := redpanda_host c; redpanda_port := redpanda_port c;
     use_firecracker := true; kernel_path := kernel_path c; rootfs_path := rootfs_path c; vm_vcpus := vm_vcpus c;
     vm_mem_mib := vm_mem_mib c; cfg_benchmark_id := cfg_benchmark_id c; cfg_contestant_id := cfg_contestant_id c |}.

(** The loop over [argv[1]], [argv[2]], ...: an option that takes a value is
    passed over when it is the last argument, and so is anything else. *)
Fixpoint parse_loop (c : WorkerConfig) (args : list str) : WorkerConfig :=
  match args with
  | [] => c
  | a :: rest =>
      match opt_of a, rest with
      | Some o, v :: rest => parse_loop (assign c o v) rest
      | _, _ => parse_loop (if bool_decide (a = bytes "--firecracker") then set_firecracker c else c) rest
      end
  end.
Definition parse_args (args : list str) : WorkerConfig := parse_loop default_worker args.

(** ** The drain

    After the deadline idle bots are set to RECEIVED before every batch, so that
    they are not asked to send. *)

Definition park (f : BotFleet.t) : BotFleet.t :=
  {| BotFleet.count := BotFleet.count f; BotFleet.bot_ids := BotFleet.bot_ids f; BotFleet.sequence_nums := BotFleet.sequence_nums f;
     BotFleet.states := fun i => if (0 <=? i) && (i <? BotFleet.count f) && bool_decide (BotFleet.states f i = IDLE)
                                 then RECEIVED else BotFleet.states f i;
     BotFleet.send_tsc := BotFleet.send_tsc f; BotFleet.recv_tsc := BotFleet.recv_tsc f; BotFleet.socket_fds := BotFleet.socket_fds f;
     BotFleet.payloads := BotFleet.payloads f; BotFleet.payload_lens := BotFleet.payload_lens f |}.

Section drain.
Import ShmSystem.
Context {RC SC : Type} {FR : Fifo RC ShmRequest} {FS : Fifo SC ShmResponse}.

Definition with_fleet (c : @conf RC SC) (f : BotFleet.t) : conf :=
  {| fleet := f; total_sends_ := total_sends_ c; total_recvs_ := total_recvs_ c; next_seq_ := next_seq_ c; req_chan := req_chan c;
     resp_chan := resp_chan c; telemetry := telemetry c; holding := holding c; total_processed_ := total_processed_ c;
     sent := sent c; samples := samples c |}.

(** A turn of the drain loop. *)
Definition drain_turn (fuel : nat) (c : conf) (tsc : Z -> Z) (tsc_recv : nat -> Z) : option (Z * conf) :=
  run_batch fuel (with_fleet c (park (fleet c))) tsc tsc_recv.

End drain.

(** ** Publishing *)

(** ["%.0f"]. *)
Definition whole (x : spec_float) : str :=
  match x with
  | S754_zero s => sign s ++ dec 0
  | S754_finite s m e => sign s ++ dec (if 0 <=? e then Z.pos m * 2 ^ e else round_div (Z.pos m) (2 ^ (- e)))
  | _ => fixed 0 x
  end.

Definition to_us (ns : Z) : spec_float := F64.div (F64.of_Z ns) (F64.of_Z 1000).

Definition redis_key (contestant : str) : str := (snprintf 128 (bytes "contestant:" ++ contestant)).1.
Definition redis_val (text : str) : str := (snprintf 64 text).1.

(** The score shown while the benchmark runs. *)
Definition progress_score (total_sends total_recvs : Z) (tps : spec_float) (pct : HdrHistogram.Percentiles) : spec_float :=
  let p99_us := to_us (HdrHistogram.p99 pct) in
  let p99_us := if F64.ltb p99_us (F64.of_Z 1) then F64.of_Z 1 else p99_us in
  F64.mul (F64.mul tps (F64.div (F64.of_Z 1000) p99_us)) (if total_sends =? total_recvs then F64.of_Z 1 else F64.lit 1 2).

(** What is sent to Redis and QuestDB once a second; [ret] are the results of the
    successive calls of [send], [now_ns] the wall clock. *)
Definition publish_redis_progress (p : RedisPublisher.t) (cfg : WorkerConfig) (total_sends total_recvs : Z) (tps : spec_float)
    (pct : HdrHistogram.Percentiles) (ret : nat -> Z) : list outcome :=
  let key := redis_key (cfg_contestant_id cfg) in
  [RedisPublisher.zadd_leaderboard p (cfg_contestant_id cfg) (progress_score total_sends total_recvs tps pct) (ret 0%nat);
   RedisPublisher.hset p key (bytes "tps") (redis_val (whole tps)) (ret 1%nat);
   RedisPublisher.hset p key (bytes "p50_us") (redis_val (fixed 1 (to_us (HdrHistogram.p50 pct)))) (ret 2%nat);
   RedisPublisher.hset p key (bytes "p99_us") (redis_val (fixed 1 (to_us (HdrHistogram.p99 pct)))) (ret 3%nat)].

Definition publish_questdb_progress (p : QuestDBPublisher.t) (cfg : WorkerConfig) (total_sends total_recvs : Z) (tps : spec_float)
    (pct : HdrHistogram.Percentiles) (now_ns ret : Z) : outcome * QuestDBPublisher.t :=
  QuestDBPublisher.publish_latency p (cfg_benchmark_id cfg) (cfg_contestant_id cfg) (u64 now_ns) tps (HdrHistogram.p50 pct)
    (HdrHistogram.p90 pct) (HdrHistogram.p99 pct) (HdrHistogram.p999 pct) (HdrHistogram.p_max pct) total_recvs
    (u64 (total_sends - total_recvs)) ret.

(** The final values. *)
Definition publish_redis_final (p : RedisPublisher.t) (cfg : WorkerConfig) (r : BenchmarkResults) (ret : nat -> Z) : list outcome :=
  let key := redis_key (cfg_contestant_id cfg) in
  [RedisPublisher.zadd_leaderboard p (cfg_contestant_id cfg) (br_score r) (ret 0%nat);
   RedisPublisher.hset p key (bytes "tps") (redis_val (whole (br_tps r))) (ret 1%nat);
   RedisPublisher.hset p key (bytes "p99_us") (redis_val (fixed 1 (to_us (br_p99_ns r)))) (ret 2%nat);
   RedisPublisher.hset p key (bytes "score") (redis_val (fixed 2 (br_score r))) (ret 3%nat);
   RedisPublisher.hset p key (bytes "drops") (redis_val (dec (br_drops r))) (ret 4%nat)].

(** ** The calls to the orchestrator *)

(** What becomes of the three calls, and when they are executed. *)
Record Calls := {
  n_register : WorkerAgent.Net; t_register : Z; n_start : WorkerAgent.Net; t_start : Z; n_stop : WorkerAgent.Net; t_stop : Z }.

(** The worker's own registration does not look for huge pages. *)
Definition integrated_info (cfg : WorkerConfig) (sys : WorkerAgent.System) : WorkerInfo :=
  {| wi_worker_id := cfg_worker_id cfg; wi_hostname := WorkerAgent.sys_hostname sys;
     wi_num_cores := u32 (WorkerAgent.nprocessors sys); wi_memory_bytes := u64 (WorkerAgent.phys_pages sys * WorkerAgent.pagesize sys);
     wi_has_hugepages := false; wi_has_kvm := WorkerAgent.kvm_access sys; wi_isolated_cores := [] |}.

Definition call_register (k : Calls) (cfg : WorkerConfig) (sys : WorkerAgent.System) (s : OrchestratorService.t) : OrchestratorService.t :=
  (WorkerAgent.rpc (n_register k) s (OrchestratorService.RegisterWorker (t_register k) s (integrated_info cfg sys))).1.
Definition call_start (k : Calls) (cfg : WorkerConfig) (s : OrchestratorService.t) : OrchestratorService.t :=
  (WorkerAgent.rpc (n_start k) s (OrchestratorService.StartBenchmark (t_start k) s
     {| cf_benchmark_id := cfg_benchmark_id cfg; cf_contestant_id := cfg_contestant_id cfg |})).1.
Definition call_stop (k : Calls) (cfg : WorkerConfig) (s : OrchestratorService.t) : OrchestratorService.t :=
  (WorkerAgent.rpc (n_stop k) s (OrchestratorService.StopBenchmark (t_stop k) s
     {| bh_benchmark_id := cfg_benchmark_id cfg; bh_worker_id := cfg_worker_id cfg |})).1.

(** The last values for Redpanda. *)
Definition publish_redpanda_final (p : RedpandaPublisher.t) (cfg : WorkerConfig) (r : BenchmarkResults) (now_ms ret : Z)
    : outcome * RedpandaPublisher.t :=
  RedpandaPublisher.publish_result p (cfg_contestant_id cfg) (br_score r) (br_tps r) (br_p99_ns r) (br_drops r) now_ms ret.

(** [main] with the results of the benchmark it runs: the orchestrator after it,
    and what was sent to Redis and Redpanda if they are connected. *)
Definition worker_main (k : Calls) (cfg : WorkerConfig) (sys : WorkerAgent.System) (r : BenchmarkResults)
    (redis : option RedisPublisher.t) (redpanda : option RedpandaPublisher.t) (now_ms : Z) (ret : nat -> Z)
    (s : OrchestratorService.t) : OrchestratorService.t * list outcome :=
  let s := call_start k cfg (call_register k cfg sys s) in
  let s := call_stop k cfg s in
  (s, match redis with Some p => publish_redis_final p cfg r ret | None => [] end ++
      match redpanda with Some p => [(publish_redpanda_final p cfg r now_ms (ret 5%nat)).1] | None => [] end).

(** ** Reading the command line *)

(** An option with a value, the flag, or an argument that is neither. *)
Inductive arg := A_value (o : Opt) (v : str) | A_firecracker | A_other (a : str).
Definition arg_text (a : arg) : list str :=
  match a with A_value o v => [opt_name o; v] | A_firecracker => [bytes "--firecracker"] | A_other a => [a] end.
Definition arg_effect (c : WorkerConfig) (a : arg) : WorkerConfig :=
  match a with A_value o v => assign c o v | A_firecracker => set_firecracker c | A_other _ => c end.
Definition arg_ok (a : arg) : Prop :=
  match a with A_other a => opt_of a = None /\ a <> bytes "--firecracker" | _ => True end.

Lemma opt_of_name o : opt_of (opt_name o) = Some o.
Proof. by destruct o; vm_compute. Qed.

(** Arguments have their effects in order, whatever the values are, option names
    included; a last option without its value has none. *)
Lemma parse_args_effects (l : list arg) (trailing : option Opt) : Forall arg_ok l ->
  parse_args (mjoin (arg_text <$> l) ++ match trailing with Some o => [opt_name o] | None => [] end) = foldl arg_effect default_worker l.
Proof.
  unfold parse_args. generalize default_worker. intros c Hl. revert c.
  induction Hl as [|a l Ha _ IH]; intros c.
  - destruct trailing as [o|]; [|done]. change (mjoin (arg_text <$> [])) with (@nil str). cbn [app parse_loop]. rewrite opt_of_name.
    rewrite bool_decide_false; [done|]. by destruct o.
  - change (mjoin (arg_text <$> a :: l)) with (arg_text a ++ mjoin (arg_text <$> l)). rewrite <- app_assoc. destruct a as [o v| |a].
    + cbn [arg_text app parse_loop]. rewrite opt_of_name. apply IH.
    + cbn [arg_text app parse_loop]. change (opt_of (bytes "--firecracker")) with (@None Opt). rewrite bool_decide_true by done. apply IH.
    + destruct Ha as [Ha Hn]. cbn [arg_text app parse_loop]. rewrite Ha, bool_decide_false by done. apply IH.
Qed.

(** ** The drain sends nothing and misses nothing *)

Section drain_facts.
Import ShmSystem.
Context {RC SC : Type} {FR : Fifo RC ShmRequest} {FS : Fifo SC ShmResponse}.
Implicit Types c : @conf RC SC.

Lemma park_not_idle f i : 0 <= i < BotFleet.count f -> BotFleet.states (park f) i <> IDLE.
Proof.
  intros Hi. cbn. rewrite (proj2 (Z.leb_le 0 i)), (proj2 (Z.ltb_lt i _)) by lia. cbn [andb]. by case_bool_decide.
Qed.

Lemma send_requests_parked m : forall i c tsc, (forall j, i <= j < i + Z.of_nat m -> BotFleet.states (fleet c) j <> IDLE) ->
  send_requests m i c tsc = c.
Proof.
  induction m as [|m IH]; intros i c tsc H; cbn [send_requests]; [done|].
  assert (E : send_one c i (tsc i) = c) by (unfold send_one; rewrite bool_decide_true; [done|apply H; lia]).
  rewrite E. apply IH. intros j Hj. apply H. lia.
Qed.

Lemma drain_turn_recv fuel c tsc tsc_recv :
  drain_turn fuel c tsc tsc_recv = recv_responses fuel (with_fleet c (park (fleet c))) tsc_recv.
Proof.
  unfold drain_turn, run_batch. destruct (Z.le_gt_cases 0 (BotFleet.count (fleet c))) as [H|H].
  - rewrite send_requests_parked; [done|]. intros j Hj. apply park_not_idle. cbn in Hj |- *. lia.
  - cbn. by replace (Z.to_nat (BotFleet.count (fleet c))) with O by lia.
Qed.

(** Two configurations that differ in the fleet's states only. *)
Definition same_flow c c' : Prop := exists f, c' = with_fleet c f /\ BotFleet.count f = BotFleet.count (fleet c).

Lemma recv_one_flow c c' tsc : same_flow c c' -> (recv_one c tsc).1 = (recv_one c' tsc).1 /\ same_flow (recv_one c tsc).2 (recv_one c' tsc).2.
Proof.
  intros (f&->&Hf). unfold recv_one. cbn [with_fleet resp_chan fleet]. destruct (fifo_pop (resp_chan c)) as [[r|] ch]; cbn [fst snd].
  - split; [done|]. rewrite Hf. destruct (rp_bot_id r <? BotFleet.count (fleet c)).
    + eexists (mark_received f _ _). split; [reflexivity|]. cbn. exact Hf.
    + exists f. split; [reflexivity|]. cbn. exact Hf.
  - split; [done|]. by exists f.
Qed.

Lemma recv_responses_flow fuel : forall c c' tsc k c1, same_flow c c' -> recv_responses fuel c tsc = Some (k, c1) ->
  exists c1', recv_responses fuel c' tsc = Some (k, c1') /\ same_flow c1 c1'.
Proof.
  induction fuel as [|fuel IH]; intros c c' tsc k c1 Hs E; [done|]. cbn [recv_responses] in *.
  destruct (recv_one_flow c c' (tsc O) Hs) as [Hb Hc]. destruct (recv_one c (tsc O)) as [[|] c2], (recv_one c' (tsc O)) as [b' c2'];
    cbn [fst snd] in Hb, Hc; subst b'.
  - destruct (recv_responses fuel c2 _) as [[n c3]|] eqn:E2; [|done]. cbn [mbind option_bind] in E. injection E as <- <-.
    destruct (IH c2 c2' _ n c3 Hc E2) as (c3'&->&H). cbn [mbind option_bind]. by exists c3'.
  - injection E as <- <-. by exists c2'.
Qed.

Context (n : Z) (Hn : 0 <= n < 2 ^ 32) (HR : n <= fifo_capacity (C := RC)) (HS : n <= fifo_capacity (C := SC)).

(** C40: at the end of a benchmark of at most as many bots as the channels have
    slots, once the exchange has answered what it holds, a turn of the worker's
    drain loop returns, sends nothing and receives every outstanding response:
    the sends are exactly the samples, the counters agree, and the results have
    no drops, whatever time and percentiles they are made with. *)
Theorem drain_no_drops f req resp ring c tsc tsc_recv elapsed pct :
  fresh n f req resp -> reach (start f req resp ring) c -> Z.of_nat (length (sent c)) + 1 < 2 ^ 64 ->
  let c0 := match holding c with Some r => (push_response c r).2 | None => c end in
  exists k1 c1 k2 c2, process_batch (S (Z.to_nat n)) c0 = Some (k1, c1) /\
    drain_turn (S (Z.to_nat n)) c1 tsc tsc_recv = Some (k2, c2) /\
    sent c2 = sent c /\ sent c2 ≡ₚ (of_sample <$> samples c2) /\ total_sends_ c2 = total_recvs_ c2 /\
    br_drops (collect_results (total_sends_ c2) (total_recvs_ c2) elapsed pct) = 0.
Proof.
  intros Hf Hr Hb c0. destruct (exchange_rests n Hn HR HS f req resp ring c Hf Hr Hb) as (k1&c1&resps&nq&E1&Hinv&Hh&S1&Hl).
  destruct (recv_responses_drains n Hn resps (S (Z.to_nat n)) c1 nq tsc_recv Hinv Hh) as (c2&E2&Hinv2&Hh2&S2&_); [rewrite S1; lia|lia|].
  destruct (recv_responses_flow _ c1 (with_fleet c1 (park (fleet c1))) _ _ _ ltac:(by eexists) E2) as (c2'&E2'&(f'&->&_)).
  exists k1, c1, (Z.of_nat (length resps)), (with_fleet c2 f'). rewrite drain_turn_recv. cbn [with_fleet sent samples total_sends_ total_recvs_].
  destruct Hinv2 as [_ _ _ _ J5 _ _ J8 J9]. unfold flight in J5. rewrite Hh2 in J5. cbn in J5. rewrite app_nil_r in J5.
  assert (Hlen : length (sent c2) = length (samples c2)) by (by rewrite J5, length_fmap).
  split; [done|]. split; [done|]. split; [congruence|]. split; [done|].
  rewrite J8, J9, Hlen. split; [done|]. unfold collect_results. cbn [br_drops]. by rewrite Z.ltb_irrefl.
Qed.

End drain_facts.

#[local] Existing Instance ShmSystem.demo_fifo.

Lemma drain_no_drops_witness : exists k1 c1 k2 c2,
  ShmSystem.process_batch 3 (ShmSystem.push_response ShmSystem.demo_mid
    {| rp_bot_id := 1; rp_seq_num := 0; rp_send_tsc := 100; rp_valid := 1 |}).2 = Some (k1, c1) /\
  drain_turn 3 c1 (fun i => i) (fun k => 200 + Z.of_nat k) = Some (k2, c2) /\
  br_drops (collect_results (ShmSystem.total_sends_ c2) (ShmSystem.total_recvs_ c2) (F64.of_Z 1) HdrHistogram.no_percentiles) = 0.
Proof.
  destruct (drain_no_drops 2 ltac:(lia) (ShmSystem.demo_room _) (ShmSystem.demo_room _) ShmSystem.demo_fleet _ _ _ ShmSystem.demo_mid
    (fun i => i) (fun k => 200 + Z.of_nat k) (F64.of_Z 1) HdrHistogram.no_percentiles
    ShmSystem.demo_fresh ShmSystem.demo_mid_reach ltac:(vm_compute; reflexivity)) as (k1&c1&k2&c2&H1&H2&_&_&_&H3).
  exists k1, c1, k2, c2. split; [exact H1|]. split; [exact H2|exact H3].
Defined.

(** ** Two leaderboards *)

Import OrchestratorService.

Lemma rpc_run {A} net ops x (call : t * Reply A) : call.1 = exec_turn (run ops) x -> is_rpc x.2 = true ->
  exists ops', (WorkerAgent.rpc net (run ops) call).1 = run (ops ++ ops') /\ Forall (fun x => is_rpc x.2 = true) ops' /\
    (net <> WorkerAgent.Lost -> ops' = [x]).
Proof.
  intros E Hx. destruct net; cbn [WorkerAgent.rpc fst].
  - exists []. by rewrite app_nil_r.
  - exists [x]. rewrite run_snoc. split; [done|]. split; [by repeat constructor|done].
  - exists [x]. rewrite run_snoc. split; [done|]. split; [by repeat constructor|done].
Qed.

(** The worker's calls are a run of remote calls. *)
Lemma worker_run k cfg sys r redis redpanda now_ms ret ops : exists ops', Forall (fun x => is_rpc x.2 = true) ops' /\
  (worker_main k cfg sys r redis redpanda now_ms ret (run ops)).1 = run (ops ++ ops') /\
  (n_register k <> WorkerAgent.Lost -> n_start k <> WorkerAgent.Lost -> n_stop k <> WorkerAgent.Lost ->
   ops' = [(t_register k, Op_RegisterWorker (integrated_info cfg sys));
           (t_start k, Op_StartBenchmark {| cf_benchmark_id := cfg_benchmark_id cfg; cf_contestant_id := cfg_contestant_id cfg |});
           (t_stop k, Op_StopBenchmark {| bh_benchmark_id := cfg_benchmark_id cfg; bh_worker_id := cfg_worker_id cfg |})]).
Proof.
  unfold worker_main, call_stop, call_start, call_register. cbn [fst].
  destruct (rpc_run (n_register k) ops (t_register k, Op_RegisterWorker (integrated_info cfg sys)) (RegisterWorker (t_register k) (run ops) (integrated_info cfg sys))
    eq_refl eq_refl) as (o1&->&F1&N1).
  match goal with |- context [StartBenchmark _ _ ?bc] =>
    destruct (rpc_run (n_start k) (ops ++ o1) (t_start k, Op_StartBenchmark bc) (StartBenchmark (t_start k) (run (ops ++ o1)) bc) eq_refl eq_refl) as (o2&->&F2&N2) end.
  match goal with |- context [StopBenchmark _ _ ?bh] =>
    destruct (rpc_run (n_stop k) ((ops ++ o1) ++ o2) (t_stop k, Op_StopBenchmark bh) (StopBenchmark (t_stop k) (run ((ops ++ o1) ++ o2)) bh) eq_refl eq_refl) as (o3&->&F3&N3) end.
  exists (o1 ++ o2 ++ o3). rewrite !Forall_app, !app_assoc. split; [done|]. split; [done|]. intros H1 H2 H3. by rewrite N1, N2, N3.
Qed.

(** The command fits its buffer. *)
Lemma zadd_fits s c : Z.of_nat (length s) < 32 -> Z.of_nat (length c) <= 300 ->
  Z.of_nat (length (RedisPublisher.command [bytes "ZADD"; bytes "leaderboard"; s; c])) < 512.
Proof.
  intros Hs Hc. rewrite RedisPublisher.command4. cbn zeta. rewrite !length_app.
  pose proof (dec_length (Z.of_nat (length s)) 9). pose proof (dec_length (Z.of_nat (length c)) 9).
  change (length (bytes "ZADD")) with 4%nat. change (length (bytes "leaderboard")) with 11%nat. change (length (bytes "*4")) with 2%nat.
  change (length (bytes "$")) with 1%nat. change (length RedisPublisher.crlf) with 2%nat. 
  change (length (dec (Z.of_nat 4))) with 1%nat. change (length (dec (Z.of_nat 11))) with 2%nat. lia.
Qed.

(** A start and a stop of the same benchmark leave an entry of its contestant. *)
Lemma start_stop_entry ops t1 t2 bench contestant w : registered ops <> [] -> [] ∉ registered ops ->
  is_Some (leaderboard_ (run (ops ++ [(t1, Op_StartBenchmark {| cf_benchmark_id := bench; cf_contestant_id := contestant |});
                                      (t2, Op_StopBenchmark {| bh_benchmark_id := bench; bh_worker_id := w |})])) !! contestant).
Proof.
  intros Hr Hn. change [?x; ?y] with ([x] ++ [y]). rewrite app_assoc, !run_snoc. unfold exec_turn. cbn [fst snd exec].
  pose proof (first_alive_none ops (run ops) (server_ok ops)) as Hf. unfold StartBenchmark.
  destruct (first_alive (iterate (workers_ (run ops)))) as [|z l] eqn:E; [destruct (proj1 Hf eq_refl); done|]. cbn [fst].
  unfold StopBenchmark. cbn [bh_benchmark_id set_benchmarks benchmarks_ benchmark_id cf_benchmark_id]. rewrite lookup_insert_eq.
  cbn [fst update_leaderboard set_leaderboard leaderboard_ with_state contestant_id cf_contestant_id]. rewrite lookup_insert_eq. by eexists.
Qed.

(** a worker whose calls reach an orchestrator without nameless workers and
    whose Redis is connected leaves two leaderboards: the command sent to Redis
    is read as setting the contestant's score to that of the benchmark it ran,
    while the orchestrator's entry of the contestant has score zero, whatever
    the results were and whatever other remote calls came before. *)
Theorem worker_two_leaderboards k cfg sys r p redpanda now_ms ret ops :
  Forall (fun x => is_rpc x.2 = true) ops -> [] ∉ registered ops -> cfg_worker_id cfg <> [] ->
  n_register k <> WorkerAgent.Lost -> n_start k <> WorkerAgent.Lost -> n_stop k <> WorkerAgent.Lost ->
  0 <= RedisPublisher.fd_ p -> Z.of_nat (length (fixed 2 (br_score r))) < 32 -> (length (cfg_contestant_id cfg) <= 300)%nat ->
  let '(s, out) := worker_main k cfg sys r (Some p) redpanda now_ms ret (run ops) in
  leaderboard_ s !! cfg_contestant_id cfg =
    Some {| li_contestant_id := cfg_contestant_id cfg; score := zero; achieved_tps := zero; latency := empty_latency; drops := 0 |} /\
  exists data ok rest, out = Sent data ok :: rest /\
    RedisPublisher.read_command data = Some ([bytes "ZADD"; bytes "leaderboard"; fixed 2 (br_score r); cfg_contestant_id cfg], []).
Proof.
  intros Hops Hno Hid H1 H2 H3 Hfd Hs Hl.
  destruct (worker_run k cfg sys r (Some p) redpanda now_ms ret ops) as (ops'&Hf&Es&Eo). specialize (Eo H1 H2 H3). subst ops'.
  destruct (worker_main _ _ _ _ _ _ _ _ _) as [s out] eqn:E. cbn [fst] in Es. subst s. split.
  - change [?x; ?y; ?z] with ([x] ++ [y; z]). rewrite app_assoc.
    match goal with |- leaderboard_ (run (?o ++ [(?t1, Op_StartBenchmark _); (?t2, Op_StopBenchmark _)])) !! _ = _ =>
      destruct (start_stop_entry o t1 t2 (cfg_benchmark_id cfg) (cfg_contestant_id cfg) (cfg_worker_id cfg)) as [e He] end.
    + rewrite registered_snoc. cbn [registration snd]. by destruct (registered ops).
    + rewrite registered_snoc. cbn [registration snd integrated_info wi_worker_id]. rewrite not_elem_of_app, list_elem_of_singleton.
      split; [done|congruence].
    + rewrite He. f_equal. change (e = zero_entry (cfg_contestant_id cfg)). eapply rpc_board; [|exact He].
      rewrite <- app_assoc. by apply Forall_app.
  - unfold worker_main, publish_redis_final in E. apply (f_equal snd) in E. cbn [snd app] in E. subst out.
    destruct (RedisPublisher.resp_commands p (cfg_contestant_id cfg) (br_score r) [] [] [] (ret 0%nat) Hfd Hs) as (->&_&Hr&_).
    rewrite (proj2 (Z.ltb_lt _ 512)); [|apply zadd_fits; lia]. do 3 eexists. split; [reflexivity|].
    rewrite <- (app_nil_r (RedisPublisher.command _)). apply Hr.
Qed.

Definition demo_calls : Calls :=
  {| n_register := WorkerAgent.Answered; t_register := 1; n_start := WorkerAgent.Unanswered; t_start := 2;
     n_stop := WorkerAgent.Answered; t_stop := 3 |}.
Definition demo_system : WorkerAgent.System :=
  {| WorkerAgent.sys_hostname := bytes "host"; WorkerAgent.nprocessors := 8; WorkerAgent.phys_pages := 4096; WorkerAgent.pagesize := 4096;
     WorkerAgent.meminfo := None; WorkerAgent.kvm_access := false; WorkerAgent.sys_uninit := 0 |}.
Definition demo_worker_cfg : WorkerConfig := parse_args [bytes "--contestant"; bytes "ada"; bytes "--bots"; bytes "64"; bytes "--firecracker"].
Definition demo_results : BenchmarkResults := collect_results 500 500 (F64.of_Z 2) HdrHistogram.no_percentiles.

Lemma worker_two_leaderboards_witness :
  (cfg_contestant_id demo_worker_cfg, num_bots demo_worker_cfg, use_firecracker demo_worker_cfg) = (bytes "ada", 64, true) /\
  fixed 2 (br_score demo_results) = bytes "250000.00" /\
  let '(s, out) := worker_main demo_calls demo_worker_cfg demo_system demo_results (Some {| RedisPublisher.fd_ := 3 |}) None 0
    (fun _ => 60) (run []) in
  score <$> leaderboard_ s !! bytes "ada" = Some zero /\ length out = 5%nat.
Proof.
  split; [vm_compute; reflexivity|]. split; [vm_compute; reflexivity|].
  pose proof (worker_two_leaderboards demo_calls demo_worker_cfg demo_system demo_results {| RedisPublisher.fd_ := 3 |} None 0 (fun _ => 60) []) as H.
  assert (Hlen : length (worker_main demo_calls demo_worker_cfg demo_system demo_results (Some {| RedisPublisher.fd_ := 3 |}) None 0
    (fun _ => 60) (run [])).2 = 5%nat) by reflexivity.
  destruct (worker_main _ _ _ _ _ _ _ _ _) as [s out]. destruct H as [H _].
  - constructor.
  - apply not_elem_of_nil.
  - discriminate.
  - discriminate.
  - discriminate.
  - discriminate.
  - vm_compute. discriminate.
  - vm_compute. reflexivity.
  - vm_compute. lia.
  - split; [|exact Hlen]. change (bytes "ada") with (cfg_contestant_id demo_worker_cfg). rewrite H. reflexivity.
Defined.
