(* ===== verification/FlatMap.v ===== *)
(** The flat hash map (src/core/include/core/flat_map.hpp): open addressing with
    Robin Hood displacement, FNV-1a hashes and 8-bit probe lengths.  A key is the
    list of its bytes, which is what the map hashes and compares.  The theorems
    show that it is a finite map while it holds fewer than 254 keys and has a
    free slot, and that a key is lost when a probe length wraps around. *)

From S2P Require Import Prelude.

(** ** FNV-1a *)

Definition FNV_OFFSET : Z := 14695981039346656037.
Definition FNV_PRIME : Z := 1099511628211.
Definition fnv1a_hash (data : list Z) : Z := foldl (fun h b => u64 (Z.lxor h b * FNV_PRIME)) FNV_OFFSET data.

(** The bytes of a 64-bit key. *)
Definition u64_bytes (key : Z) : list Z := (fun i => Z.land (Z.shiftr key (8 * i)) 255) <$> seqZ 0 8.
Definition fnv1a_hash_u64 (key : Z) : Z := fnv1a_hash (u64_bytes key).

Module FlatMap.
Section FlatMap.
Context {V : Type} (Capacity : Z).

Record t := { keys : arr (list Z); values : arr V; psl : arr Z; size_ : Z }.

Definition MASK : Z := Capacity - 1.

Definition clear (m : t) : t := {| keys := keys m; values := values m; psl := fun _ => 0; size_ := 0 |}.

(** [slots_[idx] = {k, v, p}]. *)
Definition place (m : t) (idx : Z) (k : list Z) (v : V) (p : Z) : t :=
  {| keys := (keys m).[idx <- k]; values := (values m).[idx <- v]; psl := (psl m).[idx <- p]; size_ := size_ m |}.
Definition grow (m : t) : t := {| keys := keys m; values := values m; psl := psl m; size_ := u64 (size_ m + 1) |}.
Definition set_value (m : t) (idx : Z) (v : V) : t :=
  {| keys := keys m; values := (values m).[idx <- v]; psl := psl m; size_ := size_ m |}.

Definition next (idx : Z) : Z := Z.land (u64 (idx + 1)) MASK.
Definition home (key : list Z) : Z := Z.land (fnv1a_hash key) MASK.

(** The loop of [insert]; [ck], [cv] and [cp] are the carried slot.  Keys are
    compared with the key of the call, not with the carried one. *)
Fixpoint insert_loop (fuel : nat) (m : t) (key : list Z) (value : V) (idx : Z) (ck : list Z) (cv : V) (cp : Z) : option (bool * t) :=
  match fuel with
  | O => None
  | S fuel =>
      if psl m idx =? 0 then Some (true, grow (place m idx ck cv cp))
      else if bool_decide (keys m idx = key) then Some (false, set_value m idx value)
      else if psl m idx <? cp then
        insert_loop fuel (place m idx ck cv cp) key value (next idx) (keys m idx) (values m idx) (u8 (psl m idx + 1))
      else insert_loop fuel m key value (next idx) ck cv (u8 (cp + 1))
  end.
Definition insert (m : t) (key : list Z) (value : V) : option (bool * t) :=
  insert_loop (Z.to_nat Capacity) m key value (home key) key value 1.

(** The loop of [find]: [Some None] is the null pointer. *)
Fixpoint find_loop (fuel : nat) (m : t) (key : list Z) (idx p : Z) : option (option V) :=
  match fuel with
  | O => None
  | S fuel =>
      if (psl m idx =? 0) || (psl m idx <? p) then Some None
      else if bool_decide (keys m idx = key) then Some (Some (values m idx))
      else find_loop fuel m key (next idx) (u8 (p + 1))
  end.
Definition find (m : t) (key : list Z) : option (option V) := find_loop (Z.to_nat Capacity) m key (home key) 1.

(** ** Slots modulo the capacity *)

Context (k : Z) (Hk : 0 <= k <= 32) (HC : Capacity = 2 ^ k).

Lemma cap_range : 0 < Capacity <= 4294967296.
Proof.
  rewrite HC. split; [apply Z.pow_pos_nonneg; lia|]. change 4294967296 with (2 ^ 32). apply Z.pow_le_mono_r; lia.
Qed.

Definition at_ (b i : Z) : Z := (b + i) mod Capacity.

Lemma fm_at_range b i : 0 <= at_ b i < Capacity.
Proof. apply Z.mod_pos_bound, cap_range. Qed.
Lemma fm_at_0 b : 0 <= b < Capacity -> at_ b 0 = b.
Proof. intros. unfold at_. rewrite Z.add_0_r. by apply Z.mod_small. Qed.
Lemma fm_at_at b i j : at_ (at_ b i) j = at_ b (i + j).
Proof. unfold at_. rewrite Zplus_mod_idemp_l. f_equal. lia. Qed.
Lemma fm_at_inj b i j : at_ b i = at_ b j -> - Capacity < i - j < Capacity -> i = j.
Proof.
  unfold at_. intros H Hij. pose proof cap_range as Hcp.
  assert (Hz : (i - j) mod Capacity = 0).
  { replace (i - j) with ((b + i) - (b + j)) by lia. rewrite Zminus_mod, H, Z.sub_diag. by apply Zmod_0_l. }
  apply Z.mod_divide in Hz as [q Hq]; [|lia]. assert (q = 0); nia.
Qed.
Lemma fm_at_surj b s : 0 <= s < Capacity -> exists j, 0 <= j < Capacity /\ at_ b j = s.
Proof.
  intros Hs. exists ((s - b) mod Capacity). split; [apply Z.mod_pos_bound, cap_range|].
  unfold at_. rewrite Zplus_mod_idemp_r. replace (b + (s - b)) with s by lia. by apply Z.mod_small.
Qed.
Lemma fm_at_ne s i : 0 <= s < Capacity -> 0 < i < Capacity -> at_ s i <> s.
Proof. intros Hs Hi H. rewrite <- (fm_at_0 s Hs) in H at 2. apply fm_at_inj in H; lia. Qed.
Lemma fm_at_back s : 0 <= s < Capacity -> at_ (at_ s 1) (-1) = s.
Proof. intros. rewrite fm_at_at. by apply fm_at_0. Qed.

Lemma fm_mask_mod x : Z.land x MASK = x mod Capacity.
Proof. unfold MASK. rewrite HC. apply land_mask. lia. Qed.
Lemma next_at s : 0 <= s < Capacity -> next s = at_ s 1.
Proof. intros. pose proof cap_range as Hcp. unfold next, at_. by rewrite fm_mask_mod, u64_small by lia. Qed.
Lemma next_step b i : next (at_ b i) = at_ b (i + 1).
Proof. rewrite next_at by apply fm_at_range. apply fm_at_at. Qed.
Lemma home_range key : 0 <= home key < Capacity.
Proof. unfold home. rewrite fm_mask_mod. apply Z.mod_pos_bound, cap_range. Qed.

(** ** Representation *)

(** The longest probe sequence that a search can pass without wrapping. *)
Definition PMAX : Z := 254.

Record rh (m : t) : Prop := {
  rh_bound : forall s, 0 <= psl m s <= PMAX;
  rh_home : forall s, 0 <= s < Capacity -> 0 < psl m s -> s = at_ (home (keys m s)) (psl m s - 1);
  rh_step : forall s, 0 <= s < Capacity -> psl m (at_ s 1) <= psl m s + 1 }.

Definition occ (m : t) (s : Z) : Prop := 0 <= s < Capacity /\ 0 < psl m s.
Definition uniq (m : t) : Prop := forall s1 s2, occ m s1 -> occ m s2 -> keys m s1 = keys m s2 -> s1 = s2.
Definition has (m : t) (key : list Z) (v : V) : Prop := exists s, occ m s /\ keys m s = key /\ values m s = v.

(** The table stands for the finite map [M]. *)
Record represents (m : t) (M : gmap (list Z) V) : Prop := {
  rp_rh : rh m;
  rp_uniq : uniq m;
  rp_has : forall key v, has m key v <-> M !! key = Some v;
  rp_size : size_ m = Z.of_nat (size M) }.

(** Walking back, probe lengths fall by at most one. *)
Lemma fm_rh_back m b n j : rh m -> 0 <= j -> 0 <= n -> psl m (at_ b (n + j)) <= psl m (at_ b n) + j.
Proof.
  intros Hr Hj Hn. revert Hj. apply (natlike_ind (fun j => psl m (at_ b (n + j)) <= psl m (at_ b n) + j)).
  - rewrite Z.add_0_r. lia.
  - intros x Hx IH. pose proof (rh_step m Hr (at_ b (n + x)) (fm_at_range _ _)) as H. rewrite fm_at_at in H.
    replace (n + Z.succ x) with (n + x + 1) by lia. lia.
Qed.

(** The probe path of a stored key is occupied, with lengths above the offset. *)
Lemma fm_probe_path m s q : rh m -> occ m s -> 0 <= q < psl m s -> q + 1 <= psl m (at_ (home (keys m s)) q).
Proof.
  intros Hr [Hs Hd] Hq. pose proof (rh_home m Hr s Hs Hd) as Hh.
  pose proof (fm_rh_back m (home (keys m s)) q (psl m s - 1 - q) Hr ltac:(lia) ltac:(lia)) as Hb.
  replace (q + (psl m s - 1 - q)) with (psl m s - 1) in Hb by lia. rewrite <- Hh in Hb. lia.
Qed.

(** A different slot on the path holds a different key. *)
Lemma path_other m s q : rh m -> uniq m -> occ m s -> psl m s <= Capacity -> 0 <= q < psl m s - 1 ->
  keys m (at_ (home (keys m s)) q) <> keys m s.
Proof.
  intros Hr Hu Ho Hcap Hq E. pose proof (fm_probe_path m s q Hr Ho ltac:(lia)).
  apply Hu in E; [|split; [apply fm_at_range|lia]|done]. pose proof Ho as [Hs Hd].
  rewrite (rh_home m Hr s Hs Hd) in E at 2. apply fm_at_inj in E; lia.
Qed.

(** A run of [d] occupied slots from [b] holds [d] keys of the map. *)
Lemma fm_run_length m M b d : represents m M -> 0 <= d <= Capacity -> (forall q, 0 <= q < d -> occ m (at_ b q)) ->
  d <= Z.of_nat (size M).
Proof.
  intros [Hr Hu Hh _] Hd Hocc.
  assert (Hsub : ((fun q => keys m (at_ b q)) <$> seqZ 0 d) ⊆+ (map_to_list M).*1).
  { apply NoDup_submseteq.
    - apply NoDup_fmap_2_strong; [|apply NoDup_seqZ]. intros q1 q2 H1%elem_of_seqZ H2%elem_of_seqZ E.
      apply (fm_at_inj b); [|lia]. apply Hu; [apply Hocc; lia..|done].
    - intros x (q&->&Hq%elem_of_seqZ)%list_elem_of_fmap. apply list_elem_of_fmap.
      exists (keys m (at_ b q), values m (at_ b q)). split; [done|]. apply elem_of_map_to_list, Hh.
      exists (at_ b q). split; [apply Hocc; lia|done]. }
  apply submseteq_length in Hsub. rewrite !length_fmap, length_seqZ, length_map_to_list in Hsub. lia.
Qed.

(** With fewer keys than slots there is a hole, and no probe sequence is longer
    than the number of keys. *)
Lemma hole m M : represents m M -> Z.of_nat (size M) < Capacity -> exists s, 0 <= s < Capacity /\ psl m s = 0.
Proof.
  intros Hm Hl. pose proof cap_range as Hcp.
  destruct (decide (Exists (fun s => psl m s = 0) (seqZ 0 Capacity))) as [He|He].
  - apply Exists_exists in He as (s & Hs%elem_of_seqZ & Hd). exists s. split; [lia|done].
  - exfalso. assert (Capacity <= Z.of_nat (size M)); [|lia]. apply (fm_run_length m M 0); [done|lia|].
    intros q Hq. split; [apply fm_at_range|]. pose proof (rh_bound m (rp_rh _ _ Hm) (at_ 0 q)) as Hbd.
    destruct (Z.eq_dec (psl m (at_ 0 q)) 0) as [H0|]; [|lia]. exfalso. apply He, Exists_exists. exists (at_ 0 q).
    split; [|done]. apply elem_of_seqZ. pose proof (fm_at_range 0 q). lia.
Qed.

Lemma psl_capacity m s : rh m -> (exists e, 0 <= e < Capacity /\ psl m e = 0) -> 0 <= s < Capacity -> psl m s < Capacity.
Proof.
  intros Hr (e&He&H0) Hs. destruct (Z.le_gt_cases Capacity (psl m s)) as [Hge|]; [exfalso|done]. pose proof cap_range as Hcp.
  destruct (fm_at_surj (home (keys m s)) e He) as (j&Hj&<-).
  pose proof (fm_probe_path m s j Hr ltac:(split; [done|lia]) ltac:(lia)). lia.
Qed.

Lemma psl_small m M s : represents m M -> Z.of_nat (size M) < Capacity -> 0 <= s < Capacity -> psl m s <= Z.of_nat (size M).
Proof.
  intros Hm Hl Hs. pose proof (rp_rh _ _ Hm) as Hr. pose proof (psl_capacity m s Hr (hole m M Hm Hl) Hs).
  pose proof (rh_bound m Hr s). destruct (Z.eq_dec (psl m s) 0); [lia|].
  apply (fm_run_length m M (home (keys m s))); [done|lia|]. intros q Hq.
  pose proof (fm_probe_path m s q Hr ltac:(split; [done|lia]) ltac:(lia)). split; [apply fm_at_range|lia].
Qed.

(** ** Lookup *)

Lemma find_present m s fuel p : rh m -> uniq m -> occ m s -> psl m s <= Capacity -> 1 <= p <= psl m s ->
  psl m s - p < Z.of_nat fuel -> find_loop fuel m (keys m s) (at_ (home (keys m s)) (p - 1)) p = Some (Some (values m s)).
Proof.
  intros Hr Hu Ho Hcap. pose proof (rh_bound m Hr s) as Hb. unfold PMAX in Hb. revert p.
  induction fuel as [|fuel IH]; intros p Hp Hf; [lia|]. cbn [find_loop].
  pose proof (fm_probe_path m s (p - 1) Hr Ho ltac:(lia)) as Hpath.
  rewrite (proj2 (Z.eqb_neq _ 0)), (proj2 (Z.ltb_ge _ _)) by lia. cbn [orb].
  destruct (Z.eq_dec p (psl m s)) as [->|Hne].
  - pose proof Ho as [Hs Hd]. rewrite <- (rh_home m Hr s Hs Hd). by rewrite bool_decide_true.
  - rewrite bool_decide_false by (apply path_other; (done || lia)). rewrite next_step, u8_small by lia.
    replace (p - 1 + 1) with ((p + 1) - 1) by lia. apply IH; lia.
Qed.

Lemma find_absent m key fuel j p : rh m -> (forall s, occ m s -> keys m s <> key) ->
  1 <= p -> psl m (at_ (home key) j) = 0 -> p - 1 <= j -> j - (p - 1) < Z.of_nat fuel -> p <= 255 ->
  find_loop fuel m key (at_ (home key) (p - 1)) p = Some None.
Proof.
  intros Hr Hno. revert p. induction fuel as [|fuel IH]; intros p Hp Hj Hpj Hf Hp'; [lia|]. cbn [find_loop].
  pose proof (rh_bound m Hr (at_ (home key) (p - 1))) as Hb. unfold PMAX in Hb.
  destruct (Z.eqb_spec (psl m (at_ (home key) (p - 1))) 0) as [|H0]; [done|].
  destruct (Z.ltb_spec (psl m (at_ (home key) (p - 1))) p) as [|Hge]; [done|]. cbn [orb].
  rewrite bool_decide_false by (apply Hno; split; [apply fm_at_range|lia]). rewrite next_step, u8_small by lia.
  replace (p - 1 + 1) with ((p + 1) - 1) by lia. destruct (Z.eq_dec (p - 1) j) as [<-|]; [done|]. apply IH; (done || lia).
Qed.

Lemma find_represents m M key : represents m M -> Z.of_nat (size M) < Capacity -> find m key = Some (M !! key).
Proof.
  intros Hm Hl. pose proof Hm as [Hr Hu Hh _]. pose proof cap_range as Hcp. pose proof (hole m M Hm Hl) as Hhole.
  unfold find. rewrite <- (fm_at_0 (home key) (home_range key)) at 1. destruct (M !! key) as [v|] eqn:E.
  - apply Hh in E as (s&Ho&<-&<-). pose proof Ho as [Hs Hd]. pose proof (psl_capacity m s Hr Hhole Hs).
    apply (find_present m s _ 1); (done || lia).
  - destruct Hhole as (e&He&H0). destruct (fm_at_surj (home key) e He) as (j&Hj&<-).
    apply (find_absent m key _ j 1); try (done || lia). intros s Ho Ek.
    assert (M !! key = Some (values m s)) by (apply Hh; by exists s). congruence.
Qed.

(** ** Insertion *)

Lemma place_psl m i x v p s : psl (place m i x v p) s = if s =? i then p else psl m s.
Proof. reflexivity. Qed.
Lemma fm_place_keys m i x v p s : keys (place m i x v p) s = if s =? i then x else keys m s.
Proof. reflexivity. Qed.
Lemma fm_place_values m i x v p s : values (place m i x v p) s = if s =? i then v else values m s.
Proof. reflexivity. Qed.

(** A store that keeps the order of probe lengths. *)
Lemma fm_rh_place m i x v c : rh m -> 0 <= i < Capacity -> i = at_ (home x) (c - 1) -> 1 <= c <= PMAX ->
  c <= psl m (at_ i (-1)) + 1 -> psl m (at_ i 1) <= c + 1 -> rh (place m i x v c).
Proof.
  intros [Hb Hh Hst] Hi Hx Hc Hback Hfwd. split.
  - intros s. specialize (Hb s). rewrite place_psl. destruct (Z.eqb_spec s i); lia.
  - intros s Hs. rewrite place_psl, fm_place_keys. destruct (Z.eqb_spec s i) as [->|]; [done|by apply Hh].
  - intros s Hs. specialize (Hst s Hs). rewrite !place_psl.
    destruct (Z.eqb_spec (at_ s 1) i) as [H1|H1], (Z.eqb_spec s i) as [H2|H2]; try lia.
    + rewrite <- H1, fm_at_back in Hback by done. lia.
    + rewrite H2. lia.
Qed.

(** A store of a new key keeps keys apart. *)
Lemma uniq_place m i x v c : uniq m -> (forall s, occ m s -> keys m s <> x) -> uniq (place m i x v c).
Proof.
  intros Hu Hno s1 s2 [R1 P1] [R2 P2]. rewrite !fm_place_keys. rewrite place_psl in P1, P2.
  destruct (Z.eqb_spec s1 i) as [->|N1], (Z.eqb_spec s2 i) as [->|N2]; try done.
  - intros E. by destruct (Hno s2).
  - intros E. by destruct (Hno s1).
  - by apply Hu.
Qed.

(** Contents after a store: the new entry and those of the other slots. *)
Lemma has_place m i x v c k' v' : 0 <= i < Capacity -> 0 < c ->
  has (place m i x v c) k' v' <-> (k' = x /\ v' = v) \/ (exists s, s <> i /\ occ m s /\ keys m s = k' /\ values m s = v').
Proof.
  intros Hi Hc. unfold has, occ. split.
  - intros (s&[Hr Hp]&Hx&Hv). rewrite place_psl in Hp. rewrite fm_place_keys in Hx. rewrite fm_place_values in Hv.
    destruct (Z.eqb_spec s i) as [->|]; [by left|right; by exists s].
  - intros [[-> ->]|(s&Hne&[Hr Hp]&Hx&Hv)].
    + exists i. by rewrite place_psl, fm_place_keys, fm_place_values, Z.eqb_refl.
    + exists s. rewrite place_psl, fm_place_keys, fm_place_values. by rewrite (proj2 (Z.eqb_neq s i)).
Qed.

(** The loop with a carried entry whose key is not stored, towards the hole at
    offset [j]. *)
Record carried (m : t) (key : list Z) (idx : Z) (ck : list Z) (cp j L : Z) : Prop := {
  ca_idx : 0 <= idx < Capacity;
  ca_len : 1 <= cp <= L + 1 /\ L + 1 <= PMAX;
  ca_home : idx = at_ (home ck) (cp - 1);
  ca_back : cp <= psl m (at_ idx (-1)) + 1;
  ca_new : forall s, occ m s -> keys m s <> ck;
  ca_key : forall i, 0 <= i <= j -> 0 < psl m (at_ idx i) -> keys m (at_ idx i) <> key;
  ca_hole : 0 <= j < Capacity /\ psl m (at_ idx j) = 0;
  ca_bound : forall i, 0 <= i <= j -> psl m (at_ idx i) <= L }.

Lemma carried_next m key idx ck cp j L : rh m -> carried m key idx ck cp j L -> 0 < psl m idx -> cp <= psl m idx ->
  carried m key (at_ idx 1) ck (cp + 1) (j - 1) L.
Proof.
  intros Hr [Hi [Hl HL] Hh Hb Hn Hkey [Hj H0] Hbd] Hp Hge. pose proof (Hbd 0 ltac:(lia)) as Hb0. rewrite fm_at_0 in Hb0 by done.
  assert (j <> 0) by (intros ->; rewrite fm_at_0 in H0 by done; lia).
  split; try done; try lia.
  - apply fm_at_range.
  - rewrite Hh at 1. rewrite fm_at_at. f_equal. lia.
  - rewrite fm_at_back by done. lia.
  - intros i Hi'. rewrite fm_at_at. apply Hkey. lia.
  - rewrite fm_at_at. replace (1 + (j - 1)) with j by lia. split; [lia|done].
  - intros i Hi'. rewrite fm_at_at. apply Hbd. lia.
Qed.

Lemma carried_swap m key idx ck cv cp j L : rh m -> uniq m -> carried m key idx ck cp j L -> 0 < psl m idx -> psl m idx < cp ->
  carried (place m idx ck cv cp) key (at_ idx 1) (keys m idx) (psl m idx + 1) (j - 1) L.
Proof.
  intros Hr Hu [Hi [Hl HL] Hh Hb Hn Hkey [Hj H0] Hbd] Hp Hlt. pose proof (Hbd 0 ltac:(lia)) as Hb0. rewrite fm_at_0 in Hb0 by done.
  assert (j <> 0) by (intros ->; rewrite fm_at_0 in H0 by done; lia).
  assert (Hne : forall i, 0 <= i <= j - 1 -> (at_ (at_ idx 1) i =? idx) = false).
  { intros i Hi'. rewrite fm_at_at. apply Z.eqb_neq, fm_at_ne; [done|lia]. }
  split; try lia.
  - apply fm_at_range.
  - rewrite (rh_home m Hr idx Hi Hp) at 1. rewrite fm_at_at. f_equal. lia.
  - rewrite fm_at_back by done. rewrite place_psl, Z.eqb_refl. lia.
  - intros s [Hs Hps]. rewrite fm_place_keys. rewrite place_psl in Hps. destruct (Z.eqb_spec s idx) as [->|N].
    + intros E. by apply (Hn idx).
    + intros E. apply N, Hu; done.
  - intros i Hi'. rewrite place_psl, fm_place_keys, Hne, fm_at_at by done. apply Hkey. lia.
  - rewrite place_psl, Hne, fm_at_at by lia. replace (1 + (j - 1)) with j by lia. split; [lia|done].
  - intros i Hi'. rewrite place_psl, Hne, fm_at_at by done. apply Hbd. lia.
Qed.

Lemma insert_absent fuel : forall m key value idx ck cv cp j L, rh m -> uniq m -> carried m key idx ck cp j L -> j < Z.of_nat fuel ->
  exists m', insert_loop fuel m key value idx ck cv cp = Some (true, grow m') /\ rh m' /\ uniq m' /\ size_ m' = size_ m /\
    forall k' v', has m' k' v' <-> has m k' v' \/ (k' = ck /\ v' = cv).
Proof.
  induction fuel as [|fuel IH]; intros m key value idx ck cv cp j L Hr Hu Hc Hf; [pose proof (ca_hole _ _ _ _ _ _ _ Hc); lia|].
  pose proof Hc as [Hi [Hl HL] Hh Hb Hn Hkey [Hj H0] Hbd]. pose proof (rh_bound m Hr idx) as Hb0.
  pose proof (Hbd 0 ltac:(lia)) as Hb1. rewrite fm_at_0 in Hb1 by done. pose proof (rh_step m Hr idx Hi) as Hst.
  cbn [insert_loop]. destruct (Z.eqb_spec (psl m idx) 0) as [E0|N0].
  { exists (place m idx ck cv cp). split; [done|]. split; [by apply fm_rh_place; (done || lia)|]. split; [by apply uniq_place|]. split; [done|].
    intros k' v'. rewrite has_place by lia. split.
    - intros [?|(s&_&?)]; [by right|left; by exists s].
    - intros [(s&Ho&Hx)|?]; [right|by left]. exists s. split; [|done]. intros ->. destruct Ho. lia. }
  rewrite bool_decide_false by (pose proof (Hkey 0 ltac:(lia)) as Hk0; rewrite fm_at_0 in Hk0 by done; apply Hk0; lia).
  rewrite next_at by done. unfold PMAX in *. destruct (Z.ltb_spec (psl m idx) cp) as [Hlt|Hge]; rewrite u8_small by lia.
  - destruct (IH (place m idx ck cv cp) key value (at_ idx 1) (keys m idx) (values m idx) (psl m idx + 1) (j - 1) L)
      as (m'&->&Hr'&Hu'&Hs'&Hh'); [apply fm_rh_place; (done || unfold PMAX; lia)|by apply uniq_place|apply carried_swap; (done || lia)|lia|].
    exists m'. split; [done|]. split; [done|]. split; [done|]. split; [done|]. intros k' v'. rewrite Hh', has_place by lia. split.
    + intros [[?|(s&_&?)]|[-> ->]]; [by right|left; by exists s|left; exists idx; repeat split; (done || lia)].
    + intros [(s&Ho&Hx&Hv)|?]; [|left; by left]. destruct (Z.eq_dec s idx) as [->|]; [by right|left; right; by exists s].
  - apply (IH m key value (at_ idx 1) ck cv (cp + 1) (j - 1) L); [done|done|apply carried_next; (done || lia)|lia].
Qed.

Lemma insert_present m s value fuel p : rh m -> uniq m -> occ m s -> psl m s <= Capacity -> 1 <= p <= psl m s ->
  psl m s - p < Z.of_nat fuel ->
  insert_loop fuel m (keys m s) value (at_ (home (keys m s)) (p - 1)) (keys m s) value p = Some (false, set_value m s value).
Proof.
  intros Hr Hu Ho Hcap. pose proof (rh_bound m Hr s) as Hb. unfold PMAX in Hb. revert p.
  induction fuel as [|fuel IH]; intros p Hp Hf; [lia|]. cbn [insert_loop].
  pose proof (fm_probe_path m s (p - 1) Hr Ho ltac:(lia)) as Hpath. rewrite (proj2 (Z.eqb_neq _ 0)) by lia.
  destruct (Z.eq_dec p (psl m s)) as [->|Hne].
  - pose proof Ho as [Hs Hd]. rewrite <- (rh_home m Hr s Hs Hd). by rewrite bool_decide_true.
  - rewrite bool_decide_false by (apply path_other; (done || lia)). rewrite (proj2 (Z.ltb_ge _ _)), next_step, u8_small by lia.
    replace (p - 1 + 1) with ((p + 1) - 1) by lia. apply IH; lia.
Qed.

Lemma represents_insert m M key value : represents m M -> Z.of_nat (size M) < Capacity -> Z.of_nat (size M) < PMAX ->
  exists m', insert m key value = Some (bool_decide (M !! key = None), m') /\ represents m' (<[key := value]> M).
Proof.
  intros Hm Hl Hp. pose proof Hm as [Hr Hu Hh Hsz]. pose proof cap_range as Hcp. pose proof (hole m M Hm Hl) as Hhole.
  destruct (M !! key) as [v|] eqn:E.
  - rewrite bool_decide_false by done. pose proof E as E'. apply Hh in E' as (s&Ho&Ek&Ev). pose proof Ho as [Hs Hd].
    pose proof (psl_capacity m s Hr Hhole Hs). exists (set_value m s value). split.
    { unfold insert. rewrite <- (fm_at_0 (home key) (home_range key)), <- Ek. apply (insert_present m s _ _ 1); (done || lia). }
    split; [by split; apply Hr|done| |by rewrite map_size_insert_Some].
    intros k' v'. rewrite lookup_insert_Some, <- Hh. unfold has, occ, set_value. cbn [keys values psl]. split.
    + intros (s'&Ho'&Hx&Hv). destruct (Z.eq_dec s' s) as [->|N].
      * left. rewrite upd_eq in Hv. split; congruence.
      * right. rewrite upd_ne in Hv by done. split; [|by exists s']. intros <-. apply N, Hu; (done || congruence).
    + intros [[<- <-]|[N (s'&Ho'&Hx&Hv)]]; [exists s; by rewrite upd_eq|exists s']. rewrite upd_ne; [done|]. intros ->. congruence.
  - rewrite bool_decide_true by done. destruct Hhole as (e&He&H0). destruct (fm_at_surj (home key) e He) as (j&Hj&<-).
    assert (Hno : forall s, occ m s -> keys m s <> key).
    { intros s Ho Ek. assert (M !! key = Some (values m s)) by (apply Hh; by exists s). congruence. }
    destruct (insert_absent (Z.to_nat Capacity) m key value (home key) key value 1 j (Z.of_nat (size M)) Hr Hu) as (m'&Ei&Hr'&Hu'&Hs'&Hh').
    { split; try done; try lia.
      - apply home_range.
      - symmetry. apply fm_at_0, home_range.
      - pose proof (rh_bound m Hr (at_ (home key) (-1))). lia.
      - intros i _ Hpi. apply Hno. split; [apply fm_at_range|done].
      - intros i _. apply (psl_small m M); [done..|apply fm_at_range]. }
    { lia. }
    exists (grow m'). split; [done|]. split; [by split; apply Hr'|done| |].
    + intros k' v'. change (has (grow m') k' v') with (has m' k' v'). rewrite Hh', Hh, lookup_insert_Some. split.
      * intros [H|[-> ->]]; [right; split; [congruence|done]|by left].
      * intros [[<- <-]|[_ ?]]; [by right|by left].
    + cbn [grow size_]. rewrite Hs', Hsz, map_size_insert_None by done. rewrite u64_small by lia. lia.
Qed.

Lemma represents_clear m : represents (clear m) ∅.
Proof.
  split.
  - split; cbn; unfold PMAX; intros; lia.
  - intros s1 s2 [_ H]. cbn in H. lia.
  - intros key v. rewrite lookup_empty. split; [|done]. intros (s&[_ H]&_). cbn in H. lia.
  - by rewrite map_size_empty.
Qed.

(** A sequence of insertions, in the table and in a finite map. *)
Fixpoint insert_all (m : t) (ops : list (list Z * V)) : option t :=
  match ops with [] => Some m | (key, v) :: ops => '(_, m) ← insert m key v; insert_all m ops end.
Definition map_all (M : gmap (list Z) V) (ops : list (list Z * V)) : gmap (list Z) V := foldl (fun M '(key, v) => <[key := v]> M) M ops.

Lemma map_all_grows ops : forall M, (size M <= size (map_all M ops))%nat.
Proof.
  induction ops as [|[key v] ops IH]; intros M; [done|]. cbn. etransitivity; [|apply IH].
  destruct (M !! key) eqn:E; [rewrite map_size_insert_Some by done|rewrite map_size_insert_None by done]; lia.
Qed.

Lemma insert_all_represents ops : forall m M, represents m M -> Z.of_nat (size (map_all M ops)) < Capacity ->
  Z.of_nat (size (map_all M ops)) < PMAX -> exists m', insert_all m ops = Some m' /\ represents m' (map_all M ops).
Proof.
  induction ops as [|[key v] ops IH]; intros m M Hm Hc Hp; [by exists m|]. cbn [insert_all].
  pose proof (map_all_grows ((key, v) :: ops) M). destruct (represents_insert m M key v Hm) as (m1&->&H1); [lia|lia|].
  cbn [mbind option_bind]. by apply IH.
Qed.

(** a cleared map of a power-of-two capacity is a finite map: after any
    insertions and updates that leave fewer than 254 keys and a free slot, every
    insertion has returned, [find] returns for every key the value last stored
    under it or null, the size is the number of keys, and the next insertion
    returns whether the key is new. *)
Theorem flat_map_refines m0 ops key value :
  Z.of_nat (size (map_all ∅ ops)) < Capacity -> Z.of_nat (size (map_all ∅ ops)) < 254 ->
  exists m, insert_all (clear m0) ops = Some m /\ find m key = Some (map_all ∅ ops !! key) /\
    size_ m = Z.of_nat (size (map_all ∅ ops)) /\
    (exists m', insert m key value = Some (bool_decide (map_all ∅ ops !! key = None), m')).
Proof.
  intros Hc Hp. destruct (insert_all_represents ops (clear m0) ∅ (represents_clear m0) Hc Hp) as (m&E&Hm).
  exists m. split; [done|]. split; [by apply find_represents|]. split; [apply (rp_size _ _ Hm)|].
  destruct (represents_insert m _ key value Hm Hc Hp) as (m'&E'&_). by exists m'.
Qed.

End FlatMap.
End FlatMap.

(** ** Examples *)

Definition blank : @FlatMap.t Z := {| FlatMap.keys := fun _ => []; FlatMap.values := fun _ => 0; FlatMap.psl := fun _ => 0; FlatMap.size_ := 0 |}.
Definition demo_ops : list (list Z * Z) := [(u64_bytes 7, 70); (u64_bytes 8, 80); (u64_bytes 7, 71)].

Lemma flat_map_refines_witness :
  exists m, FlatMap.insert_all 8 (FlatMap.clear blank) demo_ops = Some m /\ FlatMap.find 8 m (u64_bytes 7) = Some (Some 71) /\
    FlatMap.size_ m = 2.
Proof.
  destruct (FlatMap.flat_map_refines 8 3 ltac:(lia) eq_refl blank demo_ops (u64_bytes 7) 0 ltac:(vm_compute; reflexivity) ltac:(vm_compute; reflexivity))
    as (m&H1&H2&H3&_).
  exists m. split; [exact H1|]. split; [rewrite H2; vm_compute; reflexivity|rewrite H3; vm_compute; reflexivity].
Defined.

(** 256 keys with one home slot: the probe length of the last wraps to 0, which
    marks its slot as empty, and the key is counted but cannot be found. *)
Definition colliding : list Z :=
  [530; 921; 1646; 2037; 2602; 2993; 3590; 3981; 4391; 4770; 5427; 5822; 6778; 7105; 7766; 8157; 8567; 8946; 9539; 9934;
   10511; 10890; 11547; 12006; 12344; 12679; 13332; 13715; 14687; 15066; 15404; 15787; 16456; 16855; 17572; 18229; 18528;
   18927; 19580; 19963; 20632; 21353; 21748; 22341; 22704; 23297; 23692; 24349; 25138; 25529; 26126; 26517; 26816; 27473;
   27868; 28198; 28589; 29250; 29641; 30302; 31258; 31713; 32374; 32765; 32904; 33561; 34020; 34677; 34976; 35633; 36028;
   36621; 37080; 37410; 37801; 38462; 38789; 39152; 39745; 40140; 40797; 41586; 41977; 42574; 42965; 43530; 43921; 44646;
   45037; 45319; 45698; 46355; 46750; 47706; 48427; 48822; 49495; 49874; 50212; 50595; 51567; 51946; 52603; 52934; 53272;
   53735; 54388; 54771; 55344; 55743; 56332; 56715; 57512; 58169; 58500; 59157; 59456; 59855; 60508; 60891; 61229; 61688;
   62281; 62676; 63397; 63632; 64353; 64748; 65405; 65585; 66464; 66573; 67516; 67609; 68488; 68725; 69604; 69697; 70640;
   70749; 71628; 71849; 71970; 72664; 72837; 73022; 73873; 73994; 74989; 75110; 76025; 76146; 77013; 77134; 78170; 79286;
   79403; 80258; 80391; 81310; 81427; 82410; 82543; 83398; 83579; 84434; 84567; 85667; 85796; 86719; 86832; 87691; 87820;
   88807; 88856; 89843; 89972; 90831; 90944; 91181; 91867; 91996; 92217; 93096; 93205; 94084; 94305; 95120; 95357; 96236;
   96329; 97272; 97445; 98260; 98481; 98602; 99469; 99590; 100505; 100626; 101621; 101742; 102593; 102778; 103645; 103766;
   104866; 104999; 105918; 106035; 106890; 107023; 108006; 108059; 109042; 109175; 110030; 110147; 111066; 111199; 112299;
   112428; 113287; 113464; 114323; 114452; 115439; 115552; 116475; 116604; 117463; 117576; 117813; 118692; 118785; 119728;
   119837; 120716; 120937; 121752; 121925; 122868; 122961; 123840; 124077; 124198; 124892; 125113; 125234; 126101; 126222;
   127201; 127258; 128253; 128374; 129225].

Example psl_wraps_around :
  (fun m => (FlatMap.size_ m, FlatMap.find 512 m (u64_bytes (default 0 (last colliding))))) <$>
    FlatMap.insert_all 512 (FlatMap.clear blank) ((fun x => (u64_bytes x, x)) <$> colliding) = Some (256, Some None).
Proof. vm_compute. reflexivity. Qed.
